(* ===== verification/_CoqProject ===== *)
-Q . S2P
Prelude.v
RustStr.v
RustStrFacts.v
PgWire.v
ErrorMapping.v
Config.v
Policy.v
Trino.v
World.v
RelyGuarantee.v
Response.v
Session.v
SessionFacts.v
Startup.v
TypeMap.v
RustFloat.v
Sql.v
SqlText.v
QueryInspection.v
Values.v
ValuesFacts.v
Calendar.v
TrinoStream.v
TrinoStreamFacts.v
Catalog.v
CatalogFacts.v
InfoSchema.v
Intercept.v
InterceptFacts.v
Rewrite.v
Like.v
RewriteMeaning.v
SqlEval.v
Pipeline.v
PipelineFacts.v
Extended.v
ExtendedFacts.v
EndToEnd.v
Confinement.v
Handler.v
Gateway.v
GatewayFacts.v
GatewayTheorems.v
Tls.v
Server.v
Drain.v
Conformance.v
ConformanceSql.v
