(* ===== verification/Prelude.v ===== *)
(** * A verification development of the PostgreSQL-Trino gateway

    The gateway accepts PostgreSQL wire-protocol connections and answers them
    from a Trino cluster. This library models its own logic, file by file, and
    proves the properties that make it correct and safe. Everything is
    executable; nothing is assumed as an axiom.

    ** The program

    [main] checks the configuration against the security policy, loads the TLS
    acceptor, binds the socket and runs the accept loop under a cap on
    connections. For each connection pgwire calls the startup handler, which
    authenticates (optionally forwarding the password to Trino), allocates a
    cancel key and stores the connection's state. Queries arrive by the simple
    or the extended protocol; both run the pipeline: split a batch, intercept
    what PostgreSQL clients ask of the server itself, answer catalog tables,
    otherwise rewrite the SQL for Trino, submit it and stream the rows back,
    each cell encoded as text or binary. A cancel request on another connection
    finds the running query through a process-wide registry. Trino's error
    messages are classified and sanitised before a client sees them.

    ** Files

    Foundations: Prelude (results, integers at their width, bytes, automation),
    RustStr and RustStrFacts ([str]: byte offsets, UTF-8, searching, trimming,
    case), RustFloat ([f64] on [spec_float]), PgWire (data of pgwire), Trino
    (JSON values and the client of trino-rust-client), World (the shared
    mutable state, the state-and-error monad [Io] and asynchronous code [Task]),
    RelyGuarantee (reasoning about a task among others), Response (responses and
    streams as data), Sql (syntax trees and visitors of sqlparser). Instances of
    the crates' classes that compute: SqlText (a parser and a printer of SQL),
    Calendar (dates, decimals and PostgreSQL's send formats).

    Components, each named after its source under src/src/:
    - ErrorMapping: error_mapping.rs
    - Config, Policy: config.rs, policy.rs
    - Session, SessionFacts: session.rs, cancel.rs, the key pair of startup.rs
    - Startup: startup.rs
    - TypeMap, Values, ValuesFacts: types.rs
    - TrinoStream, TrinoStreamFacts: trino_stream.rs
    - QueryInspection: query_inspection.rs
    - Catalog, CatalogFacts: catalog/
    - InfoSchema: info_schema.rs
    - Intercept, InterceptFacts: intercept.rs
    - Rewrite, Like, RewriteMeaning, SqlEval: rewrite/
    - Pipeline, PipelineFacts: query_pipeline.rs, query_simple.rs
    - Extended, ExtendedFacts: query_extended.rs, the portal cache of session.rs
    - Tls: tls.rs
    - Server, Drain: server.rs, main.rs
    - Handler: handler.rs, with the traits of pgwire as classes

    The components composed: EndToEnd follows a query from the client to its rows;
    Confinement says what a handler may touch, Gateway is the whole process,
    GatewayFacts its invariants and GatewayTheorems what it guarantees.
    Conformance and ConformanceSql are the repository's unit tests, which hold in
    the model; tests on SQL start from the text of their queries.

    Definitions keep the names of the source. A synchronous function works on the
    state it reads and writes; [Io] keeps the effects made before an error, as
    an early return does. An [async fn] is a [Task], a tree of atomic actions
    (a section under a lock, a request to Trino) with what it does next; [Gateway]
    interleaves the tasks of all connections and cancel requests action by
    action, in any order. Shared objects ([Arc<Mutex<...>>]) are locations in
    the world, so aliasing between a connection, its registry entry and its
    streams is explicit. A row stream is the captured variables of its
    generator plus how far it ran; its drop guard exists only once it has been
    polled.

    ** What is a parameter

    Code outside the repository is a type class: [TrinoApi] (the HTTP client and
    the server behind it), [PgWireApi] (negotiation, sending, finishing the
    handshake), [SqlParser] (parser and printer), [Chrono], [Decimals] and
    [Wire] (date and decimal crates, the row encoder), [TypeOids], [NetEnv]
    (address resolution), [HostEnv] (binding, signals), [TlsLib] (PEM files and
    rustls) and [UnicodeCase] (case tables beyond ASCII). Theorems hold for every instance;
    where one needs a documented behaviour it is a hypothesis with a name of its
    own ([build_refuses_plaintext_credentials], [text_fields_verbatim],
    [answers_within], [Corresponds] for the types and functions PostgreSQL and Trino
    document alike), and
    its witness gives an instance that has it.

    ** Theorems

    - Security posture: [validate_decides_table], [insecure_settings_warn],
      [serves_only_safe_configurations], [acceptor_needs_valid_pair],
      [no_cleartext_challenge_beyond_loopback],
      [credentials_never_forwarded_in_clear].
    - The whole process, over every interleaving of the actions of handler calls
      and cancel requests: [connections_own_their_state],
      [connections_are_isolated], [cancel_reaches_only_its_connection],
      [cancel_stops_the_running_query], and that every call ends,
      [every_call_completes].
    - From a query to its rows, by either protocol: [simple_query_end_to_end],
      [extended_query_end_to_end].
    - Running queries: [query_streams_all_rows] refines the submission, the
      polling loop and the stream to the chain of pages Trino serves;
      [early_failure_reports_and_clears], [row_encoding_is_cellwise],
      [batch_stops_at_first_error], [one_submission_per_statement].
    - Extended protocol: [describe_then_execute_runs_once],
      [rebound_portal_runs_fresh], [portal_cache_bounded].
    - Rewriting: [rewrite_keeps_meaning] (the text Trino receives means there what
      the client's text means in PostgreSQL), [ilike_rewrite_keeps_meaning],
      [rewrite_yields_trino_dialect], [rewrite_idempotent], and that the four
      passes are one, [passes_fuse]; routing: [ordinary_queries_reach_trino],
      [show_agrees_with_startup], [info_schema_splice].
    - Values and types: exactness and fail-closed binary encoding, agreement of
      the two formats, round trips of the temporal forms the gateway writes
      itself, the type map, consistency of the catalog.
    - Errors: [client_message_bounded_and_valid], [mask_hides_every_host],
      [stack_trace_is_cut].
    - Accept loop and shutdown: [connections_never_exceed_cap],
      [drain_returns_in_time], [drain_aborts_only_overdue].
    - The repository's tests: [repository_tests_pass].

    Theorems that pin down behaviour differing from what comments or documents
    say: [http_host_before_https_leaks], [pid_counter_reaches_zero],
    [text_integer_truncates_fraction], [ddl_leaves_query_id],
    [earlier_stream_hides_later_query], [describe_runs_trailing_statements],
    [ilike_any_is_dropped], [commit_work_is_forwarded],
    [namespace_join_hides_class], [ilike_letter_escape_changes_meaning],
    [ilike_backslash_changes_meaning], [accept_error_ends_service],
    [placeholder_reaches_trino], [unparsed_batch_is_swallowed],
    [mixed_trace_keeps_frames], [unlimited_cap_panics],
    [text_integer_is_rounded], [string_agg_lacks_order],
    [probe_inside_expression_is_misanswered], and the
    exception in [attribute_types_are_listed].

    ** Fuel

    Only polling Trino can run forever; its loop takes fuel, one unit per page,
    and [OutOfFuel] marks a run that had too little. [query_streams_all_rows] and
    [early_failure_reports_and_clears] prove that for every finite chain of
    pages one unit per page (and per row, to drain) gives the result. The loops
    over strings are given the length of their input, which is enough because
    every round consumes a byte ([mask_loop_fuel],
    [strip_java_prefixes_fixpoint], [nat_to_string_fuel]); the type map is given
    the number of parentheses ([trino_type_to_pg_unfold]). Among other
    connections, [every_call_completes] needs the bound to hold for every state
    Trino may be in, since others change it between two pages.

    ** Not modelled

    The parsing of the command line is clap's. Sockets, signals and the runtime's
    scheduling are the environment's: the accept loop takes what is ready as its
    input, the drain a schedule of when tasks can be joined. Of the log only the
    policy's warnings and the results of connection tasks are kept. That a panic
    in a handler poisons a lock is represented for the portal cache, the only
    place where the code reacts to it by failing. The one unit test that is not
    translated exercises the Trino client crate alone. *)

From Stdlib Require Export ZArith Lia Bool Ascii String.
From stdpp Require Export base tactics option list numbers strings gmap.

#[global] Set Default Goal Selector "!".

#[global] Arguments String.append : simpl nomatch.
#[global] Arguments String.prefix : simpl never.

(** ** Fallible code: Rust's [Result] *)

(** Rust's [Result<A, E>]; the error type comes first so that [result E] is a
    type constructor. *)
Inductive result (E A : Type) : Type :=
| Ok (a : A)
| Err (e : E).

Arguments Ok {E A} a.
Arguments Err {E A} e.

Declare Scope rust_scope.
Delimit Scope rust_scope with rust.

(** The [?] operator: the value of an [Ok], or an early return of the [Err]. *)
Definition rbind {E A B} (c : result E A) (k : A -> result E B) : result E B :=
  match c with
  | Ok a => k a
  | Err e => Err e
  end.

Notation "'let?' x ':=' c 'in' k" := (rbind c (fun x => k))
  (at level 10, x binder, c at level 100, k at level 200) : rust_scope.

(** [Option::ok_or_else] with the closure already applied (it has no effect). *)
Definition ok_or {E A} (o : option A) (e : E) : result E A :=
  match o with
  | Some a => Ok a
  | None => Err e
  end.

(** [Result::ok]. *)
Definition ok_opt {E A} (r : result E A) : option A :=
  match r with
  | Ok a => Some a
  | Err _ => None
  end.

(** [Option::or_else] with the closure already applied. *)
Definition or_else {A} (o alt : option A) : option A :=
  match o with
  | Some a => Some a
  | None => alt
  end.

Definition is_ok {E A} (r : result E A) : bool :=
  match r with
  | Ok _ => true
  | Err _ => false
  end.

Lemma rbind_assoc {E A B C} (r : result E A) (f : A -> result E B) (k : B -> result E C) :
  rbind r (fun a => rbind (f a) k) = rbind (rbind r f) k.
Proof. by destruct r. Qed.

(** ** Proof automation *)

Create HintDb gateway.
Create Rewrite HintDb gateway_str.

(** Case analysis on the first [if]/[match] of the goal or of a hypothesis. *)
Ltac break_match :=
  match goal with
  | |- context [match ?x with _ => _ end] => destruct x eqn:?
  | H : context [match ?x with _ => _ end] |- _ => destruct x eqn:?
  end.

(** Boolean conjunctions, disjunctions and negations as propositions. *)
Ltac bools :=
  repeat match goal with
  | H : (_ && _)%bool = true |- _ => apply andb_true_iff in H; destruct H
  | H : (_ || _)%bool = false |- _ => apply orb_false_iff in H; destruct H
  | H : negb _ = true |- _ => apply negb_true_iff in H
  | H : negb _ = false |- _ => apply negb_false_iff in H
  | H : (_ <=? _)%Z = true |- _ => apply Z.leb_le in H
  | H : (_ <=? _)%Z = false |- _ => apply Z.leb_gt in H
  | H : (_ <? _)%Z = true |- _ => apply Z.ltb_lt in H
  | H : (_ <? _)%Z = false |- _ => apply Z.ltb_ge in H
  | H : (_ =? _)%Z = true |- _ => apply Z.eqb_eq in H
  | H : (_ =? _)%Z = false |- _ => apply Z.eqb_neq in H
  | H : Nat.leb _ _ = true |- _ => apply Nat.leb_le in H
  | H : Nat.leb _ _ = false |- _ => apply Nat.leb_gt in H
  | H : Nat.ltb _ _ = true |- _ => apply Nat.ltb_lt in H
  | H : Nat.ltb _ _ = false |- _ => apply Nat.ltb_ge in H
  | H : Nat.eqb _ _ = true |- _ => apply Nat.eqb_eq in H
  | H : Nat.eqb _ _ = false |- _ => apply Nat.eqb_neq in H
  | H : String.eqb _ _ = true |- _ => apply String.eqb_eq in H
  | H : String.eqb _ _ = false |- _ => apply String.eqb_neq in H
  end.

(** Split every remaining match, then close with congruence. *)
Ltac crush := repeat (break_match; simplify_eq/=); try done; try congruence.

(** ** Machine integers

    A w-bit integer is a [Z]; these are the ranges and the wrap-around. *)

Definition i16_min : Z := -32768.
Definition i16_max : Z := 32767.
Definition i32_min : Z := -2147483648.
Definition i32_max : Z := 2147483647.
Definition i64_min : Z := -9223372036854775808.
Definition i64_max : Z := 9223372036854775807.
Definition u32_modulus : Z := 4294967296.
Definition u64_max : Z := 18446744073709551615.

Definition in_i16 (z : Z) : bool := (i16_min <=? z)%Z && (z <=? i16_max)%Z.
Definition in_i32 (z : Z) : bool := (i32_min <=? z)%Z && (z <=? i32_max)%Z.
Definition in_i64 (z : Z) : bool := (i64_min <=? z)%Z && (z <=? i64_max)%Z.
Definition in_u64 (z : Z) : bool := (0 <=? z)%Z && (z <=? u64_max)%Z.

Lemma between_iff lo hi z : (lo <=? z)%Z && (z <=? hi)%Z = true <-> (lo <= z <= hi)%Z.
Proof. by rewrite andb_true_iff, !Z.leb_le. Qed.

(** Two's-complement wrap to 32 bits, as [AtomicI32::fetch_add] wraps. *)
Definition wrap_i32 (z : Z) : Z := ((z + 2147483648) mod u32_modulus - 2147483648)%Z.

(** Wrap to an unsigned 32-bit value ([wrapping_add], [wrapping_mul] on [u32]). *)
Definition wrap_u32 (z : Z) : Z := (z mod u32_modulus)%Z.

Lemma wrap_u32_bounds z : (0 <= wrap_u32 z < u32_modulus)%Z.
Proof. unfold wrap_u32, u32_modulus. apply Z.mod_pos_bound. lia. Qed.

Lemma wrap_i32_range z : in_i32 (wrap_i32 z) = true.
Proof.
  unfold in_i32, wrap_i32, i32_min, i32_max, u32_modulus.
  pose proof (Z.mod_pos_bound (z + 2147483648) 4294967296 ltac:(lia)).
  apply andb_true_iff; split; apply Z.leb_le; lia.
Qed.

Lemma wrap_i32_id z : in_i32 z = true -> wrap_i32 z = z.
Proof.
  unfold in_i32, wrap_i32, i32_min, i32_max, u32_modulus. intros H; bools.
  rewrite Z.mod_small by lia. lia.
Qed.

#[export] Hint Resolve wrap_u32_bounds wrap_i32_range : gateway.

(** Big-endian two's-complement bytes, as [BufMut::put_i64]/[put_i32] write them. *)
Fixpoint be_bytes (n : nat) (z : Z) : list Z :=
  match n with
  | O => []
  | S n' => be_bytes n' (z / 256)%Z ++ [(z mod 256)%Z]
  end.

Definition be_unsigned (bs : list Z) : Z := fold_left (fun acc b => (acc * 256 + b)%Z) bs 0%Z.

(** The signed reading of a big-endian field, the client's side of the wire. *)
Definition be_signed (bs : list Z) : Z :=
  let u := be_unsigned bs in
  let m := (256 ^ Z.of_nat (length bs))%Z in
  if (u <? m / 2)%Z then u else (u - m)%Z.

Lemma length_be_bytes n z : length (be_bytes n z) = n.
Proof. revert z. induction n as [|n IH]; intros z; [done|]. simpl. rewrite length_app, IH. simpl. lia. Qed.

Lemma be_unsigned_snoc bs b : be_unsigned (bs ++ [b]) = (be_unsigned bs * 256 + b)%Z.
Proof. unfold be_unsigned. by rewrite fold_left_app. Qed.

Lemma be_unsigned_bytes n z : be_unsigned (be_bytes n z) = (z mod 256 ^ Z.of_nat n)%Z.
Proof.
  revert z. induction n as [|n IH]; intros z.
  - cbn. by rewrite Z.mod_1_r.
  - cbn [be_bytes]. rewrite be_unsigned_snoc, IH, Nat2Z.inj_succ, Z.pow_succ_r by lia.
    rewrite (Z.rem_mul_r z 256 (256 ^ Z.of_nat n)) by lia. lia.
Qed.

Lemma be_signed_bytes n z :
  (0 < n)%nat -> (- (256 ^ Z.of_nat n / 2) <= z < 256 ^ Z.of_nat n / 2)%Z ->
  be_signed (be_bytes n z) = z.
Proof.
  intros Hn Hz. unfold be_signed. rewrite length_be_bytes, be_unsigned_bytes.
  set (m := (256 ^ Z.of_nat n)%Z) in *.
  assert (Hm : (0 < m)%Z) by (apply Z.pow_pos_nonneg; lia).
  assert (He : (m = 2 * (m / 2))%Z).
  { unfold m. destruct n as [|n']; [lia|]. rewrite Nat2Z.inj_succ, Z.pow_succ_r by lia.
    replace (256 * 256 ^ Z.of_nat n')%Z with (128 * 256 ^ Z.of_nat n' * 2)%Z by lia.
    rewrite Z.div_mul by lia. lia. }
  destruct (Z.leb_spec 0 z).
  - rewrite Z.mod_small by lia. destruct (Z.ltb_spec z (m / 2)); lia.
  - assert (Hmod : (z mod m = z + m)%Z).
    { symmetry. apply (Z.mod_unique_pos z m (-1) (z + m)); lia. }
    rewrite Hmod. destruct (Z.ltb_spec (z + m) (m / 2)); lia.
Qed.
