(* ===== verification/RustStr.v ===== *)
(** * Rust strings

    A Rust [&str]/[String] is a UTF-8 byte sequence; here it is a Stdlib
    [string], one [ascii] per byte, so lengths and offsets are byte lengths and
    byte offsets as in Rust. This file models the part of [std::str] the
    gateway calls: slicing, searching, trimming, case mapping, char
    boundaries, and the integer parsers and printers.

    Character-wise operations go through [split_chars], which cuts a string
    before every byte that is not a UTF-8 continuation byte; on valid UTF-8
    these are exactly its [char]s. Case mapping of non-ASCII characters is the
    class [UnicodeCase] (the Unicode tables are data of the standard library
    this development does not reproduce); every theorem holds for any tables. *)

From S2P Require Import Prelude.

Local Open Scope string_scope.

Abbreviation slen := String.length.

(** ** Bytes *)

Definition byte_of (c : ascii) : N := N_of_ascii c.

Definition is_ascii (c : ascii) : bool := (byte_of c <? 128)%N.

(** A UTF-8 continuation byte, 0x80..0xBF. *)
Definition is_cont (c : ascii) : bool := (128 <=? byte_of c)%N && (byte_of c <? 192)%N.

Definition ascii_upper_byte (c : ascii) : ascii :=
  if (97 <=? byte_of c)%N && (byte_of c <=? 122)%N then ascii_of_N (byte_of c - 32) else c.

Definition ascii_lower_byte (c : ascii) : ascii :=
  if (65 <=? byte_of c)%N && (byte_of c <=? 90)%N then ascii_of_N (byte_of c + 32) else c.

(** [u8::is_ascii_digit] *)
Definition is_digit (c : ascii) : bool := (48 <=? byte_of c)%N && (byte_of c <=? 57)%N.

(** ** Slices: [&s[..n]], [&s[n..]] *)

Fixpoint stake (n : nat) (s : string) : string :=
  match n, s with
  | S n', String c s' => String c (stake n' s')
  | _, _ => ""
  end.

Fixpoint sdrop (n : nat) (s : string) : string :=
  match n, s with
  | S n', String _ s' => sdrop n' s'
  | S _, EmptyString => ""
  | O, _ => s
  end.

Definition starts_with (p s : string) : bool := String.prefix p s.

Definition ends_with (p s : string) : bool :=
  (slen p <=? slen s)%nat && String.eqb (sdrop (slen s - slen p) s) p.

(** ** Searching: [find], [rfind], [contains] *)

Fixpoint find (p s : string) : option nat :=
  if String.prefix p s then Some O
  else match s with
       | EmptyString => None
       | String _ s' => option_map S (find p s')
       end.

Definition contains (p s : string) : bool :=
  match find p s with
  | Some _ => true
  | None => false
  end.

(** [rfind] of a single-byte character. *)
Fixpoint rfind_byte (b : ascii) (s : string) : option nat :=
  match s with
  | EmptyString => None
  | String c s' =>
    match rfind_byte b s' with
    | Some i => Some (S i)
    | None => if Ascii.eqb c b then Some O else None
    end
  end.

(** [rsplit_once] on a single-byte character. *)
Definition rsplit_once (b : ascii) (s : string) : option (string * string) :=
  match rfind_byte b s with
  | Some i => Some (stake i s, sdrop (S i) s)
  | None => None
  end.

(** ** Characters *)

(** The first byte is a continuation byte. *)
Definition cont_head (s : string) : bool :=
  match s with
  | EmptyString => false
  | String c _ => is_cont c
  end.

Fixpoint split_chars (s : string) : list string :=
  match s with
  | EmptyString => []
  | String c s' =>
    match split_chars s' with
    | [] => [String c ""]
    | ch :: rest => if cont_head ch then String c ch :: rest else String c "" :: ch :: rest
    end
  end.

Fixpoint join (l : list string) : string :=
  match l with
  | [] => ""
  | ch :: l' => ch ++ join l'
  end.

(** The UTF-8 encodings of [char::is_whitespace] (Unicode [White_Space]):
    U+0009-000D, U+0020, U+0085, U+00A0, U+1680, U+2000-200A, U+2028, U+2029,
    U+202F, U+205F, U+3000. *)
Definition utf8_bytes (l : list N) : string :=
  string_of_list_ascii (map ascii_of_N l).

Definition whitespace_chars : list string :=
  map utf8_bytes
    ([[9]; [10]; [11]; [12]; [13]; [32]; [194; 133]; [194; 160]; [225; 154; 128];
      [226; 128; 128]; [226; 128; 129]; [226; 128; 130]; [226; 128; 131]; [226; 128; 132];
      [226; 128; 133]; [226; 128; 134]; [226; 128; 135]; [226; 128; 136]; [226; 128; 137];
      [226; 128; 138]; [226; 128; 168]; [226; 128; 169]; [226; 128; 175]; [226; 129; 159];
      [227; 128; 128]]%N).

Definition is_whitespace (ch : string) : bool := existsb (String.eqb ch) whitespace_chars.

Fixpoint drop_while {A} (f : A -> bool) (l : list A) : list A :=
  match l with
  | [] => []
  | x :: l' => if f x then drop_while f l' else l
  end.

Definition drop_while_end {A} (f : A -> bool) (l : list A) : list A :=
  rev (drop_while f (rev l)).

Definition trim_start (s : string) : string := join (drop_while is_whitespace (split_chars s)).
Definition trim_end (s : string) : string := join (drop_while_end is_whitespace (split_chars s)).
Definition trim (s : string) : string :=
  join (drop_while_end is_whitespace (drop_while is_whitespace (split_chars s))).

(** [trim_end_matches(c)] for a single-byte character. *)
Definition trim_end_matches (c : ascii) (s : string) : string :=
  join (drop_while_end (String.eqb (String c "")) (split_chars s)).

(** [str::find] with a [char] predicate: the byte offset of the first match. *)
Fixpoint find_char_from (f : string -> bool) (off : nat) (l : list string) : option nat :=
  match l with
  | [] => None
  | ch :: l' => if f ch then Some off else find_char_from f (off + slen ch) l'
  end.

Definition find_char (f : string -> bool) (s : string) : option nat :=
  find_char_from f 0 (split_chars s).

(** [str::is_char_boundary]. *)
Definition is_char_boundary (s : string) (i : nat) : bool :=
  match i with
  | O => true
  | _ => match sdrop i s with
         | EmptyString => (i =? slen s)%nat
         | String c _ => negb (is_cont c)
         end
  end.

(** ** Case mapping *)

Fixpoint count_byte (b : ascii) (s : string) : nat :=
  match s with
  | EmptyString => O
  | String c s' => if Ascii.eqb c b then S (count_byte b s') else count_byte b s'
  end.

Fixpoint smap (f : ascii -> ascii) (s : string) : string :=
  match s with
  | EmptyString => ""
  | String c s' => String (f c) (smap f s')
  end.

Definition to_ascii_uppercase (s : string) : string := smap ascii_upper_byte s.
Definition to_ascii_lowercase (s : string) : string := smap ascii_lower_byte s.

Definition eq_ignore_ascii_case (a b : string) : bool :=
  String.eqb (to_ascii_lowercase a) (to_ascii_lowercase b).

(** The Unicode case tables for non-ASCII characters. [lower_wide] sees the
    text before and after the character because [str::to_lowercase] maps a
    final capital sigma by context; [str::to_uppercase] maps each character on
    its own. Lower-casing a character produces no parenthesis. *)
Class UnicodeCase := {
  upper_wide : string -> string;
  lower_wide : string -> string -> string -> string;
  lower_wide_parens : forall before ch after,
    (count_byte "(" (lower_wide before ch after) <= count_byte "(" ch)%nat
}.

(** Tables that leave every non-ASCII character alone. *)
Definition ascii_only_case : UnicodeCase :=
  {| upper_wide ch := ch;
     lower_wide _ ch _ := ch;
     lower_wide_parens _ _ _ := Nat.le_refl _ |}.

Definition upper_char `{UnicodeCase} (ch : string) : string :=
  match ch with
  | String c EmptyString => if is_ascii c then String (ascii_upper_byte c) "" else upper_wide ch
  | _ => upper_wide ch
  end.

Definition lower_char `{UnicodeCase} (before ch after : string) : string :=
  match ch with
  | String c EmptyString =>
    if is_ascii c then String (ascii_lower_byte c) "" else lower_wide before ch after
  | _ => lower_wide before ch after
  end.

Definition to_uppercase `{UnicodeCase} (s : string) : string :=
  join (map upper_char (split_chars s)).

Fixpoint lower_chars `{UnicodeCase} (before : string) (l : list string) : string :=
  match l with
  | [] => ""
  | ch :: l' => lower_char before ch (join l') ++ lower_chars (before ++ ch) l'
  end.

Definition to_lowercase `{UnicodeCase} (s : string) : string := lower_chars "" (split_chars s).

(** ** Numbers as text *)

Definition digit_char (d : Z) : ascii := ascii_of_N (48 + Z.to_N d).

(** Decimal digits, most significant first. *)
Fixpoint digits_fuel (fuel : nat) (n : Z) (acc : string) : string :=
  match fuel with
  | O => acc
  | S f =>
    let acc' := String (digit_char (n mod 10)) acc in
    if (n <? 10)%Z then acc' else digits_fuel f (n / 10) acc'
  end.

(** [n.to_string()] of a non-negative integer; [log2 n + 1] steps are enough
    since each step divides by ten. *)
Definition nat_to_string (n : Z) : string := digits_fuel (S (Z.to_nat (Z.log2 n))) n "".

Definition z_to_string (z : Z) : string :=
  if (z <? 0)%Z then "-" ++ nat_to_string (- z) else nat_to_string z.

(** The zero-padded form [{n:0w}]. *)
Definition pad_zero (w : nat) (s : string) : string :=
  join (repeat "0" (w - slen s)) ++ s.

Fixpoint digits_value (acc : Z) (s : string) : option Z :=
  match s with
  | EmptyString => Some acc
  | String c s' =>
    if is_digit c then digits_value (acc * 10 + Z.of_N (byte_of c - 48)) s' else None
  end.

Definition parse_digits (s : string) : option Z :=
  match s with
  | EmptyString => None
  | _ => digits_value 0 s
  end.

(** [str::parse::<u64>]: an optional [+], then at least one digit, in range. *)
Definition parse_u64 (s : string) : option Z :=
  let body := match s with
              | String "+" s' => s'
              | _ => s
              end in
  match parse_digits body with
  | Some n => if in_u64 n then Some n else None
  | None => None
  end.

(** [str::parse::<i64>]: an optional sign, then at least one digit, in range. *)
Definition parse_i64 (s : string) : option Z :=
  let v := match s with
           | String "+" s' => parse_digits s'
           | String "-" s' => option_map Z.opp (parse_digits s')
           | _ => parse_digits s
           end in
  match v with
  | Some n => if in_i64 n then Some n else None
  | None => None
  end.
