(* ===== verification/RustStrFacts.v ===== *)
(** * Facts about Rust strings

    The lemma library the components share: slicing and searching, UTF-8
    validity and char boundaries, trimming, and the round trips of the integer
    printer and parsers. *)

From S2P Require Import Prelude RustStr.

Local Open Scope string_scope.

(** ** Concatenation and slices *)

Lemma sapp_nil_r s : s ++ "" = s.
Proof. induction s as [|c s IH]; simpl; congruence. Qed.

Lemma sapp_assoc a b c : (a ++ b) ++ c = a ++ (b ++ c).
Proof. induction a as [|x a IH]; simpl; congruence. Qed.

Lemma slen_app a b : slen (a ++ b) = (slen a + slen b)%nat.
Proof. induction a as [|x a IH]; simpl; congruence. Qed.

Lemma sapp_inj_l a b c : a ++ b = a ++ c -> b = c.
Proof. induction a as [|x a IH]; simpl; [done|]. intros [= H]. auto. Qed.

Lemma stake_sdrop n s : stake n s ++ sdrop n s = s.
Proof. revert s. induction n as [|n IH]; intros [|c s]; simpl; congruence || done. Qed.

Lemma stake_app a b : stake (slen a) (a ++ b) = a.
Proof. induction a as [|x a IH]; simpl; [by destruct b|congruence]. Qed.

Lemma sdrop_app a b : sdrop (slen a) (a ++ b) = b.
Proof. induction a as [|x a IH]; simpl; done. Qed.

Lemma sdrop_all s : sdrop (slen s) s = "".
Proof. by induction s. Qed.

Lemma sdrop_app_ge n a b : sdrop (slen a + n) (a ++ b) = sdrop n b.
Proof. induction a as [|x a IH]; simpl; done. Qed.

Lemma slen_stake n s : slen (stake n s) = Nat.min n (slen s).
Proof. revert s. induction n as [|n IH]; intros [|c s]; simpl; try done. by rewrite IH. Qed.

Lemma slen_sdrop n s : slen (sdrop n s) = (slen s - n)%nat.
Proof. revert s. induction n as [|n IH]; intros [|c s]; simpl; try done. Qed.

Lemma sdrop_sdrop n m s : sdrop n (sdrop m s) = sdrop (m + n) s.
Proof. revert s. induction m as [|m IH]; intros [|c s]; simpl; try done. by destruct n. Qed.

Lemma stake_all n s : (slen s <= n)%nat -> stake n s = s.
Proof.
  revert s. induction n as [|n IH]; intros [|c s] Hl; simpl in *; try done; try lia.
  by rewrite IH by lia.
Qed.

Lemma slen_smap f s : slen (smap f s) = slen s.
Proof. induction s as [|c s IH]; simpl; congruence. Qed.

Lemma smap_app f a b : smap f (a ++ b) = smap f a ++ smap f b.
Proof. induction a as [|x a IH]; simpl; congruence. Qed.

Lemma smap_stake f n s : smap f (stake n s) = stake n (smap f s).
Proof. revert s. induction n as [|n IH]; intros [|c s]; simpl; congruence || done. Qed.

Lemma smap_sdrop f n s : smap f (sdrop n s) = sdrop n (smap f s).
Proof. revert s. induction n as [|n IH]; intros [|c s]; simpl; done. Qed.

Lemma join_app l1 l2 : join (l1 ++ l2)%list = join l1 ++ join l2.
Proof. induction l1 as [|x l IH]; simpl; [done|]. by rewrite IH, sapp_assoc. Qed.

#[export] Hint Rewrite sapp_nil_r sapp_assoc slen_app slen_stake slen_sdrop slen_smap : gateway_str.

(** ** Searching *)

Lemma prefix_cons c p c' s :
  String.prefix (String c p) (String c' s) = if ascii_dec c c' then String.prefix p s else false.
Proof. reflexivity. Qed.

Lemma prefix_iff p s : String.prefix p s = true <-> exists r, s = p ++ r.
Proof.
  revert s. induction p as [|c p IH]; intros s; simpl.
  - split; [by eexists|by destruct s].
  - destruct s as [|c' s]; [split; [done|by intros [r H]]|]. rewrite prefix_cons.
    destruct (ascii_dec c c') as [->|Hne].
    + rewrite IH. split; intros [r H]; exists r; congruence.
    + split; [done|intros [r H]; congruence].
Qed.

Lemma prefix_app p r : String.prefix p (p ++ r) = true.
Proof. apply prefix_iff. by eexists. Qed.

Lemma find_Some p s i :
  find p s = Some i -> s = stake i s ++ p ++ sdrop (i + slen p) s.
Proof.
  revert i. induction s as [|c s IH]; intros i; simpl.
  - destruct (String.prefix p "") eqn:Hp; [|done]. intros [= <-].
    apply prefix_iff in Hp as [r Hr]. simpl. by rewrite Hr, sdrop_app.
  - destruct (String.prefix p (String c s)) eqn:Hp.
    + intros [= <-]. apply prefix_iff in Hp as [r Hr]. simpl. by rewrite Hr, sdrop_app.
    + destruct (find p s) as [j|] eqn:Hf; [|done]. intros [= <-]. simpl. f_equal. by apply IH.
Qed.

Lemma find_bound p s i : find p s = Some i -> (i + slen p <= slen s)%nat.
Proof.
  intros H. pose proof (find_Some _ _ _ H) as Hs. apply (f_equal slen) in Hs.
  revert i H Hs. induction s as [|c s IH]; intros i; simpl.
  - destruct (String.prefix p "") eqn:Hp; [|done]. intros [= <-] _.
    apply prefix_iff in Hp as [r Hr]. apply (f_equal slen) in Hr. rewrite slen_app in Hr. simpl in *. lia.
  - destruct (String.prefix p (String c s)) eqn:Hp.
    + intros [= <-] _. apply prefix_iff in Hp as [r Hr].
      apply (f_equal slen) in Hr. rewrite slen_app in Hr. simpl in Hr. lia.
    + destruct (find p s) as [j|] eqn:Hf; [|done]. intros [= <-] _.
      pose proof (find_Some _ _ _ Hf) as Hs. specialize (IH j eq_refl (f_equal slen Hs)). lia.
Qed.

(** The match [find] reports is the first one. *)
Lemma find_first p s i j :
  find p s = Some i -> (j < i)%nat -> String.prefix p (sdrop j s) = false.
Proof.
  revert i j. induction s as [|c s IH]; intros i j; simpl.
  - destruct (String.prefix p ""); [|done]. intros [= <-]. lia.
  - destruct (String.prefix p (String c s)) eqn:Hp; [intros [= <-]; lia|].
    destruct (find p s) as [k|] eqn:Hf; [|done]. intros [= <-] Hj.
    destruct j as [|j]; simpl; [done|]. eapply IH; [done|lia].
Qed.

Lemma find_None p s j : find p s = None -> String.prefix p (sdrop j s) = false.
Proof.
  revert j. induction s as [|c s IH]; intros j; simpl.
  - destruct (String.prefix p "") eqn:Hp; [done|]. by destruct j.
  - destruct (String.prefix p (String c s)) eqn:Hp; [done|].
    destruct (find p s) as [k|] eqn:Hf; [done|]. intros _. destruct j; simpl; auto.
Qed.

Lemma find_app_l p a b : exists i, find p (a ++ p ++ b) = Some i /\ (i <= slen a)%nat.
Proof.
  induction a as [|c a (i & Hi & Hle)]; simpl.
  - exists 0%nat. split; [|lia]. destruct (p ++ b) as [|x y] eqn:E; simpl; rewrite <- ?E, ?prefix_app; [|done].
    assert (p = "") as -> by (by destruct p). done.
  - destruct (String.prefix p (String c (a ++ p ++ b))) eqn:Hp.
    + exists 0%nat. split; [done|lia].
    + exists (S i). rewrite Hi. simpl. split; [done|lia].
Qed.

Lemma contains_iff p s : contains p s = true <-> exists a b, s = a ++ p ++ b.
Proof.
  unfold contains. split.
  - destruct (find p s) as [i|] eqn:Hf; [|done]. intros _. eexists _, _. by apply find_Some.
  - intros (a & b & ->). destruct (find_app_l p a b) as (i & -> & _). done.
Qed.

Lemma contains_false_prefix p s j :
  contains p s = false -> String.prefix p (sdrop j s) = false.
Proof. unfold contains. destruct (find p s) eqn:Hf; [done|]. intros _. by apply find_None. Qed.

Lemma contains_app_false_l p a b : contains p (a ++ b) = false -> contains p a = false.
Proof.
  intros H. apply not_true_is_false. intros (x & y & ->)%contains_iff.
  assert (contains p ((x ++ p ++ y) ++ b) = true); [|congruence].
  apply contains_iff. exists x, (y ++ b). by rewrite !sapp_assoc.
Qed.

Lemma contains_app_false_r p a b : contains p (a ++ b) = false -> contains p b = false.
Proof.
  intros H. apply not_true_is_false. intros (x & y & ->)%contains_iff.
  assert (contains p (a ++ (x ++ p ++ y)) = true); [|congruence].
  apply contains_iff. exists (a ++ x), y. by rewrite !sapp_assoc.
Qed.

(** ** Characters *)

Lemma join_split s : join (split_chars s) = s.
Proof.
  induction s as [|c s IH]; simpl; [done|].
  destruct (split_chars s) as [|ch rest]; simpl in *; [by rewrite <- IH|].
  destruct (cont_head ch); simpl; by rewrite IH.
Qed.

Lemma split_chars_cons s ch rest :
  split_chars s = ch :: rest -> cont_head ch = cont_head s.
Proof.
  destruct s as [|c s]; simpl; [done|].
  destruct (split_chars s) as [|ch' rest']; [by intros [= <- <-]|].
  destruct (cont_head ch'); by intros [= <- <-].
Qed.

(** Cutting before a byte that starts a character cuts the characters. *)
Lemma split_chars_app a b :
  cont_head b = false -> split_chars (a ++ b) = (split_chars a ++ split_chars b)%list.
Proof.
  intros Hb. induction a as [|c a IH]; simpl; [done|]. rewrite IH.
  destruct (split_chars a) as [|ch rest] eqn:Ha; simpl.
  - destruct (split_chars b) as [|ch' rest'] eqn:Eb; [done|].
    rewrite (split_chars_cons _ _ _ Eb), Hb. done.
  - by destruct (cont_head ch).
Qed.

(** Well-formed UTF-8 encodings of one character (Unicode, table 3-7). *)
Definition utf8_char (ch : string) : bool :=
  match map byte_of (list_ascii_of_string ch) with
  | [a] => (a <? 128)%N
  | [a; b] => ((194 <=? a) && (a <=? 223) && (128 <=? b) && (b <=? 191))%N
  | [a; b; c] =>
    ((224 <=? a) && (a <=? 239)
     && ((if a =? 224 then 160 else 128) <=? b)
     && (b <=? (if a =? 237 then 159 else 191))
     && (128 <=? c) && (c <=? 191))%N
  | [a; b; c; d] =>
    ((240 <=? a) && (a <=? 244)
     && ((if a =? 240 then 144 else 128) <=? b)
     && (b <=? (if a =? 244 then 143 else 191))
     && (128 <=? c) && (c <=? 191) && (128 <=? d) && (d <=? 191))%N
  | _ => false
  end.

(** The invariant of every Rust [str]. *)
Definition valid_utf8 (s : string) : bool := forallb utf8_char (split_chars s).

Lemma utf8_char_head ch : utf8_char ch = true -> cont_head ch = false.
Proof.
  unfold utf8_char, cont_head, is_cont.
  destruct ch as [|a [|b [|c [|d [|e r]]]]]; cbn [list_ascii_of_string map]; try done.
  all: intros H; repeat (apply andb_true_iff in H; destruct H as [H ?]).
  all: destruct (128 <=? byte_of a)%N eqn:E1; [|done]; destruct (byte_of a <? 192)%N eqn:E2; [|done].
  all: repeat match goal with
       | K : (_ <=? _)%N = true |- _ => apply N.leb_le in K
       | K : (_ <? _)%N = true |- _ => apply N.ltb_lt in K
       end; lia.
Qed.

Lemma valid_cont_head s : valid_utf8 s = true -> cont_head s = false.
Proof.
  unfold valid_utf8. destruct (split_chars s) as [|ch rest] eqn:E.
  - destruct s as [|c s]; [done|]. simpl in E. destruct (split_chars s); [done|].
    by destruct (cont_head s0).
  - simpl. intros [H _]%andb_true_iff. rewrite <- (split_chars_cons _ _ _ E).
    by apply utf8_char_head.
Qed.

Lemma valid_app a b : valid_utf8 a = true -> valid_utf8 b = true -> valid_utf8 (a ++ b) = true.
Proof.
  intros Ha Hb. unfold valid_utf8. rewrite split_chars_app by by apply valid_cont_head.
  rewrite forallb_app. by apply andb_true_iff.
Qed.

Lemma valid_app_inv a b :
  cont_head b = false -> valid_utf8 (a ++ b) = true -> valid_utf8 a = true /\ valid_utf8 b = true.
Proof.
  intros Hb. unfold valid_utf8. rewrite split_chars_app, forallb_app by done.
  by intros [? ?]%andb_true_iff.
Qed.

Lemma is_cont_intro x : (128 <= byte_of x <= 191)%N -> is_cont x = true.
Proof.
  intros [H1 H2]. unfold is_cont. apply andb_true_iff.
  split; [by apply N.leb_le|apply N.ltb_lt; lia].
Qed.

(** A well-formed character is one character. *)
Lemma split_chars_char ch : utf8_char ch = true -> split_chars ch = [ch].
Proof.
  unfold utf8_char. intros Hc.
  destruct ch as [|a [|b [|c [|d [|e r]]]]]; cbn [list_ascii_of_string map] in Hc; try done.
  all: repeat (apply andb_true_iff in Hc as [Hc ?]).
  all: repeat match goal with K : (_ <=? _)%N = true |- _ => apply N.leb_le in K end.
  - simpl. by rewrite is_cont_intro by lia.
  - simpl. rewrite (is_cont_intro c) by lia. simpl.
    rewrite (is_cont_intro b); [done|]. destruct (_ =? 224)%N, (_ =? 237)%N; lia.
  - simpl. rewrite (is_cont_intro d) by lia. simpl. rewrite (is_cont_intro c) by lia. simpl.
    rewrite (is_cont_intro b); [done|]. destruct (_ =? 240)%N, (_ =? 244)%N; lia.
Qed.

Lemma valid_join l : forallb utf8_char l = true -> valid_utf8 (join l) = true.
Proof.
  induction l as [|ch l IH]; simpl; [done|]. intros [Hc Hl]%andb_true_iff.
  apply valid_app; [|by apply IH].
  unfold valid_utf8. rewrite split_chars_char by done. simpl. by rewrite Hc.
Qed.

(** A slice that ends on a char boundary is valid UTF-8 (and so [truncate] does
    not panic there). *)
Lemma valid_stake s i :
  valid_utf8 s = true -> is_char_boundary s i = true -> valid_utf8 (stake i s) = true.
Proof.
  intros Hv Hb. rewrite <- (stake_sdrop i s) in Hv. apply valid_app_inv in Hv; [tauto|].
  destruct i as [|i]; [simpl in Hv; by apply valid_cont_head|].
  unfold is_char_boundary in Hb. unfold cont_head.
  destruct (sdrop (S i) s); [done|]. by apply negb_true_iff in Hb.
Qed.

Lemma boundary_cont_head s i :
  valid_utf8 s = true -> is_char_boundary s i = true -> cont_head (sdrop i s) = false.
Proof.
  intros Hv Hb. destruct i as [|i]; [by apply valid_cont_head|].
  unfold is_char_boundary in Hb. destruct (sdrop (S i) s); [done|]. by apply negb_true_iff.
Qed.

(** ** Trimming *)

Lemma forallb_drop_while {A} (f g : A -> bool) l :
  forallb g l = true -> forallb g (drop_while f l) = true.
Proof.
  induction l as [|x l IH]; simpl; [done|]. intros [H1 H2]%andb_true_iff.
  destruct (f x); [auto|]. simpl. by rewrite H1, H2.
Qed.

Lemma forallb_rev {A} (g : A -> bool) l : forallb g (rev l) = forallb g l.
Proof.
  induction l as [|x l IH]; simpl; [done|]. rewrite forallb_app, IH. simpl.
  rewrite andb_true_r. apply andb_comm.
Qed.

Lemma forallb_drop_while_end {A} (f g : A -> bool) l :
  forallb g l = true -> forallb g (drop_while_end f l) = true.
Proof.
  unfold drop_while_end. intros H. rewrite forallb_rev. apply forallb_drop_while. by rewrite forallb_rev.
Qed.

Lemma drop_while_suffix {A} (f : A -> bool) l : exists p, l = (p ++ drop_while f l)%list.
Proof.
  induction l as [|x l [p IH]]; simpl; [by exists []|].
  destruct (f x); [exists (x :: p); by rewrite IH at 1|by exists []].
Qed.

Lemma drop_while_end_prefix {A} (f : A -> bool) l : exists q, l = (drop_while_end f l ++ q)%list.
Proof.
  destruct (drop_while_suffix f (rev l)) as [p Hp]. exists (rev p).
  unfold drop_while_end. rewrite <- rev_app_distr, <- Hp. symmetry. apply rev_involutive.
Qed.

(** Trimming cuts whole characters off the two ends. *)
Lemma trim_parts s : exists p q, s = p ++ trim s ++ q.
Proof.
  unfold trim. destruct (drop_while_suffix is_whitespace (split_chars s)) as [p Hp].
  destruct (drop_while_end_prefix is_whitespace (drop_while is_whitespace (split_chars s))) as [q Hq].
  exists (join p), (join q). rewrite <- !join_app, <- Hq, <- Hp. symmetry. apply join_split.
Qed.

Lemma trim_start_suffix s : exists p, s = p ++ trim_start s.
Proof.
  unfold trim_start. destruct (drop_while_suffix is_whitespace (split_chars s)) as [p Hp].
  exists (join p). rewrite <- join_app, <- Hp. symmetry. apply join_split.
Qed.

Lemma slen_trim s : (slen (trim s) <= slen s)%nat.
Proof. destruct (trim_parts s) as (p & q & H). apply (f_equal slen) in H. rewrite !slen_app in H. lia. Qed.

Lemma slen_trim_start s : (slen (trim_start s) <= slen s)%nat.
Proof. destruct (trim_start_suffix s) as (p & H). apply (f_equal slen) in H. rewrite !slen_app in H. lia. Qed.

Lemma valid_trim s : valid_utf8 s = true -> valid_utf8 (trim s) = true.
Proof. intros H. apply valid_join, forallb_drop_while_end, forallb_drop_while, H. Qed.

Lemma valid_trim_start s : valid_utf8 s = true -> valid_utf8 (trim_start s) = true.
Proof. intros H. apply valid_join, forallb_drop_while, H. Qed.

#[export] Hint Resolve valid_app valid_trim valid_trim_start : gateway.

(** ** Numbers as text *)

Lemma digit_char_ok d :
  (0 <= d < 10)%Z ->
  is_digit (digit_char d) = true /\ Z.of_N (byte_of (digit_char d) - 48) = d.
Proof.
  intros H. assert (byte_of (digit_char d) = 48 + Z.to_N d)%N as E.
  { unfold byte_of, digit_char. apply N_ascii_embedding. lia. }
  unfold is_digit. rewrite E. split; [|lia].
  apply andb_true_iff; split; apply N.leb_le; lia.
Qed.

Lemma digits_value_fuel fuel n acc tail :
  (0 <= n)%Z -> (n < 10 ^ Z.of_nat fuel)%Z ->
  exists k, (0 <= k)%Z /\ digits_value acc (digits_fuel fuel n tail) = digits_value (acc * 10 ^ k + n) tail.
Proof.
  revert n acc tail. induction fuel as [|f IH]; intros n acc tail Hn Hlt.
  - exists 0%Z. simpl in *. split; [lia|]. f_equal. lia.
  - cbn [digits_fuel].
    destruct (digit_char_ok (n mod 10)) as [Hd Hv]; [apply Z.mod_pos_bound; lia|].
    destruct (Z.ltb_spec n 10).
    + exists 1%Z. split; [lia|]. cbn [digits_value]. rewrite Hd, Hv. f_equal.
      rewrite Z.mod_small by lia. lia.
    + destruct (IH (n / 10)%Z acc (String (digit_char (n mod 10)) tail)) as (k & Hk & E).
      * apply Z.div_pos; lia.
      * rewrite Nat2Z.inj_succ, Z.pow_succ_r in Hlt by lia. apply Z.div_lt_upper_bound; lia.
      * exists (k + 1)%Z. split; [lia|]. rewrite E. cbn [digits_value]. rewrite Hd, Hv. f_equal.
        rewrite Z.pow_add_r by lia. pose proof (Z.div_mod n 10). lia.
Qed.

Lemma nat_to_string_fuel n : (0 <= n)%Z -> (n < 10 ^ Z.of_nat (S (Z.to_nat (Z.log2 n))))%Z.
Proof.
  intros Hn. destruct (Z.eq_dec n 0%Z) as [->|]; [done|].
  pose proof (Z.log2_spec n ltac:(lia)) as [_ Hu].
  pose proof (Z.log2_nonneg n). rewrite Nat2Z.inj_succ, Z2Nat.id by lia.
  eapply Z.lt_le_trans; [done|]. apply Z.pow_le_mono_l. lia.
Qed.

Lemma digits_fuel_nonempty f n t : digits_fuel (S f) n t <> "".
Proof.
  revert n t. induction f as [|f IH]; intros n t; cbn [digits_fuel].
  - by destruct (n <? 10)%Z.
  - destruct (n <? 10)%Z; [done|]. apply IH.
Qed.

Lemma parse_digits_print n : (0 <= n)%Z -> parse_digits (nat_to_string n) = Some n.
Proof.
  intros Hn. unfold nat_to_string.
  destruct (digits_value_fuel _ n 0%Z "" Hn (nat_to_string_fuel n Hn)) as (k & Hk & E).
  unfold parse_digits.
  destruct (digits_fuel _ n "") eqn:F; [by apply digits_fuel_nonempty in F|].
  rewrite E. done.
Qed.

(** No sign in front of the digits. *)
Lemma digits_fuel_head f n t c r :
  (0 <= n)%Z -> digits_fuel (S f) n t = String c r -> is_digit c = true.
Proof.
  revert n t c r. induction f as [|f IH]; intros n t c r Hn; cbn [digits_fuel].
  - destruct (digit_char_ok (n mod 10)) as [Hd _]; [apply Z.mod_pos_bound; lia|].
    by destruct (n <? 10)%Z; intros [= <- <-].
  - destruct (digit_char_ok (n mod 10)) as [Hd _]; [apply Z.mod_pos_bound; lia|].
    destruct (n <? 10)%Z; [by intros [= <- <-]|]. apply IH, Z.div_pos; lia.
Qed.

Lemma nat_to_string_head n :
  (0 <= n)%Z -> exists c r, nat_to_string n = String c r /\ is_digit c = true.
Proof.
  intros Hn. destruct (nat_to_string n) as [|c r] eqn:E; [by apply digits_fuel_nonempty in E|].
  exists c, r. split; [done|]. by eapply digits_fuel_head.
Qed.

(** [i64] text round trip: what the gateway prints, [str::parse] reads back. *)
Lemma parse_i64_print z : in_i64 z = true -> parse_i64 (z_to_string z) = Some z.
Proof.
  intros Hr. unfold z_to_string. destruct (Z.ltb_spec z 0).
  - simpl. unfold parse_i64. rewrite parse_digits_print by lia. simpl.
    rewrite Z.opp_involutive. by rewrite Hr.
  - unfold parse_i64. destruct (nat_to_string_head z) as (c & r & E & Hd); [done|].
    rewrite <- (parse_digits_print z) by done. rewrite E.
    assert (c <> "+"%char /\ c <> "-"%char) as [H1 H2] by (split; intros ->; done).
    replace (match String c r with
             | String "+" s' => parse_digits s'
             | String "-" s' => option_map Z.opp (parse_digits s')
             | _ => parse_digits (String c r)
             end) with (parse_digits (String c r)); [|destruct c as [[] [] [] [] [] [] [] []]; done].
    rewrite <- E, parse_digits_print by done. by rewrite Hr.
Qed.

(** ** ASCII text *)

Fixpoint ascii_only (s : string) : bool :=
  match s with
  | EmptyString => true
  | String c s' => is_ascii c && ascii_only s'
  end.

Lemma is_ascii_not_cont c : is_ascii c = true -> is_cont c = false.
Proof.
  unfold is_ascii, is_cont. intros H. apply N.ltb_lt in H.
  apply andb_false_iff. left. apply N.leb_gt. lia.
Qed.

Lemma utf8_char_ascii c : is_ascii c = true -> utf8_char (String c "") = true.
Proof. intros H. unfold utf8_char. simpl. exact H. Qed.

(** The byte after an ASCII byte starts a character. *)
Lemma valid_after_ascii c s :
  is_ascii c = true -> valid_utf8 (String c s) = true -> cont_head s = false.
Proof.
  intros Hc. unfold valid_utf8. simpl. destruct (split_chars s) as [|ch rest] eqn:E.
  - destruct s as [|x s]; [done|]. simpl in E. destruct (split_chars s) as [|y ?]; [done|].
    by destruct (cont_head y).
  - rewrite <- (split_chars_cons _ _ _ E). destruct (cont_head ch) eqn:Hh; [|done].
    simpl. intros [H _]%andb_true_iff. exfalso.
    unfold utf8_char in H. unfold is_ascii in Hc. apply N.ltb_lt in Hc.
    destruct ch as [|b [|d [|e [|f r]]]]; cbn [list_ascii_of_string map] in H; try done.
    all: repeat (apply andb_true_iff in H as [H ?]); apply N.leb_le in H; lia.
Qed.

Lemma valid_ascii_tail p s :
  ascii_only p = true -> valid_utf8 (p ++ s) = true -> valid_utf8 s = true.
Proof.
  revert s. induction p as [|c p IH]; intros s; simpl; [done|].
  intros [Hc Hp]%andb_true_iff Hv. apply IH; [done|].
  pose proof (valid_after_ascii _ _ Hc Hv) as Hh.
  change (String c (p ++ s)) with (String c "" ++ (p ++ s)) in Hv.
  apply valid_app_inv in Hv; tauto.
Qed.

(** Cutting around an ASCII pattern cuts between characters. *)
Lemma valid_around_ascii a c p b :
  is_ascii c = true -> ascii_only p = true ->
  valid_utf8 (a ++ String c p ++ b) = true -> valid_utf8 a = true /\ valid_utf8 b = true.
Proof.
  intros Hc Hp Hv.
  destruct (valid_app_inv a (String c p ++ b)) as [Ha Hb].
  - simpl. by apply is_ascii_not_cont.
  - done.
  - split; [done|]. apply (valid_ascii_tail (String c p)); [|done]. simpl. by rewrite Hc, Hp.
Qed.

(** The three parts of a string around the match [find] reports. *)
Lemma valid_find s i c p :
  ascii_only (String c p) = true -> valid_utf8 s = true -> find (String c p) s = Some i ->
  valid_utf8 (stake i s) = true /\ valid_utf8 (sdrop (i + slen (String c p)) s) = true.
Proof.
  intros Hp Hv Hf. rewrite (find_Some _ _ _ Hf) in Hv. simpl in Hp.
  apply andb_true_iff in Hp as [? ?]. by eapply valid_around_ascii.
Qed.

Lemma find_char_from_split f off l i :
  find_char_from f off l = Some i ->
  exists pre ch post, l = (pre ++ ch :: post)%list /\ i = (off + slen (join pre))%nat /\ f ch = true.
Proof.
  revert off. induction l as [|ch l IH]; intros off; simpl; [done|].
  destruct (f ch) eqn:Hf.
  - intros [= <-]. exists [], ch, l. simpl. auto with lia.
  - intros H. apply IH in H as (pre & ch' & post & -> & -> & ?).
    exists (ch :: pre), ch', post. simpl. rewrite slen_app. auto with lia.
Qed.

(** [find] with a predicate stops in front of a character. *)
Lemma find_char_split f s i :
  find_char f s = Some i ->
  exists a ch b, s = a ++ ch ++ b /\ i = slen a /\ f ch = true /\ sdrop i s = ch ++ b /\
                 exists pre post, split_chars s = (pre ++ ch :: post)%list /\ b = join post.
Proof.
  intros H. apply find_char_from_split in H as (pre & ch & post & E & -> & Hf).
  assert (Es : s = join pre ++ ch ++ join post).
  { rewrite <- (join_split s) at 1. by rewrite E, join_app. }
  exists (join pre), ch, (join post). repeat split; try done.
  - rewrite Es. apply sdrop_app.
  - by exists pre, post.
Qed.

Lemma valid_find_char f s i :
  valid_utf8 s = true -> find_char f s = Some i -> valid_utf8 (sdrop i s) = true.
Proof.
  intros Hv H. apply find_char_split in H as (a & ch & b & _ & _ & _ & -> & pre & post & E & ->).
  change (ch ++ join post) with (join (ch :: post)). apply valid_join.
  unfold valid_utf8 in Hv. rewrite E, forallb_app in Hv. by apply andb_true_iff in Hv as [_ Hv].
Qed.

Lemma find_char_bound f s i : find_char f s = Some i -> (i <= slen s)%nat.
Proof.
  intros H. apply find_char_split in H as (a & ch & b & -> & -> & _). rewrite slen_app. lia.
Qed.

(** ** Occurrences *)

(** Pattern [p] starts at byte [j] of [s]. *)
Definition occurs (p : string) (j : nat) (s : string) : bool := String.prefix p (sdrop j s).

Lemma sdrop_app_le j a b : (j <= slen a)%nat -> sdrop j (a ++ b) = sdrop j a ++ b.
Proof.
  revert j. induction a as [|c a IH]; intros [|j] H; simpl in *; try done; try lia.
  apply IH. lia.
Qed.

Lemma prefix_app_le p a b :
  (slen p <= slen a)%nat -> String.prefix p (a ++ b) = String.prefix p a.
Proof.
  revert a. induction p as [|c p IH]; intros [|c' a] H; simpl in *; try done; try lia.
  { by destruct b. }
  change (String c' (a ++ b)) with (String c' (a ++ b)). rewrite !prefix_cons.
  destruct (ascii_dec c c'); [|done]. apply IH. lia.
Qed.

Lemma occurs_app_le p j a b :
  (j + slen p <= slen a)%nat -> occurs p j (a ++ b) = occurs p j a.
Proof.
  intros H. unfold occurs. rewrite sdrop_app_le by lia. apply prefix_app_le. rewrite slen_sdrop. lia.
Qed.

Lemma occurs_app_ge p k a b : occurs p (slen a + k) (a ++ b) = occurs p k b.
Proof. unfold occurs. by rewrite sdrop_app_ge. Qed.

Lemma occurs_bound p j s : p <> "" -> occurs p j s = true -> (j < slen s)%nat.
Proof.
  intros Hp [r Hr]%prefix_iff. apply (f_equal slen) in Hr. rewrite slen_sdrop, slen_app in Hr.
  destruct p; [done|]. simpl in Hr. lia.
Qed.

Lemma find_occurs p s i : find p s = Some i -> occurs p i s = true.
Proof.
  intros H. apply prefix_iff. exists (sdrop (i + slen p) s).
  pose proof (find_bound _ _ _ H) as Hb. pose proof (find_Some _ _ _ H) as E.
  rewrite E at 1. replace i with (slen (stake i s)) at 1; [by rewrite sdrop_app|].
  rewrite slen_stake. lia.
Qed.

(** ** Counting bytes *)

Lemma count_byte_app b s t : count_byte b (s ++ t) = (count_byte b s + count_byte b t)%nat.
Proof. induction s as [|c s IH]; simpl; [done|]. destruct (Ascii.eqb c b); lia. Qed.

Lemma count_byte_stake b n s : (count_byte b (stake n s) <= count_byte b s)%nat.
Proof. rewrite <- (stake_sdrop n s) at 2. rewrite count_byte_app. lia. Qed.

Lemma count_byte_trim b s : (count_byte b (trim s) <= count_byte b s)%nat.
Proof. destruct (trim_parts s) as (p & q & E). rewrite E at 2. rewrite !count_byte_app. lia. Qed.

Lemma contains_count b s : contains (String b "") s = false <-> count_byte b s = 0%nat.
Proof.
  induction s as [|c s IH]; [done|]. unfold contains in *. cbn [find count_byte].
  rewrite prefix_cons. assert (Hp : forall t, String.prefix "" t = true) by (by intros []).
  destruct (ascii_dec b c) as [<-|Hne].
  - rewrite Hp, Ascii.eqb_refl. done.
  - destruct (Ascii.eqb_spec c b); [congruence|]. destruct (find (String b "") s); simpl; [|done].
    split; [done|]. intros E. apply IH in E. done.
Qed.

(** ** Case mapping *)

Lemma split_chars_ascii s t :
  ascii_only s = true -> cont_head t = false ->
  split_chars (s ++ t) = (map (fun c => String c "") (list_ascii_of_string s) ++ split_chars t)%list.
Proof.
  intros Hs Ht. rewrite split_chars_app by done. f_equal. clear Ht.
  induction s as [|c s IH]; [done|]. simpl in *. apply andb_true_iff in Hs as [Hc Hs].
  rewrite IH by done. destruct s as [|d s]; [done|]. simpl in *.
  apply andb_true_iff in Hs as [Hd _]. by rewrite is_ascii_not_cont.
Qed.

Lemma lower_chars_count `{UnicodeCase} b l :
  (count_byte "(" (lower_chars b l) <= count_byte "(" (join l))%nat.
Proof.
  revert b. induction l as [|ch l IH]; intros b; simpl; [done|].
  rewrite !count_byte_app. specialize (IH (b ++ ch)).
  assert (count_byte "(" (lower_char b ch (join l)) <= count_byte "(" ch)%nat; [|lia].
  unfold lower_char. destruct ch as [|c [|d r]]; try apply lower_wide_parens.
  destruct (is_ascii c) eqn:Ec; [|apply lower_wide_parens]. simpl.
  destruct c as [[] [] [] [] [] [] [] []]; vm_compute; lia.
Qed.

Lemma to_lowercase_count `{UnicodeCase} s :
  (count_byte "(" (to_lowercase s) <= count_byte "(" s)%nat.
Proof. unfold to_lowercase. rewrite <- (join_split s) at 2. apply lower_chars_count. Qed.

(** ASCII characters are lowered one by one, whatever surrounds them. *)
Lemma lower_chars_ascii `{UnicodeCase} b s l :
  ascii_only s = true ->
  lower_chars b (map (fun c => String c "") (list_ascii_of_string s) ++ l)%list
  = to_ascii_lowercase s ++ lower_chars (b ++ s) l.
Proof.
  revert b. induction s as [|c s IH]; intros b Hs; simpl in *; [by rewrite sapp_nil_r|].
  apply andb_true_iff in Hs as [Hc Hs]. rewrite Hc, IH by done. simpl. rewrite sapp_assoc. done.
Qed.

Lemma lower_chars_app `{UnicodeCase} b l1 l2 :
  exists q, lower_chars b (l1 ++ l2)%list = q ++ lower_chars (b ++ join l1) l2.
Proof.
  revert b. induction l1 as [|ch l1 IH]; intros b; simpl; [exists ""; by rewrite sapp_nil_r|].
  destruct (IH (b ++ ch)) as [q E]. eexists. rewrite E, sapp_assoc, <- sapp_assoc. done.
Qed.

Lemma to_lowercase_ascii `{UnicodeCase} s :
  ascii_only s = true -> to_lowercase s = to_ascii_lowercase s.
Proof.
  intros Hs. unfold to_lowercase. rewrite <- (sapp_nil_r s) at 1.
  rewrite split_chars_ascii by done. rewrite lower_chars_ascii by done. apply sapp_nil_r.
Qed.

Lemma ascii_only_app s t : ascii_only (s ++ t) = ascii_only s && ascii_only t.
Proof. induction s as [|c s IH]; simpl; [done|]. by rewrite IH, andb_assoc. Qed.

Lemma ascii_lower_idem s : to_ascii_lowercase (to_ascii_lowercase s) = to_ascii_lowercase s.
Proof.
  unfold to_ascii_lowercase. induction s as [|c s IH]; simpl; [done|]. rewrite IH. f_equal.
  by destruct c as [[] [] [] [] [] [] [] []].
Qed.

Lemma ascii_only_lower s : ascii_only (to_ascii_lowercase s) = ascii_only s.
Proof.
  unfold to_ascii_lowercase. induction s as [|c s IH]; simpl; [done|]. rewrite IH. f_equal.
  by destruct c as [[] [] [] [] [] [] [] []].
Qed.

Lemma ascii_only_trim s : ascii_only s = true -> ascii_only (trim s) = true.
Proof.
  destruct (trim_parts s) as (p & q & E). rewrite E at 1. rewrite !ascii_only_app.
  intros Hs. by repeat (apply andb_true_iff in Hs as [? Hs]).
Qed.

Lemma valid_ascii s : ascii_only s = true -> valid_utf8 s = true.
Proof.
  intros Hs. unfold valid_utf8. rewrite <- (sapp_nil_r s), split_chars_ascii by done.
  rewrite app_nil_r. induction s as [|c s IH]; simpl in *; [done|].
  apply andb_true_iff in Hs as [Hc Hs]. rewrite IH by done.
  by rewrite utf8_char_ascii.
Qed.

(** Text whose first and last characters are not blank is not trimmed. *)
Lemma trim_id s c l l' ch :
  split_chars s = c :: l -> is_whitespace c = false ->
  split_chars s = (l' ++ [ch])%list -> is_whitespace ch = false -> trim s = s.
Proof.
  intros E1 Hc E2 Hch. unfold trim.
  assert (E : drop_while is_whitespace (split_chars s) = split_chars s).
  { rewrite E1. simpl. by rewrite Hc. }
  rewrite E. unfold drop_while_end. rewrite E2, rev_app_distr. simpl. rewrite Hch. simpl.
  rewrite rev_involutive, <- E2. apply join_split.
Qed.

Lemma trim_ends a m z c d :
  ascii_only (String c a) = true -> is_whitespace (String c "") = false ->
  ascii_only (z ++ String d "") = true -> is_whitespace (String d "") = false -> valid_utf8 m = true ->
  trim (String c a ++ m ++ z ++ String d "") = String c a ++ m ++ z ++ String d "".
Proof.
  intros Ha Hc Hz Hd Hm. set (s := String c a ++ m ++ z ++ String d "").
  assert (Hzd : cont_head (z ++ String d "") = false).
  { destruct z as [|z0 z]; simpl in *; apply andb_true_iff in Hz as [? _]; by apply is_ascii_not_cont. }
  assert (Hmz : cont_head (m ++ z ++ String d "") = false).
  { destruct m; [done|]. by apply valid_cont_head in Hm. }
  assert (E1 : split_chars s = String c "" :: (map (fun c => String c "") (list_ascii_of_string a)
    ++ split_chars (m ++ z ++ String d ""))%list).
  { unfold s. rewrite split_chars_ascii by done. done. }
  assert (E2 : exists l, split_chars s = (l ++ [String d ""])%list).
  { rewrite E1. rewrite split_chars_app by done. rewrite ascii_only_app in Hz.
    apply andb_true_iff in Hz as [Hz Hd'].
    assert (cont_head (String d "") = false).
    { simpl in Hd'. apply andb_true_iff in Hd' as [Hd' _]. by apply is_ascii_not_cont. }
    rewrite (split_chars_app z) by done.
    eexists (String c "" :: map _ _ ++ split_chars m ++ split_chars z)%list. simpl. by rewrite <- !app_assoc. }
  destruct E2 as [l E2]. eapply trim_id; [exact E1|done|exact E2|exact Hd].
Qed.

(** ** Strings as lists of bytes *)

Lemma ascii_lower_whitespace c :
  is_ascii c = true ->
  is_whitespace (String (ascii_lower_byte c) "") = is_whitespace (String c "").
Proof. by destruct c as [[] [] [] [] [] [] [] []]. Qed.

Lemma snoc_case s : s = "" \/ exists s' d, s = s' ++ String d "".
Proof.
  induction s as [|c s [->|(s' & d & ->)]]; [by left| |]; right; [by exists "", c|].
  by exists (String c s'), d.
Qed.

Lemma list_ascii_app a b :
  list_ascii_of_string (a ++ b) = (list_ascii_of_string a ++ list_ascii_of_string b)%list.
Proof. induction a; simpl; [done|]. by f_equal. Qed.

Lemma drop_while_lower l :
  forallb is_ascii l = true ->
  drop_while is_whitespace (map (fun c => String (ascii_lower_byte c) "") l)
  = map (smap ascii_lower_byte) (drop_while is_whitespace (map (fun c => String c "") l)).
Proof.
  induction l as [|c l IH]; simpl; [done|]. intros Hc. bools.
  rewrite ascii_lower_whitespace by done. destruct (is_whitespace _); [by apply IH|].
  simpl. f_equal. rewrite map_map. done.
Qed.

Lemma drop_while_chars l :
  exists l', drop_while is_whitespace (map (fun c => String c "") l) = map (fun c => String c "") l'
             /\ (forallb is_ascii l = true -> forallb is_ascii l' = true).
Proof.
  induction l as [|c l [l' [E IH]]]; simpl; [by exists []|].
  destruct (is_whitespace _); [exists l'; split; [done|intros ?; bools; auto]|by exists (c :: l)].
Qed.

Lemma join_lower l : join (map (smap ascii_lower_byte) l) = smap ascii_lower_byte (join l).
Proof. induction l; simpl; [done|]. rewrite smap_app. by f_equal. Qed.

Lemma ascii_only_list s : ascii_only s = forallb is_ascii (list_ascii_of_string s).
Proof. induction s; simpl; [done|]. by f_equal. Qed.

Lemma list_ascii_smap f s : list_ascii_of_string (smap f s) = map f (list_ascii_of_string s).
Proof. induction s; simpl; [done|]. by f_equal. Qed.

Lemma split_chars_all_ascii s :
  ascii_only s = true -> split_chars s = map (fun c => String c "") (list_ascii_of_string s).
Proof.
  intros Hs. rewrite <- (sapp_nil_r s) at 1. rewrite split_chars_ascii by done. apply app_nil_r.
Qed.

Lemma trim_lower s :
  ascii_only s = true -> trim (to_ascii_lowercase s) = to_ascii_lowercase (trim s).
Proof.
  intros Hs. unfold trim, drop_while_end, to_ascii_lowercase.
  rewrite split_chars_all_ascii by (rewrite <- Hs; apply ascii_only_lower).
  rewrite split_chars_all_ascii, list_ascii_smap, map_map by done. rewrite ascii_only_list in Hs.
  rewrite drop_while_lower by done.
  destruct (drop_while_chars (list_ascii_of_string s)) as (l & -> & Hl). specialize (Hl Hs).
  rewrite map_map, <- !map_rev.
  change (fun x => smap ascii_lower_byte (String x "")) with (fun c => String (ascii_lower_byte c) "").
  rewrite drop_while_lower by (by rewrite forallb_rev). rewrite <- map_rev, join_lower. done.
Qed.

Lemma join_bytes l : join (map (fun c => String c "") l) = string_of_list_ascii l.
Proof. induction l as [|c l IH]; simpl; [done|]. by rewrite IH. Qed.

Lemma string_of_list_app a b :
  string_of_list_ascii (a ++ b)%list = string_of_list_ascii a ++ string_of_list_ascii b.
Proof. induction a as [|c a IH]; simpl; [done|]. by rewrite IH. Qed.

Lemma snoc_inj a b c d : a ++ String c "" = b ++ String d "" -> a = b /\ c = d.
Proof.
  intros E. apply (f_equal list_ascii_of_string) in E. rewrite !list_ascii_app in E. simpl in E.
  apply app_inj_tail in E as [E ->]. split; [|done].
  rewrite <- (string_of_list_ascii_of_string a), E. apply string_of_list_ascii_of_string.
Qed.

(** [trim_end_matches] splits off exactly the trailing run of the byte. *)
Lemma trim_end_matches_split b s :
  ascii_only s = true ->
  exists t j, s = t ++ join (repeat (String b "") j) /\ trim_end_matches b s = t
              /\ (forall t', t <> t' ++ String b "").
Proof.
  intros Hs. unfold trim_end_matches, drop_while_end. rewrite split_chars_all_ascii by done.
  rewrite <- map_rev.
  assert (Es : s = string_of_list_ascii (rev (rev (list_ascii_of_string s))))
    by (rewrite rev_involutive; symmetry; apply string_of_list_ascii_of_string).
  clear Hs. revert Es. generalize (rev (list_ascii_of_string s)). intros l ->.
  induction l as [|c l (t & j & E & Ht & Hn)]; cbn [rev map drop_while].
  - exists "", 0%nat. repeat split. by intros [].
  - rewrite string_of_list_app. destruct (String.eqb_spec (String b "") (String c "")) as [[= <-]|Hc].
    + exists t, (S j). split; [|done]. rewrite E, sapp_assoc. f_equal. clear.
      induction j as [|j IH]; [done|]. simpl in *. by rewrite IH.
    + exists (string_of_list_ascii (rev l) ++ String c ""), 0%nat.
      rewrite sapp_nil_r. split; [done|]. split.
      * change (String c "" :: map (fun c => String c "") l) with (map (fun c => String c "") (c :: l)).
        rewrite <- map_rev, join_bytes. simpl. by rewrite string_of_list_app.
      * intros t' E'. apply Hc. apply snoc_inj in E' as [_ ->]. done.
Qed.

(** A text of ASCII characters without blanks is trimmed already. *)
Definition unblank (c : ascii) : bool := is_ascii c && negb (is_whitespace (String c "")).

Lemma trim_unblank s : forallb unblank (list_ascii_of_string s) = true -> trim s = s.
Proof.
  intros Hs.
  assert (Ha : ascii_only s = true).
  { induction s as [|c s IH]; simpl in *; [done|]. apply andb_true_iff in Hs as [Hc Hs].
    unfold unblank in Hc. apply andb_true_iff in Hc as [-> _]. by apply IH. }
  assert (Hd : forall l, forallb unblank l = true ->
    drop_while is_whitespace (map (fun c => String c "") l) = map (fun c => String c "") l).
  { intros [|c l]; simpl; [done|]. intros [Hc _]%andb_true_iff. unfold unblank in Hc.
    apply andb_true_iff in Hc as [_ Hc]. by destruct (is_whitespace (String c "")). }
  unfold trim, drop_while_end. rewrite split_chars_all_ascii, Hd by done.
  rewrite <- map_rev, Hd, <- map_rev, rev_involutive; [|by rewrite forallb_rev].
  rewrite join_bytes. apply string_of_list_ascii_of_string.
Qed.

Lemma digits_fuel_unblank f n acc :
  (0 <= n)%Z -> forallb unblank (list_ascii_of_string acc) = true ->
  forallb unblank (list_ascii_of_string (digits_fuel f n acc)) = true.
Proof.
  revert n acc. induction f as [|f IH]; intros n acc Hn Ha; cbn [digits_fuel]; [done|].
  assert (Hd : unblank (digit_char (n mod 10)) = true).
  { pose proof (Z.mod_pos_bound n 10 ltac:(lia)) as Hb.
    assert (Hc : (n mod 10 = 0 \/ n mod 10 = 1 \/ n mod 10 = 2 \/ n mod 10 = 3 \/ n mod 10 = 4 \/ n mod 10 = 5
                  \/ n mod 10 = 6 \/ n mod 10 = 7 \/ n mod 10 = 8 \/ n mod 10 = 9)%Z) by lia.
    repeat destruct Hc as [Hc|Hc]; by rewrite Hc. }
  destruct (n <? 10)%Z; [simpl; by rewrite Hd|]. apply IH; [apply Z.div_pos; lia|]. simpl. by rewrite Hd.
Qed.

Lemma trim_print z : trim (z_to_string z) = z_to_string z.
Proof.
  apply trim_unblank. unfold z_to_string, nat_to_string. destruct (Z.ltb_spec z 0).
  - cbn [append list_ascii_of_string forallb]. change (unblank "-") with true. apply digits_fuel_unblank; [lia|done].
  - apply digits_fuel_unblank; [lia|done].
Qed.
