(* ===== verification/PgWire.v ===== *)
(** * The pgwire types the gateway builds

    Data of the [pgwire] and [postgres-types] crates as the gateway's source
    uses it: the PostgreSQL types it names, error values, fields, rows and
    responses. Nothing here computes; what those crates do with the values is
    a parameter wherever the gateway depends on it. *)

From S2P Require Import Prelude.

Local Open Scope string_scope.

(** [pgwire::api::Type], the constants the source names. *)
Inductive PgType :=
| BOOL | INT2 | INT4 | INT8 | FLOAT4 | FLOAT8 | NUMERIC | VARCHAR | BPCHAR | BYTEA
| DATE | TIME | TIMETZ | TIMESTAMP | TIMESTAMPTZ | INTERVAL | JSONB | UUID | INET | TEXT
| NAME | UNKNOWN
| BOOL_ARRAY | INT2_ARRAY | INT4_ARRAY | INT8_ARRAY | FLOAT4_ARRAY | FLOAT8_ARRAY
| NUMERIC_ARRAY | VARCHAR_ARRAY | BPCHAR_ARRAY | BYTEA_ARRAY | DATE_ARRAY | TIME_ARRAY
| TIMETZ_ARRAY | TIMESTAMP_ARRAY | TIMESTAMPTZ_ARRAY | INTERVAL_ARRAY | JSONB_ARRAY
| UUID_ARRAY | INET_ARRAY | TEXT_ARRAY.

#[export] Instance PgType_eq_dec : EqDecision PgType.
Proof. solve_decision. Defined.

(** [pgwire::error::ErrorInfo::new(severity, code, message)]. *)
Record ErrorInfo := mk_error_info {
  severity : string;
  code : string;
  message : string
}.

(** [pgwire::error::PgWireError]: the two variants the gateway constructs and
    matches on, [InvalidPassword], and every other (connection-fatal) one. *)
Inductive PgWireError :=
| UserError (info : ErrorInfo)
| ApiError (what : string)
| InvalidPassword (user : string)
| ConnectionError (what : string).

Abbreviation PgWireResult := (result PgWireError).

#[export] Instance ErrorInfo_eq_dec : EqDecision ErrorInfo.
Proof. solve_decision. Defined.

#[export] Instance PgWireError_eq_dec : EqDecision PgWireError.
Proof. solve_decision. Defined.

(** [pgwire::api::results::FieldFormat]. *)
Inductive FieldFormat := Text | Binary.

#[export] Instance FieldFormat_eq_dec : EqDecision FieldFormat.
Proof. solve_decision. Defined.

(** [FieldInfo::new(name, None, None, datatype, format)]. *)
Record FieldInfo := mk_field_info {
  field_name : string;
  datatype : PgType;
  format : FieldFormat
}.

#[export] Instance FieldInfo_eq_dec : EqDecision FieldInfo.
Proof. solve_decision. Defined.
