(* ===== verification/ErrorMapping.v ===== *)
(** * Mapping Trino errors to PostgreSQL errors (src/src/error_mapping.rs)

    The SQLSTATE classifier runs over the original message; the text the
    client sees is cut at the Java stack trace, stripped of exception class
    names, has URL hosts masked, and is capped at 512 bytes.

    Two loops of the source carry fuel here: the exception-prefix loop and the
    URL loop. Every round of either drops at least one byte, so the length of
    the input is enough; [strip_java_prefixes_fixpoint] and
    [mask_loop_fuel] prove it. *)

From S2P Require Import Prelude RustStr RustStrFacts PgWire.

Local Open Scope string_scope.

(** ** Definitions *)

Definition MAX_CLIENT_ERROR_LEN : nat := 512.

Definition newline : ascii := "010"%char.
Definition tab : ascii := "009"%char.

(** Detect Trino's positional syntax error pattern like "LINE 1:7:". *)
Definition is_syntax_position (upper : string) : bool :=
  starts_with "LINE " upper
  && match find ":" upper with
     | Some first => match find ":" (sdrop (first + 1) upper) with
                     | Some _ => true
                     | None => false
                     end
     | None => false
     end.

(** [truncate_with_ellipsis]: the loop that moves the cut back to a char
    boundary, then the cut itself with the three-byte ellipsis. *)
Fixpoint char_boundary_at_or_before (s : string) (cut : nat) : nat :=
  match cut with
  | O => O
  | S cut' => if is_char_boundary s cut then cut else char_boundary_at_or_before s cut'
  end.

Definition truncate_with_ellipsis (s : string) (max : nat) : string :=
  if (slen s <=? max)%nat then s
  else stake (char_boundary_at_or_before s (max - 3)) s ++ "…".

(** [strip_java_exception_prefix], with [None] where the source returns its
    argument (the caller compares pointers to see that). *)
Definition strip_java_exception_prefix (s : string) : option string :=
  match find ": " s with
  | None => None
  | Some colon =>
    let prefix := stake colon s in
    let looks_like_package :=
      starts_with "io." prefix || starts_with "com." prefix
      || starts_with "java." prefix || starts_with "org." prefix in
    let looks_like_exception := ends_with "Exception" prefix || ends_with "Error" prefix in
    if looks_like_package && looks_like_exception
    then Some (trim_start (sdrop (colon + 2) s))
    else None
  end.

(** The [loop] of [sanitise_for_client]. *)
Fixpoint strip_java_prefixes (fuel : nat) (s : string) : string :=
  match fuel with
  | O => s
  | S fuel' => match strip_java_exception_prefix s with
               | None => s
               | Some next => strip_java_prefixes fuel' next
               end
  end.

(** Where a URL's host ends: [/], [)], [,] or whitespace. *)
Definition host_stop (ch : string) : bool :=
  String.eqb ch "/" || String.eqb ch ")" || String.eqb ch "," || is_whitespace ch.

Definition host_end (after : string) : nat :=
  match find_char host_stop after with
  | Some i => i
  | None => slen after
  end.

(** The first of [SCHEMES] that occurs anywhere in [rest], with its offset:
    the [for] loop tries "https://" on the whole of [rest] before "http://". *)
Definition find_scheme (rest : string) : option (string * nat) :=
  match find "https://" rest with
  | Some idx => Some ("https://", idx)
  | None => match find "http://" rest with
            | Some idx => Some ("http://", idx)
            | None => None
            end
  end.

Fixpoint mask_loop (fuel : nat) (rest : string) : string :=
  match fuel with
  | O => ""
  | S fuel' =>
    match rest with
    | EmptyString => ""
    | _ => match find_scheme rest with
           | None => rest
           | Some (scheme, idx) =>
             let after := sdrop (idx + slen scheme) rest in
             stake idx rest ++ scheme ++ "<trino>" ++ mask_loop fuel' (sdrop (host_end after) after)
           end
    end
  end.

Definition mask_url_hosts (s : string) : string := mask_loop (S (slen s)) s.

(** The stack trace starts at a tab-indented frame if there is one, else at a
    frame indented by two spaces. *)
Definition cut_stack_trace (msg : string) : string :=
  match or_else (find (String newline (String tab "at ")) msg)
                (find (String newline "  at ") msg) with
  | Some idx => stake idx msg
  | None => msg
  end.

Definition sanitise_for_client (msg : string) : string :=
  let truncated := cut_stack_trace msg in
  let prefix_stripped := strip_java_prefixes (slen truncated) truncated in
  let urls_masked := mask_url_hosts prefix_stripped in
  truncate_with_ellipsis (trim urls_masked) MAX_CLIENT_ERROR_LEN.

Definition trino_error_sqlstate (error_msg : string) : string :=
  let upper := to_ascii_uppercase error_msg in
  if contains "SYNTAX_ERROR" upper || is_syntax_position upper then "42601"
  else if contains "TABLE_NOT_FOUND" upper || contains "DOES NOT EXIST" upper then "42P01"
  else if contains "COLUMN_NOT_FOUND" upper || contains "CANNOT BE RESOLVED" upper then "42703"
  else if contains "TYPE_MISMATCH" upper then "42846"
  else if contains "PERMISSION_DENIED" upper || contains "ACCESS DENIED" upper then "42501"
  else if contains "DIVISION_BY_ZERO" upper then "22012"
  else "42000".

Definition trino_error_to_pg (error_msg : string) : ErrorInfo :=
  mk_error_info "ERROR" (trino_error_sqlstate error_msg) (sanitise_for_client error_msg).

(** ** Termination of the two loops *)

Lemma strip_java_shorter s next :
  strip_java_exception_prefix s = Some next -> (slen next < slen s)%nat.
Proof.
  unfold strip_java_exception_prefix. destruct (find ": " s) as [colon|] eqn:Hf; [|done].
  pose proof (find_bound _ _ _ Hf) as Hb. simpl in Hb.
  break_match; [|done]. intros [= <-].
  pose proof (slen_trim_start (sdrop (colon + 2) s)) as Ht. rewrite slen_sdrop in Ht. lia.
Qed.

(** With the length as fuel the loop ends because nothing is left to strip. *)
Lemma strip_java_prefixes_fixpoint fuel s :
  (slen s <= fuel)%nat -> strip_java_exception_prefix (strip_java_prefixes fuel s) = None.
Proof.
  revert s. induction fuel as [|fuel IH]; intros s Hl; simpl.
  - destruct s; [done|simpl in Hl; lia].
  - destruct (strip_java_exception_prefix s) as [next|] eqn:E; [|done].
    apply IH. apply strip_java_shorter in E. lia.
Qed.

Lemma find_scheme_bound rest scheme idx :
  find_scheme rest = Some (scheme, idx) ->
  find scheme rest = Some idx /\ (scheme = "https://" \/ scheme = "http://")
  /\ (idx + slen scheme <= slen rest)%nat.
Proof.
  unfold find_scheme. destruct (find "https://" rest) as [i|] eqn:E1.
  - intros [= <- <-]. pose proof (find_bound _ _ _ E1). auto.
  - destruct (find "http://" rest) as [i|] eqn:E2; [|done].
    intros [= <- <-]. pose proof (find_bound _ _ _ E2). auto.
Qed.

(** What one round of the URL loop leaves to do is shorter. *)
Lemma mask_step_shorter rest scheme idx :
  find_scheme rest = Some (scheme, idx) ->
  let after := sdrop (idx + slen scheme) rest in
  (slen (sdrop (host_end after) after) < slen rest)%nat.
Proof.
  intros H. apply find_scheme_bound in H as (_ & Hs & Hb). simpl.
  rewrite !slen_sdrop. destruct Hs as [-> | ->]; simpl in *; lia.
Qed.

(** Any fuel above the length gives the same result: the loop never stops early. *)
Lemma mask_loop_fuel f1 f2 rest :
  (slen rest < f1)%nat -> (slen rest < f2)%nat -> mask_loop f1 rest = mask_loop f2 rest.
Proof.
  revert f2 rest. induction f1 as [|f1 IH]; intros f2 rest H1 H2; [lia|].
  destruct f2 as [|f2]; [lia|]. simpl. destruct rest as [|c r]; [done|].
  destruct (find_scheme (String c r)) as [[scheme idx]|] eqn:E; [|done].
  pose proof (mask_step_shorter _ _ _ E) as Hlt. simpl in Hlt.
  rewrite (IH f2) by (simpl in *; lia). done.
Qed.

(** The loop as the source writes it: one round, then the rest. *)
Lemma mask_url_hosts_unfold s :
  mask_url_hosts s =
    match find_scheme s with
    | None => s
    | Some (scheme, idx) =>
      let after := sdrop (idx + slen scheme) s in
      stake idx s ++ scheme ++ "<trino>" ++ mask_url_hosts (sdrop (host_end after) after)
    end.
Proof.
  unfold mask_url_hosts. cbn [mask_loop]. destruct s as [|c r]; [done|].
  destruct (find_scheme (String c r)) as [[scheme idx]|] eqn:E; [|done].
  pose proof (mask_step_shorter _ _ _ E) as Hlt. cbv zeta in *.
  rewrite (mask_loop_fuel _ (S (slen (sdrop (host_end (sdrop (idx + slen scheme) (String c r)))
    (sdrop (idx + slen scheme) (String c r)))))) by (simpl in *; lia). done.
Qed.

(** Induction on the rounds of the URL loop. *)
Lemma mask_ind (P : string -> Prop) :
  (forall s, find_scheme s = None -> P s) ->
  (forall s scheme idx,
     find_scheme s = Some (scheme, idx) ->
     let after := sdrop (idx + slen scheme) s in
     P (sdrop (host_end after) after) -> P s) ->
  forall s, P s.
Proof.
  intros Hnone Hsome s. remember (slen s) as n eqn:Hn. revert s Hn.
  induction n as [n IH] using lt_wf_ind. intros s ->.
  destruct (find_scheme s) as [[scheme idx]|] eqn:E; [|by apply Hnone].
  eapply Hsome; [done|]. eapply IH; [|done]. by apply mask_step_shorter.
Qed.

(** ** UTF-8 validity *)

Lemma valid_cut_stack_trace msg : valid_utf8 msg = true -> valid_utf8 (cut_stack_trace msg) = true.
Proof.
  intros Hv. unfold cut_stack_trace.
  destruct (find (String newline (String tab "at ")) msg) as [i|] eqn:E1; simpl.
  - by eapply valid_find in E1 as [? ?].
  - destruct (find (String newline "  at ") msg) as [i|] eqn:E2; simpl; [|done].
    by eapply valid_find in E2 as [? ?].
Qed.

Lemma valid_strip_java s next :
  valid_utf8 s = true -> strip_java_exception_prefix s = Some next -> valid_utf8 next = true.
Proof.
  unfold strip_java_exception_prefix. intros Hv.
  destruct (find ": " s) as [i|] eqn:E; [|done]. break_match; [|done]. intros [= <-].
  apply valid_trim_start. eapply valid_find in E as [_ Hd]; [exact Hd|done|done].
Qed.

Lemma valid_strip_java_prefixes fuel s :
  valid_utf8 s = true -> valid_utf8 (strip_java_prefixes fuel s) = true.
Proof.
  revert s. induction fuel as [|fuel IH]; intros s Hv; simpl; [done|].
  destruct (strip_java_exception_prefix s) eqn:E; [|done]. apply IH. by eapply valid_strip_java.
Qed.

Lemma host_end_cases after :
  (exists i, find_char host_stop after = Some i /\ host_end after = i) \/ host_end after = slen after.
Proof. unfold host_end. destruct (find_char host_stop after); eauto. Qed.

Lemma valid_after_host after : valid_utf8 after = true -> valid_utf8 (sdrop (host_end after) after) = true.
Proof.
  intros Hv. destruct (host_end_cases after) as [(i & Hf & ->)| ->].
  - by eapply valid_find_char.
  - rewrite <- (sapp_nil_r after) at 2. by rewrite sdrop_app.
Qed.

Lemma valid_mask_url_hosts s : valid_utf8 s = true -> valid_utf8 (mask_url_hosts s) = true.
Proof.
  induction s as [s E|s scheme idx E after IH] using mask_ind; intros Hv; rewrite mask_url_hosts_unfold, E; [done|].
  apply find_scheme_bound in E as (Hf & Hs & _).
  assert (valid_utf8 (stake idx s) = true /\ valid_utf8 after = true) as [H1 H2].
  { unfold after. destruct Hs as [-> | ->]; by eapply valid_find in Hf. }
  cbv zeta. fold after. apply valid_app; [done|].
  apply valid_app; [by destruct Hs as [-> | ->]|]. apply valid_app; [done|].
  by apply IH, valid_after_host.
Qed.

Lemma char_boundary_le s cut : (char_boundary_at_or_before s cut <= cut)%nat.
Proof. induction cut as [|cut IH]; cbn [char_boundary_at_or_before]; [done|]. destruct (is_char_boundary s (S cut)); lia. Qed.

Lemma char_boundary_ok s cut : is_char_boundary s (char_boundary_at_or_before s cut) = true.
Proof.
  induction cut as [|cut IH]; cbn [char_boundary_at_or_before]; [done|].
  destruct (is_char_boundary s (S cut)) eqn:E; done.
Qed.

Lemma slen_truncate_with_ellipsis s max :
  (3 <= max)%nat -> (slen (truncate_with_ellipsis s max) <= max)%nat.
Proof.
  intros Hm. unfold truncate_with_ellipsis. destruct (Nat.leb_spec (slen s) max); [done|].
  rewrite slen_app, slen_stake. pose proof (char_boundary_le s (max - 3)). simpl. lia.
Qed.

Lemma valid_truncate_with_ellipsis s max :
  valid_utf8 s = true -> valid_utf8 (truncate_with_ellipsis s max) = true.
Proof.
  intros Hv. unfold truncate_with_ellipsis. destruct (slen s <=? max)%nat; [done|].
  apply valid_app; [|done]. apply valid_stake; [done|]. apply char_boundary_ok.
Qed.

(** ** Properties *)

(** C14: Whatever Trino reports, the message sent to the client is at most 512
    bytes, and it is valid UTF-8 whenever the incoming message is (the cut at
    the cap falls on a char boundary and no slice splits a character, so none
    of the slicing panics). *)
Theorem client_message_bounded_and_valid msg :
  (slen (message (trino_error_to_pg msg)) <= MAX_CLIENT_ERROR_LEN)%nat
  /\ (valid_utf8 msg = true -> valid_utf8 (message (trino_error_to_pg msg)) = true).
Proof.
  split.
  - apply slen_truncate_with_ellipsis. unfold MAX_CLIENT_ERROR_LEN. lia.
  - intros Hv. apply valid_truncate_with_ellipsis, valid_trim, valid_mask_url_hosts.
    by apply valid_strip_java_prefixes, valid_cut_stack_trace.
Qed.

(** ** What the URL masking guarantees *)

(** Some URL scheme of [s] is not directly followed by the mask. *)
Definition exposes_host (s : string) : Prop :=
  exists scheme j, (scheme = "https://" \/ scheme = "http://") /\ occurs scheme j s = true
                   /\ String.prefix "<trino>" (sdrop (j + slen scheme) s) = false.

(** No plain-HTTP URL stands before an HTTPS one. *)
Definition https_urls_first (s : string) : bool :=
  forallb (fun i => forallb (fun j =>
    negb (occurs "https://" i s && occurs "http://" j s) || (i <? j)%nat)
    (List.seq 0 (slen s))) (List.seq 0 (slen s)).

Lemma https_urls_first_spec s i j :
  https_urls_first s = true -> occurs "https://" i s = true -> occurs "http://" j s = true -> (i < j)%nat.
Proof.
  intros H Hi Hj. unfold https_urls_first in H. rewrite forallb_forall in H.
  specialize (H i). rewrite forallb_forall in H.
  assert (Hin : forall k p, p <> "" -> occurs p k s = true -> In k (List.seq 0 (slen s))).
  { intros k p Hp Ho. apply in_seq. apply occurs_bound in Ho; [lia|done]. }
  specialize (H (Hin i "https://" ltac:(done) Hi) j (Hin j "http://" ltac:(done) Hj)).
  rewrite Hi, Hj in H. simpl in H. by apply Nat.ltb_lt.
Qed.

Lemma https_urls_first_sdrop n s :
  https_urls_first s = true -> https_urls_first (sdrop n s) = true.
Proof.
  intros H. unfold https_urls_first. apply forallb_forall. intros i Hi. apply forallb_forall. intros j Hj.
  destruct (occurs "https://" i (sdrop n s)) eqn:E1; [|done].
  destruct (occurs "http://" j (sdrop n s)) eqn:E2; [|done]. simpl.
  unfold occurs in E1, E2. rewrite sdrop_sdrop in E1, E2.
  pose proof (https_urls_first_spec _ _ _ H E1 E2). apply Nat.ltb_lt. lia.
Qed.

(** Inside the text a round writes, a scheme starts only at its beginning. *)
Lemma scheme_in_masked scheme pat k out :
  (scheme = "https://" \/ scheme = "http://") -> (pat = "https://" \/ pat = "http://") ->
  (k < slen scheme + 7)%nat -> occurs pat k (scheme ++ "<trino>" ++ out) = true ->
  k = 0%nat /\ pat = scheme.
Proof.
  intros Hs Hp Hk Ho. unfold occurs in Ho.
  destruct Hs as [-> | ->], Hp as [-> | ->]; simpl in Hk;
    do 15 (destruct k as [|k]; [by first [split; done | vm_compute in Ho] | try lia]).
Qed.

(** No scheme starts in the text a round copies in front of the one it found. *)
Lemma no_scheme_before s scheme idx pat j :
  https_urls_first s = true -> find_scheme s = Some (scheme, idx) ->
  (pat = "https://" \/ pat = "http://") -> (j < idx)%nat -> occurs pat j s = false.
Proof.
  intros Ho E Hp Hj. unfold find_scheme in E.
  destruct (find "https://" s) as [i|] eqn:E1; simplify_eq.
  - destruct Hp as [-> | ->]; [by eapply find_first|].
    destruct (occurs "http://" j s) eqn:Hoc; [|done].
    pose proof (https_urls_first_spec _ _ _ Ho (find_occurs _ _ _ E1) Hoc). lia.
  - destruct (find "http://" s) as [i|] eqn:E2; simplify_eq.
    destruct Hp as [-> | ->]; [by apply find_None|by eapply find_first].
Qed.

Lemma no_scheme_at_all s pat j :
  find_scheme s = None -> (pat = "https://" \/ pat = "http://") -> occurs pat j s = false.
Proof.
  unfold find_scheme. destruct (find "https://" s) eqn:E1; [done|].
  destruct (find "http://" s) eqn:E2; [done|]. intros _ [-> | ->]; by apply find_None.
Qed.

(** In the output each "http://" and each "https://" is directly followed by the
    mask, also where two pieces of the text meet. *)
Lemma mask_leaves_no_host s :
  https_urls_first s = true -> ~ exposes_host (mask_url_hosts s).
Proof.
  induction s as [s E|s scheme idx E after IH] using mask_ind; intros Ho (pat & j & Hp & Hoc & Hx);
    rewrite mask_url_hosts_unfold, E in Hoc, Hx.
  { by rewrite no_scheme_at_all in Hoc. }
  cbv zeta in Hoc, Hx. fold after in Hoc, Hx.
  pose proof (find_scheme_bound _ _ _ E) as (Hf & Hs & Hb).
  set (out := mask_url_hosts (sdrop (host_end after) after)) in *.
  assert (Hl : slen (stake idx s) = idx) by (rewrite slen_stake; lia).
  destruct (Nat.lt_ge_cases j idx) as [Hj|Hj].
  - rewrite <- sapp_assoc, occurs_app_le in Hoc by (rewrite slen_app, Hl; destruct Hs as [-> | ->], Hp as [-> | ->]; simpl; lia).
    rewrite <- (occurs_app_le _ _ _ after), sapp_assoc in Hoc by (rewrite slen_app, Hl; destruct Hs as [-> | ->], Hp as [-> | ->]; simpl; lia).
    unfold after in Hoc. rewrite <- (find_Some _ _ _ Hf) in Hoc.
    by rewrite (no_scheme_before _ _ _ _ _ Ho E Hp Hj) in Hoc.
  - replace j with (slen (stake idx s) + (j - idx))%nat in Hoc, Hx by lia.
    rewrite occurs_app_ge in Hoc. rewrite <- Nat.add_assoc, sdrop_app_ge in Hx.
    set (k := (j - idx)%nat) in *. destruct (Nat.lt_ge_cases k (slen scheme + 7)) as [Hk|Hk].
    + apply scheme_in_masked in Hoc as [Hk0 ->]; [|done..].
      by rewrite Hk0, Nat.add_0_l, sdrop_app, prefix_app in Hx.
    + apply IH; [by apply https_urls_first_sdrop, https_urls_first_sdrop|].
      exists pat, (k - (slen scheme + 7))%nat. split; [done|].
      replace k with (slen scheme + (slen "<trino>" + (k - (slen scheme + 7))))%nat in Hoc, Hx by (simpl; lia).
      rewrite !occurs_app_ge in Hoc. rewrite <- !Nat.add_assoc, !sdrop_app_ge in Hx. done.
Qed.

(** *** What masking is *)

Definition is_scheme (p : string) : Prop := p = "https://" \/ p = "http://".

(** The characters that end a host. *)
Definition delimiter (ch : string) : bool :=
  existsb (String.eqb ch) ["/"; ")"; ","] || is_whitespace ch.

(** A text cut into the host at its beginning, which runs to the first delimiter
    or to the end, and what follows it. *)
Definition host_and_rest (after host rest : string) : Prop :=
  exists hs rs, split_chars after = (hs ++ rs)%list /\ host = join hs /\ rest = join rs
    /\ Forall (fun ch => delimiter ch = false) hs
    /\ match rs with [] => True | ch :: _ => delimiter ch = true end.

(** The second text is the first with the host of every URL replaced by the mask
    and all else kept. *)
Inductive hosts_masked : string -> string -> Prop :=
| masked_text s :
    (forall scheme j, is_scheme scheme -> occurs scheme j s = false) -> hosts_masked s s
| masked_url text scheme after host rest out :
    is_scheme scheme ->
    (forall pat j, is_scheme pat -> (j < slen text)%nat -> occurs pat j (text ++ scheme ++ after) = false) ->
    host_and_rest after host rest -> hosts_masked rest out ->
    hosts_masked (text ++ scheme ++ after) (text ++ scheme ++ "<trino>" ++ out).

Lemma find_char_from_stop f off l :
  match find_char_from f off l with
  | Some i => exists hs ch rs, l = (hs ++ ch :: rs)%list /\ i = (off + slen (join hs))%nat
                /\ Forall (fun x => f x = false) hs /\ f ch = true
  | None => Forall (fun x => f x = false) l
  end.
Proof.
  revert off. induction l as [|x l IH]; intros off; simpl; [constructor|].
  destruct (f x) eqn:Hx; [by exists [], x, l; simpl; auto with lia|].
  specialize (IH (off + slen x)%nat). destruct (find_char_from f _ l) as [i|]; [|by constructor].
  destruct IH as (hs & ch & rs & -> & -> & Hh & Hc). exists (x :: hs), ch, rs. simpl.
  rewrite slen_app. auto with lia.
Qed.

Lemma host_stop_delimiter ch : host_stop ch = delimiter ch.
Proof. unfold host_stop, delimiter. simpl. by rewrite orb_false_r, !orb_assoc. Qed.

Lemma host_end_splits after :
  host_and_rest after (stake (host_end after) after) (sdrop (host_end after) after).
Proof.
  unfold host_end, find_char. pose proof (find_char_from_stop host_stop 0 (split_chars after)) as H.
  destruct (find_char_from _ _ _) as [i|].
  - destruct H as (hs & ch & rs & E & -> & Hh & Hc). exists hs, (ch :: rs). rewrite host_stop_delimiter in Hc.
    assert (after = join hs ++ join (ch :: rs)) as Ha by (by rewrite <- join_app, <- E, join_split).
    split; [done|]. rewrite Nat.add_0_l. clear E. subst after. rewrite stake_app, sdrop_app.
    repeat split; [|done]. eapply Forall_impl; [exact Hh|]. intros x. simpl. by rewrite host_stop_delimiter.
  - exists (split_chars after), []. rewrite app_nil_r, join_split, stake_all, sdrop_all by done.
    repeat split. eapply Forall_impl; [exact H|]. intros x. simpl. by rewrite host_stop_delimiter.
Qed.

(** C15: In a message where no plain-HTTP URL stands before an HTTPS one, masking
    replaces the whole host of every URL, up to the next slash, closing
    parenthesis, comma or blank, by the literal "<trino>", and changes nothing
    else; no URL scheme of the output is followed by anything but the mask. *)
Theorem mask_hides_every_host s :
  https_urls_first s = true ->
  hosts_masked s (mask_url_hosts s) /\ ~ exposes_host (mask_url_hosts s).
Proof.
  intros Ho. split; [|by apply mask_leaves_no_host].
  induction s as [s E|s scheme idx E after IH] using mask_ind; rewrite mask_url_hosts_unfold, E.
  - apply masked_text. intros scheme j Hs. by apply no_scheme_at_all.
  - pose proof (find_scheme_bound _ _ _ E) as (Hf & Hs & Hb). cbv zeta. fold after.
    pose proof (find_Some _ _ _ Hf) as Es. fold after in Es. rewrite Es at 1.
    eapply masked_url; [done| |apply host_end_splits|].
    + intros pat j Hp Hj. rewrite <- Es. eapply no_scheme_before; [done..|].
      rewrite slen_stake in Hj. lia.
    + apply IH. by apply https_urls_first_sdrop, https_urls_first_sdrop.
Qed.

Lemma mask_hides_every_host_witness :
  let s := "via https://a.internal:1/x then http://b/y" in
  hosts_masked s (mask_url_hosts s) /\ mask_url_hosts s = "via https://<trino>/x then http://<trino>/y".
Proof. split; [apply (mask_hides_every_host "via https://a.internal:1/x then http://b/y")|]; vm_compute; reflexivity. Defined.

(** The masking leaks the host of a plain-HTTP URL that stands before an
    HTTPS one: the loop looks for "https://" in the whole remaining text first
    and copies everything in front of it unmasked, so the internal host name
    reaches the client. *)
Theorem http_host_before_https_leaks :
  let msg := "fetch from http://worker-1.internal:8443/x failed, retried via https://proxy/x" in
  contains "worker-1.internal:8443" (message (trino_error_to_pg msg)) = true
  /\ exposes_host (mask_url_hosts msg).
Proof.
  split; [vm_compute; reflexivity|].
  exists "http://", 11%nat. split; [by right|]. split; vm_compute; reflexivity.
Qed.

(** ** What the stack-trace cut guarantees *)

Lemma contains_stake pat s i :
  pat <> "" -> find pat s = Some i -> contains pat (stake i s) = false.
Proof.
  intros Hp Hi. unfold contains. destruct (find pat (stake i s)) as [j|] eqn:Hj; [exfalso|done].
  pose proof (find_bound _ _ _ Hj) as Hb. rewrite slen_stake in Hb.
  assert (j < i)%nat as Hlt by (destruct pat; [done|]; simpl in Hb; lia).
  apply find_occurs in Hj. rewrite <- (occurs_app_le _ _ _ (sdrop i s)), stake_sdrop in Hj
    by (rewrite slen_stake; lia).
  unfold occurs in Hj. by rewrite (find_first _ _ _ _ Hi Hlt) in Hj.
Qed.

(** No tab-indented frame is left, and no frame at all when the trace uses one
    indentation throughout. *)
Theorem stack_trace_is_cut msg :
  contains (String newline (String tab "at ")) (cut_stack_trace msg) = false
  /\ (contains (String newline (String tab "at ")) msg = false ->
      contains (String newline "  at ") (cut_stack_trace msg) = false).
Proof.
  unfold cut_stack_trace. destruct (find (String newline (String tab "at ")) msg) as [i|] eqn:Et; simpl.
  - split; [by apply contains_stake|]. unfold contains. by rewrite Et.
  - destruct (find (String newline "  at ") msg) as [i|] eqn:Es; simpl.
    + split; [|by intros _; apply contains_stake].
      unfold contains. destruct (find _ (stake i msg)) as [j|] eqn:Hj; [exfalso|done].
      pose proof (find_bound _ _ _ Hj) as Hb. apply find_occurs in Hj.
      rewrite <- (occurs_app_le _ _ _ (sdrop i msg)), stake_sdrop in Hj by done.
      unfold occurs in Hj. by rewrite (find_None _ _ _ Et) in Hj.
    + unfold contains. by rewrite Et, Es.
Qed.

(** A trace that mixes the two indentations keeps the space-indented frames in
    front of the first tab-indented one: the fallback is only tried when the
    first search fails, so the earlier cut is missed. *)
Theorem mixed_trace_keeps_frames :
  let msg := "boom" ++ String newline "  at io.trino.A.run(A.java:1)"
                    ++ String newline (String tab "at io.trino.B.run(B.java:2)") in
  message (trino_error_to_pg msg) = "boom" ++ String newline "  at io.trino.A.run(A.java:1)".
Proof. vm_compute. reflexivity. Qed.
