(* ===== verification/Config.v ===== *)
(** * Configuration (src/src/config.rs)

    The command-line configuration as a record, with the values the flags
    default to. clap itself (the parsing of the command line) is not modelled;
    what its [requires] attributes promise is [flags_paired]. *)

From S2P Require Import Prelude.

Local Open Scope string_scope.

Record Config := mk_config {
  listen_addr : string;
  tls_cert : option string;
  tls_key : option string;
  trino_host : string;
  trino_port : Z;
  trino_catalog : string;
  trino_schema : string;
  trino_user : string;
  trino_ssl : bool;
  trino_tls_no_verify : bool;
  trino_allow_plaintext_auth : bool;
  auth : bool;
  allow_insecure_listener : bool;
  max_connections : Z
}.

(** The configuration of a command line without flags. *)
Definition default_config : Config :=
  {| listen_addr := "127.0.0.1:5432";
     tls_cert := None;
     tls_key := None;
     trino_host := "localhost";
     trino_port := 8080;
     trino_catalog := "memory";
     trino_schema := "default";
     trino_user := "trino";
     trino_ssl := false;
     trino_tls_no_verify := false;
     trino_allow_plaintext_auth := false;
     auth := false;
     allow_insecure_listener := false;
     max_connections := 256 |}.

(** [requires = "tls_key"] on [--tls-cert] and [requires = "tls_cert"] on
    [--tls-key]: both or neither. *)
Definition flags_paired (c : Config) : bool :=
  match tls_cert c, tls_key c with
  | Some _, Some _ | None, None => true
  | _, _ => false
  end.
