(* ===== verification/Policy.v ===== *)
(** * Startup security policy (src/src/policy.rs)

    [validate] decides from the configuration whether the gateway may start.
    Host-name resolution and the textual [SocketAddr] parser are the class
    [NetEnv]. Warnings logged on the way are the first component of the
    results, so that a theorem can say which configurations are never accepted
    silently. *)

From S2P Require Import Prelude Config.

Local Open Scope string_scope.

(** ** Addresses *)

(** [std::net::IpAddr]: four octets or eight 16-bit segments. *)
Inductive IpAddr :=
| V4 (a b c d : Z)
| V6 (segments : list Z).

(** [IpAddr::is_loopback]: 127.0.0.0/8, and ::1 alone. *)
Definition is_loopback (ip : IpAddr) : bool :=
  match ip with
  | V4 a _ _ _ => (a =? 127)%Z
  | V6 segments => bool_decide (segments = [0; 0; 0; 0; 0; 0; 0; 1]%Z)
  end.

(** What the policy asks of its environment: [str::parse::<SocketAddr>] (the
    address part) and [ToSocketAddrs::to_socket_addrs]. *)
Class NetEnv := {
  parse_socket_addr : string -> option IpAddr;
  to_socket_addrs : string -> option (list IpAddr)
}.

(** ** Definitions *)

Inductive AuthPosture :=
| DisabledLoopback
| DisabledOpenBind
| CleartextRequiresTls
| CleartextLoopback.

Inductive PolicyError :=
| InvalidListenAddr (addr : string)
| ListenAddrDidNotResolve (addr : string)
| AuthOffOnNonLoopback (addr : string)
| AuthRequiresTls (addr : string)
| AuthOverPlainHttp.

Inductive Warning :=
| AllowInsecureHasNoEffect
| NoVerifyHasNoEffect
| TrinoCertificateUnverified
| PlaintextAuthHasNoEffectWithSsl
| ForwardingPasswordsOverHttp
| PlaintextAuthHasNoEffectWithoutAuth
| OpenBindWithoutAuth
| PlaintextLoopbackAuth.

(** What the operator is told: the error's outermost message. *)
Definition policy_message (e : PolicyError) : string :=
  match e with
  | InvalidListenAddr addr => "invalid --listen-addr: " ++ addr
  | ListenAddrDidNotResolve addr => "--listen-addr " ++ addr ++ " did not resolve to any address"
  | AuthOffOnNonLoopback addr =>
    "auth is disabled and the listen address (" ++ addr ++ ") is not loopback. " ++
    "That combination would expose Trino to every network-reachable client " ++
    "without authentication. Pick one of the following: " ++
    "(a) bind to 127.0.0.1 / [::1] / localhost for local development; " ++
    "(b) enable auth with `--auth` plus TLS via `--tls-cert` and `--tls-key`; " ++
    "(c) explicitly opt in to unauthenticated network access with " ++
    "`--allow-insecure-listener` (only when Trino itself authenticates " ++
    "or the network is otherwise trusted)."
  | AuthRequiresTls addr =>
    "--auth on non-loopback bind (" ++ addr ++ ") requires TLS. " ++
    "Set --tls-cert and --tls-key, or bind to 127.0.0.1 / [::1] / localhost for dev."
  | AuthOverPlainHttp =>
    "--auth requires either --trino-ssl (HTTPS to Trino) or " ++
    "--trino-allow-plaintext-auth (forward credentials over plain HTTP). " ++
    "Without one, the Trino client will refuse to send the password and " ++
    "every authenticated PG connection will fail."
  end.

#[export] Instance AuthPosture_eq_dec : EqDecision AuthPosture.
Proof. solve_decision. Defined.
#[export] Instance Warning_eq_dec : EqDecision Warning.
Proof. solve_decision. Defined.

(** Warnings logged so far and the outcome. *)
Definition Checked (A : Type) : Type := (list Warning * result PolicyError A).

Definition pass {A} (a : A) : Checked A := ([], Ok a).
Definition bail {A} (e : PolicyError) : Checked A := ([], Err e).
Definition warn (w : Warning) : Checked unit := ([w], Ok tt).
Definition when (b : bool) (c : Checked unit) : Checked unit := if b then c else pass tt.

Definition cbind {A B} (c : Checked A) (k : A -> Checked B) : Checked B :=
  match c with
  | (ws, Ok a) => let (ws', r) := k a in ((ws ++ ws')%list, r)
  | (ws, Err e) => (ws, Err e)
  end.

Notation "'check' x ':=' c 'in' k" := (cbind c (fun x => k))
  (at level 10, x binder, c at level 100, k at level 200) : rust_scope.

Local Open Scope rust_scope.

Definition listen_addr_is_loopback `{NetEnv} (addr : string) : Checked bool :=
  match parse_socket_addr addr with
  | Some ip => pass (is_loopback ip)
  | None =>
    match to_socket_addrs addr with
    | None => bail (InvalidListenAddr addr)
    | Some [] => bail (ListenAddrDidNotResolve addr)
    | Some resolved => pass (forallb is_loopback resolved)
    end
  end.

Definition has_tls (c : Config) : bool :=
  match tls_cert c, tls_key c with
  | Some _, Some _ => true
  | _, _ => false
  end.

Definition classify `{NetEnv} (c : Config) : Checked AuthPosture :=
  if negb (auth c) then
    check loopback := listen_addr_is_loopback (listen_addr c) in
    if (loopback : bool) then pass DisabledLoopback
    else if allow_insecure_listener c then pass DisabledOpenBind
    else bail (AuthOffOnNonLoopback (listen_addr c))
  else
    check _ := when (allow_insecure_listener c) (warn AllowInsecureHasNoEffect) in
    if has_tls c then pass CleartextRequiresTls
    else
      check loopback := listen_addr_is_loopback (listen_addr c) in
      if (loopback : bool) then pass CleartextLoopback
      else bail (AuthRequiresTls (listen_addr c)).

Definition validate_trino_posture (c : Config) : Checked unit :=
  check _ := when (trino_tls_no_verify c)
    (if negb (trino_ssl c) then warn NoVerifyHasNoEffect else warn TrinoCertificateUnverified) in
  check _ := when (trino_allow_plaintext_auth c)
    (if trino_ssl c then warn PlaintextAuthHasNoEffectWithSsl
     else if auth c then warn ForwardingPasswordsOverHttp
     else warn PlaintextAuthHasNoEffectWithoutAuth) in
  if auth c && negb (trino_ssl c) && negb (trino_allow_plaintext_auth c)
  then bail AuthOverPlainHttp
  else pass tt.

Definition validate `{NetEnv} (c : Config) : Checked AuthPosture :=
  check posture := classify c in
  check _ := validate_trino_posture c in
  check _ := match posture with
             | DisabledLoopback | CleartextRequiresTls => pass tt
             | DisabledOpenBind => warn OpenBindWithoutAuth
             | CleartextLoopback => warn PlaintextLoopbackAuth
             end in
  pass posture.

(** ** Properties *)

Section Policy.
Context `{NetEnv}.

(** The bind address is known to be loopback (or not). *)
Definition bind_loopback (c : Config) (b : bool) : Prop :=
  snd (listen_addr_is_loopback (listen_addr c)) = Ok b.

(** README's table, as a predicate: the combinations the operator may run. *)
Definition admissible (c : Config) (loopback : bool) : bool :=
  if auth c
  then (has_tls c || loopback) && (trino_ssl c || trino_allow_plaintext_auth c)
  else loopback || allow_insecure_listener c.

Definition posture_of (c : Config) (loopback : bool) : AuthPosture :=
  if auth c then (if has_tls c then CleartextRequiresTls else CleartextLoopback)
  else (if loopback then DisabledLoopback else DisabledOpenBind).

Lemma listen_addr_pure addr : fst (listen_addr_is_loopback addr) = [].
Proof. unfold listen_addr_is_loopback. repeat break_match; done. Qed.

Lemma listen_addr_ok addr b :
  snd (listen_addr_is_loopback addr) = Ok b -> listen_addr_is_loopback addr = ([], Ok b).
Proof.
  pose proof (listen_addr_pure addr). destruct (listen_addr_is_loopback addr). simpl in *. congruence.
Qed.

(** C27: For an address that resolves, the gateway starts exactly on the
    combinations of the README's table, and with the posture the table names:
    authentication off needs a loopback bind or the explicit opt-in,
    authentication on needs TLS or a loopback bind, and HTTPS to Trino or the
    explicit opt-in. *)
Theorem validate_decides_table c b :
  bind_loopback c b ->
  (if admissible c b
   then snd (validate c) = Ok (posture_of c b)
   else exists e, snd (validate c) = Err e).
Proof.
  intros Hb. apply listen_addr_ok in Hb.
  unfold admissible, posture_of, validate, classify, validate_trino_posture. rewrite Hb.
  destruct (auth c), (has_tls c), b, (trino_ssl c), (trino_allow_plaintext_auth c),
    (allow_insecure_listener c), (trino_tls_no_verify c); simpl; eauto.
Qed.

(** No accepted insecure setting is silent: an open unauthenticated bind,
    a plaintext password challenge, forwarding of passwords over plain HTTP
    and an unverified Trino certificate each log a warning of their own. *)
Theorem insecure_settings_warn c p :
  snd (validate c) = Ok p ->
  (p = DisabledOpenBind -> OpenBindWithoutAuth ∈ fst (validate c))
  /\ (p = CleartextLoopback -> PlaintextLoopbackAuth ∈ fst (validate c))
  /\ (auth c = true -> trino_ssl c = false -> ForwardingPasswordsOverHttp ∈ fst (validate c))
  /\ (trino_ssl c = true -> trino_tls_no_verify c = true ->
      TrinoCertificateUnverified ∈ fst (validate c)).
Proof.
  unfold validate, classify, validate_trino_posture.
  pose proof (listen_addr_pure (listen_addr c)) as Hp.
  destruct (listen_addr_is_loopback (listen_addr c)) as [ws [[]|e]]; simpl in Hp; subst ws;
    destruct (auth c), (has_tls c), (trino_ssl c), (trino_allow_plaintext_auth c),
      (allow_insecure_listener c), (trino_tls_no_verify c); simpl;
    intros [= <-]; repeat split; intros; try done; set_solver.
Qed.

End Policy.

(** A resolver for the examples: one literal loopback address, one literal
    public one, and one name that resolves to both. *)
Definition sample_net : NetEnv :=
  {| parse_socket_addr a :=
       if String.eqb a "127.0.0.1:5432" then Some (V4 127 0 0 1)
       else if String.eqb a "0.0.0.0:5432" then Some (V4 0 0 0 0) else None;
     to_socket_addrs a :=
       if String.eqb a "mixed:5432" then Some [V4 127 0 0 1; V4 203 0 113 9] else None |}.

Definition with_auth (c : Config) (addr : string) (tls : bool) : Config :=
  {| listen_addr := addr;
     tls_cert := if tls then Some "/tmp/cert" else None;
     tls_key := if tls then Some "/tmp/key" else None;
     trino_host := trino_host c; trino_port := trino_port c; trino_catalog := trino_catalog c;
     trino_schema := trino_schema c; trino_user := trino_user c; trino_ssl := true;
     trino_tls_no_verify := trino_tls_no_verify c;
     trino_allow_plaintext_auth := trino_allow_plaintext_auth c; auth := true;
     allow_insecure_listener := allow_insecure_listener c; max_connections := max_connections c |}.

Lemma validate_decides_table_witness :
  @bind_loopback sample_net (with_auth default_config "mixed:5432" false) false
  /\ exists e, snd (@validate sample_net (with_auth default_config "mixed:5432" false)) = Err e.
Proof.
  split; [reflexivity|].
  exact (@validate_decides_table sample_net (with_auth default_config "mixed:5432" false) false eq_refl).
Defined.

Lemma insecure_settings_warn_witness :
  PlaintextLoopbackAuth
    ∈ fst (@validate sample_net (with_auth default_config "127.0.0.1:5432" false)).
Proof.
  apply (@insecure_settings_warn sample_net (with_auth default_config "127.0.0.1:5432" false)
    CleartextLoopback eq_refl). reflexivity.
Defined.
