(* ===== verification/Trino.v ===== *)
(** * JSON values and the Trino client

    Data of [serde_json] and [trino-rust-client] as the gateway reads it, and
    the client's operations as the class [TrinoApi].

    A [serde_json::Number] is represented by the four observations the source
    makes of it ([as_i64], [as_u64], [as_f64], [to_string]); [number_ok], in
    the file RustFloat, states what the crate documents about them. A 64-bit float is Stdlib's
    [spec_float]. *)

From Stdlib Require Export SpecFloat.
From S2P Require Import Prelude PgWire.

Local Open Scope string_scope.

Abbreviation f64 := spec_float.

Record Number := mk_number {
  as_i64 : option Z;
  as_u64 : option Z;
  as_f64 : option f64;
  number_text : string
}.

#[local] Set Warnings "-register-all".

(** [serde_json::Value]. *)
Inductive Value :=
| Null
| Bool (b : bool)
| Num (n : Number)
| Str (s : string)
| Array (l : list Value)
| Object (fields : list (string * Value)).

(** [Value::as_str], [Value::as_i64]. *)
Definition value_as_str (v : Value) : option string :=
  match v with
  | Str s => Some s
  | _ => None
  end.

Definition value_as_i64 (v : Value) : option Z :=
  match v with
  | Num n => as_i64 n
  | _ => None
  end.

(** ** The client *)

(** [trino_rust_client::models::Column] (name and type) and one result page. *)
Record Column := mk_column {
  col_name : string;
  col_ty : string
}.

Inductive QueryResultData :=
| Direct (rows : list (list Value))
| Spooled.

Record QueryResult := mk_query_result {
  result_id : string;
  result_columns : option (list Column);
  result_data : option QueryResultData;
  result_next_uri : option string;
  result_error : option string
}.

(** What the gateway puts into [ClientBuilder]; the built client is
    identified with it. *)
Record TrinoClient := mk_trino_client {
  client_user : string;
  client_host : string;
  client_port : Z;
  client_catalog : string;
  client_schema : string;
  client_secure : bool;
  client_no_verify : bool;
  client_auth : option (string * string);
  client_auth_http_insecure : bool
}.

#[export] Instance TrinoClient_eq_dec : EqDecision TrinoClient.
Proof. solve_decision. Defined.

(** The operations of [trino_rust_client::Client] on a server whose state has
    type [Srv]. Errors are their display text. *)
Class TrinoApi (Srv : Type) := {
  client_build : TrinoClient -> result string unit;
  trino_get : Srv -> TrinoClient -> string -> result string QueryResult * Srv;
  trino_get_next : Srv -> TrinoClient -> string -> result string QueryResult * Srv;
  trino_get_all : Srv -> TrinoClient -> string -> result string (list (list Value)) * Srv;
  trino_cancel : Srv -> TrinoClient -> string -> result string unit * Srv
}.

(** Documented behaviour of [ClientBuilder::build]: Basic credentials over
    plain HTTP are refused unless explicitly allowed. *)
Definition build_refuses_plaintext_credentials {Srv} (api : TrinoApi Srv) : Prop :=
  forall c, is_Some (client_auth c) -> client_secure c = false ->
            client_auth_http_insecure c = false -> exists e, client_build c = Err e.
