(* ===== verification/World.v ===== *)
(** * The gateway's mutable world

    The process-wide state the handlers share (the cancel registry, the slots
    of running queries, the connection counter, the Trino server behind the
    client) and the state-and-error monad they run in. *)

From S2P Require Import Prelude PgWire Trino.

Local Open Scope string_scope.

(** [pgwire::messages::startup::SecretKey]: the gateway issues [I32] keys; a
    client may send any key in a [CancelRequest]. *)
Inductive SecretKey :=
| I32 (z : Z)
| KeyBytes (b : string).

#[export] Instance SecretKey_eq_dec : EqDecision SecretKey.
Proof. solve_decision. Defined.

#[export] Instance SecretKey_countable : Countable SecretKey.
Proof.
  apply (inj_countable'
    (fun k => match k with I32 z => inl z | KeyBytes b => inr b end)
    (fun e => match e with inl z => I32 z | inr b => KeyBytes b end)).
  by intros [z|b].
Defined.

(** [ActiveQueryId = Arc<Mutex<Option<String>>>]: a location in the heap of
    slots, shared between the connection, its registry entry and its streams. *)
Abbreviation ActiveQueryId := nat.

Record CancelEntry := mk_cancel_entry {
  entry_client : TrinoClient;
  entry_slot : ActiveQueryId
}.

(** Process-wide state. [submitted] and [cancelled] record the statements sent
    to Trino and the cancel requests, oldest first. *)
Record World (Srv : Type) := mk_world {
  srv : Srv;
  submitted : list (TrinoClient * string);
  cancelled : list (TrinoClient * string);
  next_pid : Z;
  registry : gmap (Z * SecretKey) CancelEntry;
  slots : gmap ActiveQueryId (option string);
  next_slot : ActiveQueryId
}.

Arguments mk_world {Srv}.
Arguments srv {Srv}.
Arguments submitted {Srv}.
Arguments cancelled {Srv}.
Arguments next_pid {Srv}.
Arguments registry {Srv}.
Arguments slots {Srv}.
Arguments next_slot {Srv}.

Definition set_srv {Srv} (x : Srv) (w : World Srv) : World Srv :=
  mk_world x (submitted w) (cancelled w) (next_pid w) (registry w) (slots w) (next_slot w).
Definition set_registry {Srv} x (w : World Srv) : World Srv :=
  mk_world (srv w) (submitted w) (cancelled w) (next_pid w) x (slots w) (next_slot w).
Definition set_slots {Srv} x (w : World Srv) : World Srv :=
  mk_world (srv w) (submitted w) (cancelled w) (next_pid w) (registry w) x (next_slot w).
Definition log_submitted {Srv} q (w : World Srv) : World Srv :=
  mk_world (srv w) (submitted w ++ [q]) (cancelled w) (next_pid w) (registry w) (slots w) (next_slot w).
Definition log_cancelled {Srv} c (w : World Srv) : World Srv :=
  mk_world (srv w) (submitted w) (cancelled w ++ [c]) (next_pid w) (registry w) (slots w) (next_slot w).

(** ** State and errors *)

(** A handler: runs in a state and returns or fails, keeping the effects it
    had (Rust's early return does not undo anything). *)
Definition Io (S A : Type) : Type := S -> PgWireResult A * S.

Definition ret {S A} (a : A) : Io S A := fun w => (Ok a, w).
Definition throw {S A} (e : PgWireError) : Io S A := fun w => (Err e, w).
Definition lift {S A} (r : PgWireResult A) : Io S A := fun w => (r, w).
Definition modify {S} (f : S -> S) : Io S unit := fun w => (Ok tt, f w).
Definition gets {S A} (f : S -> A) : Io S A := fun w => (Ok (f w), w).

Definition bind {S A B} (c : Io S A) (k : A -> Io S B) : Io S B :=
  fun w => match c w with
           | (Ok a, w') => k a w'
           | (Err e, w') => (Err e, w')
           end.

Notation "'let!' x ':=' c 'in' k" := (bind c (fun x => k))
  (at level 10, x binder, c at level 100, k at level 200) : rust_scope.

(** Unfold the monad's plumbing. *)
Ltac unfold_io :=
  unfold bind, ret, throw, lift, modify, gets in *.

(** ** Asynchronous code

    An [async fn] is a resumption: it has returned, or it performs one atomic
    action on the state and goes on with what it saw. Between two actions other
    tasks may run; that is how Gateway interleaves connections. [OutOfFuel]
    marks a loop whose bound was too small. *)
Inductive Task (S A : Type) : Type :=
| Done (r : PgWireResult A)
| Act (effect : S -> S) (next : S -> Task S A)
| OutOfFuel.

Arguments Done {S A} r.
Arguments Act {S A} effect next.
Arguments OutOfFuel {S A}.

(** One atomic action. *)
Definition task {S A} (c : Io S A) : Task S A := Act (fun s => snd (c s)) (fun s => Done (fst (c s))).

(** [.await?]: go on with the value, or return the error. *)
Fixpoint await {S A B} (c : Task S A) (k : A -> Task S B) : Task S B :=
  match c with
  | Done (Ok a) => k a
  | Done (Err e) => Done (Err e)
  | Act effect next => Act effect (fun s => await (next s) k)
  | OutOfFuel => OutOfFuel
  end.

Notation "'let*' x ':=' c 'in' k" := (await c (fun x => k))
  (at level 10, x binder, c at level 100, k at level 200) : rust_scope.

(** [.await] without the question mark: the result is a value. *)
Fixpoint attempt {S A} (c : Task S A) : Task S (PgWireResult A) :=
  match c with
  | Done r => Done (Ok r)
  | Act effect next => Act effect (fun s => attempt (next s))
  | OutOfFuel => OutOfFuel
  end.

(** A task on a part of a larger state. *)
Fixpoint zoom {S T A} (get : T -> S) (set : S -> T -> T) (c : Task S A) : Task T A :=
  match c with
  | Done r => Done r
  | Act effect next => Act (fun t => set (effect (get t)) t) (fun t => zoom get set (next (get t)))
  | OutOfFuel => OutOfFuel
  end.

(** Running alone to the end: the result and the state, or [None] when the fuel
    of a loop ran out. A task applied to a state is run. *)
Fixpoint run {S A} (c : Task S A) (s : S) : option (PgWireResult A * S) :=
  match c with
  | Done r => Some (r, s)
  | Act effect next => run (next s) (effect s)
  | OutOfFuel => None
  end.

Coercion run : Task >-> Funclass.

Lemma run_task {S A} (c : Io S A) s : task c s = Some (c s).
Proof. simpl. by destruct (c s). Qed.

Lemma run_await {S A B} (c : Task S A) (k : A -> Task S B) s :
  await c k s = match c s with
                | Some (Ok a, s') => k a s'
                | Some (Err e, s') => Some (Err e, s')
                | None => None
                end.
Proof. revert s. induction c as [[a|e]|effect next IH|]; intros s; simpl; auto. Qed.

Lemma run_attempt {S A} (c : Task S A) s :
  attempt c s = match c s with
                | Some (r, s') => Some (Ok r, s')
                | None => None
                end.
Proof. revert s. induction c as [r|effect next IH|]; intros s; simpl; auto. Qed.

Lemma run_zoom {S T A} (get : T -> S) (set : S -> T -> T) (c : Task S A) t :
  (forall s t, get (set s t) = s) -> (forall s s' t, set s (set s' t) = set s t) ->
  (forall t, set (get t) t = t) ->
  zoom get set c t = match c (get t) with
                     | Some (r, s') => Some (r, set s' t)
                     | None => None
                     end.
Proof.
  intros Hgs Hss Hsg. revert t. induction c as [r|effect next IH|]; intros t; simpl; [by rewrite Hsg| |done].
  rewrite IH, Hgs. destruct (next _ _) as [[r s']|]; [|done]. by rewrite Hss.
Qed.

Create Rewrite HintDb task_run.
#[export] Hint Rewrite @run_task @run_await @run_attempt : task_run.

(** Run a task step by step. *)
Ltac unfold_task := autorewrite with task_run in *; unfold_io.
