(* ===== verification/RelyGuarantee.v ===== *)
(** * Rely-guarantee reasoning about tasks

    A task runs among others: between two of its actions the state may change in
    any way [env] allows. [rg] says that, whatever they do, each of the task's
    own actions stays within [guar], and that its result and the state it ends
    in satisfy a postcondition. The flag [total] asks in addition that no loop
    runs out of fuel, so that every execution ends with a result. *)

From S2P Require Import Prelude PgWire World.

Local Open Scope rust_scope.

Section RG.
Context {S : Type} (total : bool) (env guar : S -> S -> Prop) `{!PreOrder env}.

Fixpoint rg {A} (post : PgWireResult A -> S -> Prop) (t : Task S A) (s : S) : Prop :=
  match t with
  | Done r => forall s1, env s s1 -> post r s1
  | Act effect next => forall s1, env s s1 -> guar s1 (effect s1) /\ rg post (next s1) (effect s1)
  | OutOfFuel => total = false
  end.

(** Interference before the task starts does no harm. *)
Lemma rg_env {A} (post : PgWireResult A -> S -> Prop) t s s1 : env s s1 -> rg post t s -> rg post t s1.
Proof. intros He. destruct t; simpl; [| |done]; intros H s2 H2; apply H; by trans s1. Qed.

Lemma rg_mono {A} (post post' : PgWireResult A -> S -> Prop) t s :
  (forall r s, post r s -> post' r s) -> rg post t s -> rg post' t s.
Proof.
  intros Hp. revert s. induction t as [r|effect next IH|]; simpl; [by eauto| |done].
  intros s H s1 Hs. destruct (H s1 Hs). split; [done|]. by apply IH.
Qed.

Lemma rg_await {A B} (post : PgWireResult B -> S -> Prop) (c : Task S A) k s :
  rg (fun r s => match r with
                 | Ok a => rg post (k a) s
                 | Err e => forall s1, env s s1 -> post (Err e) s1
                 end) c s ->
  rg post (await c k) s.
Proof.
  revert s. induction c as [[a|e]|effect next IH|]; simpl; [| | |done].
  - intros s H. by apply H.
  - intros s H s1 Hs. by apply (H s1 Hs).
  - intros s H s1 Hs. destruct (H s1 Hs). split; [done|]. by apply IH.
Qed.

Lemma rg_attempt {A} (post : PgWireResult (PgWireResult A) -> S -> Prop) (c : Task S A) s :
  rg (fun r => post (Ok r)) c s -> rg post (attempt c) s.
Proof.
  revert s. induction c as [r|effect next IH|]; simpl; [done| |done].
  intros s H s1 Hs. destruct (H s1 Hs). split; [done|]. by apply IH.
Qed.

Lemma rg_task {A} (post : PgWireResult A -> S -> Prop) (c : Io S A) s :
  (forall s1, env s s1 -> guar s1 (snd (c s1)) /\ forall s2, env (snd (c s1)) s2 -> post (fst (c s1)) s2) ->
  rg post (task c) s.
Proof. intros H s1 Hs. by apply H. Qed.

(** Without interference: the sum of the actions, and the postcondition. *)
Lemma rg_run {A} (R : S -> S -> Prop) `{!PreOrder R} (post : PgWireResult A -> S -> Prop) t s r s' :
  (forall s s', guar s s' -> R s s') -> rg post t s -> run t s = Some (r, s') -> R s s' /\ post r s'.
Proof.
  intros HR. revert s. induction t as [r0|effect next IH|]; simpl; [| |done].
  - intros s H [= <- <-]. split; [done|]. by apply H.
  - intros s H E. destruct (H s) as [Hg Hr]; [done|]. destruct (IH s (effect s) Hr E) as [HR' Hp].
    split; [|done]. trans (effect s); [by apply HR|done].
Qed.

(** ** Triples

    The same with a precondition that is also an invariant of the state,
    stable under interference, and a postcondition on the value alone. *)
Context (I : S -> Prop) (stable : forall s s1, env s s1 -> I s -> I s1).

Definition triple {A} (t : Task S A) (Q : A -> Prop) : Prop :=
  forall s, I s -> rg (fun r s => I s /\ forall a, r = Ok a -> Q a) t s.

Lemma triple_io {A} (c : Io S A) (Q : A -> Prop) :
  (forall s, I s -> I (snd (c s)) /\ guar s (snd (c s)) /\ forall a, fst (c s) = Ok a -> Q a) ->
  triple (task c) Q.
Proof.
  intros H s Hs. apply rg_task. intros s1 He. destruct (H s1) as (HI & Hg & Hq); [by eapply stable|].
  split; [done|]. intros s2 He2. split; [by eapply stable|done].
Qed.

Lemma triple_done {A} (r : PgWireResult A) (Q : A -> Prop) :
  (forall a, r = Ok a -> Q a) -> triple (Done r) Q.
Proof. intros H s Hs s1 He. split; [by eapply stable|done]. Qed.

Lemma triple_await {A B} (c : Task S A) (k : A -> Task S B) P Q :
  triple c P -> (forall a, P a -> triple (k a) Q) -> triple (await c k) Q.
Proof.
  intros Hc Hk s Hs. apply rg_await. eapply rg_mono; [|by apply Hc]. intros [a|e] s1 [HI HP].
  - apply Hk; [by apply HP|done].
  - intros s2 He. split; [by eapply stable|done].
Qed.

Lemma triple_attempt {A} (c : Task S A) (Q : A -> Prop) :
  triple c Q -> triple (attempt c) (fun r => forall a, r = Ok a -> Q a).
Proof.
  intros Hc s Hs. apply rg_attempt. eapply rg_mono; [|by apply Hc]. intros r s1 [HI HQ].
  split; [done|]. by intros r' [= <-].
Qed.

Lemma triple_weaken {A} (t : Task S A) (P Q : A -> Prop) :
  (forall a, P a -> Q a) -> triple t P -> triple t Q.
Proof. intros HPQ Ht s Hs. eapply rg_mono; [|by apply Ht]. intros r s1 [HI HP]. split; [done|]. eauto. Qed.

End RG.

(** An action that returns a value or fails without touching the state. *)
Lemma triple_ret {S} total (env guar : S -> S -> Prop) `{!PreOrder env, !Reflexive guar} I
    (stable : forall s s1, env s s1 -> I s -> I s1) {A} (a : A) (Q : A -> Prop) :
  Q a -> triple total env guar I (task (ret a)) Q.
Proof. intros Hq. apply triple_io; [done|]. intros s Hs. repeat split; [done..|]. by intros b [= <-]. Qed.

Lemma triple_throw {S} total (env guar : S -> S -> Prop) `{!PreOrder env, !Reflexive guar} I
    (stable : forall s s1, env s s1 -> I s -> I s1) {A} e (Q : A -> Prop) :
  triple total env guar I (task (throw e)) Q.
Proof. apply triple_io; [done|]. intros s Hs. by repeat split. Qed.

Lemma triple_modify {S} total (env guar : S -> S -> Prop) `{!PreOrder env} I
    (stable : forall s s1, env s s1 -> I s -> I s1) (f : S -> S) :
  (forall s, I s -> I (f s) /\ guar s (f s)) -> triple total env guar I (task (modify f)) (fun _ => True).
Proof. intros H. apply triple_io; [done|]. intros s Hs. destruct (H s Hs). by repeat split. Qed.

(** A task on a part of the state. *)
Lemma triple_zoom {S T} total (envS guarS : S -> S -> Prop) (envT guarT : T -> T -> Prop)
    `{!PreOrder envS, !PreOrder envT} (I : T -> Prop) (get : T -> S) (set : S -> T -> T)
    (stable : forall s s1, envT s s1 -> I s -> I s1) {A} (t : Task S A) Q :
  (forall x y, envT x y -> envS (get x) (get y)) -> (forall s x, get (set s x) = s) ->
  (forall s x, I x -> guarS (get x) s -> I (set s x) /\ guarT x (set s x)) ->
  triple total envS guarS (fun _ => True) t Q -> triple total envT guarT I (zoom get set t) Q.
Proof.
  intros He Hgs Hset Ht x Hx.
  enough (forall s, s = get x ->
            rg total envS guarS (fun r _ => True /\ forall a, r = Ok a -> Q a) t s ->
            rg total envT guarT (fun r x => I x /\ forall a, r = Ok a -> Q a) (zoom get set t) x) as H
    by by apply (H (get x)), Ht.
  clear Ht. intros s ->. revert x Hx. induction t as [r|effect next IH|]; simpl; intros x Hx Hr.
  - intros y Hy. split; [by eapply stable|]. by apply (Hr (get y)), He.
  - intros y Hy. destruct (Hr (get y)) as [Hg Hn]; [by apply He|].
    destruct (Hset (effect (get y)) y) as [HI HG]; [by eapply stable|done|].
    split; [done|]. apply IH; [done|]. by rewrite Hgs.
  - done.
Qed.
