(* ===== verification/Response.v ===== *)
(** * Responses and result streams as data

    What the query handlers return to pgwire: the responses, and the row
    stream of a Trino query as the captured variables of its generator together
    with how far it has run. TrinoStream says how a stream runs. *)

From S2P Require Import Prelude PgWire Trino World.

Local Open Scope string_scope.

(** [pgwire::api::portal::Format], the result formats of a [Bind], by the only
    observation the gateway makes of it: [format_for]. *)
Abbreviation Format := (nat -> FieldFormat).

(** [TrinoColumn] (trino_stream.rs). *)
Record TrinoColumn := mk_trino_column {
  tc_name : string;
  trino_type : string
}.

(** [impl From<&Column> for TrinoColumn]. *)
Definition from_column (col : Column) : TrinoColumn := mk_trino_column (col_name col) (col_ty col).

(** A data row: its fields, [None] for SQL NULL. *)
Abbreviation DataRow := (list (option string)).

(** How far a stream has run: never polled; running with rows still to yield
    and perhaps another page; about to leave its loop after yielding an error;
    finished. The drop guard exists in the two middle phases. *)
Inductive Phase :=
| Fresh
| Running (pending : list (list Value)) (next_uri : option string)
| Breaking
| Finished.

(** The generator of [execute_trino_query]: its captured variables. *)
Record RowStream := mk_row_stream {
  stream_client : TrinoClient;
  stream_columns : list TrinoColumn;
  stream_schema : list FieldInfo;
  stream_active_query_id : option ActiveQueryId;
  initial_rows : list (list Value);
  initial_next_uri : option string;
  phase : Phase
}.

(** Rows that are already there ([stream::iter], [stream::empty]), or a Trino
    stream. *)
Inductive RowSource :=
| Ready (rows : list (PgWireResult DataRow))
| Streaming (s : RowStream).

(** [pgwire::api::results::Response], the variants the gateway builds. *)
Inductive Response :=
| RQuery (row_schema : list FieldInfo) (rows : RowSource)
| RExecution (tag : string)
| RError (info : ErrorInfo).
