(* ===== verification/Session.v ===== *)
(** * Connection state and the cancel registry
      (src/src/session.rs, src/src/cancel.rs, parts of src/src/startup.rs)

    The registry maps the [(pid, secret_key)] pair of a connection to its Trino
    client and to the slot that holds the id of its running query. Slots are
    locations in a heap, so the aliasing between a connection, its registry
    entry and its result streams is explicit. *)

From S2P Require Import Prelude PgWire Config Trino World.

Local Open Scope string_scope.
Local Open Scope rust_scope.

(** ** Definitions *)

Section Session.
Context {Srv : Type}.
Implicit Types w : World Srv.

Definition register_cancel (pid : Z) (secret_key : SecretKey) (trino_client : TrinoClient)
  : Io (World Srv) ActiveQueryId :=
  fun w =>
    let active_query_id := next_slot w in
    (Ok active_query_id,
     mk_world (srv w) (submitted w) (cancelled w) (next_pid w)
       (<[(pid, secret_key) := mk_cancel_entry trino_client active_query_id]> (registry w))
       (<[active_query_id := None]> (slots w))
       (S active_query_id)).

Definition lookup_cancel (pid : Z) (secret_key : SecretKey) w : option (TrinoClient * ActiveQueryId) :=
  match registry w !! (pid, secret_key) with
  | Some e => Some (entry_client e, entry_slot e)
  | None => None
  end.

Definition unregister_cancel (pid : Z) (secret_key : SecretKey) : Io (World Srv) unit :=
  modify (fun w => set_registry (delete (pid, secret_key) (registry w)) w).

(** [CONNECTION_PID.fetch_add(1)] wraps at 32 bits; [secret] is the value
    [rand::random::<i32>] returned. *)
Definition new_pid_and_secret_key (secret : Z) : Io (World Srv) (Z * SecretKey) :=
  fun w =>
    (Ok (next_pid w, I32 secret),
     mk_world (srv w) (submitted w) (cancelled w) (wrap_i32 (next_pid w + 1))
       (registry w) (slots w) (next_slot w)).

(** The fields of [ConnectionState] other than the portal cache, which only
    the extended-query handler touches (see Extended). *)
Record ConnectionState := mk_connection_state {
  trino_client : TrinoClient;
  config : Config;
  active_query_id : ActiveQueryId;
  cancel_key : Z * SecretKey
}.

(** [establish_session] up to the point where the connection state exists: a
    fresh key pair, the registration, the state stored in the session. *)
Definition establish_state (c : Config) (client : TrinoClient) (secret : Z)
  : Io (World Srv) ConnectionState :=
  let! key := new_pid_and_secret_key secret in
  let! slot := register_cancel (fst key) (snd key) client in
  ret (mk_connection_state client c slot key).

(** [Drop for ConnectionState]. *)
Definition drop_connection_state (cs : ConnectionState) : Io (World Srv) unit :=
  unregister_cancel (fst (cancel_key cs)) (snd (cancel_key cs)).

(** [set_active_query_id] (trino_stream.rs); a poisoned mutex is overwritten
    just the same. *)
Definition set_active_query_id (slot : option ActiveQueryId) (id : option string)
  : Io (World Srv) unit :=
  match slot with
  | None => ret tt
  | Some l => modify (fun w => set_slots (<[l := id]> (slots w)) w)
  end.

Definition slot_value w (l : ActiveQueryId) : option string := default None (slots w !! l).

(** [trino_client.cancel(&qid).await], recorded; a failure is only logged. *)
Definition client_cancel `{TrinoApi Srv} (client : TrinoClient) (qid : string) : Io (World Srv) unit :=
  fun w =>
    let (_, s') := trino_cancel (srv w) client qid in
    (Ok tt, log_cancelled (client, qid) (set_srv s' w)).

(** The rest of [on_cancel_request] once the registry's mutex is released: the
    read under the slot's mutex and the call to Trino. *)
Definition cancel_slot `{TrinoApi Srv} (client : TrinoClient) (slot : ActiveQueryId) : Task (World Srv) unit :=
  let* query_id := task (gets (fun w => slot_value w slot)) in
  match query_id with
  | None => Done (Ok tt)
  | Some qid => task (client_cancel client qid)
  end.

(** [GatewayCancelHandler::on_cancel_request] *)
Definition on_cancel_request `{TrinoApi Srv} (pid : Z) (secret_key : SecretKey)
  : Task (World Srv) unit :=
  let* found := task (gets (lookup_cancel pid secret_key)) in
  match found with
  | None => Done (Ok tt)
  | Some (client, slot) => cancel_slot client slot
  end.

(** ** The process *)

(** The world together with the live connections, by an identity of ours, and
    the number of key pairs handed out so far. Gateway says how it evolves. *)
Record Sys := mk_sys {
  world : World Srv;
  conns : gmap nat ConnectionState;
  allocated : Z
}.

Definition initial (x : Srv) : Sys :=
  mk_sys (mk_world x [] [] 1 ∅ ∅ 0) ∅ 0.

End Session.
