(* ===== verification/SessionFacts.v ===== *)
(** * The registry invariant

    Facts about Session: the registry holds exactly the live connections (for
    the first 2^32 connections, after which the 32-bit pid counter has
    wrapped); establishing and dropping keep it so, and a key pair that is found
    belongs to a live connection. Gateway proves the invariant of the whole
    process from these. *)

From S2P Require Import Prelude PgWire Config Trino World Session.

Local Open Scope string_scope.
Local Open Scope rust_scope.

(** The pid of the [n]-th connection, counting from zero. *)
Definition pid_of (n : Z) : Z := wrap_i32 (1 + n).

Lemma pid_of_inj n m :
  (0 <= n < u32_modulus)%Z -> (0 <= m < u32_modulus)%Z -> pid_of n = pid_of m -> n = m.
Proof.
  unfold pid_of, wrap_i32, u32_modulus. intros Hn Hm H.
  assert (E : ((1 + n + 2147483648) mod 4294967296 = (1 + m + 2147483648) mod 4294967296)%Z) by lia.
  pose proof (Z.div_mod (1 + n + 2147483648) 4294967296 ltac:(lia)).
  pose proof (Z.div_mod (1 + m + 2147483648) 4294967296 ltac:(lia)).
  nia.
Qed.

Lemma pid_of_succ n : wrap_i32 (pid_of n + 1) = pid_of (n + 1).
Proof.
  unfold pid_of, wrap_i32, u32_modulus.
  replace ((1 + n + 2147483648) mod 4294967296 - 2147483648 + 1 + 2147483648)%Z
    with ((1 + n + 2147483648) mod 4294967296 + 1)%Z by lia.
  rewrite Z.add_mod_idemp_l by lia. f_equal. f_equal. lia.
Qed.

(** The connection counter does not keep its promise never to hand out pid
    zero: the 32-bit counter wraps, and connection number 2^32 gets pid 0,
    which Npgsql reads as "no key received". *)
Theorem pid_counter_reaches_zero {Srv} (w : World Srv) secret :
  next_pid w = pid_of (u32_modulus - 1) ->
  fst (new_pid_and_secret_key secret w) = Ok (0%Z, I32 secret).
Proof. intros H. unfold new_pid_and_secret_key. rewrite H. reflexivity. Qed.

Lemma pid_counter_reaches_zero_witness :
  fst (new_pid_and_secret_key 7
         (mk_world tt [] [] (pid_of (u32_modulus - 1)) ∅ ∅ 0)) = Ok (0%Z, I32 7).
Proof. apply pid_counter_reaches_zero. reflexivity. Defined.

Section Invariant.
Context {Srv : Type} `{TrinoApi Srv}.
Implicit Types s : @Sys Srv.

Definition entry_of (cs : ConnectionState) : CancelEntry :=
  mk_cancel_entry (trino_client cs) (active_query_id cs).

(** The registry holds exactly the live connections, each with a key and a
    slot of its own. *)
Record registry_inv s : Prop := {
  inv_allocated : (0 <= allocated s)%Z;
  inv_next_pid : next_pid (world s) = pid_of (allocated s);
  inv_registered : forall cid cs, conns s !! cid = Some cs ->
    registry (world s) !! cancel_key cs = Some (entry_of cs);
  inv_live : forall k e, registry (world s) !! k = Some e ->
    exists cid cs, conns s !! cid = Some cs /\ cancel_key cs = k /\ e = entry_of cs;
  inv_pid : forall cid cs, conns s !! cid = Some cs ->
    exists n, (0 <= n < allocated s)%Z /\ fst (cancel_key cs) = pid_of n;
  inv_slot : forall cid cs, conns s !! cid = Some cs ->
    (active_query_id cs < next_slot (world s))%nat;
  inv_key_inj : forall cid1 cid2 cs1 cs2,
    conns s !! cid1 = Some cs1 -> conns s !! cid2 = Some cs2 ->
    cancel_key cs1 = cancel_key cs2 -> cid1 = cid2;
  inv_slot_inj : forall cid1 cid2 cs1 cs2,
    conns s !! cid1 = Some cs1 -> conns s !! cid2 = Some cs2 ->
    active_query_id cs1 = active_query_id cs2 -> cid1 = cid2
}.

Lemma registry_inv_initial x : registry_inv (initial x).
Proof. by split; simpl; try (intros *; rewrite ?lookup_empty). Qed.

(** A fresh key is not the key of a live connection. *)
Lemma fresh_key s cid cs secret :
  registry_inv s -> (allocated s < u32_modulus)%Z -> conns s !! cid = Some cs ->
  cancel_key cs <> (next_pid (world s), I32 secret).
Proof.
  intros Hi Ha Hc E. destruct (inv_pid _ Hi _ _ Hc) as (n & Hn & Hp).
  rewrite E, (inv_next_pid _ Hi) in Hp. simpl in Hp.
  apply pid_of_inj in Hp; lia || (unfold u32_modulus in *; pose proof (inv_allocated _ Hi); lia).
Qed.

Lemma establish_inv s cid c client secret cs w' :
  registry_inv s -> (allocated s < u32_modulus)%Z -> conns s !! cid = None ->
  establish_state c client secret (world s) = (Ok cs, w') ->
  registry_inv (mk_sys w' (<[cid := cs]> (conns s)) (allocated s + 1)).
Proof.
  intros Hi Ha Hfree E. unfold establish_state, new_pid_and_secret_key, register_cancel, bind, ret in E.
  simpl in E. simplify_eq.
  pose proof (fun i x => fresh_key s i x secret Hi Ha) as Hfresh.
  pose proof (inv_allocated _ Hi) as Ha0.
  split; simpl; try lia.
  - rewrite (inv_next_pid _ Hi). apply pid_of_succ.
  - intros i x Hx. apply lookup_insert_Some in Hx as [[<- <-]|[Hne Hx]]; simpl.
    + by rewrite lookup_insert_eq.
    + rewrite lookup_insert_ne by (symmetry; by eapply Hfresh). by eapply inv_registered.
  - intros k e Hk. apply lookup_insert_Some in Hk as [[<- <-]|[Hne Hk]].
    + eexists cid, _. rewrite lookup_insert_eq. eauto.
    + destruct (inv_live _ Hi _ _ Hk) as (i & x & Hx & ? & ?). exists i, x.
      rewrite lookup_insert_ne by congruence. eauto.
  - intros i x Hx. apply lookup_insert_Some in Hx as [[<- <-]|[Hne Hx]]; simpl.
    + exists (allocated s). split; [lia|]. apply inv_next_pid, Hi.
    + destruct (inv_pid _ Hi _ _ Hx) as (n & ? & ?). exists n. split; [lia|done].
  - intros i x Hx. apply lookup_insert_Some in Hx as [[<- <-]|[Hne Hx]]; simpl; [lia|].
    pose proof (inv_slot _ Hi _ _ Hx). lia.
  - intros i j x y Hx Hy E. apply lookup_insert_Some in Hx as [[<- <-]|[? Hx]], Hy as [[<- <-]|[? Hy]];
      simpl in E; try done.
    + by eapply Hfresh in Hy.
    + by eapply Hfresh in Hx.
    + by eapply inv_key_inj.
  - intros i j x y Hx Hy E. apply lookup_insert_Some in Hx as [[<- <-]|[? Hx]], Hy as [[<- <-]|[? Hy]];
      simpl in E; try done.
    + pose proof (inv_slot _ Hi _ _ Hy). lia.
    + pose proof (inv_slot _ Hi _ _ Hx). lia.
    + by eapply inv_slot_inj.
Qed.

Lemma drop_inv s cid cs w' :
  registry_inv s -> conns s !! cid = Some cs ->
  drop_connection_state cs (world s) = (Ok tt, w') ->
  registry_inv (mk_sys w' (delete cid (conns s)) (allocated s)).
Proof.
  intros Hi Hc E. unfold drop_connection_state, unregister_cancel, modify in E. simplify_eq.
  rewrite <- surjective_pairing.
  split; simpl; try apply Hi.
  - intros i x [Hne Hx]%lookup_delete_Some.
    rewrite lookup_delete_ne; [by eapply inv_registered|].
    intros E. apply Hne. by eapply (inv_key_inj _ Hi).
  - intros k e [Hne Hk]%lookup_delete_Some.
    destruct (inv_live _ Hi _ _ Hk) as (i & x & Hx & ? & ?). exists i, x.
    rewrite lookup_delete_ne by congruence. eauto.
  - intros i x [Hne Hx]%lookup_delete_Some. by eapply inv_pid.
  - intros i x [Hne Hx]%lookup_delete_Some. by eapply inv_slot.
  - intros i j x y [? Hx]%lookup_delete_Some [? Hy]%lookup_delete_Some. by eapply inv_key_inj.
  - intros i j x y [? Hx]%lookup_delete_Some [? Hy]%lookup_delete_Some. by eapply inv_slot_inj.
Qed.

(** A step that leaves the registry and the counters alone keeps the invariant. *)
Lemma frame_inv s w' :
  registry_inv s -> registry w' = registry (world s) -> next_pid w' = next_pid (world s) ->
  next_slot w' = next_slot (world s) -> registry_inv (mk_sys w' (conns s) (allocated s)).
Proof.
  intros Hi Hr Hp Hs. destruct Hi. split; simpl; rewrite ?Hr, ?Hp, ?Hs; done.
Qed.

(** A key pair that is found belongs to a live connection. *)
Lemma lookup_is_live s pid key client slot :
  registry_inv s -> lookup_cancel pid key (world s) = Some (client, slot) ->
  exists cid cs, conns s !! cid = Some cs /\ cancel_key cs = (pid, key)
                 /\ client = trino_client cs /\ slot = active_query_id cs.
Proof.
  unfold lookup_cancel. intros Hi Hl. destruct (registry (world s) !! (pid, key)) as [e|] eqn:E; [|done].
  destruct (inv_live _ Hi _ _ E) as (cid & cs & Hc & Hk & ->). injection Hl as <- <-. by exists cid, cs.
Qed.

End Invariant.
