(* ===== verification/Startup.v ===== *)
(** * Connection startup (src/src/startup.rs)

    The startup handler as a function on the client connection and the world:
    the TLS refusal, the password challenge, the credential check against
    Trino, and the registration of the session. pgwire's own steps (protocol
    negotiation, storing the startup parameters, sending, finishing the
    handshake) are the class [PgWireApi]; the random secret is an argument. *)

From S2P Require Import Prelude PgWire Config Policy Trino World RelyGuarantee Session.

Local Open Scope string_scope.
Local Open Scope rust_scope.

(** ** Server parameters *)

Definition quote : string := String "034"%char "".

Definition SERVER_PARAMS : list (string * string) :=
  [ ("server_version", "16.6");
    ("server_version_num", "160006");
    ("server_encoding", "UTF8");
    ("client_encoding", "UTF8");
    ("DateStyle", "ISO, MDY");
    ("integer_datetimes", "on");
    ("standard_conforming_strings", "on");
    ("TimeZone", "UTC");
    ("IntervalStyle", "postgres");
    ("in_hot_standby", "off");
    ("search_path", quote ++ "$user" ++ quote ++ ", public");
    ("is_superuser", "on");
    ("default_transaction_read_only", "off");
    ("application_name", "");
    ("max_identifier_length", "63");
    ("transaction_isolation", "read committed") ].

(** [GatewayParameterProvider::server_parameters]. *)
Definition server_parameters : option (gmap string string) :=
  Some (list_to_map SERVER_PARAMS).

(** ** The connection *)

Inductive BackendMessage :=
| CleartextPassword.

(** What the handler reads and writes of pgwire's [ClientInfo]. *)
Record PgClient := mk_pg_client {
  is_secure : bool;
  metadata : gmap string string;
  auth_in_progress : bool;
  sent : list BackendMessage;
  pid_and_secret_key : option (Z * SecretKey);
  session : option ConnectionState
}.

Definition set_metadata m (c : PgClient) : PgClient :=
  mk_pg_client (is_secure c) m (auth_in_progress c) (sent c) (pid_and_secret_key c) (session c).
Definition challenge (c : PgClient) : PgClient :=
  mk_pg_client (is_secure c) (metadata c) true (sent c ++ [CleartextPassword])
    (pid_and_secret_key c) (session c).
Definition attach (cs : ConnectionState) (c : PgClient) : PgClient :=
  mk_pg_client (is_secure c) (metadata c) (auth_in_progress c) (sent c)
    (Some (cancel_key cs)) (Some cs).

Abbreviation StartupParams := (gmap string string).

(** [into_password] of the message is its payload. *)
Inductive FrontendMessage :=
| Startup (params : StartupParams)
| PasswordMessageFamily (into_password : PgWireResult string)
| OtherMessage.

Class PgWireApi := {
  protocol_negotiation : StartupParams -> PgWireResult unit;
  save_startup_parameters_to_metadata : StartupParams -> gmap string string -> gmap string string;
  send_result : BackendMessage -> PgWireResult unit;
  finish_authentication : option (gmap string string) -> PgWireResult unit
}.

(** ** Handlers *)

Section Startup.
Context {Srv : Type} `{TrinoApi Srv} `{PgWireApi}.

(** The connection together with the world. *)
Abbreviation Conn := (PgClient * World Srv)%type.

(** An action on the shared world, and on the connection alone. *)
Definition on_world {A} (c : Io (World Srv) A) : Task Conn A :=
  task (fun st => let (r, w') := c (snd st) in (r, (fst st, w'))).
Definition on_client (f : PgClient -> PgClient) : Task Conn unit :=
  task (modify (fun st => (f (fst st), snd st))).

Definition tls_required (c : Config) : bool :=
  match tls_cert c, tls_key c with
  | Some _, Some _ => true
  | _, _ => false
  end.

Definition build_trino_client (c : Config) (user password : option string) : PgWireResult TrinoClient :=
  let trino_user := default (trino_user c) user in
  let builder :=
    mk_trino_client trino_user (trino_host c) (trino_port c) (trino_catalog c) (trino_schema c)
      (trino_ssl c) (trino_tls_no_verify c)
      (match password with Some pw => Some (trino_user, pw) | None => None end)
      (match password with Some _ => trino_allow_plaintext_auth c | None => false end) in
  match client_build builder with
  | Ok _ => Ok builder
  | Err e => Err (ApiError e)
  end.

(** The registration and the stored state are the straight-line code up to the
    handshake's end. A connection state that was there before is dropped when it
    is replaced. *)
Definition establish_session (c : Config) (client : TrinoClient) (secret : Z) : Task Conn unit :=
  let* _ := task (fun st =>
    match establish_state c client secret (snd st) with
    | (Ok cs, w') =>
      (Ok tt, (attach cs (fst st),
               match session (fst st) with
               | Some old => snd (drop_connection_state old w')
               | None => w'
               end))
    | (Err e, w') => (Err e, (fst st, w'))
    end) in
  Done (finish_authentication server_parameters).

#[local] Arguments establish_session : simpl never.

(** The credential check: one [SELECT 1] through the client's own credentials. *)
Definition check_credentials (client : TrinoClient) : Io (World Srv) (result string QueryResult) :=
  fun w =>
    let (r, s') := trino_get (srv w) client "SELECT 1" in
    (Ok r, log_submitted (client, "SELECT 1") (set_srv s' w)).

Definition on_startup (c : Config) (secret : Z) (message : FrontendMessage) : Task Conn unit :=
  match message with
  | Startup params =>
    let* _ := Done (protocol_negotiation params) in
    let* _ := on_client (fun cl =>
      set_metadata (save_startup_parameters_to_metadata params (metadata cl)) cl) in
    let* secure := task (gets (fun st => is_secure (fst st))) in
    if auth c && tls_required c && negb secure then
      Done (Err (UserError (mk_error_info "FATAL" "28000"
        "TLS is required for password authentication on this server")))
    else if auth c then
      let* _ := on_client challenge in
      Done (send_result CleartextPassword)
    else
      let* client := Done (build_trino_client c None None) in
      establish_session c client secret
  | PasswordMessageFamily pwd =>
    let* password := Done pwd in
    let* user := task (gets (fun st => default "" (metadata (fst st) !! "user"))) in
    let* client := Done (build_trino_client c (Some user) (Some password)) in
    let* checked := on_world (check_credentials client) in
    match checked with
    | Err _ => Done (Err (InvalidPassword user))
    | Ok _ => establish_session c client secret
    end
  | OtherMessage => Done (Err (ApiError "Expected Startup message during connection setup"))
  end.

(** ** Properties *)

(** Every branch of the handler, one hypothesis per effect. *)
Ltac run_startup :=
  unfold on_startup, check_credentials, on_world, on_client, build_trino_client, task;
  unfold_io; simpl.

(** What establishing a session does, whatever the end of the handshake does. *)
Lemma establish_session_effect c client secret cl w r cl' w' :
  establish_session c client secret (cl, w) = Some (r, (cl', w')) ->
  exists cs w1,
    establish_state c client secret w = (Ok cs, w1) /\ trino_client cs = client /\ cl' = attach cs cl
    /\ w' = match session cl with Some old => snd (drop_connection_state old w1) | None => w1 end.
Proof.
  unfold establish_session, establish_state, register_cancel, new_pid_and_secret_key. unfold_io. simpl.
  intros [= <- <- <-]. eexists _, _. (split; [reflexivity|]). by destruct (session cl).
Qed.

(** C2: With a configuration that [policy::validate] accepted, the gateway asks
    for a cleartext password over an unencrypted connection only when the
    listener is bound to a loopback address: the startup handler's TLS check
    closes the gap that pgwire leaves open by accepting plaintext clients. *)
Theorem no_cleartext_challenge_beyond_loopback `{NetEnv} c p secret params cl w r cl' w' :
  snd (validate c) = Ok p -> is_secure cl = false -> sent cl = [] ->
  on_startup c secret (Startup params) (cl, w) = Some (r, (cl', w')) ->
  sent cl' <> [] -> bind_loopback c true.
Proof.
  intros Hv Hs Hsent. run_startup.
  destruct (protocol_negotiation params) as [[]|e]; simpl; [|by intros; simplify_eq/=].
  rewrite Hs, andb_true_r. destruct (auth c) eqn:Ha; simpl.
  - destruct (tls_required c) eqn:Ht; simpl; [by intros; simplify_eq/=|].
    intros _ _. unfold validate, classify in Hv. rewrite Ha in Hv. simpl in Hv.
    change (has_tls c) with (tls_required c) in Hv. rewrite Ht in Hv. unfold bind_loopback.
    destruct (allow_insecure_listener c); simpl in Hv;
      destruct (listen_addr_is_loopback (listen_addr c)) as [ws [[]|e]]; simpl in *; done.
  - destruct (client_build _) as [[]|e]; simpl; [|by intros; simplify_eq/=].
    intros (cs & w1 & _ & _ & -> & _)%establish_session_effect. done.
Qed.

(** A client built for a connection carries the configured transport. *)
Lemma build_trino_client_fields c user password client :
  build_trino_client c user password = Ok client ->
  client_secure client = trino_ssl c
  /\ (is_Some password -> client_auth_http_insecure client = trino_allow_plaintext_auth c)
  /\ client_auth client = (fun pw => (default (trino_user c) user, pw)) <$> password
  /\ client_build client = Ok tt.
Proof.
  unfold build_trino_client. destruct (client_build _) as [[]|e] eqn:E; [|done].
  intros [= <-]. simpl. split; [done|]. split; [by intros [pw ->]|]. split; [by destruct password|done].
Qed.

(** A client that carries credentials and may be used: over HTTPS, or with the
    operator's opt-in to plain HTTP. *)
Definition credentials_protected (c : Config) (client : TrinoClient) : Prop :=
  is_Some (client_auth client) -> client_secure client = true \/ trino_allow_plaintext_auth c = true.

Lemma built_client_protected c user password client :
  build_refuses_plaintext_credentials H ->
  build_trino_client c user password = Ok client -> credentials_protected c client.
Proof.
  intros Hb Hbt Hauth. apply build_trino_client_fields in Hbt as (Hsec & Hins & Ha & Hok).
  destruct (client_secure client) eqn:E1; [by left|]. right.
  destruct (trino_allow_plaintext_auth c) eqn:E2; [done|]. exfalso.
  destruct (Hb client) as [e He]; [done|done| |congruence].
  apply Hins. destruct password; [done|]. rewrite Ha in Hauth. by destruct Hauth.
Qed.

(** ** Among other connections *)

(** Other connections change the world, not this client. *)
Definition same_client (x y : Conn) : Prop := fst x = fst y.

#[export] Instance same_client_preorder : PreOrder same_client.
Proof. unfold same_client. split; [by intros x|]. by intros x y z -> ->. Qed.

Definition built (c : Config) (client : TrinoClient) : Prop :=
  exists user password, build_trino_client c user password = Ok client.

(** Only Trino and the log of submissions have changed. *)
Definition same_sessions (w w' : World Srv) : Prop :=
  registry w' = registry w /\ next_pid w' = next_pid w /\ next_slot w' = next_slot w
  /\ slots w' = slots w /\ cancelled w' = cancelled w.

(** What one action of the startup handler may do: before there is a session,
    send statements through a client built from the configuration; or establish
    the one session. *)
Definition startup_act (c : Config) (secret : Z) (x y : Conn) : Prop :=
  (session (fst y) = session (fst x) /\ same_sessions (snd x) (snd y)
   /\ exists q, submitted (snd y) = (submitted (snd x) ++ q)%list /\ Forall (fun s => built c (fst s)) q
                /\ (is_Some (session (fst x)) -> q = []))
  \/ (session (fst x) = None
      /\ exists client cs, built c client /\ establish_state c client secret (snd x) = (Ok cs, snd y)
                           /\ session (fst y) = Some cs).

(** An action on the client alone. *)
Lemma startup_act_client c secret (cl cl' : PgClient) w :
  session cl' = session cl -> startup_act c secret (cl, w) (cl', w).
Proof. intros Hs. left. repeat split; [done|]. exists []. by rewrite app_nil_r. Qed.

Lemma establish_session_rg c secret client x :
  session (fst x) = None -> built c client ->
  rg true same_client (startup_act c secret) (fun _ _ => True) (establish_session c client secret) x.
Proof.
  intros Hn Hb. apply rg_await; [apply _|]. apply rg_task. intros [cl w] Hc. unfold same_client in Hc. simpl in Hc.
  rewrite Hc in Hn. simpl. rewrite Hn. split; [|done]. right. split; [done|]. by exists client; eexists.
Qed.

(** Whatever the other connections do meanwhile, the handler's actions are of
    that kind, and it returns. *)
Lemma on_startup_rg c secret msg x :
  session (fst x) = None ->
  rg true same_client (startup_act c secret) (fun _ _ => True) (on_startup c secret msg) x.
Proof.
  intros Hn. destruct msg as [params|pwd|]; [| |done]; cbn [on_startup].
  - destruct (protocol_negotiation params) as [[]|e]; [|done].
    intros [cl w] H1. unfold same_client in H1. simpl in H1. rewrite H1 in Hn.
    split; [by apply startup_act_client|]. simpl.
    intros [cl2 w2] H2. unfold same_client in H2. simpl in H2. subst cl2.
    split; [by apply startup_act_client|]. simpl.
    destruct (auth c && _ && _); [done|]. destruct (auth c).
    + intros [cl3 w3] H3. unfold same_client in H3. simpl in H3. subst cl3.
      split; [by apply startup_act_client|done].
    + destruct (build_trino_client c None None) as [client|e] eqn:E; [|done].
      apply establish_session_rg; [done|]. by eexists _, _.
  - destruct pwd as [pw|e]; [|done].
    intros [cl w] H1. unfold same_client in H1. simpl in H1. rewrite H1 in Hn.
    split; [by apply startup_act_client|]. simpl.
    destruct (build_trino_client c _ (Some pw)) as [client|e] eqn:E; [|done].
    assert (Hb : built c client) by by eexists _, _.
    intros [cl2 w2] H2. unfold same_client in H2. simpl in H2. subst cl2. unfold check_credentials. simpl.
    destruct (trino_get (srv w2) client "SELECT 1") as [[q|e] x2]; simpl; (split; [|]).
    + left. repeat split. exists [(client, "SELECT 1")]. split; [done|]. split; [by constructor|]. simpl. by rewrite Hn; intros [].
    + by apply establish_session_rg.
    + left. repeat split. exists [(client, "SELECT 1")]. split; [done|]. split; [by constructor|]. simpl. by rewrite Hn; intros [].
    + done.
Qed.

End Startup.

(** ** Witnesses *)

Definition plain_pgwire : PgWireApi :=
  {| protocol_negotiation _ := Ok tt;
     save_startup_parameters_to_metadata params _ := params;
     send_result _ := Ok tt;
     finish_authentication _ := Ok tt |}.

(** A server that accepts everything, behind a builder that refuses plaintext
    credentials. *)
Definition accepting_api : TrinoApi unit :=
  {| client_build c :=
       match client_auth c with
       | Some _ => if client_secure c || client_auth_http_insecure c then Ok tt
                   else Err "BasicAuthWithHttp"
       | None => Ok tt
       end;
     trino_get s _ _ := (Ok (mk_query_result "q" None None None None), s);
     trino_get_next s _ _ := (Err "gone", s);
     trino_get_all s _ _ := (Ok [], s);
     trino_cancel s _ _ := (Ok tt, s) |}.

Definition plain_client : PgClient := mk_pg_client false ∅ false [] None None.

Definition empty_world : World unit := mk_world tt [] [] 1 ∅ ∅ 0.

Lemma no_cleartext_challenge_beyond_loopback_witness :
  @bind_loopback sample_net (with_auth default_config "127.0.0.1:5432" false) true.
Proof.
  eapply (@no_cleartext_challenge_beyond_loopback unit accepting_api plain_pgwire sample_net
    (with_auth default_config "127.0.0.1:5432" false) CleartextLoopback 5 ∅ plain_client empty_world);
    [reflexivity | reflexivity | reflexivity | reflexivity | discriminate].
Defined.

Lemma accepting_api_refuses : build_refuses_plaintext_credentials accepting_api.
Proof.
  intros c [a Ha] Hs Hi. exists "BasicAuthWithHttp". simpl. by rewrite Ha, Hs, Hi.
Qed.
