(* ===== verification/TypeMap.v ===== *)
(** * Trino types as PostgreSQL types (src/src/types.rs, the type map)

    [trino_type_to_pg] normalises a Trino type name, unwraps [array(...)]
    recursively and looks the base name up. The recursion carries fuel; every
    level removes one opening parenthesis, so the number of parentheses in the
    name is enough ([trino_type_to_pg_unfold]). *)

From S2P Require Import Prelude RustStr RustStrFacts PgWire.

Local Open Scope string_scope.

(** ** Definitions *)

Definition strip_type_params (normalized : string) : string :=
  match find "(" normalized, rfind_byte ")" normalized with
  | Some opening, Some close =>
    if (opening <? close)%nat
    then trim (stake opening normalized ++ sdrop (close + 1) normalized)
    else trim normalized
  | _, _ => trim normalized
  end.

Definition scalar_to_array (scalar : PgType) : PgType :=
  match scalar with
  | BOOL => BOOL_ARRAY
  | INT2 => INT2_ARRAY
  | INT4 => INT4_ARRAY
  | INT8 => INT8_ARRAY
  | FLOAT4 => FLOAT4_ARRAY
  | FLOAT8 => FLOAT8_ARRAY
  | NUMERIC => NUMERIC_ARRAY
  | VARCHAR => VARCHAR_ARRAY
  | BPCHAR => BPCHAR_ARRAY
  | BYTEA => BYTEA_ARRAY
  | DATE => DATE_ARRAY
  | TIME => TIME_ARRAY
  | TIMETZ => TIMETZ_ARRAY
  | TIMESTAMP => TIMESTAMP_ARRAY
  | TIMESTAMPTZ => TIMESTAMPTZ_ARRAY
  | INTERVAL => INTERVAL_ARRAY
  | JSONB => JSONB_ARRAY
  | UUID => UUID_ARRAY
  | INET => INET_ARRAY
  | TEXT => TEXT_ARRAY
  | _ => TEXT_ARRAY
  end.

(** The arms of the [match] on the stripped name, in order. *)
Definition base_names : list (string * PgType) :=
  [ ("boolean", BOOL);
    ("tinyint", INT2); ("smallint", INT2);
    ("integer", INT4);
    ("bigint", INT8);
    ("real", FLOAT4);
    ("double", FLOAT8);
    ("decimal", NUMERIC);
    ("varchar", VARCHAR);
    ("char", BPCHAR);
    ("varbinary", BYTEA);
    ("date", DATE);
    ("time", TIME);
    ("time with time zone", TIMETZ);
    ("timestamp", TIMESTAMP);
    ("timestamp with time zone", TIMESTAMPTZ);
    ("interval", INTERVAL); ("interval year to month", INTERVAL);
    ("interval day to second", INTERVAL);
    ("json", JSONB);
    ("uuid", UUID);
    ("ipaddress", INET);
    ("map", JSONB); ("row", JSONB) ].

Fixpoint assoc_string {A} (k : string) (l : list (string * A)) : option A :=
  match l with
  | [] => None
  | (k', v) :: l' => if String.eqb k k' then Some v else assoc_string k l'
  end.

Definition base_to_pg (base : string) : PgType := default TEXT (assoc_string base base_names).

Section TypeMap.
Context `{UnicodeCase}.

Definition is_array_name (normalized : string) : bool :=
  starts_with "array(" normalized && ends_with ")" normalized.

(** [&normalized[6..normalized.len() - 1]] *)
Definition array_inner (normalized : string) : string :=
  stake (slen normalized - 1 - 6) (sdrop 6 normalized).

Fixpoint trino_type_to_pg_fuel (fuel : nat) (trino_type : string) : PgType :=
  let normalized := to_lowercase (trim trino_type) in
  match fuel with
  | O => base_to_pg (strip_type_params normalized)
  | S fuel' =>
    if is_array_name normalized
    then scalar_to_array (trino_type_to_pg_fuel fuel' (array_inner normalized))
    else base_to_pg (strip_type_params normalized)
  end.

Definition trino_type_to_pg (trino_type : string) : PgType :=
  trino_type_to_pg_fuel (count_byte "(" trino_type) trino_type.
End TypeMap.

(** ** Theorems *)

Lemma find_paren_app a q : count_byte "(" a = 0%nat -> find "(" (a ++ String "(" q) = Some (slen a).
Proof.
  induction a as [|c a IH]; intros Ha.
  - cbn [append slen find]. rewrite prefix_cons. by destruct (ascii_dec _ _), q.
  - simpl in Ha. destruct (Ascii.eqb_spec c "("); [done|]. cbn [append slen find].
    rewrite prefix_cons. destruct (ascii_dec "(" c); [congruence|]. by rewrite IH.
Qed.

Lemma rfind_none b z : count_byte b z = 0%nat -> rfind_byte b z = None.
Proof.
  induction z as [|c z IH]; [done|]. simpl. intros Hz.
  destruct (Ascii.eqb c b); [done|]. by rewrite IH.
Qed.

Lemma rfind_byte_app b a z : count_byte b z = 0%nat -> rfind_byte b (a ++ String b z) = Some (slen a).
Proof.
  intros Hz. induction a as [|c a IH]; simpl.
  - by rewrite rfind_none, Ascii.eqb_refl.
  - by rewrite IH.
Qed.

(** The span from the first opening to the last closing parenthesis goes. *)
Lemma strip_type_params_span a q z :
  count_byte "(" a = 0%nat -> count_byte ")" z = 0%nat ->
  strip_type_params (a ++ "(" ++ q ++ ")" ++ z) = trim (a ++ z).
Proof.
  intros Ha Hz. unfold strip_type_params. cbn [append]. rewrite find_paren_app by done.
  replace (a ++ String "(" (q ++ String ")" z)) with ((a ++ String "(" q) ++ String ")" z)
    by (rewrite sapp_assoc; done).
  rewrite rfind_byte_app by done. rewrite slen_app. cbn [slen].
  destruct (Nat.ltb_spec (slen a) (slen a + S (slen q))); [|lia].
  f_equal. f_equal.
  - by rewrite sapp_assoc, stake_app.
  - replace (slen a + S (slen q) + 1)%nat with (slen (a ++ String "(" q) + 1)%nat
      by (rewrite slen_app; done).
    rewrite sdrop_app_ge. done.
Qed.

Section Facts.
Context `{UnicodeCase}.

Lemma array_name_shape s :
  is_array_name s = true -> s = "array(" ++ array_inner s ++ ")".
Proof.
  unfold is_array_name, starts_with, ends_with. intros [[r ->]%prefix_iff Hs]%andb_true_iff.
  apply andb_true_iff in Hs as [Hl Hs]. cbn [append slen] in Hs. bools.
  unfold array_inner. cbn [append slen sdrop].
  destruct r as [|c r]; [done|]. set (t := String c r) in *.
  replace (S (S (S (S (S (S (slen t)))))) - 1 - 6)%nat with (slen t - 1)%nat by lia.
  rewrite <- (stake_sdrop (slen t - 1) t) at 1. do 6 f_equal. cbn [append].
  replace (S (S (S (S (S (S (slen t)))))) - 1)%nat with (6 + (slen t - 1))%nat in Hs
    by (unfold t; cbn [slen]; lia).
  rewrite <- sdrop_sdrop in Hs. cbn [sdrop] in Hs. by rewrite Hs.
Qed.

Lemma array_inner_count s :
  is_array_name s = true -> (count_byte "(" (array_inner s) < count_byte "(" s)%nat.
Proof.
  intros E%array_name_shape.
  rewrite E at 2. rewrite !count_byte_app. simpl. lia.
Qed.

Lemma normalized_count s :
  (count_byte "(" (to_lowercase (trim s)) <= count_byte "(" s)%nat.
Proof. etransitivity; [apply to_lowercase_count|apply count_byte_trim]. Qed.

Lemma no_paren_no_array s : count_byte "(" s = 0%nat -> is_array_name s = false.
Proof.
  intros Hs. destruct (is_array_name s) eqn:E; [|done]. apply array_inner_count in E. lia.
Qed.

(** Any fuel that covers the parentheses gives the same answer. *)
Lemma fuel_enough fuel s :
  (count_byte "(" s <= fuel)%nat -> trino_type_to_pg_fuel fuel s = trino_type_to_pg s.
Proof.
  unfold trino_type_to_pg. remember (count_byte "(" s) as n eqn:En.
  assert (Hn : (count_byte "(" s <= n)%nat) by lia. clear En. revert fuel s Hn.
  induction n as [|n IH]; intros fuel s Hs Hf; pose proof (normalized_count s) as Hc.
  - destruct fuel; [done|]. simpl. rewrite no_paren_no_array by lia. done.
  - destruct fuel; [lia|]. simpl. destruct (is_array_name _) eqn:E; [|done].
    apply array_inner_count in E. f_equal. apply IH; lia.
Qed.

Lemma trino_type_to_pg_unfold s :
  trino_type_to_pg s
  = let normalized := to_lowercase (trim s) in
    if is_array_name normalized
    then scalar_to_array (trino_type_to_pg (array_inner normalized))
    else base_to_pg (strip_type_params normalized).
Proof.
  rewrite <- (fuel_enough (S (count_byte "(" s))) by lia. cbn.
  destruct (is_array_name _) eqn:E; [|done]. f_equal. apply fuel_enough.
  apply array_inner_count in E. pose proof (normalized_count s). lia.
Qed.

Lemma base_names_shape :
  forallb (fun '(name, _) =>
    match name with
    | String c _ => negb (Ascii.eqb c "a") && negb (is_whitespace (String c ""))
    | EmptyString => false
    end
    && match rev (list_ascii_of_string name) with
       | c :: _ => negb (is_whitespace (String c ""))
       | [] => false
       end
    && (count_byte "(" name =? 0)%nat && (count_byte ")" name =? 0)%nat
    && ascii_only name && String.eqb (trim name) name) base_names = true.
Proof. reflexivity. Qed.

Lemma assoc_base_names name t : In (name, t) base_names -> base_to_pg name = t.
Proof.
  intros Hin. assert (Hall : forallb (fun '(n, t) => bool_decide (base_to_pg n = t)) base_names = true)
    by reflexivity.
  rewrite forallb_forall in Hall. specialize (Hall _ Hin). simpl in Hall.
  by apply bool_decide_eq_true in Hall.
Qed.

(** Lower-casing keeps ASCII text on both sides of anything. *)
Lemma to_lowercase_around a m z :
  ascii_only a = true -> ascii_only z = true -> valid_utf8 m = true ->
  exists q, to_lowercase (a ++ m ++ z) = to_ascii_lowercase a ++ q ++ to_ascii_lowercase z.
Proof.
  intros Ha Hz Hm. assert (Hcz : cont_head z = false).
  { destruct z; [done|]. simpl in Hz. apply andb_true_iff in Hz as [? _]. by apply is_ascii_not_cont. }
  assert (Hmz : cont_head (m ++ z) = false).
  { destruct m; [done|]. by apply valid_cont_head in Hm. }
  unfold to_lowercase. rewrite split_chars_ascii, lower_chars_ascii by done.
  rewrite split_chars_app by done. edestruct (lower_chars_app ("" ++ a) (split_chars m)) as [q ->].
  exists q. do 2 f_equal. rewrite <- (sapp_nil_r z), split_chars_ascii, lower_chars_ascii by done.
  simpl. by rewrite !sapp_nil_r.
Qed.

(** The parts of a known name around its parameters. *)
Lemma known_name_split a z name t :
  In (name, t) base_names -> to_ascii_lowercase (a ++ z) = name ->
  ascii_only a = true /\ ascii_only z = true
  /\ count_byte "(" (to_ascii_lowercase a) = 0%nat /\ count_byte ")" (to_ascii_lowercase z) = 0%nat
  /\ trim name = name /\ count_byte "(" name = 0%nat
  /\ (forall c a', a = String c a' ->
       is_whitespace (String c "") = false /\ ascii_lower_byte c <> "a"%char)
  /\ (forall z' d, z = z' ++ String d "" -> is_whitespace (String d "") = false).
Proof.
  intros Hin E. pose proof base_names_shape as Hall. rewrite forallb_forall in Hall.
  specialize (Hall _ Hin). cbv beta iota in Hall. bools.
  assert (Haz : ascii_only (a ++ z) = true) by (rewrite <- ascii_only_lower; by rewrite E).
  rewrite ascii_only_app in Haz. bools. unfold to_ascii_lowercase in *. rewrite smap_app in E.
  match goal with Hc : count_byte "(" name = _ |- _ => rename Hc into Hop end.
  match goal with Hc : count_byte ")" name = _ |- _ => rename Hc into Hcl end.
  repeat split; try done.
  - rewrite <- E, count_byte_app in Hop. lia.
  - rewrite <- E, count_byte_app in Hcl. lia.
  - subst a. simpl in *. subst name. bools. rewrite <- ascii_lower_whitespace; done.
  - subst a. simpl in *. subst name. bools. by destruct (Ascii.eqb_spec (ascii_lower_byte c) "a").
  - intros z' d ->. rewrite ascii_only_app in *. bools. simpl in *. bools.
    rewrite <- ascii_lower_whitespace by done. subst name. rewrite smap_app, <- sapp_assoc in *.
    rewrite list_ascii_app, rev_app_distr in *. simpl in *. by bools.
Qed.

(** An ASCII name means the same in either case. *)
Lemma type_name_ascii_case s :
  ascii_only s = true -> trino_type_to_pg (to_ascii_lowercase s) = trino_type_to_pg s.
Proof.
  intros Hs. rewrite (trino_type_to_pg_unfold s), (trino_type_to_pg_unfold (to_ascii_lowercase s)).
  rewrite trim_lower by done. pose proof (ascii_only_trim _ Hs).
  rewrite !to_lowercase_ascii; [|done|by rewrite ascii_only_lower]. by rewrite ascii_lower_idem.
Qed.

(** A known name with parameters has no blank at either end. *)
Lemma parametric_name_trimmed a z p name t :
  In (name, t) base_names -> to_ascii_lowercase (a ++ z) = name -> valid_utf8 p = true ->
  trim ((a ++ "(") ++ p ++ (")" ++ z)) = (a ++ "(") ++ p ++ (")" ++ z).
Proof.
  intros Hin E Hp.
  destruct (known_name_split _ _ _ _ Hin E) as (Ha & Hz & _ & _ & _ & _ & Hfst & Hlst).
  assert (ascii_only (a ++ "(") = true) by (by rewrite ascii_only_app, Ha).
  destruct (snoc_case z) as [->|(z' & d & Ez)]; [|rewrite Ez in *];
    (destruct a as [|c a']; [|destruct (Hfst c a' eq_refl)]).
  - by apply (trim_ends "" p "" "(" ")").
  - by apply (trim_ends (a' ++ "(") p "" c ")").
  - apply (trim_ends "" p (")" ++ z') "(" d); try done. by apply (Hlst z').
  - apply (trim_ends (a' ++ "(") p (")" ++ z') c d); try done. by apply (Hlst z').
Qed.

(** C32: A known Trino type name, in any case, with or without a parenthesised
    parameter list in any position and of any content, is mapped to the same
    PostgreSQL type: [decimal(10,2)], [TIMESTAMP(6) with time zone] and
    [map(varchar, array(integer))] keep the type of their base name. *)
Theorem type_ignores_case_and_parameters a z p name t :
  In (name, t) base_names -> to_ascii_lowercase (a ++ z) = name -> valid_utf8 p = true ->
  trino_type_to_pg (a ++ "(" ++ p ++ ")" ++ z) = t /\ trino_type_to_pg (a ++ z) = t.
Proof.
  intros Hin E Hp.
  destruct (known_name_split _ _ _ _ Hin E) as (Ha & Hz & Hpa & Hpz & Ht & Hn & Hfst & Hlst).
  assert (Haz : ascii_only (a ++ z) = true) by (by rewrite ascii_only_app, Ha, Hz).
  split.
  - set (s := a ++ "(" ++ p ++ ")" ++ z).
    assert (Es : s = (a ++ "(") ++ p ++ (")" ++ z)) by (unfold s; by rewrite sapp_assoc).
    assert (Hao : ascii_only (a ++ "(") = true) by (by rewrite ascii_only_app, Ha).
    assert (Hzo : ascii_only (")" ++ z) = true) by done.
    assert (Htr : trim s = s) by (rewrite Es; by eapply parametric_name_trimmed).
    rewrite trino_type_to_pg_unfold, Htr, Es. cbv zeta.
    destruct (to_lowercase_around (a ++ "(") p (")" ++ z)) as [q ->]; [done..|].
    unfold to_ascii_lowercase in *. rewrite !smap_app, sapp_assoc in *.
    change (smap ascii_lower_byte "(") with "(". change (smap ascii_lower_byte ")") with ")".
    rewrite strip_type_params_span, E, Ht by done.
    rewrite (assoc_base_names _ _ Hin).
    enough (is_array_name (smap ascii_lower_byte a ++ "(" ++ q ++ ")" ++ smap ascii_lower_byte z) = false)
      as -> by done.
    unfold is_array_name, starts_with. apply andb_false_iff. left.
    destruct a as [|c a']; [done|]. destruct (Hfst c a' eq_refl) as [_ Hca].
    cbn [smap append]. rewrite prefix_cons. by destruct (ascii_dec "a" (ascii_lower_byte c)).
  - rewrite trino_type_to_pg_unfold. rewrite to_lowercase_ascii by (by apply ascii_only_trim).
    rewrite <- trim_lower, E, Ht by done. cbv zeta. rewrite no_paren_no_array by done.
    unfold strip_type_params. apply contains_count in Hn. unfold contains in Hn.
    destruct (find "(" name); [done|]. rewrite Ht. by apply assoc_base_names.
Qed.

Lemma array_type_unfold s :
  ascii_only s = true ->
  trino_type_to_pg ("array(" ++ s ++ ")") = scalar_to_array (trino_type_to_pg s).
Proof.
  intros Hs. rewrite trino_type_to_pg_unfold.
  assert (trim ("array(" ++ s ++ ")") = "array(" ++ s ++ ")") as ->
    by (apply (trim_ends "rray(" s "" "a" ")"); (done || by apply valid_ascii)).
  rewrite to_lowercase_ascii by (by rewrite !ascii_only_app, Hs). cbv zeta.
  unfold to_ascii_lowercase at 1 2. rewrite !smap_app.
  change (smap ascii_lower_byte "array(") with "array(". change (smap ascii_lower_byte ")") with ")".
  fold (to_ascii_lowercase s). set (u := to_ascii_lowercase s).
  assert (Hlen : slen ("array(" ++ u ++ ")") = (6 + slen u + 1)%nat)
    by (rewrite !slen_app; simpl; lia).
  assert (is_array_name ("array(" ++ u ++ ")") = true) as ->.
  { unfold is_array_name, starts_with, ends_with. rewrite prefix_app, Hlen.
    replace (6 + slen u + 1 - slen ")")%nat with (slen ("array(" ++ u)) by (rewrite slen_app; simpl; lia).
    rewrite <- sapp_assoc, sdrop_app. by destruct (Nat.leb_spec (slen ")") (6 + slen u + 1)); [|simpl in *; lia]. }
  f_equal. unfold array_inner. rewrite Hlen.
  replace (6 + slen u + 1 - 1 - 6)%nat with (slen u) by lia.
  change (sdrop 6 ("array(" ++ u ++ ")")) with (u ++ ")"). rewrite stake_app.
  by apply type_name_ascii_case.
Qed.

(** The element type of PostgreSQL's array types. *)
Definition array_element (t : PgType) : option PgType :=
  match t with
  | BOOL_ARRAY => Some BOOL | INT2_ARRAY => Some INT2 | INT4_ARRAY => Some INT4 | INT8_ARRAY => Some INT8
  | FLOAT4_ARRAY => Some FLOAT4 | FLOAT8_ARRAY => Some FLOAT8 | NUMERIC_ARRAY => Some NUMERIC
  | VARCHAR_ARRAY => Some VARCHAR | BPCHAR_ARRAY => Some BPCHAR | BYTEA_ARRAY => Some BYTEA
  | DATE_ARRAY => Some DATE | TIME_ARRAY => Some TIME | TIMETZ_ARRAY => Some TIMETZ
  | TIMESTAMP_ARRAY => Some TIMESTAMP | TIMESTAMPTZ_ARRAY => Some TIMESTAMPTZ
  | INTERVAL_ARRAY => Some INTERVAL | JSONB_ARRAY => Some JSONB | UUID_ARRAY => Some UUID
  | INET_ARRAY => Some INET | TEXT_ARRAY => Some TEXT
  | _ => None
  end.

Definition base_types_of_map : list PgType := TEXT :: map snd base_names.

Lemma default_assoc_in {A} (d : A) k l : In (default d (assoc_string k l)) (d :: map snd l).
Proof.
  induction l as [|[k' v] l IH]; [by left|]. cbn [assoc_string map snd].
  destruct (String.eqb k k'); [by right; left|]. destruct IH; [by left|by right; right].
Qed.

Lemma base_to_pg_in s : In (base_to_pg s) base_types_of_map.
Proof. apply default_assoc_in. Qed.

(** A type that is no array comes from the table of base names. *)
Lemma scalar_is_base s : array_element (trino_type_to_pg s) = None -> In (trino_type_to_pg s) base_types_of_map.
Proof.
  rewrite trino_type_to_pg_unfold. cbv zeta. destruct (is_array_name _); [|intros _; apply base_to_pg_in].
  by destruct (trino_type_to_pg _).
Qed.

Lemma base_array_element :
  forallb (fun t => bool_decide (array_element (scalar_to_array t) = Some t)) base_types_of_map = true.
Proof. reflexivity. Qed.

(** C33: A Trino array type maps to the PostgreSQL array type whose element type is
    what its own element type maps to, in any case; an array of arrays maps to
    [text[]], at any depth. *)
Theorem array_type_follows_element p s :
  to_ascii_lowercase p = "array(" -> ascii_only s = true ->
  let element := trino_type_to_pg s in
  let array := trino_type_to_pg (p ++ s ++ ")") in
  (array_element element = None -> array_element array = Some element)
  /\ (array_element element <> None -> array = TEXT_ARRAY).
Proof.
  intros Hp Hs element array.
  assert (array = scalar_to_array element) as ->.
  { unfold array. rewrite <- type_name_ascii_case by (by rewrite !ascii_only_app, Hs, <- (ascii_only_lower p), Hp).
    unfold to_ascii_lowercase. rewrite !smap_app. fold (to_ascii_lowercase p) (to_ascii_lowercase s). rewrite Hp.
    change (smap ascii_lower_byte ")") with ")". rewrite array_type_unfold by (by rewrite (ascii_only_lower s)).
    f_equal. by apply type_name_ascii_case. }
  split; [|by destruct element].
  intros Hn. pose proof base_array_element as Hall. rewrite forallb_forall in Hall.
  specialize (Hall _ (scalar_is_base s Hn)). by apply bool_decide_eq_true in Hall.
Qed.

End Facts.

Lemma type_ignores_case_and_parameters_witness :
  @trino_type_to_pg ascii_only_case ("TimeStamp" ++ "(" ++ "6" ++ ")" ++ " With Time Zone") = TIMESTAMPTZ
  /\ @trino_type_to_pg ascii_only_case ("TimeStamp" ++ " With Time Zone") = TIMESTAMPTZ.
Proof.
  apply (@type_ignores_case_and_parameters ascii_only_case "TimeStamp" " With Time Zone" "6"
           "timestamp with time zone" TIMESTAMPTZ);
    [vm_compute; tauto|reflexivity|reflexivity].
Defined.

Lemma array_type_follows_element_witness :
  array_element (@trino_type_to_pg ascii_only_case ("ARRAY(" ++ "Decimal(10,2)" ++ ")")) = Some NUMERIC
  /\ @trino_type_to_pg ascii_only_case ("array(" ++ "array(integer)" ++ ")") = TEXT_ARRAY.
Proof.
  split.
  - exact (proj1 (@array_type_follows_element ascii_only_case "ARRAY(" "Decimal(10,2)" eq_refl eq_refl) eq_refl).
  - apply (@array_type_follows_element ascii_only_case "array(" "array(integer)" eq_refl eq_refl). vm_compute. discriminate.
Defined.
