(* ===== verification/RustFloat.v ===== *)
(** * Rust's [f64]

    The part of [f64] the gateway calls, on Stdlib's [spec_float] (binary64 is
    precision 53, exponent bound 1024): classification, comparison with the
    [i64] limits, the casts [as i64] and [as f32], [str::parse::<f64>] and
    [to_string]. Parsing is correctly rounded; printing is the shortest decimal
    that parses back, without an exponent, as the standard library documents. *)

From S2P Require Import Prelude RustStr Trino.

Local Open Scope string_scope.

Definition is_nan (f : f64) : bool := match f with S754_nan => true | _ => false end.
Definition is_infinite (f : f64) : bool := match f with S754_infinity _ => true | _ => false end.
Definition is_finite (f : f64) : bool := negb (is_nan f) && negb (is_infinite f).
Definition is_sign_negative (f : f64) : bool :=
  match f with
  | S754_zero s | S754_infinity s | S754_finite s _ _ => s
  | S754_nan => false
  end.

(** [i64::MIN as f64] is -2^63; [i64::MAX as f64] rounds up to 2^63. *)
Definition i64_min_f64 : f64 := S754_finite true 4503599627370496 11.
Definition i64_max_f64 : f64 := S754_finite false 4503599627370496 11.

Definition signed_mantissa (s : bool) (m : positive) : Z := if s then Z.neg m else Z.pos m.

(** The order of the values m * 2^e, by cross multiplication. *)
Definition compare_scaled (x ex y ey : Z) : comparison :=
  Z.compare (x * 2 ^ Z.max 0 (ex - ey)) (y * 2 ^ Z.max 0 (ey - ex)).

(** [partial_cmp]: no order with NaN, both zeros equal. *)
Definition f64_partial_cmp (a b : f64) : option comparison :=
  match a, b with
  | S754_nan, _ | _, S754_nan => None
  | S754_infinity s, S754_infinity s' =>
    Some (match s, s' with true, false => Lt | false, true => Gt | _, _ => Eq end)
  | S754_infinity s, _ => Some (if s then Lt else Gt)
  | _, S754_infinity s => Some (if s then Gt else Lt)
  | S754_zero _, S754_zero _ => Some Eq
  | S754_zero _, S754_finite s m e => Some (compare_scaled 0 0 (signed_mantissa s m) e)
  | S754_finite s m e, S754_zero _ => Some (compare_scaled (signed_mantissa s m) e 0 0)
  | S754_finite s m e, S754_finite s' m' e' =>
    Some (compare_scaled (signed_mantissa s m) e (signed_mantissa s' m') e')
  end.

Definition f64_ge (a b : f64) : bool :=
  match f64_partial_cmp a b with Some Gt | Some Eq => true | _ => false end.
Definition f64_lt (a b : f64) : bool :=
  match f64_partial_cmp a b with Some Lt => true | _ => false end.

(** The magnitude m * 2^e rounded toward zero. *)
Definition trunc_magnitude (m : positive) (e : Z) : Z :=
  if (0 <=? e)%Z then (Z.pos m * 2 ^ e)%Z else (Z.pos m / 2 ^ (- e))%Z.

(** [f.fract() == 0.0]; the fractional part of a finite float is exact. *)
Definition fract_is_zero (f : f64) : bool :=
  match f with
  | S754_zero _ => true
  | S754_finite _ m e => (0 <=? e)%Z || (Z.pos m mod 2 ^ (- e) =? 0)%Z
  | _ => false
  end.

(** [f as i64]: toward zero, saturating, NaN to 0. *)
Definition f64_as_i64 (f : f64) : Z :=
  match f with
  | S754_zero _ | S754_nan => 0
  | S754_infinity s => if s then i64_min else i64_max
  | S754_finite s m e =>
    let t := trunc_magnitude m e in
    Z.max i64_min (Z.min i64_max (if s then - t else t))
  end.

(** [f as f32]: rounded to nearest even in binary32. *)
Definition f64_as_f32 (f : f64) : spec_float :=
  match f with
  | S754_finite s m e => binary_normalize 24 128 (signed_mantissa s m) e s
  | _ => f
  end.

(** ** Parsing *)

(** The value m * 10^e rounded to nearest even. *)
Definition round_decimal (neg : bool) (m : Z) (e : Z) : f64 :=
  match m with
  | Zpos m' =>
    if (0 <=? e)%Z then binary_normalize 53 1024 (if neg then - (m * 10 ^ e) else m * 10 ^ e)%Z 0 neg
    else SFdiv 53 1024 (S754_finite neg m' 0) (S754_finite false (Z.to_pos (10 ^ (- e))) 0)
  | _ => S754_zero neg
  end.

(** Leading digits: their value (continuing [acc]), their number, the rest. *)
Fixpoint read_digits (acc : Z) (n : nat) (s : string) : Z * nat * string :=
  match s with
  | String c s' =>
    if is_digit c then read_digits (acc * 10 + Z.of_N (byte_of c - 48)) (S n) s' else (acc, n, s)
  | EmptyString => (acc, n, s)
  end.

Definition read_sign (s : string) : bool * string :=
  match s with
  | String "-" s' => (true, s')
  | String "+" s' => (false, s')
  | _ => (false, s)
  end.

Definition read_exponent (s : string) : option Z :=
  match s with
  | EmptyString => Some 0%Z
  | String c s' =>
    if Ascii.eqb (ascii_lower_byte c) "e" then
      let '(neg, body) := read_sign s' in
      option_map (fun e => if neg then (- e)%Z else e) (parse_digits body)
    else None
  end.

Definition parse_f64 (s : string) : option f64 :=
  let '(neg, body) := read_sign s in
  let word := to_ascii_lowercase body in
  if String.eqb word "nan" then Some S754_nan
  else if String.eqb word "inf" || String.eqb word "infinity" then Some (S754_infinity neg)
  else
    let '(m, n, rest) := read_digits 0 0 body in
    let '(m', k, rest') := match rest with
                           | String "." r => read_digits m 0 r
                           | _ => (m, O, rest)
                           end in
    if (n + k =? 0)%nat then None
    else option_map (fun e => round_decimal neg m' (e - Z.of_nat k)) (read_exponent rest').

(** ** Printing *)

Definition f64_eqb (a b : f64) : bool :=
  match a, b with
  | S754_zero s, S754_zero s' => Bool.eqb s s'
  | S754_infinity s, S754_infinity s' => Bool.eqb s s'
  | S754_nan, S754_nan => true
  | S754_finite s m e, S754_finite s' m' e' => Bool.eqb s s' && (m =? m')%positive && (e =? e')%Z
  | _, _ => false
  end.

(** The number k of digits before the point: the least k with num/den < 10^k. *)
Fixpoint magnitude (fuel : nat) (num den k : Z) : Z :=
  match fuel with
  | O => k
  | S f => if (num * 10 ^ Z.max 0 (- k) <? den * 10 ^ Z.max 0 k)%Z then k
           else magnitude f num den (k + 1)
  end.

(** Shortest digits d and exponent p with d * 10^p reading back as the float,
    the closer of the two candidates of each length. *)
Fixpoint shortest (fuel : nat) (n : Z) (m : positive) (e num den k : Z) : Z * Z :=
  let p := (k - n)%Z in
  let a := (num * 10 ^ Z.max 0 (- p))%Z in
  let b := (den * 10 ^ Z.max 0 p)%Z in
  let q := (a / b)%Z in
  let same d := f64_eqb (round_decimal false d p) (S754_finite false m e) in
  let near := if (2 * (a mod b) <=? b)%Z then q else (q + 1)%Z in
  let far := if (2 * (a mod b) <=? b)%Z then (q + 1)%Z else q in
  if same near then (near, p)
  else if same far then (far, p)
  else match fuel with
       | O => (near, p)
       | S f => shortest f (n + 1) m e num den k
       end.

Definition layout (d p : Z) : string :=
  let ds := nat_to_string d in
  if (0 <=? p)%Z then ds ++ join (repeat "0" (Z.to_nat p))
  else
    let k := Z.to_nat (- p) in
    if (k <? slen ds)%nat then stake (slen ds - k) ds ++ "." ++ sdrop (slen ds - k) ds
    else "0." ++ join (repeat "0" (k - slen ds)) ++ ds.

(** Seventeen significant digits always suffice for binary64. *)
Definition print_f64 (f : f64) : string :=
  match f with
  | S754_nan => "NaN"
  | S754_infinity s => if s then "-inf" else "inf"
  | S754_zero s => if s then "-0" else "0"
  | S754_finite s m e =>
    let num := (Z.pos m * 2 ^ Z.max 0 e)%Z in
    let den := (2 ^ Z.max 0 (- e))%Z in
    let guess := ((Z.log2 num - Z.log2 den) * 30103 / 100000 - 1)%Z in
    let k := magnitude 8 num den guess in
    let '(d, p) := shortest 16 1 m e num den k in
    (if s then "-" else "") ++ layout d p
  end.

(** ** JSON numbers

    What serde_json documents of its observations: [as_i64] and [as_u64] are
    the integer's value when it fits the type, and [as_f64] is the nearest
    float, which for an integer beyond [i64] is at least 2^63. *)
Definition number_ok (n : Number) : bool :=
  match as_i64 n with Some i => in_i64 i | None => true end
  && match as_u64 n with
     | Some u =>
       in_u64 u
       && (in_i64 u || match as_f64 n with Some f => negb (f64_lt f i64_max_f64) | None => true end)
     | None => true
     end.

(** ** Facts *)

(** An integer-valued float: [z] is exactly its value. *)
Definition f64_is_int (f : f64) (z : Z) : Prop :=
  match f with
  | S754_zero _ => z = 0%Z
  | S754_finite s m e => (signed_mantissa s m * 2 ^ Z.max 0 e = z * 2 ^ Z.max 0 (- e))%Z
  | _ => False
  end.

Lemma pow2_pos k : (0 <= k)%Z -> (0 < 2 ^ k)%Z.
Proof. intros. by apply Z.pow_pos_nonneg. Qed.

(** Comparing an integral float z = x * 2^e with y * 2^11 compares the values. *)
Lemma compare_scaled_int x e z y :
  (x * 2 ^ Z.max 0 e = z * 2 ^ Z.max 0 (- e))%Z ->
  compare_scaled x e y 11 = Z.compare z (y * 2 ^ 11)%Z.
Proof.
  intros Hz. unfold compare_scaled. set (k := (2 ^ Z.max 0 (- e))%Z) in *.
  assert (Hk : (0 < k)%Z) by (apply pow2_pos; lia).
  set (c := (2 ^ Z.max 0 (11 - Z.max 0 e))%Z). assert (Hc : (0 < c)%Z) by (apply pow2_pos; lia).
  assert (E2 : (2 ^ Z.max 0 (11 - e) = c * k)%Z).
  { unfold c, k. rewrite <- Z.pow_add_r by lia. f_equal. lia. }
  assert (E1 : (2 ^ Z.max 0 e * c = 2 ^ Z.max 0 (e - 11) * 2 ^ 11)%Z).
  { unfold c. rewrite <- !Z.pow_add_r by lia. f_equal. lia. }
  rewrite E2. set (d := (2 ^ Z.max 0 (e - 11))%Z) in *. change (2 ^ 11)%Z with 2048%Z in *.
  assert (Hxd : (x * d * 2048 = z * k * c)%Z) by (rewrite <- Hz; nia).
  assert (Hyd : (y * (c * k) * 2048 = y * 2048 * k * c)%Z) by nia.
  rewrite (Zmult_compare_compat_r (x * d) (y * (c * k)) 2048), Hxd, Hyd by lia.
  rewrite <- !Zmult_compare_compat_r by lia. done.
Qed.

Lemma trunc_exact s m e :
  fract_is_zero (S754_finite s m e) = true ->
  f64_is_int (S754_finite s m e) (if s then - trunc_magnitude m e else trunc_magnitude m e)%Z.
Proof.
  unfold fract_is_zero, f64_is_int, trunc_magnitude, signed_mantissa. intros H.
  destruct (Z.leb_spec 0 e) as [He|He]; simpl in H.
  - rewrite Z.max_r, (Z.max_l 0 (- e)) by lia. destruct s; simpl; lia.
  - bools. rewrite Z.max_l, (Z.max_r 0 (- e)) by lia. change (2 ^ 0)%Z with 1%Z.
    pose proof (pow2_pos (- e) ltac:(lia)).
    pose proof (Z.div_mod (Z.pos m) (2 ^ (- e)) ltac:(lia)).
    destruct s; lia.
Qed.

(** In range and integral, the cast is the float's own value. *)
Lemma as_i64_exact f :
  fract_is_zero f = true -> f64_ge f i64_min_f64 = true -> f64_lt f i64_max_f64 = true ->
  f64_is_int f (f64_as_i64 f) /\ in_i64 (f64_as_i64 f) = true.
Proof.
  destruct f as [s|s| |s m e]; try done. intros Hf Hge Hlt. apply trunc_exact in Hf.
  unfold f64_as_i64. set (t := trunc_magnitude m e) in *. set (z := (if s then - t else t)%Z) in *.
  unfold f64_ge, f64_lt, i64_min_f64, i64_max_f64, f64_partial_cmp in *.
  rewrite !(compare_scaled_int _ _ z) in * by exact Hf. simpl in Hge, Hlt.
  assert (i64_min <= z)%Z 
    by (unfold i64_min; revert Hge; case Z.compare_spec; [lia|done|lia]).
  assert (z <= i64_max)%Z 
    by (unfold i64_max; revert Hlt; case Z.compare_spec; [done|lia|done]).
  replace (Z.max i64_min (Z.min i64_max z)) with z by lia. split; [done|].
  unfold in_i64. apply andb_true_iff. split; by apply Z.leb_le.
Qed.

(** Conversely: the value of an integral float is unique, and the range check
    decides whether it is an [i64]. *)
Lemma f64_is_int_unique f z z' : f64_is_int f z -> f64_is_int f z' -> z = z'.
Proof.
  destruct f as [s|s| |s m e]; simpl; try done; [congruence|]. intros H H'. rewrite H in H'.
  pose proof (pow2_pos (Z.max 0 (- e)) ltac:(lia)). by apply Z.mul_cancel_r in H'; [|lia].
Qed.

Lemma f64_is_int_integral f z : f64_is_int f z -> fract_is_zero f = true.
Proof.
  destruct f as [s|s| |s m e]; simpl; try done. intros H. destruct (Z.leb_spec 0 e) as [He|He]; [done|]. simpl.
  rewrite Z.max_l, (Z.max_r 0 (- e)) in H by lia. change (2 ^ 0)%Z with 1%Z in H. apply Z.eqb_eq.
  apply Z.mod_divide; [pose proof (pow2_pos (- e) ltac:(lia)); lia|].
  destruct s; simpl in H; [exists (- z)%Z|exists z]; lia.
Qed.

Lemma f64_is_int_range f z :
  f64_is_int f z -> f64_ge f i64_min_f64 && f64_lt f i64_max_f64 = in_i64 z.
Proof.
  destruct f as [s|s| |s m e]; simpl; try done; [by intros ->|]. intros H.
  unfold f64_ge, f64_lt, i64_min_f64, i64_max_f64, f64_partial_cmp.
  rewrite !(compare_scaled_int _ _ z) by exact H. unfold in_i64, i64_min, i64_max. simpl.
  destruct (Z.compare_spec z (-4503599627370496 * 2 ^ 11)), (Z.compare_spec z (4503599627370496 * 2 ^ 11)),
    (Z.leb_spec (-9223372036854775808) z), (Z.leb_spec z 9223372036854775807); simpl; try done; lia.
Qed.

Example print_whole : option_map print_f64 (parse_f64 "42.0") = Some "42".
Proof. vm_compute. reflexivity. Qed.
Example print_tenth : option_map print_f64 (parse_f64 "0.1") = Some "0.1".
Proof. vm_compute. reflexivity. Qed.
Example print_large : option_map print_f64 (parse_f64 "-1.5E+22") = Some "-15000000000000000000000".
Proof. vm_compute. reflexivity. Qed.
Example print_pi : option_map print_f64 (parse_f64 "3.14159265358979311599796346854") = Some "3.141592653589793".
Proof. vm_compute. reflexivity. Qed.
Example print_small : option_map print_f64 (parse_f64 "5e-324") =
  Some ("0." ++ join (repeat "0" 323) ++ "5").
Proof. vm_compute. reflexivity. Qed.
