(* ===== verification/Sql.v ===== *)
(** * SQL syntax trees

    The syntax of [sqlparser] as far as the gateway looks at it. Every Rust AST
    type the source matches on ([Expr], [Query], [Select], [FunctionArg], ...)
    contributes constructors to the one type [Node]; parts the source never
    looks into are [Other] nodes with a description and their sub-nodes, so
    traversals still reach what is nested in them.

    The parser and the printer are the class [SqlParser]. The crate's visitors
    are modelled by their documented behaviour: [walk] replaces every node by
    the visitor's result after its children ([VisitMut] with [post_visit_*]),
    [nodes] lists the nodes of a tree parents first ([visit_expressions],
    [visit_relations]). *)

From S2P Require Import Prelude RustStr.

Local Open Scope string_scope.

(** ** Names and literals *)

(** [Ident] without its source span. *)
Record Ident := mk_ident {
  ident_value : string;
  quote_style : option ascii
}.

(** [Ident::new] *)
Definition ident_new (s : string) : Ident := mk_ident s None.

Inductive ObjectNamePart :=
| NameIdent (id : Ident)
| NameFunction (text : string).

Definition as_ident (p : ObjectNamePart) : option Ident :=
  match p with
  | NameIdent id => Some id
  | NameFunction _ => None
  end.

Abbreviation ObjectName := (list ObjectNamePart).

Inductive Literal :=
| NumberLit (n : string) (long : bool)
| SingleQuotedString (s : string)
| NullLit
| OtherLit (text : string).

Inductive CastKind := PlainCast | TryCast | SafeCast | DoubleColon.

#[export] Instance CastKind_eq_dec : EqDecision CastKind.
Proof. solve_decision. Defined.

(** [DataType]: the variants the rewriter names. *)
Inductive DataType :=
| DtText
| DtInt2 (display : option Z)
| DtInt4 (display : option Z)
| DtInt8 (display : option Z)
| DtFloat4
| DtFloat8
| DtBool
| DtBytea
| DtVarchar (length : option string)
| DtSmallInt (display : option Z)
| DtInteger (display : option Z)
| DtBigInt (display : option Z)
| DtReal
| DtDoublePrecision
| DtBoolean
| DtVarbinary (length : option string)
| DtOther (text : string).

(** ** Nodes *)

#[local] Set Warnings "-register-all".

Inductive Node :=
(* Expr *)
| Identifier (id : Ident)
| CompoundIdentifier (parts : list Ident)
| ValueExpr (v : Literal)
| Cast (kind : CastKind) (expr : Node) (data_type : DataType) (format : option string)
| ILike (negated any : bool) (expr pattern : Node) (escape_char : option Literal)
| Like (negated any : bool) (expr pattern : Node) (escape_char : option Literal)
| Function (name : ObjectName) (uses_odbc_syntax : bool) (parameters args : Node) (rest : list Node)
| OtherExpr (shape : string) (parts : list Node)
(* FunctionArguments, FunctionArg, FunctionArgExpr *)
| ArgsNone
| ArgsSubquery (query : Node)
| ArgsList (duplicate_treatment : option string) (args : list Node) (clauses : list Node)
| ArgUnnamed (arg : Node)
| ArgNamed (name : Ident) (arg : Node)
| ArgExprNamed (name : Node) (arg : Node)
| ArgExpr (e : Node)
| ArgWildcard (text : string)
(* Query, LimitClause, Fetch, SetExpr *)
| Query (with_ : option Node) (body : Node) (order_by limit_clause fetch : option Node) (rest : list Node)
| LimitOffset (limit offset : option Node) (limit_by : list Node)
| Fetch (with_ties percent : bool) (quantity : option Node)
| Select (projection from : list Node) (selection : option Node) (group_by : Node) (having : option Node)
    (cluster_by distribute_by sort_by : list Node) (qualify : option Node) (rest : list Node)
(* GroupByExpr, SelectItem *)
| GroupByExpressions (exprs modifiers : list Node)
| GroupByAll (modifiers : list Node)
| UnnamedExpr (e : Node)
| ExprWithAlias (e : Node) (alias : Ident)
| QualifiedWildcard (name : string)
| Wildcard
(* a relation name, Statement::Query, and everything else *)
| Relation (name : ObjectName)
| StatementQuery (query : Node)
| Other (shape : string) (parts : list Node).

Definition opt_list {A} (o : option A) : list A :=
  match o with
  | Some a => [a]
  | None => []
  end.

(** The sub-nodes, in field order. *)
Definition children (n : Node) : list Node :=
  match n with
  | Identifier _ | CompoundIdentifier _ | ValueExpr _ | ArgsNone | ArgWildcard _
  | QualifiedWildcard _ | Wildcard | Relation _ => []
  | Cast _ e _ _ => [e]
  | ILike _ _ e p _ | Like _ _ e p _ => [e; p]
  | Function _ _ ps args rest => ps :: args :: rest
  | OtherExpr _ parts | Other _ parts => parts
  | ArgsSubquery q | StatementQuery q => [q]
  | ArgsList _ args clauses => (args ++ clauses)%list
  | ArgUnnamed a | ArgNamed _ a => [a]
  | ArgExprNamed m a => [m; a]
  | ArgExpr e | UnnamedExpr e | ExprWithAlias e _ => [e]
  | Query w b o l f rest => (opt_list w ++ b :: opt_list o ++ opt_list l ++ opt_list f ++ rest)%list
  | LimitOffset l o by_ => (opt_list l ++ opt_list o ++ by_)%list
  | Fetch _ _ q => opt_list q
  | Select p fr s g h c d so q rest =>
    (p ++ fr ++ opt_list s ++ g :: opt_list h ++ c ++ d ++ so ++ opt_list q ++ rest)%list
  | GroupByExpressions es ms => (es ++ ms)%list
  | GroupByAll ms => ms
  end.

(** Replace the sub-nodes. *)
Definition map_children (f : Node -> Node) (n : Node) : Node :=
  match n with
  | Identifier _ | CompoundIdentifier _ | ValueExpr _ | ArgsNone | ArgWildcard _
  | QualifiedWildcard _ | Wildcard | Relation _ => n
  | Cast k e dt fmt => Cast k (f e) dt fmt
  | ILike neg a e p esc => ILike neg a (f e) (f p) esc
  | Like neg a e p esc => Like neg a (f e) (f p) esc
  | Function name odbc ps args rest => Function name odbc (f ps) (f args) (map f rest)
  | OtherExpr s parts => OtherExpr s (map f parts)
  | Other s parts => Other s (map f parts)
  | ArgsSubquery q => ArgsSubquery (f q)
  | StatementQuery q => StatementQuery (f q)
  | ArgsList d args clauses => ArgsList d (map f args) (map f clauses)
  | ArgUnnamed a => ArgUnnamed (f a)
  | ArgNamed m a => ArgNamed m (f a)
  | ArgExprNamed m a => ArgExprNamed (f m) (f a)
  | ArgExpr e => ArgExpr (f e)
  | UnnamedExpr e => UnnamedExpr (f e)
  | ExprWithAlias e a => ExprWithAlias (f e) a
  | Query w b o l ft rest =>
    Query (option_map f w) (f b) (option_map f o) (option_map f l) (option_map f ft) (map f rest)
  | LimitOffset l o by_ => LimitOffset (option_map f l) (option_map f o) (map f by_)
  | Fetch t p q => Fetch t p (option_map f q)
  | Select p fr s g h c d so q rest =>
    Select (map f p) (map f fr) (option_map f s) (f g) (option_map f h) (map f c) (map f d) (map f so)
      (option_map f q) (map f rest)
  | GroupByExpressions es ms => GroupByExpressions (map f es) (map f ms)
  | GroupByAll ms => GroupByAll (map f ms)
  end.

(** The node is an [Expr]. *)
Definition is_expr (n : Node) : bool :=
  match n with
  | Identifier _ | CompoundIdentifier _ | ValueExpr _ | Cast _ _ _ _ | ILike _ _ _ _ _
  | Like _ _ _ _ _ | Function _ _ _ _ _ | OtherExpr _ _ => true
  | _ => false
  end.

(** A mutable visitor's post-order pass: children first, then the node. *)
Fixpoint walk (f : Node -> Node) (n : Node) {struct n} : Node :=
  f (map_children (walk f) n).

(** The concatenation of [f] over the sub-nodes. *)
Definition collect_children {A} (f : Node -> list A) (n : Node) : list A :=
  let many l := concat (map f l) in
  let one o := match o with Some m => f m | None => [] end in
  match n with
  | Identifier _ | CompoundIdentifier _ | ValueExpr _ | ArgsNone | ArgWildcard _
  | QualifiedWildcard _ | Wildcard | Relation _ => []
  | Cast _ e _ _ => f e
  | ILike _ _ e p _ | Like _ _ e p _ => f e ++ f p
  | Function _ _ ps args rest => f ps ++ f args ++ many rest
  | OtherExpr _ parts | Other _ parts => many parts
  | ArgsSubquery q | StatementQuery q => f q
  | ArgsList _ args clauses => many args ++ many clauses
  | ArgUnnamed a | ArgNamed _ a => f a
  | ArgExprNamed m a => f m ++ f a
  | ArgExpr e | UnnamedExpr e | ExprWithAlias e _ => f e
  | Query w b o l ft rest => one w ++ f b ++ one o ++ one l ++ one ft ++ many rest
  | LimitOffset l o by_ => one l ++ one o ++ many by_
  | Fetch _ _ q => one q
  | Select p fr s g h c d so q rest =>
    many p ++ many fr ++ one s ++ f g ++ one h ++ many c ++ many d ++ many so ++ one q ++ many rest
  | GroupByExpressions es ms => many es ++ many ms
  | GroupByAll ms => many ms
  end%list.

(** Every node of the tree, parents first. *)
Fixpoint nodes (n : Node) {struct n} : list Node :=
  n :: collect_children nodes n.

(** ** Traversals of statements *)

(** [visit_expressions]: the expressions, in visiting order. *)
Definition visit_expressions (stmts : list Node) : list Node :=
  List.filter is_expr (concat (map nodes stmts)).

(** [visit_relations]: the relation names, in visiting order. *)
Definition relation_name (n : Node) : list ObjectName :=
  match n with
  | Relation name => [name]
  | _ => []
  end.

Definition visit_relations (stmts : list Node) : list ObjectName :=
  concat (map relation_name (concat (map nodes stmts))).

(** The parser with [PostgreSqlDialect] (its [Ok] results) and [to_string]. *)
Class SqlParser := {
  parse_sql : string -> option (list Node);
  to_string : Node -> string
}.

(** ** Facts on trees *)

Lemma collect_children_spec {A} (f : Node -> list A) n :
  collect_children f n = concat (map f (children n)).
Proof.
  destruct n; simpl; rewrite ?map_app; simpl; rewrite ?concat_app; simpl; rewrite ?app_nil_r; try done.
  all: repeat match goal with o : option Node |- _ => destruct o; simpl end;
    rewrite ?map_app; simpl; rewrite ?map_app; simpl; rewrite ?concat_app; simpl;
    rewrite ?app_nil_r, ?concat_app, ?app_assoc; try done.
Qed.

Lemma nodes_unfold n : nodes n = n :: concat (map nodes (children n)).
Proof. rewrite <- collect_children_spec. by destruct n. Qed.

Lemma walk_unfold f n : walk f n = f (map_children (walk f) n).
Proof. by destruct n. Qed.

Lemma children_map f n : children (map_children f n) = map f (children n).
Proof.
  destruct n; simpl; rewrite ?map_app; try done.
  all: repeat match goal with o : option Node |- _ => destruct o; simpl end;
    rewrite ?map_app; simpl; rewrite ?map_app; done.
Qed.

(** [Forall P] of the children of a node, given [IH : forall n, P n]. *)
Ltac all_children IH :=
  lazymatch goal with
  | |- Forall _ (_ ++ _)%list => apply Forall_app; split; all_children IH
  | |- Forall _ (_ :: _) => constructor; [apply IH|all_children IH]
  | |- Forall _ [] => constructor
  | |- Forall _ (opt_list ?o) => destruct o; simpl; all_children IH
  | |- Forall _ ?l => is_var l; induction l; constructor; [apply IH|assumption]
  end.

(** Induction on trees. *)
Lemma node_ind (P : Node -> Prop) :
  (forall n, Forall P (children n) -> P n) -> forall n, P n.
Proof. intros H. fix IH 1. intros n. apply H. destruct n; simpl; all_children IH. Qed.

(** A node of a tree is its root or a node of a child. *)
Lemma in_nodes x n : In x (nodes n) <-> x = n \/ exists c, In c (children n) /\ In x (nodes c).
Proof.
  rewrite nodes_unfold. simpl. rewrite in_concat. split.
  - intros [->|(l & Hl & Hx)]; [by left|]. apply in_map_iff in Hl as (c & <- & Hc). right. eauto.
  - intros [->|(c & Hc & Hx)]; [by left|]. right. exists (nodes c). split; [|done].
    apply in_map_iff. eauto.
Qed.

(** What holds of every node a pass produces: it is enough that the visitor
    establishes it for the whole of its result, given it below the node. *)
Lemma walk_all (f : Node -> Node) (P : Node -> Prop) :
  (forall n, (forall c x, In c (children n) -> In x (nodes c) -> P x) -> forall x, In x (nodes (f n)) -> P x) ->
  forall n x, In x (nodes (walk f n)) -> P x.
Proof.
  intros Hf. induction n as [n IH] using node_ind. intros x. rewrite walk_unfold. apply Hf.
  intros c y Hc Hy. rewrite children_map in Hc. apply in_map_iff in Hc as (d & <- & Hd).
  rewrite List.Forall_forall in IH. by apply (IH d).
Qed.
