(* ===== verification/SqlText.v ===== *)
(** * A parser and a printer that compute

    An instance of [SqlParser] for the part of PostgreSQL's syntax the gateway's
    clients and tests use: queries with common table expressions, joins,
    subqueries, [UNION], ordering and paging; expressions with operators, casts,
    [LIKE], [IN], [CASE] and calls; [INSERT]; and session commands, which are
    kept as their text. It is one way [sqlparser] can be instantiated, precise
    enough to run the gateway from the text a client sends to the text Trino
    receives. *)

From S2P Require Import Prelude RustStr Sql.

Local Open Scope string_scope.

(** ** Tokens *)

Inductive Tok :=
| Word (s : string) (quote : option ascii)
| Number (s : string)
| Quoted (s : string)
| Placeholder (s : string)
| Sym (s : string).

Definition quote_char : ascii := "'".
Definition double_quote : ascii := "034".
Definition newline : ascii := "010".

Definition is_space (c : ascii) : bool := (byte_of c =? 32)%N || ((9 <=? byte_of c)%N && (byte_of c <=? 13)%N).

(** Letters, the underscore and everything beyond ASCII. *)
Definition word_start (c : ascii) : bool :=
  let l := byte_of (ascii_lower_byte c) in
  ((97 <=? l)%N && (l <=? 122)%N) || (byte_of c =? 95)%N || negb (is_ascii c).

Definition word_char (c : ascii) : bool := word_start c || is_digit c || (byte_of c =? 36)%N.

Definition number_char (c : ascii) : bool := is_digit c || Ascii.eqb c ".".

(** The longest prefix of characters in [f], and what follows it. *)
Fixpoint span (f : ascii -> bool) (s : string) : string * string :=
  match s with
  | String c s' => if f c then let '(w, rest) := span f s' in (String c w, rest) else ("", s)
  | EmptyString => ("", "")
  end.

(** The text of a quoted item up to its closing quote; a doubled quote stands
    for itself. *)
Fixpoint quoted (q : ascii) (s : string) : option (string * string) :=
  match s with
  | EmptyString => None
  | String c s' =>
    if Ascii.eqb c q then
      match s' with
      | String d s'' =>
        if Ascii.eqb d q then '(w, rest) ← quoted q s''; Some (String q w, rest) else Some ("", s')
      | EmptyString => Some ("", "")
      end
    else '(w, rest) ← quoted q s'; Some (String c w, rest)
  end.

Definition long_symbols : list string := ["::"; "||"; "<>"; "<="; ">="; "!="].
Definition short_symbols : list string :=
  ["("; ")"; ","; ";"; "."; "="; "<"; ">"; "+"; "-"; "*"; "/"; "%"; "["; "]"].

(** What follows the first occurrence of [p]. *)
Definition after (p s : string) : string :=
  match find p s with
  | Some i => sdrop (i + slen p) s
  | None => ""
  end.

Definition lex_symbol (s : string) : option (string * string) :=
  p ← head (List.filter (fun p => starts_with p s) (long_symbols ++ short_symbols)%list);
  Some (p, sdrop (slen p) s).

(** One unit of fuel per character is enough: every round consumes one. *)
Fixpoint lex (fuel : nat) (s : string) : option (list Tok) :=
  match fuel, s with
  | _, EmptyString => Some []
  | O, _ => None
  | S f, String c s' =>
    if is_space c then lex f s'
    else if starts_with "--" s then lex f (after (String newline "") s)
    else if starts_with "/*" s then lex f (after "*/" s)
    else if word_start c then let '(w, rest) := span word_char s in cons (Word w None) <$> lex f rest
    else if is_digit c then let '(w, rest) := span number_char s in cons (Number w) <$> lex f rest
    else if Ascii.eqb c "$" then
      let '(w, rest) := span is_digit s' in cons (Placeholder (String c w)) <$> lex f rest
    else if Ascii.eqb c quote_char then '(w, rest) ← quoted quote_char s'; cons (Quoted w) <$> lex f rest
    else if Ascii.eqb c double_quote then
      '(w, rest) ← quoted double_quote s'; cons (Word w (Some double_quote)) <$> lex f rest
    else '(p, rest) ← lex_symbol s; cons (Sym p) <$> lex f rest
  end.

Definition tokenize (s : string) : option (list Tok) := lex (S (slen s)) s.

(** ** Recognisers *)

Abbreviation Parser A := (list Tok -> option (A * list Tok)).

Definition is_keyword (w : string) (t : Tok) : bool :=
  match t with Word s None => eq_ignore_ascii_case s w | _ => false end.

Definition keyword (w : string) (ts : list Tok) : option (list Tok) :=
  match ts with t :: rest => if is_keyword w t then Some rest else None | [] => None end.

Fixpoint keywords (ws : list string) (ts : list Tok) : option (list Tok) :=
  match ws with
  | [] => Some ts
  | w :: ws' => ts' ← keyword w ts; keywords ws' ts'
  end.

Definition sym (s : string) (ts : list Tok) : option (list Tok) :=
  match ts with Sym t :: rest => if String.eqb s t then Some rest else None | _ => None end.

(** Words that end an expression or a table, so that they are no alias. *)
Definition reserved : list string :=
  ["select"; "from"; "where"; "group"; "having"; "order"; "limit"; "offset"; "fetch"; "union"; "join"; "inner";
   "left"; "right"; "full"; "cross"; "on"; "and"; "or"; "not"; "as"; "like"; "ilike"; "in"; "is"; "between";
   "escape"; "when"; "then"; "else"; "end"; "case"; "with"; "values"; "asc"; "desc"].

Definition identifier : Parser Ident := fun ts =>
  match ts with
  | Word s q :: rest =>
    if match q with None => existsb (fun w => eq_ignore_ascii_case s w) reserved | Some _ => false end
    then None else Some (mk_ident s q, rest)
  | _ => None
  end.

(** An alias, with or without [AS]. *)
Definition alias : Parser Ident := fun ts =>
  match keyword "as" ts with
  | Some rest => identifier rest
  | None => identifier ts
  end.

(** One or more items between separators. *)
Fixpoint sep_by {A} (fuel : nat) (separator : list Tok -> option (list Tok)) (p : Parser A) : Parser (list A) :=
  fun ts =>
  match fuel with
  | O => None
  | S f =>
    '(a, rest) ← p ts;
    match separator rest with
    | Some rest' => '(l, rest'') ← sep_by f separator p rest'; Some (a :: l, rest'')
    | None => Some ([a], rest)
    end
  end.

Definition name : Parser (list Ident) := fun ts => sep_by (S (length ts)) (sym ".") identifier ts.

Definition object_name : Parser ObjectName := fun ts =>
  '(ids, rest) ← name ts; Some (map NameIdent ids, rest).

(** [p] if the keyword [w] comes next. *)
Definition clause {A} (ws : list string) (p : Parser A) : Parser (option A) := fun ts =>
  match keywords ws ts with
  | Some rest => '(a, rest') ← p rest; Some (Some a, rest')
  | None => Some (None, ts)
  end.

Definition type_length : Parser (option string) := fun ts =>
  match ts with
  | Sym "(" :: Number n :: Sym ")" :: rest => Some (Some n, rest)
  | _ => Some (None, ts)
  end.

Definition data_type : Parser DataType := fun ts =>
  match ts with
  | Word s None :: rest =>
    let named w := eq_ignore_ascii_case s w in
    if named "text" then Some (DtText, rest)
    else if named "int2" then Some (DtInt2 None, rest)
    else if named "int4" then Some (DtInt4 None, rest)
    else if named "int8" then Some (DtInt8 None, rest)
    else if named "float4" then Some (DtFloat4, rest)
    else if named "float8" then Some (DtFloat8, rest)
    else if named "bool" then Some (DtBool, rest)
    else if named "bytea" then Some (DtBytea, rest)
    else if named "smallint" then Some (DtSmallInt None, rest)
    else if named "integer" then Some (DtInteger None, rest)
    else if named "bigint" then Some (DtBigInt None, rest)
    else if named "real" then Some (DtReal, rest)
    else if named "boolean" then Some (DtBoolean, rest)
    else if named "double" then rest' ← keyword "precision" rest; Some (DtDoublePrecision, rest')
    else if named "varchar" then '(n, rest') ← type_length rest; Some (DtVarchar n, rest')
    else if named "varbinary" then '(n, rest') ← type_length rest; Some (DtVarbinary n, rest')
    else Some (DtOther (to_ascii_uppercase s), rest)
  | _ => None
  end.

(** ** Expressions and queries *)

(** Binary operators and their precedence; a higher number binds tighter. *)
Definition binary_operator (ts : list Tok) : option (string * nat * list Tok) :=
  match ts with
  | Sym s :: rest =>
    if existsb (String.eqb s) ["="; "<>"; "!="; "<"; ">"; "<="; ">="] then Some (s, 20, rest)
    else if existsb (String.eqb s) ["||"; "+"; "-"] then Some (s, 30, rest)
    else if existsb (String.eqb s) ["*"; "/"; "%"] then Some (s, 40, rest)
    else None
  | t :: rest =>
    if is_keyword "or" t then Some ("OR", 5, rest)
    else if is_keyword "and" t then Some ("AND", 10, rest)
    else None
  | [] => None
  end%nat.

(** [LIKE], [ILIKE], [IN] and their negations. *)
Inductive MatchKind := MLike | MILike | MIn.

Definition match_operator (ts : list Tok) : option (bool * MatchKind * list Tok) :=
  let '(negated, ts) := match keyword "not" ts with Some rest => (true, rest) | None => (false, ts) end in
  match keyword "like" ts, keyword "ilike" ts, keyword "in" ts with
  | Some rest, _, _ => Some (negated, MLike, rest)
  | _, Some rest, _ => Some (negated, MILike, rest)
  | _, _, Some rest => Some (negated, MIn, rest)
  | _, _, _ => None
  end.

Definition starts_query (ts : list Tok) : bool :=
  match ts with
  | t :: _ => is_keyword "select" t || is_keyword "with" t || is_keyword "values" t
  | [] => false
  end.

Definition not_prefix (negated : bool) (s : string) : string := if negated then "NOT " ++ s else s.

Definition escape_literal : Parser (option Literal) := fun ts =>
  match keyword "escape" ts with
  | Some (Quoted s :: rest) => Some (Some (SingleQuotedString s), rest)
  | Some _ => None
  | None => Some (None, ts)
  end.

Definition closing {A} (p : Parser A) : Parser A := fun ts =>
  '(a, rest) ← p ts; rest' ← sym ")" rest; Some (a, rest').

Definition no_args : Node := ArgsNone.

(** Paging clauses; [LIMIT ALL] is no limit. *)
Definition paging (limit offset : option Node) : option Node :=
  match limit, offset with
  | None, None => None
  | _, _ => Some (LimitOffset limit offset [])
  end.

Definition join_kind (ts : list Tok) : option (string * list Tok) :=
  match keyword "join" ts, keywords ["inner"; "join"] ts, keywords ["left"; "join"] ts,
        keywords ["left"; "outer"; "join"] ts with
  | Some rest, _, _, _ => Some ("JOIN", rest)
  | _, Some rest, _, _ => Some ("INNER JOIN", rest)
  | _, _, Some rest, _ => Some ("LEFT JOIN", rest)
  | _, _, _, Some rest => Some ("LEFT OUTER JOIN", rest)
  | _, _, _, _ => None
  end.

(** The recursive descent. [fuel] bounds its depth; four levels per token are
    enough for the nesting of the rules. *)
Fixpoint expr (fuel : nat) (prec : nat) : Parser Node := fun ts =>
  match fuel with
  | O => None
  | S f => '(l, rest) ← prefix_expr f ts; infix_expr f prec l rest
  end
with prefix_expr (fuel : nat) : Parser Node := fun ts =>
  match fuel with
  | O => None
  | S f =>
    match ts with
    | Number n :: rest => Some (ValueExpr (NumberLit n false), rest)
    | Quoted s :: rest => Some (ValueExpr (SingleQuotedString s), rest)
    | Placeholder s :: rest => Some (ValueExpr (OtherLit s), rest)
    | Sym s :: rest =>
      if String.eqb s "(" then
        if starts_query rest
        then '(q, rest') ← closing (query f) rest; Some (OtherExpr "Subquery" [q], rest')
        else '(e, rest') ← closing (expr f 0) rest; Some (OtherExpr "Nested" [e], rest')
      else if String.eqb s "-" then '(e, rest') ← expr f 45 rest; Some (OtherExpr "-" [e], rest')
      else None
    | t :: rest =>
      if is_keyword "not" t then '(e, rest') ← expr f 15 rest; Some (OtherExpr "NOT" [e], rest')
      else if is_keyword "null" t then Some (ValueExpr NullLit, rest)
      else if is_keyword "true" t then Some (ValueExpr (OtherLit "true"), rest)
      else if is_keyword "false" t then Some (ValueExpr (OtherLit "false"), rest)
      else if is_keyword "exists" t then
        rest ← sym "(" rest; '(q, rest') ← closing (query f) rest; Some (OtherExpr "EXISTS" [q], rest')
      else if is_keyword "case" t then
        '(whens, rest) ← case_arms f rest;
        '(other, rest) ← clause ["else"] (expr f 0) rest;
        rest ← keyword "end" rest;
        Some (OtherExpr "CASE" (whens ++ map (fun e => Other "ELSE" [e]) (opt_list other))%list, rest)
      else if is_keyword "cast" t || is_keyword "try_cast" t then
        rest ← sym "(" rest;
        '(e, rest) ← expr f 0 rest;
        rest ← keyword "as" rest;
        '(dt, rest) ← closing data_type rest;
        Some (Cast (if is_keyword "cast" t then PlainCast else TryCast) e dt None, rest)
      else
        '(ids, rest) ← name ts;
        match sym "(" rest with
        | Some rest' =>
          '(args, rest'') ← arguments f rest'; Some (Function (map NameIdent ids) false no_args args [], rest'')
        | None => Some (match ids with [id] => Identifier id | _ => CompoundIdentifier ids end, rest)
        end
    | [] => None
    end
  end
with infix_expr (fuel : nat) (prec : nat) (left : Node) : Parser Node := fun ts =>
  match fuel with
  | O => None
  | S f =>
    match sym "::" ts with
    | Some rest => '(dt, rest') ← data_type rest; infix_expr f prec (Cast DoubleColon left dt None) rest'
    | None =>
      match match_operator ts with
      | Some (negated, kind, rest) =>
        if (20 <=? prec)%nat then Some (left, ts) else
        match kind with
        | MIn =>
          rest ← sym "(" rest;
          '(l, rest) ← closing (fun ts => if starts_query ts
                                          then '(q, r) ← query f ts; Some ([q], r)
                                          else sep_by f (sym ",") (expr f 0) ts) rest;
          infix_expr f prec (OtherExpr (not_prefix negated "IN") (left :: l)) rest
        | _ =>
          let '(any, rest) := match keyword "any" rest with Some r => (true, r) | None => (false, rest) end in
          '(p, rest) ← expr f 20 rest;
          '(esc, rest) ← escape_literal rest;
          infix_expr f prec (match kind with
                             | MLike => Like negated any left p esc
                             | _ => ILike negated any left p esc
                             end) rest
        end
      | None =>
        match keywords ["is"; "null"] ts, keywords ["is"; "not"; "null"] ts with
        | Some rest, _ => infix_expr f prec (OtherExpr "IS NULL" [left]) rest
        | _, Some rest => infix_expr f prec (OtherExpr "IS NOT NULL" [left]) rest
        | None, None =>
          match binary_operator ts with
          | Some (op, p, rest) =>
            if (p <=? prec)%nat then Some (left, ts)
            else '(r, rest') ← expr f p rest; infix_expr f prec (OtherExpr op [left; r]) rest'
          | None => Some (left, ts)
          end
        end
      end
    end
  end
with case_arms (fuel : nat) : Parser (list Node) := fun ts =>
  match fuel with
  | O => None
  | S f =>
    match keyword "when" ts with
    | Some rest =>
      '(c, rest) ← expr f 0 rest;
      rest ← keyword "then" rest;
      '(r, rest) ← expr f 0 rest;
      '(arms, rest) ← case_arms f rest;
      Some (Other "WHEN" [c; r] :: arms, rest)
    | None => Some ([], ts)
    end
  end
with arguments (fuel : nat) : Parser Node := fun ts =>
  match fuel with
  | O => None
  | S f =>
    match sym ")" ts with
    | Some rest => Some (ArgsList None [] [], rest)
    | None =>
      if starts_query ts then '(q, rest) ← closing (query f) ts; Some (ArgsSubquery q, rest) else
      let '(distinct, ts) := match keyword "distinct" ts with
                             | Some rest => (Some "DISTINCT", rest)
                             | None => (None, ts)
                             end in
      let argument ts := match sym "*" ts with
                         | Some rest => Some (ArgUnnamed (ArgWildcard "*"), rest)
                         | None => '(e, rest) ← expr f 0 ts; Some (ArgUnnamed (ArgExpr e), rest)
                         end in
      '(l, rest) ← closing (sep_by f (sym ",") argument) ts;
      Some (ArgsList distinct l [], rest)
    end
  end
with query (fuel : nat) : Parser Node := fun ts =>
  match fuel with
  | O => None
  | S f =>
    let cte ts :=
      '(id, rest) ← identifier ts;
      rest ← keyword "as" rest;
      rest ← sym "(" rest;
      '(q, rest) ← closing (query f) rest;
      Some (Other (ident_value id) [q], rest) in
    let order_item ts :=
      '(e, rest) ← expr f 0 ts;
      match keyword "asc" rest, keyword "desc" rest with
      | Some r, _ => Some (Other "ASC" [e], r)
      | _, Some r => Some (Other "DESC" [e], r)
      | _, _ => Some (Other "ORDER" [e], rest)
      end in
    let limit ts := match keyword "all" ts with
                    | Some rest => Some (None, rest)
                    | None => '(e, rest) ← expr f 0 ts; Some (Some e, rest)
                    end in
    '(with_, ts) ← clause ["with"] (sep_by f (sym ",") cte) ts;
    '(body, ts) ← sep_by f (keywords ["union"; "all"]) (select f) ts;
    '(order_by, ts) ← clause ["order"; "by"] (sep_by f (sym ",") order_item) ts;
    '(lim, ts) ← clause ["limit"] limit ts;
    '(offset, ts) ← clause ["offset"] (expr f 0) ts;
    '(fetch, ts) ← clause ["fetch"; "first"]
        (fun ts => '(e, r) ← expr f 0 ts; r ← keywords ["rows"; "only"] r; Some (Fetch false false (Some e), r)) ts;
    Some (Query (Other "WITH" <$> with_)
            (match body with [s] => s | _ => Other "UNION ALL" body end)
            (Other "ORDER BY" <$> order_by) (paging (default None lim) offset) fetch [], ts)
  end
with select (fuel : nat) : Parser Node := fun ts =>
  match fuel with
  | O => None
  | S f =>
    let row ts := rest ← sym "(" ts; '(l, rest) ← closing (sep_by f (sym ",") (expr f 0)) rest;
                  Some (Other "ROW" l, rest) in
    match keyword "values" ts with
    | Some rest => '(rows, rest) ← sep_by f (sym ",") row rest; Some (Other "VALUES" rows, rest)
    | None =>
      let item ts :=
        match sym "*" ts with
        | Some rest => Some (Wildcard, rest)
        | None =>
          '(e, rest) ← expr f 0 ts;
          match alias rest with
          | Some (a, rest') => Some (ExprWithAlias e a, rest')
          | None => Some (UnnamedExpr e, rest)
          end
        end in
      ts ← keyword "select" ts;
      '(projection, ts) ← sep_by f (sym ",") item ts;
      '(from, ts) ← clause ["from"] (sep_by f (sym ",") (table_with_joins f)) ts;
      '(selection, ts) ← clause ["where"] (expr f 0) ts;
      '(group_by, ts) ← clause ["group"; "by"] (sep_by f (sym ",") (expr f 0)) ts;
      '(having, ts) ← clause ["having"] (expr f 0) ts;
      Some (Select projection (default [] from) selection (GroupByExpressions (default [] group_by) [])
              having [] [] [] None [], ts)
    end
  end
with table_with_joins (fuel : nat) : Parser Node := fun ts =>
  match fuel with
  | O => None
  | S f =>
    '(t, rest) ← table_factor f ts;
    '(joins, rest) ← joined f rest;
    Some (match joins with [] => t | _ => Other "TableWithJoins" (t :: joins) end, rest)
  end
with joined (fuel : nat) : Parser (list Node) := fun ts =>
  match fuel with
  | O => None
  | S f =>
    match join_kind ts with
    | Some (kind, rest) =>
      '(t, rest) ← table_factor f rest;
      '(on, rest) ← clause ["on"] (expr f 0) rest;
      '(l, rest) ← joined f rest;
      Some (Other kind (t :: opt_list on) :: l, rest)
    | None => Some ([], ts)
    end
  end
with table_factor (fuel : nat) : Parser Node := fun ts =>
  match fuel with
  | O => None
  | S f =>
    '(t, rest) ← match sym "(" ts with
                 | Some rest => '(q, r) ← closing (query f) rest; Some (Other "Derived" [q], r)
                 | None => '(n, r) ← object_name ts; Some (Relation n, r)
                 end;
    match alias rest with
    | Some (a, rest') => Some (Other ("AS " ++ ident_value a) [t], rest')
    | None => Some (t, rest)
    end
  end.

(** ** Printing *)

Definition print_quoted (q : ascii) (s : string) : string :=
  let fix double s := match s with
                      | EmptyString => ""
                      | String c s' => if Ascii.eqb c q then String c (String c (double s')) else String c (double s')
                      end in
  String q (double s ++ String q "").

Definition print_ident (id : Ident) : string :=
  match quote_style id with
  | Some q => print_quoted q (ident_value id)
  | None => ident_value id
  end.

Definition print_name (l : ObjectName) : string :=
  String.concat "." (map (fun p => match p with NameIdent id => print_ident id | NameFunction t => t end) l).

Definition print_literal (l : Literal) : string :=
  match l with
  | NumberLit n _ => n
  | SingleQuotedString s => print_quoted quote_char s
  | NullLit => "NULL"
  | OtherLit t => t
  end.

Definition with_length (s : string) (n : option string) : string :=
  match n with Some n => s ++ "(" ++ n ++ ")" | None => s end.

Definition print_type (dt : DataType) : string :=
  match dt with
  | DtText => "TEXT" | DtInt2 _ => "INT2" | DtInt4 _ => "INT4" | DtInt8 _ => "INT8"
  | DtFloat4 => "FLOAT4" | DtFloat8 => "FLOAT8" | DtBool => "BOOL" | DtBytea => "BYTEA"
  | DtVarchar n => with_length "VARCHAR" n
  | DtSmallInt _ => "SMALLINT" | DtInteger _ => "INTEGER" | DtBigInt _ => "BIGINT"
  | DtReal => "REAL" | DtDoublePrecision => "DOUBLE PRECISION" | DtBoolean => "BOOLEAN"
  | DtVarbinary n => with_length "VARBINARY" n
  | DtOther t => t
  end.

Definition print_escape (esc : option Literal) : string :=
  match esc with Some l => " ESCAPE " ++ print_literal l | None => "" end.

Definition commas (l : list string) : string := String.concat ", " l.
Definition parens (s : string) : string := "(" ++ s ++ ")".

(** A clause that is left out when it has no content. *)
Definition part (before : string) (o : option string) : string :=
  match o with Some s => before ++ s | None => "" end.

Definition list_part (before : string) (l : list string) : string :=
  match l with [] => "" | _ => before ++ commas l end.

(** An expression without a constructor of its own, from its printed parts. *)
Definition print_shape (shape : string) (parts : list string) : string :=
  let named s := String.eqb shape s in
  match parts with
  | [p] =>
    if named "Nested" || named "Subquery" || named "Derived" then parens p
    else if named "NOT" then "NOT " ++ p
    else if named "-" then "-" ++ p
    else if named "EXISTS" then "EXISTS " ++ parens p
    else if named "IS NULL" || named "IS NOT NULL" || named "ASC" || named "DESC" then p ++ " " ++ shape
    else if named "ORDER" then p
    else if named "ELSE" then " ELSE " ++ p
    else if named "WITH" || named "ORDER BY" || named "VALUES" then shape ++ " " ++ p
    else if named "ROW" then parens p
    else if named "CASE" then "CASE" ++ p ++ " END"
    else if starts_with "AS " shape then p ++ " " ++ shape
    else if named "JOIN" || named "INNER JOIN" || named "LEFT JOIN" || named "LEFT OUTER JOIN" then " " ++ shape ++ " " ++ p
    else shape ++ " AS " ++ parens p
  | _ =>
    if named "CASE" then "CASE" ++ join parts ++ " END"
    else if named "TableWithJoins" then join parts
    else if named "ROW" then parens (commas parts)
    else if named "WITH" || named "ORDER BY" || named "VALUES" then shape ++ " " ++ commas parts
    else if named "UNION ALL" then String.concat " UNION ALL " parts
    else
      match parts with
      | e :: l =>
        if named "IN" || named "NOT IN" then e ++ " " ++ shape ++ " " ++ parens (commas l)
        else
          match l with
          | [r] =>
            if named "WHEN" then " WHEN " ++ e ++ " THEN " ++ r
            else if named "INSERT INTO" then "INSERT INTO " ++ e ++ " " ++ r
            else if named "JOIN" || named "INNER JOIN" || named "LEFT JOIN" || named "LEFT OUTER JOIN"
            then " " ++ shape ++ " " ++ e ++ " ON " ++ r
            else e ++ " " ++ shape ++ " " ++ r
          | _ => shape
          end
      | [] => shape
      end
  end.

Fixpoint print (n : Node) {struct n} : string :=
  let opt before o := match o with Some m => before ++ print m | None => "" end in
  match n with
  | Identifier id => print_ident id
  | CompoundIdentifier ids => String.concat "." (map print_ident ids)
  | ValueExpr v => print_literal v
  | Cast DoubleColon e dt _ => print e ++ "::" ++ print_type dt
  | Cast k e dt _ => (match k with PlainCast => "CAST(" | _ => "TRY_CAST(" end) ++ print e ++ " AS " ++ print_type dt ++ ")"
  | ILike neg any e p esc =>
    print e ++ " " ++ not_prefix neg "ILIKE " ++ (if any then "ANY " else "") ++ print p ++ print_escape esc
  | Like neg any e p esc =>
    print e ++ " " ++ not_prefix neg "LIKE " ++ (if any then "ANY " else "") ++ print p ++ print_escape esc
  | Function name _ _ args _ => print_name name ++ print args
  | OtherExpr s parts | Other s parts => print_shape s (map print parts)
  | ArgsNone => ""
  | ArgsSubquery q => parens (print q)
  | ArgsList d args clauses => parens (part "" ((fun s => s ++ " ") <$> d) ++ commas (map print args) ++ join (map print clauses))
  | ArgUnnamed a | ArgExpr a => print a
  | ArgNamed m a => print_ident m ++ " => " ++ print a
  | ArgExprNamed m a => print m ++ " => " ++ print a
  | ArgWildcard t => t
  | Query w b ob lc ft rest =>
    (match w with Some m => print m ++ " " | None => "" end) ++ print b ++ opt " " ob ++ opt "" lc ++ opt "" ft
    ++ join (map print rest)
  | LimitOffset l o by_ => opt " LIMIT " l ++ opt " OFFSET " o ++ list_part " BY " (map print by_)
  | Fetch ties percent q =>
    " FETCH FIRST" ++ opt " " q ++ (if percent then " PERCENT" else "") ++ " ROWS " ++ (if ties then "WITH TIES" else "ONLY")
  | Select p fr s g h c d so q rest =>
    "SELECT " ++ commas (map print p) ++ list_part " FROM " (map print fr) ++ opt " WHERE " s ++ print g
    ++ opt " HAVING " h ++ list_part " CLUSTER BY " (map print c) ++ list_part " DISTRIBUTE BY " (map print d)
    ++ list_part " SORT BY " (map print so) ++ opt " QUALIFY " q ++ join (map print rest)
  | GroupByExpressions es ms => list_part " GROUP BY " (map print es) ++ join (map print ms)
  | GroupByAll ms => " GROUP BY ALL" ++ join (map print ms)
  | UnnamedExpr e => print e
  | ExprWithAlias e a => print e ++ " AS " ++ print_ident a
  | QualifiedWildcard t => t ++ ".*"
  | Wildcard => "*"
  | Relation name => print_name name
  | StatementQuery q => print q
  end.

(** ** Statements *)

Definition print_tok (t : Tok) : string :=
  match t with
  | Word s (Some q) => print_quoted q s
  | Word s None | Number s | Placeholder s | Sym s => s
  | Quoted s => print_quoted quote_char s
  end.

(** Commands that are kept as their text. *)
Definition session_commands : list string :=
  ["set"; "show"; "begin"; "start"; "commit"; "end"; "rollback"; "discard"; "deallocate"; "close"; "create"; "drop"].

Definition statement (ts : list Tok) : option Node :=
  let fuel := (4 * length ts + 8)%nat in
  let finished {A} (p : option (A * list Tok)) := match p with Some (a, []) => Some a | _ => None end in
  if starts_query ts then StatementQuery <$> finished (query fuel ts)
  else
    match keywords ["insert"; "into"] ts with
    | Some rest =>
      '(n, rest) ← object_name rest;
      q ← finished (query fuel rest);
      Some (Other "INSERT INTO" [Relation n; q])
    | None =>
      match ts with
      | t :: _ =>
        if existsb (fun w => is_keyword w t) session_commands
        then Some (Other (String.concat " " (map print_tok ts)) []) else None
      | [] => None
      end
    end.

(** The statements between top-level semicolons; empty ones do not count. *)
Fixpoint split_toks (current : list Tok) (ts : list Tok) : list (list Tok) :=
  match ts with
  | [] => match current with [] => [] | _ => [rev current] end
  | t :: rest =>
    match t, current with
    | Sym ";", [] => split_toks [] rest
    | Sym ";", _ => rev current :: split_toks [] rest
    | _, _ => split_toks (t :: current) rest
    end
  end.

Definition sql_text : SqlParser :=
  {| parse_sql s := ts ← tokenize s; mapM statement (split_toks [] ts);
     to_string := print |}.
