(* ===== verification/QueryInspection.v ===== *)
(** * Inspection of parsed SQL (src/src/query_inspection.rs)

    The routing predicates of the pipeline, on the syntax trees of [Sql]. Every
    predicate is false on SQL the parser rejects. *)

From S2P Require Import Prelude RustStr Sql.

Local Open Scope string_scope.

(** ** Definitions *)

Record ParsedQuery := mk_parsed_query {
  parsed : option (list Node)
}.

(** [ParsedQuery::new] *)
Definition parsed_query_new `{SqlParser} (sql : string) : ParsedQuery := mk_parsed_query (parse_sql sql).

Definition last_part (parts : ObjectName) : option ObjectNamePart := last parts.

Definition last_ident_eq (parts : ObjectName) (want : string) : bool :=
  match last_part parts ≫= as_ident with
  | Some id => eq_ignore_ascii_case (ident_value id) want
  | None => false
  end.

Definition references_table (q : ParsedQuery) (name : string) : bool :=
  match parsed q with
  | None => false
  | Some stmts => existsb (fun obj => last_ident_eq obj name) (visit_relations stmts)
  end.

(** The closure of [references_table_in_schema] on one relation. *)
Definition relation_in_schema (schema name : string) (parts : ObjectName) : bool :=
  last_ident_eq parts name
  && match length parts with
     | 1%nat => true
     | S (S n) =>
       match parts !! n ≫= as_ident with
       | Some id => eq_ignore_ascii_case (ident_value id) schema
       | None => false
       end
     | O => false
     end.

Definition references_table_in_schema (q : ParsedQuery) (schema name : string) : bool :=
  match parsed q with
  | None => false
  | Some stmts => existsb (relation_in_schema schema name) (visit_relations stmts)
  end.

Definition is_call_of (name : string) (e : Node) : bool :=
  match e with
  | Function fname _ _ _ _ => last_ident_eq fname name
  | _ => false
  end.

Definition calls_function (q : ParsedQuery) (name : string) : bool :=
  match parsed q with
  | None => false
  | Some stmts => existsb (is_call_of name) (visit_expressions stmts)
  end.

Definition is_identifier_named (name : string) (e : Node) : bool :=
  match e with
  | Identifier id => eq_ignore_ascii_case (ident_value id) name
  | _ => false
  end.

Definition calls_function_or_keyword (q : ParsedQuery) (name : string) : bool :=
  calls_function q name
  || match parsed q with
     | None => false
     | Some stmts => existsb (is_identifier_named name) (visit_expressions stmts)
     end.

Definition first_string_literal_arg (args : Node) : option string :=
  match args with
  | ArgsList _ list _ =>
    first ← head list;
    expr ← match first with
           | ArgUnnamed (ArgExpr e) => Some e
           | ArgNamed _ (ArgExpr e) => Some e
           | ArgExprNamed _ (ArgExpr e) => Some e
           | _ => None
           end;
    match expr with
    | ValueExpr (SingleQuotedString s) => Some s
    | _ => None
    end
  | _ => None
  end.

(** The closure of [function_string_arg] on one expression. *)
Definition string_arg_of (name : string) (e : Node) : option string :=
  match e with
  | Function fname _ _ args _ => if last_ident_eq fname name then first_string_literal_arg args else None
  | _ => None
  end.

Fixpoint first_some {A B} (f : A -> option B) (l : list A) : option B :=
  match l with
  | [] => None
  | a :: l' => or_else (f a) (first_some f l')
  end.

Definition function_string_arg (q : ParsedQuery) (name : string) : option string :=
  stmts ← parsed q;
  first_some (string_arg_of name) (visit_expressions stmts).

Definition returns_rows (q : ParsedQuery) : bool :=
  match parsed q ≫= head with
  | Some (StatementQuery _) => true
  | _ => false
  end.

Definition unnamed_select_name (expr : Node) : string :=
  match expr with
  | Identifier id => ident_value id
  | CompoundIdentifier parts =>
    match last parts with
    | Some p => ident_value p
    | None => "?column?"
    end
  | Function name _ _ _ _ =>
    match last_part name ≫= as_ident with
    | Some id => ident_value id
    | None => "?column?"
    end
  | _ => "?column?"
  end.

Definition select_item_name (item : Node) : string :=
  match item with
  | UnnamedExpr expr => unnamed_select_name expr
  | ExprWithAlias _ alias => ident_value alias
  | Wildcard => "*"
  | QualifiedWildcard name => name ++ ".*"
  | _ => "?column?"
  end.

Definition select_column_names (q : ParsedQuery) : list string :=
  match parsed q ≫= head with
  | Some (StatementQuery (Query _ (Select projection _ _ _ _ _ _ _ _ _) _ _ _ _)) =>
    map select_item_name projection
  | _ => []
  end.

Definition is_empty {A} (l : list A) : bool := match l with [] => true | _ => false end.
Definition is_none {A} (o : option A) : bool := match o with None => true | Some _ => false end.

Definition has_group_by (group_by : Node) : bool :=
  match group_by with
  | GroupByExpressions exprs mods => negb (is_empty exprs) || negb (is_empty mods)
  | _ => true
  end.

Definition bare_select (q : ParsedQuery) : option Node :=
  match parsed q with
  | Some [StatementQuery (Query with_ body order_by limit_clause fetch _)] =>
    if negb (is_none with_) || negb (is_none order_by) || negb (is_none limit_clause) || negb (is_none fetch)
    then None
    else match body with
         | Select projection from selection group_by having cluster_by distribute_by sort_by qualify _ =>
           if negb (is_empty from) || negb (is_none selection) || has_group_by group_by
              || negb (is_none having) || negb (is_empty cluster_by) || negb (is_empty distribute_by)
              || negb (is_empty sort_by) || negb (is_none qualify)
              || negb (length projection =? 1)%nat
           then None else Some body
         | _ => None
         end
  | _ => None
  end.

Definition is_bare_scalar_select (q : ParsedQuery) : bool := negb (is_none (bare_select q)).
