(* ===== verification/Values.v ===== *)
(** * Cell encoding (src/src/types.rs, the value half)

    One JSON cell of a Trino result becomes one field of a PostgreSQL data
    row: rendered text, or a typed value that pgwire writes in binary. chrono,
    rust_decimal and pgwire's field encoder are the classes [Chrono] and
    [Wire]; a [SqlValue] is the typed argument the source hands to
    [DataRowEncoder::encode_field]. *)

From S2P Require Import Prelude RustStr RustStrFacts PgWire Trino RustFloat.

Local Open Scope string_scope.
Local Open Scope rust_scope.

(** ** Parameters *)

(** chrono and chrono-tz: the value types, [parse_from_str] with a format,
    zone lookup, and the accessors the gateway reads. *)
Class Chrono := {
  NaiveDateTime : Type;
  NaiveDate : Type;
  NaiveTime : Type;
  DateTimeUtc : Type;
  DateTimeFixed : Type;
  Tz : Type;
  naive_datetime_parse_from_str : string -> string -> option NaiveDateTime;
  naive_date_parse_from_str : string -> string -> option NaiveDate;
  naive_time_parse_from_str : string -> string -> option NaiveTime;
  datetime_parse_from_str : string -> string -> option DateTimeFixed;
  with_timezone_utc : DateTimeFixed -> DateTimeUtc;
  datetime_time : DateTimeFixed -> NaiveTime;
  (** [dt.offset().local_minus_utc()] *)
  local_minus_utc : DateTimeFixed -> Z;
  tz_parse : string -> option Tz;
  (** [tz.from_local_datetime(&naive).single()], already in UTC *)
  from_local_datetime_single : Tz -> NaiveDateTime -> option DateTimeUtc;
  (** [time.format("%H:%M:%S")], [time.nanosecond()] *)
  time_hms : NaiveTime -> string;
  time_nanosecond : NaiveTime -> Z;
  (** [time.signed_duration_since(NaiveTime::MIN).num_microseconds()] *)
  time_micros : NaiveTime -> option Z;
  (** [dt.format("%Y-%m-%d %H:%M:%S")], [dt.nanosecond()] *)
  utc_ymd_hms : DateTimeUtc -> string;
  utc_nanosecond : DateTimeUtc -> Z
}.

(** [TimeTz]: a time of day and the offset east of UTC it was written with. *)
Record TimeTz `{Chrono} := mk_timetz {
  time : NaiveTime;
  offset_east_seconds : Z
}.

(** rust_decimal's type and exact parser. *)
Class Decimals := {
  Decimal : Type;
  decimal_from_str_exact : string -> option Decimal
}.

(** The typed argument of [encode_field]. *)
Inductive SqlValue `{Chrono} `{Decimals} :=
| VText (s : option string)
| VBool (b : bool)
| VInt2 (z : Z)
| VInt4 (z : Z)
| VInt8 (z : Z)
| VFloat4 (f : spec_float)
| VFloat8 (f : f64)
| VNumeric (d : Decimal)
| VTimestamp (t : NaiveDateTime)
| VTimestamptz (t : DateTimeUtc)
| VDate (d : NaiveDate)
| VTime (t : NaiveTime)
| VTimetz (t : TimeTz).

(** pgwire: a column's field as bytes ([None] is SQL NULL), and the name of a
    PostgreSQL type. serde_json: the compact text of an array or object. *)
Class Wire `{Chrono} `{Decimals} := {
  field_bytes : FieldInfo -> SqlValue -> PgWireResult (option string);
  type_name : PgType -> string;
  value_to_string : Value -> string
}.

(** [DataRowEncoder]: the row's schema and the fields written so far; the
    number of fields is the index of the next column. *)
Record DataRowEncoder := mk_encoder {
  enc_schema : list FieldInfo;
  enc_fields : list (option string)
}.

Definition index_panic : PgWireError := ApiError "index out of bounds".

Section Values.
Context `{Case : UnicodeCase} `{Chr : Chrono} `{Dec : Decimals} `{Wir : !Wire}.

(** [DataRowEncoder::encode_field]: format and type come from the schema entry
    of the next column. *)
Definition encode_field (encoder : DataRowEncoder) (v : SqlValue) : PgWireResult DataRowEncoder :=
  match enc_schema encoder !! length (enc_fields encoder) with
  | None => Err index_panic
  | Some fi =>
    let? bytes := field_bytes fi v in
    Ok (mk_encoder (enc_schema encoder) (enc_fields encoder ++ [bytes])%list)
  end.

(** ** Errors *)

Definition conversion_error (target trino_type : string) : PgWireError :=
  UserError (mk_error_info "ERROR" "22P03"
    ("gateway could not encode a Trino " ++ trino_type ++ " value as binary " ++ target)).

Definition out_of_range (value : Z) (target : string) : PgWireError :=
  UserError (mk_error_info "ERROR" "22003"
    ("value " ++ z_to_string value ++ " out of range for binary " ++ target)).

Definition unsupported_binary_type (pg_type : PgType) (trino_type : string) : PgWireError :=
  UserError (mk_error_info "ERROR" "0A000"
    ("binary wire format for column type " ++ type_name pg_type ++ " (Trino " ++ trino_type
     ++ ") is not supported by the gateway; the client requested binary results for this column")).

(** ** Text rendering *)

Definition base_type (trino_type : string) : string :=
  let trimmed := trim trino_type in
  match find "(" trimmed with
  | Some idx => trim (stake idx trimmed)
  | None => trimmed
  end.

Definition format_float_text (f : f64) : string :=
  if is_nan f then "NaN"
  else if is_infinite f then (if is_sign_negative f then "-Infinity" else "Infinity")
  else print_f64 f.

Definition integer_names : list string := ["tinyint"; "smallint"; "integer"; "bigint"].

Definition encode_number (n : Number) (base : string) : string :=
  let name := to_lowercase base in
  if existsb (String.eqb name) integer_names then
    match as_i64 n with
    | Some i => z_to_string i
    | None =>
      match as_u64 n with
      | Some u => z_to_string u
      | None =>
        match as_f64 n with
        | Some f =>
          if is_finite f then
            if f64_ge f i64_min_f64 && f64_lt f i64_max_f64 then z_to_string (f64_as_i64 f)
            else print_f64 f
          else number_text n
        | None => number_text n
        end
      end
    end
  else if String.eqb name "real" || String.eqb name "double" then
    match as_f64 n with
    | Some f => format_float_text f
    | None => number_text n
    end
  else number_text n.

Definition encode_value (value : Value) (trino_type : string) : option string :=
  let base := base_type trino_type in
  match value with
  | Null => None
  | Bool true => Some "true"
  | Bool false => Some "false"
  | Num n => Some (encode_number n base)
  | Str s => Some s
  | Array _ | Object _ => Some (value_to_string value)
  end.

(** [".dddddd"] with trailing zeros removed; nothing for a zero fraction. *)
Definition format_fraction (nanoseconds : Z) : string :=
  let micros := Z.min (nanoseconds / 1000) 999999 in
  if (micros =? 0)%Z then ""
  else trim_end_matches "0" ("." ++ pad_zero 6 (nat_to_string micros)).

Definition format_utc_offset (seconds_east : Z) : string :=
  let sign := if (seconds_east <? 0)%Z then "-" else "+" in
  let total := Z.abs seconds_east in
  let hours := (total / 3600)%Z in
  let minutes := (total mod 3600 / 60)%Z in
  let seconds := (total mod 60)%Z in
  let two n := pad_zero 2 (nat_to_string n) in
  if negb (seconds =? 0)%Z then sign ++ two hours ++ ":" ++ two minutes ++ ":" ++ two seconds
  else if negb (minutes =? 0)%Z then sign ++ two hours ++ ":" ++ two minutes
  else sign ++ two hours.

Definition to_pg_text (t : TimeTz) : string :=
  time_hms (time t) ++ format_fraction (time_nanosecond (time t))
  ++ format_utc_offset (offset_east_seconds t).

Definition render_timestamptz_text (dt : DateTimeUtc) : string :=
  utc_ymd_hms dt ++ format_fraction (utc_nanosecond dt) ++ "+00".

(** ** Parsing Trino's temporal text *)

Fixpoint digit_run (s : string) : nat :=
  match s with
  | String c s' => if is_digit c then S (digit_run s') else O
  | EmptyString => O
  end.

Definition truncate_fraction (s : string) : string :=
  match find "." s with
  | None => s
  | Some dot =>
    let fraction_start := (dot + 1)%nat in
    let fraction_len := digit_run (sdrop fraction_start s) in
    if (fraction_len <=? 9)%nat then s
    else stake (fraction_start + 9) s ++ sdrop (fraction_start + fraction_len) s
  end.

Definition parse_naive_datetime (s : string) : option NaiveDateTime :=
  let s := truncate_fraction s in
  or_else (naive_datetime_parse_from_str s "%Y-%m-%d %H:%M:%S%.f")
          (naive_datetime_parse_from_str s "%Y-%m-%dT%H:%M:%S%.f").

(** The first format that parses. *)
Fixpoint first_format (s : string) (fmts : list string) : option DateTimeFixed :=
  match fmts with
  | [] => None
  | fmt :: rest => or_else (datetime_parse_from_str s fmt) (first_format s rest)
  end.

Definition parse_trino_timestamptz (s : string) : option DateTimeUtc :=
  let s := truncate_fraction (trim s) in
  match first_format s ["%Y-%m-%d %H:%M:%S%.f%#z"; "%Y-%m-%d %H:%M:%S%.f %#z";
                        "%Y-%m-%dT%H:%M:%S%.f%#z"; "%Y-%m-%dT%H:%M:%S%.f %#z"] with
  | Some dt => Some (with_timezone_utc dt)
  | None =>
    '(stamp, zone) ← rsplit_once " " s;
    tz ← tz_parse zone;
    naive ← parse_naive_datetime (trim stamp);
    from_local_datetime_single tz naive
  end.

Definition parse_trino_timetz (s : string) : option TimeTz :=
  let dated := "2000-01-01 " ++ truncate_fraction (trim s) in
  dt ← first_format dated ["%Y-%m-%d %H:%M:%S%.f%#z"; "%Y-%m-%d %H:%M:%S%.f %#z"];
  Some (mk_timetz _ (datetime_time dt) (local_minus_utc dt)).

(** [ToSql for TimeTz]: the bytes put into the buffer. *)
Definition timetz_to_sql (t : TimeTz) : result string (list Z) :=
  let? micros := ok_or (time_micros (time t)) "time of day does not fit in a microsecond count" in
  Ok (be_bytes 8 micros ++ be_bytes 4 (- offset_east_seconds t))%list.

(** The column types the value may be written to; [to_sql_checked] refuses any
    other. *)
Definition timetz_accepts (ty : PgType) : bool := bool_decide (ty = TIMETZ).

(** [ToSqlText for TimeTz]: the text form, which the gateway itself never asks for. *)
Definition timetz_to_sql_text (t : TimeTz) : result string string := Ok (to_pg_text t).

(** ** JSON to typed values *)

Definition json_to_bool (value : Value) (trino_type : string) : PgWireResult bool :=
  match value with
  | Bool b => Ok b
  | Str s =>
    if String.eqb s "true" then Ok true
    else if String.eqb s "false" then Ok false
    else Err (conversion_error "boolean" trino_type)
  | _ => Err (conversion_error "boolean" trino_type)
  end.

Definition f64_to_i64_exact (f : f64) : option Z :=
  if fract_is_zero f && f64_ge f i64_min_f64 && f64_lt f i64_max_f64
  then Some (f64_as_i64 f)
  else None.

(** [i64::try_from(u).ok()] *)
Definition i64_try_from (u : Z) : option Z := if in_i64 u then Some u else None.

Definition json_to_i64 (value : Value) (trino_type : string) : PgWireResult Z :=
  match value with
  | Num n =>
    ok_or (or_else (or_else (as_i64 n) (as_u64 n ≫= i64_try_from)) (as_f64 n ≫= f64_to_i64_exact))
          (conversion_error "integer" trino_type)
  | Str s =>
    ok_or (or_else (parse_i64 (trim s)) (parse_f64 (trim s) ≫= f64_to_i64_exact))
          (conversion_error "integer" trino_type)
  | _ => Err (conversion_error "integer" trino_type)
  end.

Definition json_to_f64 (value : Value) (trino_type : string) : PgWireResult f64 :=
  match value with
  | Num n => ok_or (as_f64 n) (conversion_error "float" trino_type)
  | Str s =>
    let s := trim s in
    if String.eqb s "NaN" then Ok S754_nan
    else if String.eqb s "Infinity" then Ok (S754_infinity false)
    else if String.eqb s "-Infinity" then Ok (S754_infinity true)
    else ok_or (parse_f64 s) (conversion_error "float" trino_type)
  | _ => Err (conversion_error "float" trino_type)
  end.

Definition json_to_decimal (value : Value) (trino_type : string) : PgWireResult Decimal :=
  let? s := match value with
            | Str s => Ok s
            | Num n => Ok (number_text n)
            | _ => Err (conversion_error "numeric" trino_type)
            end in
  ok_or (decimal_from_str_exact (trim s)) (conversion_error "numeric" trino_type).

Definition json_to_timestamp (value : Value) (trino_type : string) : PgWireResult NaiveDateTime :=
  let? s := ok_or (value_as_str value) (conversion_error "timestamp" trino_type) in
  ok_or (parse_naive_datetime (trim s)) (conversion_error "timestamp" trino_type).

Definition json_to_timestamptz (value : Value) (trino_type : string) : PgWireResult DateTimeUtc :=
  let? s := ok_or (value_as_str value) (conversion_error "timestamptz" trino_type) in
  ok_or (parse_trino_timestamptz s) (conversion_error "timestamptz" trino_type).

Definition json_to_date (value : Value) (trino_type : string) : PgWireResult NaiveDate :=
  let? s := ok_or (value_as_str value) (conversion_error "date" trino_type) in
  ok_or (naive_date_parse_from_str (trim s) "%Y-%m-%d") (conversion_error "date" trino_type).

Definition json_to_time (value : Value) (trino_type : string) : PgWireResult NaiveTime :=
  let? s := ok_or (value_as_str value) (conversion_error "time" trino_type) in
  ok_or (naive_time_parse_from_str (truncate_fraction (trim s)) "%H:%M:%S%.f")
        (conversion_error "time" trino_type).

Definition json_to_timetz (value : Value) (trino_type : string) : PgWireResult TimeTz :=
  let? s := ok_or (value_as_str value) (conversion_error "timetz" trino_type) in
  ok_or (parse_trino_timetz s) (conversion_error "timetz" trino_type).

(** ** One cell *)

Definition text_value (value : Value) (pg_type : PgType) (trino_type : string) : option string :=
  match (if bool_decide (pg_type = TIMESTAMPTZ) then value_as_str value ≫= parse_trino_timestamptz else None) with
  | Some dt => Some (render_timestamptz_text dt)
  | None =>
    match (if bool_decide (pg_type = TIMETZ) then value_as_str value ≫= parse_trino_timetz else None) with
    | Some t => Some (to_pg_text t)
    | None => encode_value value trino_type
    end
  end.

Definition encode_binary_cell (encoder : DataRowEncoder) (value : Value) (pg_type : PgType)
    (trino_type : string) : PgWireResult DataRowEncoder :=
  match pg_type with
  | BOOL => let? b := json_to_bool value trino_type in encode_field encoder (VBool b)
  | INT2 =>
    let? n := json_to_i64 value trino_type in
    let? v := (if in_i16 n then Ok n else Err (out_of_range n "int2")) in
    encode_field encoder (VInt2 v)
  | INT4 =>
    let? n := json_to_i64 value trino_type in
    let? v := (if in_i32 n then Ok n else Err (out_of_range n "int4")) in
    encode_field encoder (VInt4 v)
  | INT8 => let? n := json_to_i64 value trino_type in encode_field encoder (VInt8 n)
  | FLOAT4 => let? f := json_to_f64 value trino_type in encode_field encoder (VFloat4 (f64_as_f32 f))
  | FLOAT8 => let? f := json_to_f64 value trino_type in encode_field encoder (VFloat8 f)
  | NUMERIC => let? d := json_to_decimal value trino_type in encode_field encoder (VNumeric d)
  | TIMESTAMP => let? t := json_to_timestamp value trino_type in encode_field encoder (VTimestamp t)
  | TIMESTAMPTZ =>
    let? t := json_to_timestamptz value trino_type in encode_field encoder (VTimestamptz t)
  | DATE => let? d := json_to_date value trino_type in encode_field encoder (VDate d)
  | TIME => let? t := json_to_time value trino_type in encode_field encoder (VTime t)
  | TIMETZ => let? t := json_to_timetz value trino_type in encode_field encoder (VTimetz t)
  | VARCHAR | TEXT | BPCHAR | NAME | UNKNOWN =>
    encode_field encoder (VText (encode_value value trino_type))
  | _ => Err (unsupported_binary_type pg_type trino_type)
  end.

Definition is_null (value : Value) : bool := match value with Null => true | _ => false end.

Definition encode_cell (encoder : DataRowEncoder) (value : Value) (pg_type : PgType)
    (trino_type : string) (fmt : FieldFormat) : PgWireResult DataRowEncoder :=
  if is_null value then encode_field encoder (VText None)
  else match fmt with
       | Text => encode_field encoder (VText (text_value value pg_type trino_type))
       | Binary => encode_binary_cell encoder value pg_type trino_type
       end.

End Values.
