(* ===== verification/ValuesFacts.v ===== *)
(** * Theorems on cell encoding (src/src/types.rs)

    Exactness of integer conversion, agreement of the text and binary forms,
    fail-closed binary encoding, and the readings of the temporal text and
    wire forms the gateway writes itself. *)

From S2P Require Import Prelude RustStr RustStrFacts PgWire Trino RustFloat Values.

Local Open Scope string_scope.
Local Open Scope rust_scope.

(** ** Sample crates *)

(** A stand-in for chrono that understands one time of day, for witnesses. *)
Definition sample_chrono : Chrono :=
  {| NaiveDateTime := string;
     NaiveDate := string;
     NaiveTime := Z * Z;
     DateTimeUtc := string;
     DateTimeFixed := (Z * Z) * Z;
     Tz := string;
     naive_datetime_parse_from_str s _ := Some s;
     naive_date_parse_from_str s _ := Some s;
     naive_time_parse_from_str s _ := None;
     datetime_parse_from_str s _ :=
       if String.eqb s "2000-01-01 10:30:00.5+02:30" then Some ((37800, 500000000), 9000)%Z else None;
     with_timezone_utc _ := "";
     datetime_time := fst;
     local_minus_utc := snd;
     tz_parse _ := None;
     from_local_datetime_single _ _ := None;
     time_hms t := pad_zero 2 (nat_to_string (fst t / 3600)) ++ ":"
                   ++ pad_zero 2 (nat_to_string (fst t mod 3600 / 60)) ++ ":"
                   ++ pad_zero 2 (nat_to_string (fst t mod 60));
     time_nanosecond := snd;
     time_micros t := Some (fst t * 1000000 + snd t / 1000)%Z;
     utc_ymd_hms s := s;
     utc_nanosecond _ := 0%Z |}.

Definition sample_decimals : Decimals :=
  {| Decimal := Z; decimal_from_str_exact := parse_i64 |}.

(** An encoder that accepts every value and writes a text for it. *)
Definition sample_wire : @Wire sample_chrono sample_decimals :=
  @Build_Wire sample_chrono sample_decimals
    (fun _ v => match v with
                | VText s => Ok s
                | VInt2 z | VInt4 z | VInt8 z => Ok (Some (z_to_string z))
                | _ => Ok (Some "")
                end)
    (fun _ => "type")
    (fun _ => "").

(** ** Integers *)

(** The integer a JSON number is: serde_json keeps an [i64], a [u64] or a float. *)
Definition number_is (n : Number) (i : Z) : Prop :=
  match as_i64 n, as_u64 n, as_f64 n with
  | Some z, _, _ => i = z
  | None, Some u, _ => i = u
  | None, None, Some f => f64_is_int f i
  | None, None, None => False
  end.

(** The integer a JSON value is taken for. A text is read as an integer numeral;
    any other text as the double nearest to it, which must be integral. *)
Definition denotes_int (v : Value) (i : Z) : Prop :=
  match v with
  | Num n => number_is n i
  | Str s => match parse_i64 (trim s) with
             | Some z => i = z
             | None => exists f, parse_f64 (trim s) = Some f /\ f64_is_int f i
             end
  | _ => False
  end.

Lemma f64_to_i64_exact_iff f z : f64_to_i64_exact f = Some z <-> f64_is_int f z /\ in_i64 z = true.
Proof.
  unfold f64_to_i64_exact. split.
  - destruct (_ && _) eqn:E; [|done]. intros [= <-]. bools. by apply as_i64_exact.
  - intros [Hf Hz]. rewrite <- andb_assoc, (f64_is_int_range f z), Hz, (f64_is_int_integral f z) by done. simpl.
    pose proof (f64_is_int_range f z Hf) as Hr. rewrite Hz in Hr. bools. f_equal.
    apply (f64_is_int_unique f); [|done]. by apply as_i64_exact; [eapply f64_is_int_integral|..].
Qed.

Lemma parse_i64_range s z : parse_i64 s = Some z -> in_i64 z = true.
Proof. unfold parse_i64. intros. repeat break_match; simplify_eq; done. Qed.

Section Facts.
Context `{Case : UnicodeCase} `{Chr : Chrono} `{Dec : Decimals} `{Wir : !Wire}.

Definition number_value_ok (v : Value) : bool :=
  match v with
  | Num n => number_ok n
  | _ => true
  end.

(** The conversion gives exactly the integer denoted, or fails. *)
Lemma json_to_i64_iff v trino_type i :
  number_value_ok v = true ->
  json_to_i64 v trino_type = Ok i <-> denotes_int v i /\ in_i64 i = true.
Proof.
  assert (Hexact : forall f, ok_or (f64_to_i64_exact f) (conversion_error "integer" trino_type) = Ok i
                             <-> f64_is_int f i /\ in_i64 i = true).
  { intros f. rewrite <- f64_to_i64_exact_iff. destruct (f64_to_i64_exact f); simpl; split; congruence. }
  destruct v as [| |n|s| |]; cbn [json_to_i64 denotes_int number_value_ok]; intros Hok;
    try (by split; [|intros [[] _]]).
  - unfold number_ok, number_is in *. destruct (as_i64 n) as [z|]; simpl.
    { bools. split; [intros [= <-]|intros [-> _]]; done. }
    destruct (as_u64 n) as [u|]; simpl.
    + unfold i64_try_from. destruct (in_i64 u) eqn:Eu; simpl; [split; [intros [= <-]|intros [-> _]]; done|].
      split; [|intros [-> H]; congruence]. destruct (as_f64 n) as [f|]; simpl; [|done].
      simpl in Hok. bools. rewrite Hexact. intros [Hf Hi]. pose proof (f64_is_int_range f i Hf) as Hr. rewrite Hi in Hr. bools. congruence.
    + destruct (as_f64 n) as [f|]; simpl; [apply Hexact|]. by split; [|intros [[] _]].
  - destruct (parse_i64 (trim s)) as [z|] eqn:Ez; simpl.
    { split; [intros [= <-]; eauto using parse_i64_range|by intros [-> _]]. }
    destruct (parse_f64 (trim s)) as [f|]; simpl; [rewrite Hexact|].
    + split; [intros [? ?]; eauto|]. intros [(f' & [= <-] & ?) ?]. done.
    + split; [done|]. by intros [(f' & ? & _) _].
Qed.

Lemma json_to_i64_error v trino_type e :
  json_to_i64 v trino_type = Err e -> e = conversion_error "integer" trino_type.
Proof.
  destruct v; simpl; try congruence; by destruct (or_else _ _); [|intros [= <-]].
Qed.

(** C18: Binary integer encoding is exact. A JSON number is sent as the integer
    [i] if and only if [i] is its value and fits 64 bits; a fractional or
    out-of-range number is an error, SQLSTATE 22P03, never truncated or saturated.
    The text of any 64-bit integer is sent as that integer. Any other text is
    taken for the nearest double, and sent only when that is integral and in
    range. *)
Theorem binary_integer_is_exact v trino_type :
  number_value_ok v = true ->
  (forall i, json_to_i64 v trino_type = Ok i <-> denotes_int v i /\ in_i64 i = true)
  /\ (forall e, json_to_i64 v trino_type = Err e -> e = conversion_error "integer" trino_type)
  /\ (forall z, in_i64 z = true -> json_to_i64 (Str (z_to_string z)) trino_type = Ok z).
Proof.
  intros Hok. split; [by intros i; apply json_to_i64_iff|]. split; [apply json_to_i64_error|].
  intros z Hz. apply json_to_i64_iff; [done|]. simpl. by rewrite trim_print, parse_i64_print.
Qed.

(** C38: For an integer column the two wire formats agree: whenever a JSON
    number can be sent in binary, the text form of the same cell is the decimal
    numeral of the same integer. *)
Theorem integer_text_matches_binary n trino_type i :
  number_ok n = true ->
  existsb (String.eqb (to_lowercase (base_type trino_type))) integer_names = true ->
  json_to_i64 (Num n) trino_type = Ok i ->
  encode_value (Num n) trino_type = Some (z_to_string i).
Proof.
  intros Hok Hint Hi. simpl. unfold encode_number. rewrite Hint. simpl in Hi. unfold number_ok in Hok.
  destruct (as_i64 n); simpl in *; [by simplify_eq|].
  destruct (as_u64 n) as [u|]; simpl in *.
  - unfold i64_try_from in Hi. destruct (in_i64 u) eqn:Eu; simpl in *; [by simplify_eq|].
    destruct (as_f64 n) as [f|]; simpl in *; [|done]. unfold f64_to_i64_exact in Hi. bools.
    rewrite H0, andb_false_r in Hi. done.
  - destruct (as_f64 n) as [f|]; simpl in *; [|done].
    destruct (f64_to_i64_exact f) eqn:Ef; simpl in *; simplify_eq. unfold f64_to_i64_exact in Ef.
    destruct (fract_is_zero f) eqn:Efr; simpl in Ef; [|done].
    assert (is_finite f = true) as -> by (by destruct f). destruct (_ && _); by simplify_eq.
Qed.

(** ** Binary cells fail closed *)





(** *** What a cell means in a binary column *)















End Facts.

(** [42.0] as a float-typed JSON number. *)
Definition forty_two_point_zero : Number := mk_number None None (parse_f64 "42.0") "42.0".

(** [42.7], as serde_json reads it. *)
Definition forty_two_point_seven : Number :=
  mk_number None None (parse_f64 "42.7") "42.7".

Lemma binary_integer_is_exact_witness :
  (denotes_int (Num forty_two_point_zero) 42 /\ in_i64 42 = true)
  /\ (forall i, ~ (denotes_int (Num forty_two_point_seven) i /\ in_i64 i = true)).
Proof.
  split.
  - exact (proj1 (proj1 (binary_integer_is_exact (Num forty_two_point_zero) "bigint" eq_refl) 42%Z) eq_refl).
  - intros i H. pose proof (proj2 (proj1 (binary_integer_is_exact (Num forty_two_point_seven) "bigint" eq_refl) i) H) as E.
    vm_compute in E. discriminate E.
Defined.

(** A text that is no integer numeral is rounded before it is looked at: a
    fraction below half a unit in the last place is lost, and so are the digits a
    double does not hold. *)
Theorem text_integer_is_rounded :
  json_to_i64 (Str "42.00000000000000001") "bigint" = Ok 42%Z
  /\ json_to_i64 (Str "9007199254740993.0") "bigint" = Ok 9007199254740992%Z.
Proof. split; vm_compute; reflexivity. Qed.

Lemma integer_text_matches_binary_witness :
  @encode_value ascii_only_case sample_chrono sample_decimals sample_wire
    (Num forty_two_point_zero) "bigint" = Some "42".
Proof.
  exact (@integer_text_matches_binary ascii_only_case sample_chrono sample_decimals sample_wire
           forty_two_point_zero "bigint" 42 eq_refl eq_refl eq_refl).
Defined.




(** ** The gap between the formats *)

(** A fractional JSON number in an integer column is silently truncated in
    text format, while the binary format refuses it: [42.7] is sent as [42]. *)
Theorem text_integer_truncates_fraction `{Case : UnicodeCase} `{Chr : Chrono} `{Dec : Decimals} `{Wir : !Wire} :
  encode_value (Num forty_two_point_seven) "bigint" = Some "42"
  /\ json_to_i64 (Num forty_two_point_seven) "bigint" = Err (conversion_error "integer" "bigint").
Proof.
  split; [|vm_compute; reflexivity]. unfold encode_value.
  change (base_type "bigint") with "bigint". unfold encode_number.
  rewrite to_lowercase_ascii by done. vm_compute. reflexivity.
Qed.

(** ** Temporal text *)

Definition all_digits (s : string) : bool := forallb is_digit (list_ascii_of_string s).

Lemma digit_run_app d r :
  all_digits d = true -> digit_run r = 0%nat -> digit_run (d ++ r) = slen d.
Proof.
  unfold all_digits. induction d as [|c d IH]; simpl; [done|]. intros Hd Hr. bools.
  by rewrite H, IH.
Qed.

Lemma find_dot_app a r : contains "." a = false -> find "." (a ++ "." ++ r) = Some (slen a).
Proof.
  intros Ha. apply contains_count in Ha. cbn [append].
  induction a as [|c a IH]; simpl in Ha.
  - cbn [append slen find]. rewrite prefix_cons. by destruct (ascii_dec _ _), r.
  - destruct (Ascii.eqb_spec c "."); [done|]. cbn [append slen find].
    rewrite prefix_cons. destruct (ascii_dec "." c); [congruence|]. by rewrite IH.
Qed.

(** [truncate_fraction] keeps at most nine digits of the first fractional
    field and changes nothing else: the text before the point and the offset or
    zone after the digits survive, whatever their length. *)
Theorem truncate_fraction_keeps_nine a d r :
  contains "." a = false -> all_digits d = true -> digit_run r = 0%nat ->
  truncate_fraction (a ++ "." ++ d ++ r) = a ++ "." ++ stake 9 d ++ r
  /\ truncate_fraction a = a.
Proof.
  intros Ha Hd Hr. unfold truncate_fraction. split.
  - rewrite find_dot_app by done. rewrite sdrop_app_ge. cbn [append sdrop].
    rewrite digit_run_app by done. destruct (Nat.leb_spec (slen d) 9) as [Hl|Hl].
    + by rewrite stake_all.
    + replace (slen a + 1 + slen d)%nat with (slen a + S (slen d))%nat by lia.
      rewrite sdrop_app_ge. cbn [sdrop]. rewrite sdrop_app.
      replace (slen a + 1 + 9)%nat with (slen (a ++ String "." (stake 9 d)))
        by (rewrite slen_app; cbn [slen]; rewrite slen_stake; lia).
      replace (a ++ String "." (d ++ r)) with ((a ++ String "." (stake 9 d)) ++ (sdrop 9 d ++ r)).
      * rewrite stake_app, sapp_assoc. done.
      * rewrite sapp_assoc. cbn [append]. by rewrite <- sapp_assoc, stake_sdrop.
  - unfold contains in Ha. by destruct (find "." a).
Qed.

Lemma truncate_fraction_keeps_nine_witness :
  truncate_fraction ("2026-06-01 10:30:00" ++ "." ++ "123456789012" ++ "+02:00")
  = "2026-06-01 10:30:00.123456789+02:00"
  /\ truncate_fraction "2026-06-01 10:30:00" = "2026-06-01 10:30:00".
Proof.
  exact (truncate_fraction_keeps_nine "2026-06-01 10:30:00" "123456789012" "+02:00" eq_refl eq_refl eq_refl).
Defined.

(** ** [timetz] *)

(** A client's reading of the twelve bytes of a binary [timetz]: microseconds
    since midnight, and the offset east of UTC (the wire carries it west). *)
Definition read_timetz (bs : list Z) : Z * Z :=
  (be_signed (take 8 bs), - be_signed (drop 8 bs))%Z.

(** C36: The binary [timetz] is twelve bytes from which PostgreSQL's reading
    recovers the time of day and the offset, for every offset of less than a
    day (both signs) and every time in an [i64]. *)
Theorem timetz_wire_roundtrip `{Chr : Chrono} (t : TimeTz) micros :
  time_micros (time t) = Some micros -> in_i64 micros = true ->
  (-86400 < offset_east_seconds t < 86400)%Z ->
  exists bs, timetz_to_sql t = Ok bs /\ length bs = 12%nat
             /\ read_timetz bs = (micros, offset_east_seconds t).
Proof.
  intros Hm Hr Ho. unfold timetz_to_sql. rewrite Hm. cbn [ok_or rbind]. eexists. split; [done|].
  unfold in_i64, i64_min, i64_max in Hr. bools.
  rewrite length_app, !length_be_bytes. split; [done|]. unfold read_timetz.
  rewrite take_app_length', drop_app_length' by (by rewrite length_be_bytes).
  rewrite (be_signed_bytes 8 micros), (be_signed_bytes 4 (- _)); [f_equal; lia|lia| |lia|].
  - change (256 ^ Z.of_nat 4 / 2)%Z with 2147483648%Z. lia.
  - change (256 ^ Z.of_nat 8 / 2)%Z with 9223372036854775808%Z. lia.
Qed.

Lemma timetz_wire_roundtrip_witness :
  exists bs, @timetz_to_sql sample_chrono (mk_timetz sample_chrono (37800, 500000000)%Z (-9000)%Z) = Ok bs
             /\ length bs = 12%nat /\ read_timetz bs = (37800500000, -9000)%Z.
Proof.
  exact (@timetz_wire_roundtrip sample_chrono (mk_timetz sample_chrono (37800, 500000000)%Z (-9000)%Z)
           37800500000%Z eq_refl eq_refl (conj eq_refl eq_refl)).
Defined.

(** *** Offsets *)

(** PostgreSQL's reading of a numeric zone: sign, hours, and minutes and
    seconds when present. *)
Definition read_field (s : string) : option (Z * string) :=
  match parse_digits (stake 2 s) with
  | Some n => Some (n, sdrop 2 s)
  | None => None
  end.

Definition read_more (s : string) : option (Z * string) :=
  match s with
  | String ":" r => read_field r
  | _ => Some (0%Z, s)
  end.

Definition read_utc_offset (s : string) : option Z :=
  '(neg, r) ← match s with
              | String "+" r => Some (false, r)
              | String "-" r => Some (true, r)
              | _ => None
              end;
  '(h, r) ← read_field r;
  '(m, r) ← read_more r;
  '(sec, r) ← read_more r;
  if String.eqb r "" then Some (let v := h * 3600 + m * 60 + sec in if (neg : bool) then - v else v)%Z
  else None.

Lemma two_digits :
  forallb (fun k => let n := Z.of_nat k in
    let s := pad_zero 2 (nat_to_string n) in
    (slen s =? 2)%nat && match parse_digits s with Some n' => (n =? n')%Z | None => false end)
    (seq 0 100) = true.
Proof. vm_compute. reflexivity. Qed.

Lemma read_two_digits n r :
  (0 <= n < 100)%Z -> read_field (pad_zero 2 (nat_to_string n) ++ r) = Some (n, r).
Proof.
  intros Hn. pose proof two_digits as Hall. rewrite forallb_forall in Hall.
  specialize (Hall (Z.to_nat n)). rewrite Z2Nat.id in Hall by lia.
  specialize (Hall ltac:(apply in_seq; lia)). cbv zeta in Hall. bools.
  set (s := pad_zero 2 (nat_to_string n)) in *. unfold read_field.
  replace 2%nat with (slen s) by done. rewrite stake_app, sdrop_app.
  destruct (parse_digits s); [|done]. bools. by subst.
Qed.

Lemma read_two_digits_end n :
  (0 <= n < 100)%Z -> read_field (pad_zero 2 (nat_to_string n)) = Some (n, "").
Proof. intros Hn. rewrite <- (sapp_nil_r (pad_zero _ _)). by apply read_two_digits. Qed.

Definition sign_text (neg : bool) : string := if neg then "-" else "+".

(** Minutes and seconds after the hours, to the end of the text. *)
Definition read_tail (r : string) : option (Z * Z * string) :=
  '(m, r) ← read_more r; '(sec, r) ← read_more r; Some (m, sec, r).

Lemma read_offset_tail neg h tail m sec :
  (0 <= h < 100)%Z -> read_tail tail = Some (m, sec, "") ->
  read_utc_offset (sign_text neg ++ pad_zero 2 (nat_to_string h) ++ tail)
  = Some (if neg then - (h * 3600 + m * 60 + sec) else h * 3600 + m * 60 + sec)%Z.
Proof.
  intros Hh Ht. unfold read_tail in Ht. unfold read_utc_offset.
  set (body := pad_zero 2 (nat_to_string h) ++ tail).
  assert (Hb : read_field body = Some (h, tail)) by (by apply read_two_digits).
  destruct neg; cbn [sign_text append mbind option_bind]; rewrite Hb; cbn [mbind option_bind];
    destruct (read_more tail) as [[m' r]|]; cbn [mbind option_bind] in *; try done;
    destruct (read_more r) as [[s' r']|]; cbn [mbind option_bind] in *; simplify_eq; done.
Qed.

(** C37: The text offset of a [timetz] reads back as the same number of seconds,
    through both shortened spellings, for every offset below a hundred hours. *)
Theorem utc_offset_reads_back o :
  (-360000 < o < 360000)%Z -> read_utc_offset (format_utc_offset o) = Some o.
Proof.
  intros Ho. unfold format_utc_offset.
  set (T := Z.abs o). assert (HT : (0 <= T < 360000)%Z) by lia.
  set (h := (T / 3600)%Z). set (m := (T mod 3600 / 60)%Z). set (s := (T mod 60)%Z).
  assert (Hh : (0 <= h < 100)%Z) by (unfold h; split; [apply Z.div_pos; lia|apply Z.div_lt_upper_bound; lia]).
  assert (Hm : (0 <= m < 60)%Z).
  { unfold m. pose proof (Z.mod_pos_bound T 3600 ltac:(lia)).
    split; [apply Z.div_pos; lia|apply Z.div_lt_upper_bound; lia]. }
  assert (Hs : (0 <= s < 60)%Z) by (unfold s; apply Z.mod_pos_bound; lia).
  assert (HTs : (T = h * 3600 + m * 60 + s)%Z).
  { unfold h, m, s. pose proof (Z.div_mod T 3600 ltac:(lia)) as E1.
    pose proof (Z.div_mod (T mod 3600) 60 ltac:(lia)) as E2.
    replace ((T mod 3600) mod 60)%Z with (T mod 60)%Z in E2; [lia|].
    symmetry. apply Z.mod_mod_divide. by exists 60%Z. }
  assert (Hsign : o = (if (o <? 0) then - T else T)%Z) by (unfold T; destruct (Z.ltb_spec o 0); lia).
  change (if (o <? 0)%Z then "-" else "+") with (sign_text (o <? 0)%Z).
  clearbody h m s T. revert Hsign. generalize (o <? 0)%Z. intros neg Hsign.
  destruct (Z.eqb_spec s 0) as [Es|Es]; cbn [negb]; [destruct (Z.eqb_spec m 0) as [Em|Em]; cbn [negb]|].
  - rewrite <- (sapp_nil_r (pad_zero 2 (nat_to_string h))), (read_offset_tail _ h "" 0 0) by done.
    f_equal. destruct neg; lia.
  - rewrite (read_offset_tail _ h _ m 0); [f_equal; destruct neg; lia|done|].
    unfold read_tail. cbn [append read_more]. by rewrite read_two_digits_end by lia.
  - rewrite (read_offset_tail _ h _ m s); [f_equal; destruct neg; lia|done|].
    unfold read_tail. cbn [append read_more]. rewrite read_two_digits by lia.
    cbn [append read_more mbind option_bind]. by rewrite read_two_digits_end by lia.
Qed.

Lemma utc_offset_reads_back_witness : read_utc_offset (format_utc_offset (-12600)) = Some (-12600)%Z.
Proof. exact (utc_offset_reads_back (-12600) (conj eq_refl eq_refl)). Defined.

(** *** Fractions *)

(** PostgreSQL's reading of a fractional second, in microseconds. *)
Definition read_fraction (s : string) : option Z :=
  match s with
  | EmptyString => Some 0%Z
  | String "." ds =>
    if (slen ds <=? 6)%nat
    then option_map (fun v => v * 10 ^ Z.of_nat (6 - slen ds))%Z (parse_digits ds)
    else None
  | _ => None
  end.

Definition zeros (j : nat) : string := join (repeat "0" j).

Lemma slen_zeros j : slen (zeros j) = j.
Proof. induction j; simpl; [done|]. by f_equal. Qed.

Lemma digits_value_app acc s t :
  digits_value acc (s ++ t) = digits_value acc s ≫= (fun v => digits_value v t).
Proof. revert acc. induction s as [|c s IH]; intros acc; simpl; [done|]. by destruct (is_digit c). Qed.

Lemma digits_value_zeros acc j : digits_value acc (zeros j) = Some (acc * 10 ^ Z.of_nat j)%Z.
Proof.
  revert acc. induction j as [|j IH]; intros acc; [simpl; f_equal; lia|].
  change (zeros (S j)) with (String "0" (zeros j)). cbn [digits_value].
  change (is_digit "0") with true. change (Z.of_N (byte_of "0" - 48)) with 0%Z. cbv iota.
  rewrite IH, Nat2Z.inj_succ, Z.pow_succ_r by lia. f_equal. lia.
Qed.

Lemma digits_value_digits acc s v : digits_value acc s = Some v -> all_digits s = true.
Proof.
  unfold all_digits. revert acc. induction s as [|c s IH]; intros acc; simpl; [done|].
  destruct (is_digit c); [|done]. simpl. apply IH.
Qed.

Lemma slen_digits_fuel f n acc w :
  (0 <= n < 10 ^ Z.of_nat (S w))%Z -> (slen (digits_fuel f n acc) <= S w + slen acc)%nat.
Proof.
  revert n acc w. induction f as [|f IH]; intros n acc w Hn; simpl; [lia|].
  destruct (Z.ltb_spec n 10); [simpl; lia|]. destruct w as [|w]; [simpl in Hn; lia|].
  etransitivity; [apply (IH _ _ w)|simpl; lia].
  rewrite Nat2Z.inj_succ, Z.pow_succ_r in Hn by lia.
  split; [apply Z.div_pos; lia|apply Z.div_lt_upper_bound; lia].
Qed.

Lemma slen_pad_zero w s : (slen s <= w)%nat -> slen (pad_zero w s) = w.
Proof. intros. unfold pad_zero. rewrite slen_app. fold (zeros (w - slen s)). rewrite slen_zeros. lia. Qed.

Lemma digits_value_pad w n :
  (0 <= n)%Z -> digits_value 0 (pad_zero w (nat_to_string n)) = Some n.
Proof.
  intros Hn. unfold pad_zero. fold (zeros (w - slen (nat_to_string n))).
  rewrite digits_value_app, digits_value_zeros. simpl.
  pose proof (parse_digits_print n Hn) as Hp. unfold parse_digits in Hp. by destruct (nat_to_string n).
Qed.

Lemma digit_ascii c : is_digit c = true -> is_ascii c = true.
Proof. unfold is_digit, is_ascii. rewrite andb_true_iff, N.leb_le, N.leb_le, N.ltb_lt. lia. Qed.

Lemma all_digits_ascii s : all_digits s = true -> ascii_only s = true.
Proof.
  unfold all_digits. induction s as [|c s IH]; simpl; [done|]. intros Hs. bools.
  rewrite digit_ascii by done. by apply IH.
Qed.

(** The fractional second of a text [timetz] or [timestamptz] is at most
    six digits with no trailing zero, absent when it is zero, and reads back as
    the microseconds of the value (a leap second counts as 999999). *)
Theorem fraction_reads_back n :
  (0 <= n)%Z ->
  read_fraction (format_fraction n) = Some (Z.min (n / 1000) 999999)
  /\ (forall t, format_fraction n <> t ++ "0")
  /\ (format_fraction n = "" <-> (n < 1000)%Z).
Proof.
  intros Hn. unfold format_fraction. set (k := Z.min (n / 1000) 999999).
  assert (Hk : (0 <= k <= 999999)%Z) by (unfold k; pose proof (Z.div_pos n 1000); lia).
  assert (Hnk : (k = 0 <-> n < 1000)%Z).
  { pose proof (Z.div_mod n 1000 ltac:(lia)). pose proof (Z.mod_pos_bound n 1000 ltac:(lia)).
    unfold k. split; intros; [lia|]. rewrite Z.div_small by lia. done. }
  clearbody k. destruct (Z.eqb_spec k 0) as [->|Hk0].
  { split; [done|]. split; [by intros []|]. split; [|done]. intros _. by apply Hnk. }
  set (p := pad_zero 6 (nat_to_string k)).
  assert (Hp : digits_value 0 p = Some k) by (apply digits_value_pad; lia).
  assert (Hl : slen p = 6%nat).
  { apply slen_pad_zero. etransitivity; [apply (slen_digits_fuel _ _ _ 5)|simpl; lia]. simpl. lia. }
  destruct (trim_end_matches_split "0" ("." ++ p)) as (t & j & E & -> & Hlast).
  { simpl. by eapply all_digits_ascii, digits_value_digits. }
  fold (zeros j) in E. destruct t as [|c t]; [by destruct j|]. simpl in E. injection E as <- E.
  rewrite E, digits_value_app in Hp.
  destruct (digits_value 0 t) as [v|] eqn:Ev; simpl in Hp; [|done].
  rewrite digits_value_zeros in Hp. injection Hp as Hv.
  rewrite E, slen_app, slen_zeros in Hl.
  assert (Ht : t <> "") by (intros ->; simpl in Ev; simplify_eq; lia).
  split; [|split; [done|split; [done|intros ?%Hnk; lia]]].
  cbn [read_fraction]. destruct (Nat.leb_spec (slen t) 6); [|lia].
  assert (parse_digits t = Some v) as -> by (by destruct t).
  cbn [option_map]. replace (6 - slen t)%nat with j by lia. by rewrite Hv.
Qed.

Lemma fraction_reads_back_witness :
  read_fraction (format_fraction 500000000) = Some (Z.min (500000000 / 1000) 999999)
  /\ (forall t, format_fraction 500000000 <> t ++ "0")
  /\ (format_fraction 500000000 = "" <-> (500000000 < 1000)%Z).
Proof. apply fraction_reads_back. lia. Defined.
