(* ===== verification/Calendar.v ===== *)
(** * A reference instance of the crates

    The classes [Chrono], [Decimals] and [Wire] stand for chrono, rust_decimal
    and pgwire. This file gives one instance that computes: the Gregorian
    calendar with the format items and the zones the repository's tests use,
    decimals of 96 bits, and PostgreSQL's binary send formats. Conformance runs
    the repository's tests in it. *)

From S2P Require Import Prelude RustStr PgWire Trino RustFloat Values.

Local Open Scope string_scope.
Local Open Scope rust_scope.

(** ** Days *)

(** Days since 1970-01-01 of a date of the proleptic Gregorian calendar. *)
Definition days_from_civil (y m d : Z) : Z :=
  (let y := if m <=? 2 then y - 1 else y in
   let era := y / 400 in
   let yoe := y - era * 400 in
   let doy := (153 * (if 2 <? m then m - 3 else m + 9) + 2) / 5 + d - 1 in
   let doe := yoe * 365 + yoe / 4 - yoe / 100 + doy in
   era * 146097 + doe - 719468)%Z.

Definition civil_from_days (days : Z) : Z * Z * Z :=
  (let z := days + 719468 in
   let era := z / 146097 in
   let doe := z - era * 146097 in
   let yoe := (doe - doe / 1460 + doe / 36524 - doe / 146096) / 365 in
   let doy := doe - (365 * yoe + yoe / 4 - yoe / 100) in
   let mp := (5 * doy + 2) / 153 in
   let d := doy - (153 * mp + 2) / 5 + 1 in
   let m := if mp <? 10 then mp + 3 else mp - 9 in
   (if m <=? 2 then yoe + era * 400 + 1 else yoe + era * 400, m, d))%Z.

Definition leap_year (y : Z) : bool :=
  ((y mod 4 =? 0) && (negb (y mod 100 =? 0) || (y mod 400 =? 0)))%Z.

Definition days_in_month (y m : Z) : Z :=
  (if m =? 2 then (if leap_year y then 29 else 28)
   else if existsb (Z.eqb m) [4; 6; 9; 11] then 30 else 31)%Z.

(** ** Parsing with a format *)

Inductive Item :=
| IYear | IMonth | IDay | IHour | IMinute | ISecond | IFraction | IOffset | ISpace
| ILiteral (c : ascii).

(** The items of a format: [%Y %m %d %H %M %S], the optional fraction [%.f] and
    the lenient offset [%#z]. *)
Fixpoint format_items (fmt : string) : list Item :=
  match fmt with
  | EmptyString => []
  | String c rest =>
    if Ascii.eqb c "%" then
      match rest with
      | EmptyString => []
      | String k rest' =>
        if Ascii.eqb k "Y" then IYear :: format_items rest'
        else if Ascii.eqb k "m" then IMonth :: format_items rest'
        else if Ascii.eqb k "d" then IDay :: format_items rest'
        else if Ascii.eqb k "H" then IHour :: format_items rest'
        else if Ascii.eqb k "M" then IMinute :: format_items rest'
        else if Ascii.eqb k "S" then ISecond :: format_items rest'
        else match rest' with
             | EmptyString => []
             | String _ rest'' => (if Ascii.eqb k "." then IFraction else IOffset) :: format_items rest''
             end
      end
    else (if Ascii.eqb c " " then ISpace else ILiteral c) :: format_items rest
  end.

Record Fields := mk_fields {
  f_year : Z; f_month : Z; f_day : Z; f_hour : Z; f_minute : Z; f_second : Z; f_nano : Z; f_offset : Z
}.

(** A number of one to [n] digits: its value and length, and the rest. *)
Fixpoint digits_upto (n : nat) (acc : Z) (len : nat) (s : string) : Z * nat * string :=
  match n, s with
  | S n', String c s' =>
    if is_digit c then digits_upto n' (acc * 10 + Z.of_N (byte_of c - 48)) (S len) s' else (acc, len, s)
  | _, _ => (acc, len, s)
  end.

Definition number_upto (n : nat) (s : string) : option (Z * string) :=
  match digits_upto n 0 0 s with
  | (_, O, _) => None
  | (v, _, rest) => Some (v, rest)
  end.

Fixpoint skip_spaces (s : string) : string :=
  match s with
  | String c s' => if Ascii.eqb c " " then skip_spaces s' else s
  | EmptyString => s
  end.

(** [+HH], [+HHMM] or [+HH:MM], in seconds. *)
Definition offset_of (s : string) : option (Z * string) :=
  match s with
  | String c s' =>
    let sign := if Ascii.eqb c "+" then Some 1%Z else if Ascii.eqb c "-" then Some (-1)%Z else None in
    sg ← sign;
    '(hours, rest) ← number_upto 2 s';
    let minutes := match rest with
                   | String c2 rest2 => number_upto 2 (if Ascii.eqb c2 ":" then rest2 else rest)
                   | EmptyString => None
                   end in
    match minutes with
    | Some (mins, rest3) => Some ((sg * (hours * 3600 + mins * 60))%Z, rest3)
    | None => Some ((sg * hours * 3600)%Z, rest)
    end
  | EmptyString => None
  end.

Definition read_item (i : Item) (s : string) (f : Fields) : option (Fields * string) :=
  let '(mk_fields y mo d h mi sec n o) := f in
  match i with
  | IYear => '(v, r) ← number_upto 4 s; Some (mk_fields v mo d h mi sec n o, r)
  | IMonth => '(v, r) ← number_upto 2 s; Some (mk_fields y v d h mi sec n o, r)
  | IDay => '(v, r) ← number_upto 2 s; Some (mk_fields y mo v h mi sec n o, r)
  | IHour => '(v, r) ← number_upto 2 s; Some (mk_fields y mo d v mi sec n o, r)
  | IMinute => '(v, r) ← number_upto 2 s; Some (mk_fields y mo d h v sec n o, r)
  | ISecond => '(v, r) ← number_upto 2 s; Some (mk_fields y mo d h mi v n o, r)
  | IFraction =>
    match s with
    | String c s' =>
      if Ascii.eqb c "." then
        match digits_upto 9 0 0 s' with
        | (_, O, _) => None
        | (v, len, r) => Some (mk_fields y mo d h mi sec (v * 10 ^ (9 - Z.of_nat len))%Z o, r)
        end
      else Some (f, s)
    | EmptyString => Some (f, s)
    end
  | IOffset => '(v, r) ← offset_of s; Some (mk_fields y mo d h mi sec n v, r)
  | ISpace => Some (f, skip_spaces s)
  | ILiteral c =>
    match s with
    | String c' s' => if Ascii.eqb c c' then Some (f, s') else None
    | EmptyString => None
    end
  end.

Fixpoint read_items (items : list Item) (s : string) (f : Fields) : option Fields :=
  match items with
  | [] => if String.eqb s "" then Some f else None
  | i :: rest => '(f', s') ← read_item i s f; read_items rest s' f'
  end.

Definition in_range (f : Fields) : bool :=
  ((1 <=? f_month f) && (f_month f <=? 12) && (1 <=? f_day f)
   && (f_day f <=? days_in_month (f_year f) (f_month f))
   && (f_hour f <=? 23) && (f_minute f <=? 59) && (f_second f <=? 59))%Z.

Definition strptime (s fmt : string) : option Fields :=
  f ← read_items (format_items fmt) s (mk_fields 1970 1 1 0 0 0 0 0);
  if in_range f then Some f else None.

(** Seconds since the epoch of the local time, and of the day. *)
Definition seconds_of_day (f : Fields) : Z := (f_hour f * 3600 + f_minute f * 60 + f_second f)%Z.
Definition local_seconds (f : Fields) : Z :=
  (days_from_civil (f_year f) (f_month f) (f_day f) * 86400 + seconds_of_day f)%Z.

(** ** Zones *)

(** UTC, and Berlin with the European summer time: from the last Sunday of March
    to the last Sunday of October, at one o'clock UTC. *)
Inductive Zone := ZoneUtc | ZoneBerlin.

(** The last Sunday of a month of 31 days, as a day number; 1970-01-01 was a
    Thursday. *)
Definition last_sunday (y m : Z) : Z :=
  (let last := days_from_civil y m 31 in last - (last + 4) mod 7)%Z.

Definition berlin_summer (utc : Z) : bool :=
  (let '(y, _, _) := civil_from_days (utc / 86400) in
   (last_sunday y 3 * 86400 + 3600 <=? utc) && (utc <? last_sunday y 10 * 86400 + 3600))%Z.

(** The instants a local time can be. *)
Definition instants (z : Zone) (local : Z) : list Z :=
  match z with
  | ZoneUtc => [local]
  | ZoneBerlin =>
    ((if berlin_summer (local - 7200) then [local - 7200] else [])
     ++ (if berlin_summer (local - 3600) then [] else [local - 3600]))%Z%list
  end.

(** ** The instances *)

Definition two_digits (n : Z) : string := pad_zero 2 (nat_to_string n).

Definition hms (s : Z) : string :=
  two_digits (s / 3600) ++ ":" ++ two_digits (s mod 3600 / 60) ++ ":" ++ two_digits (s mod 60).

Definition ymd_hms (utc : Z) : string :=
  let '(y, m, d) := civil_from_days (utc / 86400) in
  pad_zero 4 (nat_to_string y) ++ "-" ++ two_digits m ++ "-" ++ two_digits d ++ " " ++ hms (utc mod 86400).

Definition calendar : Chrono :=
  {| NaiveDateTime := Z * Z;
     NaiveDate := Z;
     NaiveTime := Z * Z;
     DateTimeUtc := Z * Z;
     DateTimeFixed := (Z * Z) * Z;
     Tz := Zone;
     naive_datetime_parse_from_str s fmt := f ← strptime s fmt; Some (local_seconds f, f_nano f);
     naive_date_parse_from_str s fmt :=
       f ← strptime s fmt; Some (days_from_civil (f_year f) (f_month f) (f_day f));
     naive_time_parse_from_str s fmt := f ← strptime s fmt; Some (seconds_of_day f, f_nano f);
     datetime_parse_from_str s fmt := f ← strptime s fmt; Some ((local_seconds f, f_nano f), f_offset f);
     with_timezone_utc dt := ((fst (fst dt) - snd dt)%Z, snd (fst dt));
     datetime_time dt := ((fst (fst dt) mod 86400)%Z, snd (fst dt));
     local_minus_utc := snd;
     tz_parse s := if String.eqb s "UTC" then Some ZoneUtc
                   else if String.eqb s "Europe/Berlin" then Some ZoneBerlin else None;
     from_local_datetime_single z naive :=
       match instants z (fst naive) with [utc] => Some (utc, snd naive) | _ => None end;
     time_hms t := hms (fst t);
     time_nanosecond := snd;
     time_micros t := Some (fst t * 1000000 + snd t / 1000)%Z;
     utc_ymd_hms dt := ymd_hms (fst dt);
     utc_nanosecond := snd |}.

(** A decimal: an unscaled value of at most 96 bits, and the digits after the
    point, at most 28. *)
Definition decimal_exact (s : string) : option (Z * Z) :=
  let (neg, body) := read_sign s in
  let '(ip, _, rest) := read_digits 0 0 body in
  let '(v, scale, rest) := match rest with
                           | String c r => if Ascii.eqb c "." then read_digits ip 0 r else (ip, O, rest)
                           | EmptyString => (ip, O, rest)
                           end in
  if String.eqb rest "" && (v <? 2 ^ 96)%Z && (Z.of_nat scale <=? 28)%Z && negb (String.eqb body "")
  then Some ((if neg then - v else v)%Z, Z.of_nat scale) else None.

Definition decimals_96 : Decimals := {| Decimal := Z * Z; decimal_from_str_exact := decimal_exact |}.

(** ** Send formats *)

Definition bytes_string (l : list Z) : string :=
  fold_right (fun b s => String (ascii_of_N (Z.to_N b)) s) "" l.

(** The bits of a binary float with [mbits] mantissa and [ebits] exponent bits. *)
Definition float_bits (mbits ebits : Z) (f : spec_float) : Z :=
  (let bias := 2 ^ (ebits - 1) - 1 + mbits in
   let sign (s : bool) := if s then 2 ^ (mbits + ebits) else 0 in
   match f with
   | S754_zero s => sign s
   | S754_infinity s => sign s + (2 ^ ebits - 1) * 2 ^ mbits
   | S754_nan => (2 ^ ebits - 1) * 2 ^ mbits + 2 ^ (mbits - 1)
   | S754_finite s m e =>
     sign s + (if 2 ^ mbits <=? Z.pos m then (e + bias) * 2 ^ mbits + (Z.pos m - 2 ^ mbits) else Z.pos m)
   end)%Z.

(** Microseconds since 2000-01-01 00:00. *)
Definition pg_micros (t : Z * Z) : Z := ((fst t - 946684800) * 1000000 + snd t / 1000)%Z.

(** The digits of a number in base 10000, most significant first. *)
Fixpoint base10000 (fuel : nat) (z : Z) (acc : list Z) : list Z :=
  match fuel with
  | S f => if (z <=? 0)%Z then acc else base10000 f (z / 10000) ((z mod 10000)%Z :: acc)
  | O => acc
  end.

(** [numeric_send]: the number of digits, the weight of the first, the sign and
    the scale, two bytes each, then the digits without trailing zeros. Ten
    digits hold the 96 bits of the value and its padding. *)
Definition numeric_bytes (d : Z * Z) : list Z :=
  (let '(v, scale) := d in
   let fraction := (scale + 3) / 4 in
   let digits := base10000 10 (Z.abs v * 10 ^ (4 * fraction - scale)) [] in
   let significant := drop_while_end (fun z => z =? 0) digits in
   be_bytes 2 (Z.of_nat (length significant)) ++ be_bytes 2 (Z.of_nat (length digits) - fraction - 1)
   ++ be_bytes 2 (if v <? 0 then 16384 else 0) ++ be_bytes 2 scale ++ concat (map (be_bytes 2) significant))%Z%list.

(** The payload PostgreSQL's send function writes. *)
Definition send_value (v : @SqlValue calendar decimals_96) : PgWireResult (option string) :=
  let bytes l := Ok (Some (bytes_string l)) in
  match v with
  | VText s => Ok s
  | VBool b => bytes [if b then 1 else 0]%Z
  | VInt2 z => bytes (be_bytes 2 z)
  | VInt4 z => bytes (be_bytes 4 z)
  | VInt8 z => bytes (be_bytes 8 z)
  | VFloat4 f => bytes (be_bytes 4 (float_bits 23 8 f))
  | VFloat8 f => bytes (be_bytes 8 (float_bits 52 11 f))
  | VNumeric d => bytes (numeric_bytes d)
  | VTimestamp t => bytes (be_bytes 8 (pg_micros t))
  | VTimestamptz t => bytes (be_bytes 8 (pg_micros t))
  | VDate d => bytes (be_bytes 4 (d - 10957))
  | VTime t => bytes (be_bytes 8 (fst t * 1000000 + snd t / 1000))
  | VTimetz t => match timetz_to_sql t with Ok l => bytes l | Err e => Err (ApiError e) end
  end.

(** In text format pgwire writes texts as they are, [t] or [f] for a boolean and
    a time with zone by its own [ToSqlText]; the gateway sends no other value in
    text. The binary path of a time with zone checks the column's type first. *)
Definition write_field (fi : FieldInfo) (v : @SqlValue calendar decimals_96) : PgWireResult (option string) :=
  match format fi, v with
  | Text, VText s => Ok s
  | Text, VBool b => Ok (Some (if b then "t" else "f"))
  | Text, VTimetz t => match timetz_to_sql_text t with Ok s => Ok (Some s) | Err e => Err (ApiError e) end
  | Text, _ => Err (ApiError "typed value in text format")
  | Binary, VTimetz _ =>
    if timetz_accepts (datatype fi) then send_value v else Err (ApiError "error converting to type")
  | Binary, _ => send_value v
  end.

(** serde_json's compact text of a value without characters to escape. *)
Definition quoted (s : string) : string := String (ascii_of_N 34) (s ++ String (ascii_of_N 34) "").

Fixpoint compact (v : Value) : string :=
  match v with
  | Null => "null"
  | Bool b => if b then "true" else "false"
  | Num n => number_text n
  | Str s => quoted s
  | Array l => "[" ++ String.concat "," (map compact l) ++ "]"
  | Object fields =>
    "{" ++ String.concat "," (map (fun '(k, x) => quoted k ++ ":" ++ compact x) fields) ++ "}"
  end.

Definition send_wire : @Wire calendar decimals_96 :=
  @Build_Wire calendar decimals_96 write_field (fun _ => "type") compact.
