(* ===== verification/TrinoStream.v ===== *)
(** * Running a query on Trino (src/src/trino_stream.rs)

    [execute_trino_query] submits a statement, polls until the columns are
    known and returns the schema and a lazy row stream; [stream_step] is the
    stream's generator cut at its suspension points. A stream that was never
    polled has not created its drop guard. The polling loop carries fuel, one
    unit per page. *)

From S2P Require Import Prelude RustStr PgWire ErrorMapping Trino World Response Session TypeMap.
From S2P Require Import RustFloat Values.

Local Open Scope string_scope.
Local Open Scope rust_scope.

Section TrinoStream.
Context `{Case : UnicodeCase} `{Chr : Chrono} `{Dec : Decimals} `{Wir : !Wire}.
Context {Srv : Type} `{Api : TrinoApi Srv}.

(** [enumerate] from [idx]. *)
Fixpoint build_fields (idx : nat) (columns : list TrinoColumn) (result_format : option Format)
  : list FieldInfo :=
  match columns with
  | [] => []
  | col :: rest =>
    let format := match result_format with None => Text | Some f => f idx end in
    mk_field_info (tc_name col) (trino_type_to_pg (trino_type col)) format
    :: build_fields (S idx) rest result_format
  end.

Definition build_pg_schema (columns : list TrinoColumn) (result_format : option Format)
  : list FieldInfo := build_fields 0 columns result_format.

(** The loop of [encode_row] over the zipped cells, from column [idx]. *)
Fixpoint encode_cells (encoder : DataRowEncoder) (idx : nat) (values : list Value)
    (columns : list TrinoColumn) (schema : list FieldInfo) : PgWireResult DataRowEncoder :=
  match values, columns with
  | value :: values', col :: columns' =>
    match schema !! idx with
    | None => Err index_panic
    | Some field =>
      let? encoder := encode_cell encoder value (datatype field) (trino_type col) (format field) in
      encode_cells encoder (S idx) values' columns' schema
    end
  | _, _ => Ok encoder
  end.

Definition encode_row (values : list Value) (columns : list TrinoColumn) (schema : list FieldInfo)
  : PgWireResult DataRow :=
  let? encoder := encode_cells (mk_encoder schema []) 0 values columns schema in
  Ok (enc_fields encoder).

Definition extract_direct_rows (data : option QueryResultData) : list (list Value) :=
  match data with
  | Some (Direct rows) => rows
  | _ => []
  end.

Definition trino_user_error (message : string) : PgWireError := UserError (trino_error_to_pg message).

(** [client.get] and [client.get_next], with the submission recorded. *)
Definition client_get (client : TrinoClient) (sql : string) : Io (World Srv) (result string QueryResult) :=
  fun w => let (r, s) := trino_get (srv w) client sql in
           (Ok r, log_submitted (client, sql) (set_srv s w)).

Definition client_get_next (client : TrinoClient) (url : string)
  : Io (World Srv) (result string QueryResult) :=
  fun w => let (r, s) := trino_get_next (srv w) client url in (Ok r, set_srv s w).

(** [while trino_columns.is_empty()]: poll until a page has columns. *)
Fixpoint poll_columns (fuel : nat) (client : TrinoClient) (slot : option ActiveQueryId)
    (columns : list TrinoColumn) (rows : list (list Value)) (next_uri : option string)
  : Task (World Srv) (list TrinoColumn * list (list Value) * option string) :=
  match columns with
  | _ :: _ => task (ret (columns, rows, next_uri))
  | [] =>
    match next_uri with
    | None => task (ret (columns, rows, None))
    | Some url =>
      match fuel with
      | O => OutOfFuel
      | S fuel' =>
        let* page := task (client_get_next client url) in
        match page with
        | Err e =>
          let* _ := task (set_active_query_id slot None) in task (throw (trino_user_error e))
        | Ok r =>
          match result_error r with
          | Some message =>
            let* _ := task (set_active_query_id slot None) in task (throw (trino_user_error message))
          | None =>
            let columns' := match result_columns r with
                            | Some cols => map from_column cols
                            | None => columns
                            end in
            poll_columns fuel' client slot columns' (rows ++ extract_direct_rows (result_data r))%list
              (result_next_uri r)
          end
        end
      end
    end
  end.

Definition execute_trino_query (fuel : nat) (client : TrinoClient) (sql : string)
    (active_query_id : option ActiveQueryId) (result_format : option Format)
  : Task (World Srv) (list FieldInfo * RowStream) :=
  let* first := task (client_get client sql) in
  match first with
  | Err e => task (throw (trino_user_error e))
  | Ok r =>
    let* _ := task (set_active_query_id active_query_id (Some (result_id r))) in
    match result_error r with
    | Some message =>
      let* _ := task (set_active_query_id active_query_id None) in
      task (throw (trino_user_error message))
    | None =>
      let columns := match result_columns r with
                     | Some cols => map from_column cols
                     | None => []
                     end in
      let* polled := poll_columns fuel client active_query_id columns
                       (extract_direct_rows (result_data r)) (result_next_uri r) in
      let '(columns, rows, next_uri) := polled in
      let schema := build_pg_schema columns result_format in
      task (ret (schema, mk_row_stream client columns schema active_query_id rows next_uri Fresh))
    end
  end.

(** ** The stream *)

Definition with_phase (p : Phase) (s : RowStream) : RowStream :=
  mk_row_stream (stream_client s) (stream_columns s) (stream_schema s) (stream_active_query_id s)
    (initial_rows s) (initial_next_uri s) p.

(** What one step of the generator does: yields an item, goes on silently
    (a page was fetched, the guard was created), or ends. *)
Inductive StreamEvent :=
| Yield (item : PgWireResult DataRow)
| Silent
| End_.

Definition clear_slot (slot : option ActiveQueryId) (w : World Srv) : World Srv :=
  snd (set_active_query_id slot None w).

Definition stream_step (s : RowStream) (w : World Srv) : StreamEvent * RowStream * World Srv :=
  match phase s with
  | Fresh => (Silent, with_phase (Running (initial_rows s) (initial_next_uri s)) s, w)
  | Running (row :: rest) next_uri =>
    (Yield (encode_row row (stream_columns s) (stream_schema s)), with_phase (Running rest next_uri) s, w)
  | Running [] (Some url) =>
    let (chunk, x) := trino_get_next (srv w) (stream_client s) url in
    let w' := set_srv x w in
    match chunk with
    | Ok r =>
      match result_error r with
      | Some message => (Yield (Err (trino_user_error message)), with_phase Breaking s, w')
      | None =>
        (Silent, with_phase (Running (extract_direct_rows (result_data r)) (result_next_uri r)) s, w')
      end
    | Err e => (Yield (Err (trino_user_error e)), with_phase Breaking s, w')
    end
  | Running [] None | Breaking => (End_, with_phase Finished s, clear_slot (stream_active_query_id s) w)
  | Finished => (End_, s, w)
  end.

(** Dropping a stream runs the guard only if the generator has started and not
    finished. *)
Definition drop_stream (s : RowStream) (w : World Srv) : World Srv :=
  match phase s with
  | Running _ _ | Breaking => clear_slot (stream_active_query_id s) w
  | Fresh | Finished => w
  end.

(** Pull a stream to its end: the items, and the world afterwards. *)
Fixpoint drain (fuel : nat) (s : RowStream) (w : World Srv)
  : option (list (PgWireResult DataRow) * World Srv) :=
  match fuel with
  | O => None
  | S fuel' =>
    match stream_step s w with
    | (End_, _, w') => Some ([], w')
    | (Silent, s', w') => drain fuel' s' w'
    | (Yield item, s', w') =>
      match drain fuel' s' w' with
      | Some (items, w'') => Some (item :: items, w'')
      | None => None
      end
    end
  end.

End TrinoStream.
