(* ===== verification/TrinoStreamFacts.v ===== *)
(** * Theorems on running a query (src/src/trino_stream.rs)

    Trino's result protocol as the abstract specification [chain], a finite
    sequence of pages that ends or fails; the schema and the drained stream are
    shown to be those of the whole sequence. Row encoding is shown to be
    cell-wise. *)

From S2P Require Import Prelude RustStr PgWire ErrorMapping Trino World Response Session TypeMap.
From S2P Require Import RustFloat Values ValuesFacts TrinoStream.

Local Open Scope string_scope.
Local Open Scope rust_scope.

Section Facts.
Context `{Case : UnicodeCase} `{Chr : Chrono} `{Dec : Decimals} `{Wir : !Wire}.
Context {Srv : Type} `{Api : TrinoApi Srv}.
Implicit Types w : World Srv.

(** ** Row encoding *)

(** The typed value of a cell, without an encoder. *)
Definition binary_value (value : Value) (pg_type : PgType) (ty : string) : PgWireResult SqlValue :=
  match pg_type with
  | BOOL => let? b := json_to_bool value ty in Ok (VBool b)
  | INT2 => let? n := json_to_i64 value ty in
            if in_i16 n then Ok (VInt2 n) else Err (out_of_range n "int2")
  | INT4 => let? n := json_to_i64 value ty in
            if in_i32 n then Ok (VInt4 n) else Err (out_of_range n "int4")
  | INT8 => let? n := json_to_i64 value ty in Ok (VInt8 n)
  | FLOAT4 => let? f := json_to_f64 value ty in Ok (VFloat4 (f64_as_f32 f))
  | FLOAT8 => let? f := json_to_f64 value ty in Ok (VFloat8 f)
  | NUMERIC => let? d := json_to_decimal value ty in Ok (VNumeric d)
  | TIMESTAMP => let? t := json_to_timestamp value ty in Ok (VTimestamp t)
  | TIMESTAMPTZ => let? t := json_to_timestamptz value ty in Ok (VTimestamptz t)
  | DATE => let? d := json_to_date value ty in Ok (VDate d)
  | TIME => let? t := json_to_time value ty in Ok (VTime t)
  | TIMETZ => let? t := json_to_timetz value ty in Ok (VTimetz t)
  | VARCHAR | TEXT | BPCHAR | NAME | UNKNOWN => Ok (VText (encode_value value ty))
  | _ => Err (unsupported_binary_type pg_type ty)
  end.

Definition cell_value (value : Value) (pg_type : PgType) (ty : string) (f : FieldFormat)
  : PgWireResult SqlValue :=
  if is_null value then Ok (VText None)
  else match f with
       | Text => Ok (VText (text_value value pg_type ty))
       | Binary => binary_value value pg_type ty
       end.

(** The field a cell becomes, by its own column alone. *)
Definition cell_field (idx : nat) (value : Value) (col : TrinoColumn) (result_format : option Format)
  : PgWireResult (option string) :=
  let t := trino_type_to_pg (trino_type col) in
  let f := match result_format with None => Text | Some g => g idx end in
  let? x := cell_value value t (trino_type col) f in
  field_bytes (mk_field_info (tc_name col) t f) x.

Fixpoint row_fields (idx : nat) (values : list Value) (columns : list TrinoColumn)
    (result_format : option Format) : PgWireResult DataRow :=
  match values, columns with
  | v :: values', col :: columns' =>
    let? b := cell_field idx v col result_format in
    let? rest := row_fields (S idx) values' columns' result_format in
    Ok (b :: rest)
  | _, _ => Ok []
  end.

Lemma encode_cell_factor encoder value pg_type ty f :
  encode_cell encoder value pg_type ty f
  = let? x := cell_value value pg_type ty f in encode_field encoder x.
Proof.
  unfold encode_cell, cell_value. destruct (is_null value); [done|]. destruct f; [done|].
  destruct pg_type; cbn [encode_binary_cell binary_value]; try done;
    match goal with |- context [rbind ?c _] => destruct c; simpl; try done end.
  - by destruct (in_i16 a).
  - by destruct (in_i32 a).
Qed.

Lemma build_fields_lookup idx k columns fmt :
  build_fields idx columns fmt !! k
  = (fun col => mk_field_info (tc_name col) (trino_type_to_pg (trino_type col))
                  (match fmt with None => Text | Some f => f (idx + k)%nat end)) <$> columns !! k.
Proof.
  revert idx k. induction columns as [|col columns IH]; intros idx [|k]; simpl; try done.
  - by rewrite Nat.add_0_r.
  - rewrite IH. by replace (S idx + k)%nat with (idx + S k)%nat by lia.
Qed.

Lemma encode_cells_fields columns fmt done_ values rest :
  (exists before, columns = before ++ rest /\ length before = length done_)%list ->
  encode_cells (mk_encoder (build_pg_schema columns fmt) done_) (length done_) values rest
    (build_pg_schema columns fmt)
  = let? tail := row_fields (length done_) values rest fmt in
    Ok (mk_encoder (build_pg_schema columns fmt) (done_ ++ tail)%list).
Proof.
  revert done_ rest. induction values as [|v values IH]; intros done_ rest (before & Hc & Hl).
  { simpl. by rewrite app_nil_r. }
  destruct rest as [|col rest]; [simpl; by rewrite app_nil_r|]. cbn [encode_cells row_fields].
  assert (Hlk : build_pg_schema columns fmt !! length done_
    = Some (mk_field_info (tc_name col) (trino_type_to_pg (trino_type col))
              (match fmt with None => Text | Some f => f (length done_) end))).
  { unfold build_pg_schema. rewrite build_fields_lookup, Hc, <- Hl, list_lookup_middle by done. done. }
  rewrite Hlk. cbn [datatype format]. rewrite encode_cell_factor. unfold cell_field.
  destruct (cell_value _ _ _ _) as [x|e]; [|done]. cbn [rbind].
  unfold encode_field. cbn [enc_schema enc_fields]. rewrite Hlk.
  destruct (field_bytes _ x) as [b|e]; [|done]. cbn [rbind].
  specialize (IH (done_ ++ [b])%list rest). rewrite length_app, Nat.add_1_r in IH. rewrite IH.
  - destruct (row_fields _ values rest fmt); simpl; [|done]. by rewrite <- app_assoc.
  - exists (before ++ [col])%list. rewrite length_app, Nat.add_1_r, Hl. split; [|done].
    by rewrite <- app_assoc.
Qed.

(** C23: A row is encoded cell by cell, each cell by the type and the format of
    its own column in the advertised schema; surplus cells or columns are
    ignored and no schema access is ever out of bounds. *)
Theorem row_encoding_is_cellwise values columns fmt :
  encode_row values columns (build_pg_schema columns fmt) = row_fields 0 values columns fmt.
Proof.
  unfold encode_row. pose proof (encode_cells_fields columns fmt [] values columns) as E.
  cbn [length app] in E. rewrite E by (by exists []). by destruct (row_fields 0 values columns fmt).
Qed.

(** ** Pages *)

(** Following [nextUri] from a server state: the pages, how the chain ends
    ([None]: no further page; [Some message]: a failed page or request), and
    the state it leaves the server in. *)
Inductive chain (client : TrinoClient) : Srv -> option string -> list QueryResult -> option string -> Srv -> Prop :=
| chain_end s : chain client s None [] None s
| chain_page s url r s1 pages out s2 :
    trino_get_next s client url = (Ok r, s1) -> result_error r = None ->
    chain client s1 (result_next_uri r) pages out s2 ->
    chain client s (Some url) (r :: pages) out s2
| chain_failed s url r s1 message :
    trino_get_next s client url = (Ok r, s1) -> result_error r = Some message ->
    chain client s (Some url) [] (Some message) s1
| chain_broken s url s1 message :
    trino_get_next s client url = (Err message, s1) ->
    chain client s (Some url) [] (Some message) s1.

(** The rows a page carries directly; the gateway reads no spooled ones. *)
Definition page_rows (r : QueryResult) : list (list Value) :=
  match result_data r with
  | Some (Direct rows) => rows
  | _ => []
  end.
Definition all_rows (pages : list QueryResult) : list (list Value) := concat (map page_rows pages).

Definition page_columns (r : QueryResult) : list TrinoColumn :=
  match result_columns r with
  | Some cols => map from_column cols
  | None => []
  end.

(** The columns of the first page that has any. *)
Fixpoint first_columns (pages : list QueryResult) : list TrinoColumn :=
  match pages with
  | [] => []
  | r :: rest => match page_columns r with [] => first_columns rest | cols => cols end
  end.

Definition failure_item (out : option string) : list (PgWireResult DataRow) :=
  match out with
  | Some message => [Err (trino_user_error message)]
  | None => []
  end.

(** Steps that suffice to drain: one per row, one per page, and the ends. *)
Definition drain_cost (pending : list (list Value)) (pages : list QueryResult) : nat :=
  3 + length pending + length pages + length (all_rows pages).

Lemma drain_running s pending next_uri w pages out x :
  phase s = Running pending next_uri -> chain (stream_client s) (srv w) next_uri pages out x ->
  forall fuel, (drain_cost pending pages <= fuel)%nat ->
  drain fuel s w
  = Some (map (fun row => encode_row row (stream_columns s) (stream_schema s))
            (pending ++ all_rows pages) ++ failure_item out,
          clear_slot (stream_active_query_id s) (set_srv x w))%list.
Proof.
  intros Hp Hc fuel. revert s pending next_uri w pages out x Hp Hc. unfold drain_cost.
  induction fuel as [|fuel IH]; intros s pending next_uri w pages out x Hp Hc Hf; [lia|].
  cbn [drain]. unfold stream_step. rewrite Hp. destruct pending as [|row pending].
  - inversion Hc as [s0|s0 url r s1 pages' out' s2 Hg He Hc'|s0 url r s1 m Hg He|s0 url s1 m Hg]; subst.
    + simpl. by destruct w.
    + rewrite Hg, He. change (extract_direct_rows (result_data r)) with (page_rows r).
      rewrite (IH (with_phase (Running (page_rows r) (result_next_uri r)) s) (page_rows r) (result_next_uri r)
                (set_srv s1 w) pages' out x eq_refl Hc'); [by destruct w|].
      unfold all_rows in Hf. cbn [map concat length] in Hf. rewrite length_app in Hf. fold (all_rows pages') in Hf. lia.
    + rewrite Hg, He. simpl in Hf. destruct fuel as [|fuel]; [lia|]. by destruct w.
    + rewrite Hg. simpl in Hf. destruct fuel as [|fuel]; [lia|]. by destruct w.
  - rewrite (IH (with_phase (Running pending next_uri) s) pending next_uri w pages out x eq_refl Hc);
      [done|simpl in Hf; lia].
Qed.

Lemma drain_fresh s w pages out x :
  phase s = Fresh -> chain (stream_client s) (srv w) (initial_next_uri s) pages out x ->
  forall fuel, (S (drain_cost (initial_rows s) pages) <= fuel)%nat ->
  drain fuel s w
  = Some (map (fun row => encode_row row (stream_columns s) (stream_schema s))
            (initial_rows s ++ all_rows pages) ++ failure_item out,
          clear_slot (stream_active_query_id s) (set_srv x w))%list.
Proof.
  intros Hp Hc [|fuel] Hf; [lia|]. cbn [drain]. unfold stream_step. rewrite Hp.
  by rewrite (drain_running (with_phase _ s) _ _ w pages out x eq_refl Hc fuel) by lia.
Qed.

(** The polling loop stops at the first page with columns, having kept the
    rows it passed. *)
Lemma poll_columns_settles fuel client slot columns rows next_uri w pages out x :
  chain client (srv w) next_uri pages out x -> (length pages < fuel)%nat ->
  (exists columns' rows' next_uri' rest x',
     poll_columns fuel client slot columns rows next_uri w
     = Some (Ok (columns', rows', next_uri'), set_srv x' w)
     /\ chain client x' next_uri' rest out x
     /\ columns' = match columns with [] => first_columns pages | _ => columns end
     /\ (rows' ++ all_rows rest = rows ++ all_rows pages)%list
     /\ (length rest <= length pages)%nat
     /\ (columns' <> [] \/ out = None))
  \/ (exists message, columns = [] /\ first_columns pages = [] /\ out = Some message
      /\ poll_columns fuel client slot columns rows next_uri w
         = Some (Err (trino_user_error message), clear_slot slot (set_srv x w))).
Proof.
  intros Hc. remember (srv w) as x0 eqn:Ex. revert fuel columns rows w Ex.
  induction Hc as [s0|s0 url r s1 pages out s2 Hg He Hc IH|s0 url r s1 m Hg He|s0 url s1 m Hg];
    intros fuel columns rows w -> Hf;
    (destruct columns as [|c columns];
     [|left; eexists (c :: columns), rows, _, _, (srv w); destruct fuel, w; repeat split; try done;
       try (by left); by econstructor]).
  - left. eexists [], rows, None, [], (srv w). destruct fuel, w; repeat split; try done; try (by right); apply chain_end.
  - destruct fuel as [|fuel]; [lia|]. cbn [poll_columns]. unfold_task. unfold client_get_next.
    rewrite Hg, He. fold (page_columns r).
    destruct (IH fuel (page_columns r) (rows ++ page_rows r)%list (set_srv s1 w)) as
      [(cols & rows' & nu & rest & x' & E & Hch & Hcols & Hrows & Hlen & Hne)|(m & H1 & H2 & H3 & E)];
      [done|simpl in Hf; lia| |]; change (page_rows r) with (extract_direct_rows (result_data r)) in E.
    + left. exists cols, rows', nu, rest, x'. rewrite E. destruct w. repeat split; try done.
      * rewrite Hcols. cbn [first_columns]. by destruct (page_columns r).
      * rewrite Hrows, <- app_assoc. done.
      * simpl. lia.
    + right. exists m. cbn [first_columns]. rewrite H1. rewrite H1 in E. rewrite E. by destruct w.
  - right. exists m. destruct fuel as [|fuel]; [simpl in Hf; lia|]. cbn [poll_columns]. unfold_task.
    unfold client_get_next. rewrite Hg, He. repeat split. unfold clear_slot.
    by destruct slot.
  - right. exists m. destruct fuel as [|fuel]; [simpl in Hf; lia|]. cbn [poll_columns]. unfold_task.
    unfold client_get_next. rewrite Hg. repeat split. unfold clear_slot. by destruct slot.
Qed.

(** [execute_trino_query] after a first page without error. *)
Lemma execute_after_first fuel client sql slot fmt w first s1 :
  trino_get (srv w) client sql = (Ok first, s1) -> result_error first = None ->
  let w1 := set_slots (<[slot := Some (result_id first)]> (slots w))
              (log_submitted (client, sql) (set_srv s1 w)) in
  execute_trino_query fuel client sql (Some slot) fmt w
  = await (poll_columns fuel client (Some slot) (page_columns first) (page_rows first) (result_next_uri first))
      (fun polled => let '(columns, rows, next_uri) := polled in
         let schema := build_pg_schema columns fmt in
         task (ret (schema, mk_row_stream client columns schema (Some slot) rows next_uri Fresh))) w1.
Proof.
  intros Hg He. unfold execute_trino_query. unfold client_get. rewrite run_await, run_task, Hg.
  rewrite run_await, run_task. cbn [set_active_query_id]. unfold modify. by rewrite He.
Qed.

Lemma slot_value_set slot v m w : slots w = <[slot := v]> m -> slot_value w slot = v.
Proof. unfold slot_value. intros ->. by rewrite lookup_insert_eq. Qed.

Lemma execute_then_drain fuel client sql slot fmt w first s1 pages out s2 :
  trino_get (srv w) client sql = (Ok first, s1) -> result_error first = None ->
  chain client s1 (result_next_uri first) pages out s2 ->
  first_columns (first :: pages) <> [] \/ out = None ->
  (length pages < fuel)%nat ->
  let columns := first_columns (first :: pages) in
  let schema := build_pg_schema columns fmt in
  exists stream w1,
    execute_trino_query fuel client sql (Some slot) fmt w = Some (Ok (schema, stream), w1)
    /\ submitted w1 = (submitted w ++ [(client, sql)])%list
    /\ slot_value w1 slot = Some (result_id first)
    /\ forall fuel', (4 + length (all_rows (first :: pages)) + length pages <= fuel')%nat ->
       exists w2,
         drain fuel' stream w1
         = Some (map (fun row => encode_row row columns schema) (all_rows (first :: pages))
                 ++ failure_item out, w2)%list
         /\ srv w2 = s2 /\ slot_value w2 slot = None.
Proof.
  intros Hg He Hc Hcols Hf columns schema.
  pose proof (execute_after_first fuel client sql slot fmt w first s1 Hg He) as Ex. cbv zeta in Ex.
  set (w1 := set_slots _ _) in Ex. rewrite Ex, run_await. clear Ex.
  destruct (poll_columns_settles fuel client (Some slot) (page_columns first) (page_rows first)
              (result_next_uri first) w1 pages out s2) as
    [(cols & rows & nu & rest & x' & -> & Hch & Hcs & Hrows & Hlen & Hne)|(m & H1 & H2 & -> & _)]; [done..| |].
  - assert (Hcc : cols = columns).
    { rewrite Hcs. unfold columns. cbn [first_columns]. by destruct (page_columns first). }
    clear Hcs. subst cols.
    set (st := mk_row_stream client columns schema (Some slot) rows nu Fresh).
    exists st, (set_srv x' w1).
    split; [done|]. split; [done|]. split; [by eapply slot_value_set|].
    intros fuel' Hf'.
    assert (Hall : length (all_rows (first :: pages)) = (length rows + length (all_rows rest))%nat).
    { unfold all_rows. cbn [map concat]. fold (all_rows pages). rewrite <- Hrows. apply length_app. }
    rewrite (drain_fresh st (set_srv x' w1) rest out s2 eq_refl Hch) by (unfold drain_cost; simpl; lia).
    cbn [initial_rows st]. rewrite Hrows.
    eexists. split; [reflexivity|]. split; [done|by eapply slot_value_set].
  - destruct Hcols as [Hcols|]; [|done]. exfalso. apply Hcols. cbn [first_columns]. by rewrite H1.
Qed.

(** C10: A query's result is the whole of what Trino serves. After the submission,
    the schema is that of the first page with columns, the slot holds the query
    id, and the drained stream is every row of every page in order, followed by
    the sanitised error if the chain of pages breaks; then the slot is empty.
    Enough fuel is one unit per page and per row. *)
Theorem query_streams_all_rows fuel client sql slot fmt w first s1 pages out s2 :
  trino_get (srv w) client sql = (Ok first, s1) -> result_error first = None ->
  chain client s1 (result_next_uri first) pages out s2 ->
  first_columns (first :: pages) <> [] \/ out = None ->
  (length pages < fuel)%nat ->
  let columns := first_columns (first :: pages) in
  let schema := build_pg_schema columns fmt in
  exists stream w1,
    execute_trino_query fuel client sql (Some slot) fmt w = Some (Ok (schema, stream), w1)
    /\ submitted w1 = (submitted w ++ [(client, sql)])%list
    /\ slot_value w1 slot = Some (result_id first)
    /\ forall fuel', (4 + length (all_rows (first :: pages)) + length pages <= fuel')%nat ->
       exists w2,
         drain fuel' stream w1
         = Some (map (fun row => encode_row row columns schema) (all_rows (first :: pages))
                 ++ failure_item out, w2)%list
         /\ srv w2 = s2 /\ slot_value w2 slot = None.
Proof. apply execute_then_drain. Qed.

(** C22: A query that fails before its columns are known is reported as a user
    error with the sanitised message. When Trino has accepted it, that is when the
    first page carries an error or a later page or request fails, the connection's
    slot is empty afterwards; when the submission itself is refused, the slots are
    as they were before. *)
Theorem early_failure_reports_and_clears fuel client sql slot fmt w message x :
  (trino_get (srv w) client sql = (Err message, x) ->
   exists w1, execute_trino_query fuel client sql (Some slot) fmt w = Some (Err (trino_user_error message), w1)
              /\ srv w1 = x /\ slots w1 = slots w)
  /\ ((exists first, trino_get (srv w) client sql = (Ok first, x) /\ result_error first = Some message)
      \/ (exists first s1 pages, trino_get (srv w) client sql = (Ok first, s1) /\ result_error first = None
          /\ chain client s1 (result_next_uri first) pages (Some message) x
          /\ first_columns (first :: pages) = [] /\ (length pages < fuel)%nat) ->
      exists w1, execute_trino_query fuel client sql (Some slot) fmt w = Some (Err (trino_user_error message), w1)
                 /\ srv w1 = x /\ slot_value w1 slot = None).
Proof.
  split; [intros Hg|intros [(first & Hg & He)|(first & s1 & pages & Hg & He & Hc & Hcols & Hf)]].
  - unfold execute_trino_query. unfold_task. unfold client_get. rewrite Hg. by eexists.
  - unfold execute_trino_query. unfold_task. unfold client_get. rewrite Hg. simpl. rewrite He.
    eexists. split; [done|]. split; [done|]. by eapply slot_value_set.
  - pose proof (execute_after_first fuel client sql slot fmt w first s1 Hg He) as Ex. cbv zeta in Ex.
    set (w1 := set_slots _ _) in Ex. rewrite Ex, run_await. clear Ex.
    cbn [first_columns] in Hcols. destruct (page_columns first) eqn:Ep; [|done].
    destruct (poll_columns_settles fuel client (Some slot) [] (page_rows first)
              (result_next_uri first) w1 pages (Some message) x) as
      [(cols & rows & nu & rest & x' & Hp & Hch & Hcs & Hrows & Hlen & Hne)|(m & _ & _ & [= <-] & ->)]; [done..| |].
    + rewrite Hcs, Hcols in Hne. by destruct Hne.
    + eexists. split; [done|]. split; [done|]. by eapply slot_value_set.
Qed.

End Facts.

(** ** A small server *)

(** Serves one query in three pages: nothing, then the column and a row, then
    another row. The query [bad] fails on its second page. *)
Definition paged_api : TrinoApi unit :=
  {| client_build _ := Ok tt;
     trino_get s _ sql :=
       (Ok (mk_query_result "q1" None None
              (Some (if String.eqb sql "bad" then "u9" else "u1")) None), s);
     trino_get_next s _ url :=
       (if String.eqb url "u1" then
          Ok (mk_query_result "q1" (Some [mk_column "n" "varchar"]) (Some (Direct [[Str "a"]])) (Some "u2") None)
        else if String.eqb url "u2" then
          Ok (mk_query_result "q1" None (Some (Direct [[Str "b"]])) None None)
        else Ok (mk_query_result "q1" None None None (Some "line 1:8: mismatched input")), s);
     trino_get_all s _ _ := (Ok [], s);
     trino_cancel s _ _ := (Ok tt, s) |}.

Definition quiet_world : World unit := mk_world tt [] [] 1%Z ∅ {[ 0%nat := None ]} 1%nat.

Definition some_client : TrinoClient := mk_trino_client "u" "h" 8080%Z "c" "s" true false None false.

Definition page_two : QueryResult :=
  mk_query_result "q1" (Some [mk_column "n" "varchar"]) (Some (Direct [[Str "a"]])) (Some "u2") None.
Definition page_three : QueryResult :=
  mk_query_result "q1" None (Some (Direct [[Str "b"]])) None None.

Lemma paged_chain : @chain unit paged_api some_client tt (Some "u1") [page_two; page_three] None tt.
Proof.
  eapply chain_page; [reflexivity|reflexivity|].
  eapply chain_page; [reflexivity|reflexivity|]. apply chain_end.
Qed.

Lemma query_streams_all_rows_witness :
  exists schema stream w1 w2,
    @execute_trino_query ascii_only_case unit paged_api 3 some_client "SELECT" (Some 0%nat) None quiet_world
    = Some (Ok (schema, stream), w1)
    /\ @drain ascii_only_case sample_chrono sample_decimals sample_wire unit paged_api 9 stream w1
       = Some ([Ok [Some "a"]; Ok [Some "b"]], w2)
    /\ slot_value w2 0%nat = None.
Proof.
  destruct (@query_streams_all_rows ascii_only_case sample_chrono sample_decimals sample_wire unit paged_api
              3 some_client "SELECT" 0%nat None quiet_world
              (mk_query_result "q1" None None (Some "u1") None) tt [page_two; page_three] None tt
              eq_refl eq_refl paged_chain (or_intror eq_refl) ltac:(simpl; lia))
    as (stream & w1 & H1 & _ & _ & H2).
  destruct (H2 9%nat ltac:(simpl; lia)) as (w2 & H3 & _ & H4).
  eexists _, stream, w1, w2. split; [exact H1|]. split; [|exact H4].
  rewrite H3. vm_compute. reflexivity.
Defined.

(** A server that is down, and a connection that ran a statement before. *)
Definition down_api : TrinoApi unit :=
  {| client_build _ := Ok tt;
     trino_get s _ _ := (Err "connection refused", s);
     trino_get_next s _ _ := (Err "connection refused", s);
     trino_get_all s _ _ := (Err "connection refused", s);
     trino_cancel s _ _ := (Err "connection refused", s) |}.

Definition used_world : World unit := mk_world tt [] [] 1%Z ∅ {[ 0%nat := Some "q0" ]} 1%nat.

Lemma early_failure_reports_and_clears_witness :
  (exists w1,
    @execute_trino_query ascii_only_case unit paged_api 3 some_client "bad" (Some 0%nat) None used_world
    = Some (Err (trino_user_error "line 1:8: mismatched input"), w1)
    /\ srv w1 = tt /\ slot_value w1 0%nat = None)
  /\ (exists w1,
    @execute_trino_query ascii_only_case unit down_api 3 some_client "SELECT" (Some 0%nat) None used_world
    = Some (Err (trino_user_error "connection refused"), w1)
    /\ srv w1 = tt /\ slots w1 = slots used_world).
Proof.
  split.
  - apply (@early_failure_reports_and_clears ascii_only_case unit paged_api
              3 some_client "bad" 0%nat None used_world "line 1:8: mismatched input" tt).
    right. exists (mk_query_result "q1" None None (Some "u9") None), tt, [].
    split; [reflexivity|]. split; [reflexivity|]. split; [|split; [reflexivity|simpl; lia]].
    eapply chain_failed; reflexivity.
  - apply (@early_failure_reports_and_clears ascii_only_case unit down_api
              3 some_client "SELECT" 0%nat None used_world "connection refused" tt). reflexivity.
Defined.
