(* ===== verification/Catalog.v ===== *)
(** * The PostgreSQL catalog the gateway answers for (src/src/catalog/)

    The static answers ([pg_type], [pg_enum], [pg_range], [pg_namespace]), the
    synthetic object ids, and the dynamic answers built from Trino's
    information schema ([pg_class], [pg_attribute]). *)

From S2P Require Import Prelude RustStr PgWire Trino World Response TypeMap RustFloat Values Sql.
From S2P Require Import QueryInspection.

Local Open Scope string_scope.
Local Open Scope rust_scope.

(** ** Shared helpers (catalog/mod.rs) *)

Definition text_field (name : string) (ty : PgType) : FieldInfo := mk_field_info name ty Text.

Definition json_str (values : list Value) (idx : nat) (dflt : string) : string :=
  default dflt (values !! idx ≫= value_as_str).

Section Build.
Context `{Chr : Chrono} `{Dec : Decimals} `{Wir : !Wire}.

(** The inner loop of [build_response]: one row through an encoder. *)
Fixpoint encode_texts (encoder : DataRowEncoder) (row : list (option string))
  : PgWireResult DataRowEncoder :=
  match row with
  | [] => Ok encoder
  | value :: row' =>
    let? encoder := encode_field encoder (VText value) in
    encode_texts encoder row'
  end.

Fixpoint build_rows (schema : list FieldInfo) (rows : list (list (option string)))
  : PgWireResult (list (PgWireResult DataRow)) :=
  match rows with
  | [] => Ok []
  | row :: rows' =>
    let? encoder := encode_texts (mk_encoder schema []) row in
    let? rest := build_rows schema rows' in
    Ok (Ok (enc_fields encoder) :: rest)
  end.

Definition build_response (schema : list FieldInfo) (rows : list (list (option string)))
  : PgWireResult (list Response) :=
  let? data_rows := build_rows schema rows in
  Ok [RQuery schema (Ready data_rows)].
End Build.

(** ** [pg_type] *)

Record TypeEntry := mk_type_entry {
  oid : Z;
  typname : string;
  typtype : string;
  elemtypoid : Z
}.

(** Base types. *)
Definition BASE_TYPES : list TypeEntry :=
  [ mk_type_entry 16 "bool" "b" 0;
    mk_type_entry 17 "bytea" "b" 0;
    mk_type_entry 20 "int8" "b" 0;
    mk_type_entry 21 "int2" "b" 0;
    mk_type_entry 23 "int4" "b" 0;
    mk_type_entry 25 "text" "b" 0;
    mk_type_entry 26 "oid" "b" 0;
    mk_type_entry 114 "json" "b" 0;
    mk_type_entry 142 "xml" "b" 0;
    mk_type_entry 700 "float4" "b" 0;
    mk_type_entry 701 "float8" "b" 0;
    mk_type_entry 869 "inet" "b" 0;
    mk_type_entry 1042 "bpchar" "b" 0;
    mk_type_entry 1043 "varchar" "b" 0;
    mk_type_entry 1082 "date" "b" 0;
    mk_type_entry 1083 "time" "b" 0;
    mk_type_entry 1114 "timestamp" "b" 0;
    mk_type_entry 1184 "timestamptz" "b" 0;
    mk_type_entry 1186 "interval" "b" 0;
    mk_type_entry 1266 "timetz" "b" 0;
    mk_type_entry 1700 "numeric" "b" 0;
    mk_type_entry 2950 "uuid" "b" 0;
    mk_type_entry 3802 "jsonb" "b" 0 ].

(** Pseudo types. *)
Definition PSEUDO_TYPES : list TypeEntry :=
  [ mk_type_entry 705 "unknown" "p" 0;
    mk_type_entry 2249 "record" "p" 0;
    mk_type_entry 2278 "void" "p" 0 ].

(** Array types; [elemtypoid] is the base type. *)
Definition ARRAY_TYPES : list TypeEntry :=
  [ mk_type_entry 199 "_json" "a" 114;
    mk_type_entry 1000 "_bool" "a" 16;
    mk_type_entry 1001 "_bytea" "a" 17;
    mk_type_entry 1005 "_int2" "a" 21;
    mk_type_entry 1007 "_int4" "a" 23;
    mk_type_entry 1009 "_text" "a" 25;
    mk_type_entry 1014 "_bpchar" "a" 1042;
    mk_type_entry 1015 "_varchar" "a" 1043;
    mk_type_entry 1016 "_int8" "a" 20;
    mk_type_entry 1021 "_float4" "a" 700;
    mk_type_entry 1022 "_float8" "a" 701;
    mk_type_entry 1028 "_oid" "a" 26;
    mk_type_entry 1041 "_inet" "a" 869;
    mk_type_entry 1115 "_timestamp" "a" 1114;
    mk_type_entry 1182 "_date" "a" 1082;
    mk_type_entry 1183 "_time" "a" 1083;
    mk_type_entry 1185 "_timestamptz" "a" 1184;
    mk_type_entry 1187 "_interval" "a" 1186;
    mk_type_entry 1231 "_numeric" "a" 1700;
    mk_type_entry 2951 "_uuid" "a" 2950;
    mk_type_entry 3807 "_jsonb" "a" 3802 ].

(** The columns of the type-loading answer. *)
Definition type_schema : list FieldInfo :=
  [ text_field "nspname" VARCHAR; text_field "typname" VARCHAR; text_field "oid" INT4;
    text_field "typrelid" INT4; text_field "typbasetype" INT4; text_field "type" VARCHAR;
    text_field "elemoid" INT4; text_field "ord" INT4 ].

Definition entry_to_row (e : TypeEntry) : list (option string) :=
  let ord := if String.eqb (typtype e) "a" then "3"
             else if String.eqb (typtype e) "r" then "2"
             else if String.eqb (typtype e) "d" then "1"
             else "0" in
  [ Some "pg_catalog"; Some (typname e); Some (z_to_string (oid e)); Some "0"; Some "0";
    Some (typtype e); Some (z_to_string (elemtypoid e)); Some ord ].

(** [BASE_TYPES.iter().chain(PSEUDO_TYPES).chain(ARRAY_TYPES)] *)
Definition all_types : list TypeEntry := (BASE_TYPES ++ PSEUDO_TYPES ++ ARRAY_TYPES)%list.

(** ** Object ids (catalog/pg_class.rs) *)

Definition BASE_TABLE_OID : Z := 16384.
Definition PUBLIC_NAMESPACE_OID : Z := 2200.
Definition BASE_NAMESPACE_OID : Z := 20000.

(** [h.wrapping_mul(33).wrapping_add(b)] on [u32]. *)
Definition djb2_step (h b : Z) : Z := wrap_u32 (wrap_u32 (h * 33) + b).

Fixpoint djb2_bytes (h : Z) (part : string) : Z :=
  match part with
  | EmptyString => h
  | String c part' => djb2_bytes (djb2_step h (Z.of_N (byte_of c))) part'
  end.

(** The loop over the parts; [first] is [i == 0]. *)
Fixpoint djb2_parts (first : bool) (h : Z) (parts : list string) : Z :=
  match parts with
  | [] => h
  | part :: parts' =>
    let h := if first then h else djb2_step h 255 in
    djb2_parts false (djb2_bytes h part) parts'
  end.

Definition djb2_oid (parts : list string) (base : Z) : Z :=
  (base + djb2_parts true 5381 parts mod (i32_max - base))%Z.

Definition table_oid (schema_name table_name : string) : Z :=
  djb2_oid [schema_name; table_name] BASE_TABLE_OID.

Definition namespace_oid (schema_name : string) : Z :=
  if String.eqb schema_name "public" then PUBLIC_NAMESPACE_OID
  else djb2_oid [schema_name] BASE_NAMESPACE_OID.

Definition relkind `{UnicodeCase} (table_type : string) : string :=
  let t := to_uppercase table_type in
  if String.eqb t "BASE TABLE" then "r"
  else if String.eqb t "VIEW" then "v"
  else "r".

(** ** Answers *)

(** [Type::oid] of postgres-types. *)
Class TypeOids := { type_oid : PgType -> Z }.

Definition pg_class_sql : string :=
  "SELECT table_schema, table_name, table_type FROM information_schema.tables WHERE table_schema NOT IN ('information_schema')".

Definition pg_class_schema : list FieldInfo :=
  [ text_field "oid" INT4; text_field "relname" VARCHAR; text_field "relnamespace" INT4;
    text_field "relkind" VARCHAR ].

(** The row of one table. *)
Definition pg_class_row `{UnicodeCase} (values : list Value) : list (option string) :=
  let schema_name := json_str values 0 "public" in
  let tbl_name := json_str values 1 "" in
  let tbl_type := json_str values 2 "BASE TABLE" in
  [ Some (z_to_string (table_oid schema_name tbl_name)); Some tbl_name;
    Some (z_to_string (namespace_oid schema_name)); Some (relkind tbl_type) ].

Definition pg_attribute_sql : string :=
  "SELECT table_schema, table_name, column_name, ordinal_position, is_nullable, data_type FROM information_schema.columns WHERE table_schema NOT IN ('information_schema') ORDER BY table_schema, table_name, ordinal_position".

Definition pg_attribute_schema : list FieldInfo :=
  [ text_field "attrelid" INT4; text_field "attname" VARCHAR; text_field "atttypid" INT4;
    text_field "attnum" INT2; text_field "attnotnull" BOOL; text_field "attisdropped" BOOL ].

(** The ordinal: a JSON number, or text that parses as [i64]. *)
Definition ordinal_of (values : list Value) : Z :=
  default 0%Z (v ← values !! 3%nat; or_else (value_as_i64 v) (value_as_str v ≫= parse_i64)).

(** The row of one column. *)
Definition pg_attribute_row `{UnicodeCase} `{TypeOids} (values : list Value) : list (option string) :=
  let schema_name := json_str values 0 "public" in
  let tbl_name := json_str values 1 "" in
  let col_name := json_str values 2 "" in
  let ordinal := ordinal_of values in
  let is_nullable := json_str values 4 "YES" in
  let data_type := json_str values 5 "varchar" in
  [ Some (z_to_string (table_oid schema_name tbl_name)); Some col_name;
    Some (z_to_string (type_oid (trino_type_to_pg data_type))); Some (z_to_string ordinal);
    Some (if String.eqb is_nullable "NO" then "true" else "false"); Some "false" ].

Section Answers.
Context `{Case : UnicodeCase} `{Chr : Chrono} `{Dec : Decimals} `{Wir : !Wire} `{Oids : TypeOids}.
Context {Srv : Type} `{Api : TrinoApi Srv}.

Definition respond_type_loading : PgWireResult (list Response) :=
  build_response type_schema (map entry_to_row all_types).

Definition empty_composite_fields : PgWireResult (list Response) :=
  build_response [text_field "oid" INT4; text_field "attname" VARCHAR; text_field "atttypid" INT4] [].

Definition empty_enum_labels : PgWireResult (list Response) :=
  build_response [text_field "oid" INT4; text_field "enumlabel" VARCHAR] [].

Definition empty_pg_range : PgWireResult (list Response) :=
  build_response [text_field "rngtypid" INT4; text_field "rngsubtype" INT4; text_field "rngmultitypid" INT4] [].

Definition namespace_rows : list (list (option string)) :=
  [ [Some "11"; Some "pg_catalog"]; [Some "2200"; Some "public"];
    [Some "13171"; Some "information_schema"] ].

Definition respond_pg_namespace : PgWireResult (list Response) :=
  build_response [text_field "oid" INT4; text_field "nspname" VARCHAR] namespace_rows.

(** [client.get_all]: the whole dataset; the submission is recorded. *)
Definition client_get_all (client : TrinoClient) (sql : string)
  : Io (World Srv) (result string (list (list Value))) :=
  fun w => let (r, s) := trino_get_all (srv w) client sql in
           (Ok r, log_submitted (client, sql) (set_srv s w)).

Definition respond_pg_class (client : TrinoClient) : Io (World Srv) (list Response) :=
  let! dataset := client_get_all client pg_class_sql in
  match dataset with
  | Err e => throw (ApiError e)
  | Ok rows => lift (build_response pg_class_schema (map pg_class_row rows))
  end.

Definition respond_pg_attribute (client : TrinoClient) : Io (World Srv) (list Response) :=
  let! dataset := client_get_all client pg_attribute_sql in
  match dataset with
  | Err e => throw (ApiError e)
  | Ok rows => lift (build_response pg_attribute_schema (map pg_attribute_row rows))
  end.

Definition handle_catalog_query (query : ParsedQuery) : option (PgWireResult (list Response)) :=
  if references_table query "pg_attribute" && references_table query "pg_type"
  then Some empty_composite_fields
  else if references_table query "pg_enum" then Some empty_enum_labels
  else if references_table query "pg_type" then Some respond_type_loading
  else if references_table query "pg_range" then Some empty_pg_range
  else if references_table query "pg_namespace" then Some respond_pg_namespace
  else None.

(** [None]: not a dynamic catalog query; otherwise the handler that answers it. *)
Definition handle_dynamic_catalog_query (query : ParsedQuery) (client : TrinoClient)
  : option (Io (World Srv) (list Response)) :=
  if references_table query "pg_attribute" && references_table query "pg_type" then None
  else if references_table query "pg_class" then Some (respond_pg_class client)
  else if references_table query "pg_attribute" then Some (respond_pg_attribute client)
  else None.

End Answers.
