(* ===== verification/CatalogFacts.v ===== *)
(** * Theorems on the catalog answers (src/src/catalog/) *)

From S2P Require Import Prelude RustStr RustStrFacts PgWire Trino World Response TypeMap.
From S2P Require Import RustFloat Values ValuesFacts Sql QueryInspection Catalog.

Local Open Scope string_scope.
Local Open Scope rust_scope.

(** ** Object ids *)

Lemma djb2_oid_range parts base :
  (0 <= base < i32_max)%Z -> (base <= djb2_oid parts base < i32_max)%Z.
Proof.
  intros Hb. unfold djb2_oid.
  pose proof (Z.mod_pos_bound (djb2_parts true 5381 parts) (i32_max - base) ltac:(lia)). lia.
Qed.

(** Every synthetic object id is a positive 32-bit signed integer, so it
    fits the INT4 column it is sent in and the unsigned arithmetic never
    overflows; table ids start at 16384, namespace ids are 2200 for the public
    schema alone and at least 20000 for any other. *)
Theorem synthetic_oids_in_range schema table :
  (16384 <= table_oid schema table < i32_max)%Z
  /\ (namespace_oid schema = 2200 <-> schema = "public")%Z
  /\ (schema <> "public" -> 20000 <= namespace_oid schema < i32_max)%Z.
Proof.
  assert (Hn : (20000 <= djb2_oid [schema] BASE_NAMESPACE_OID < i32_max)%Z)
    by (apply djb2_oid_range; unfold BASE_NAMESPACE_OID, i32_max; lia).
  unfold table_oid, namespace_oid, PUBLIC_NAMESPACE_OID.
  split; [apply djb2_oid_range; unfold BASE_TABLE_OID, i32_max; lia|].
  destruct (String.eqb_spec schema "public"); [done|]. split; [|done]. split; [lia|done].
Qed.

(** The separator between two parts, the byte 0xFF. *)
Definition separator : string := String (ascii_of_N 255) "".

Lemma djb2_bytes_app h a b : djb2_bytes h (a ++ b) = djb2_bytes (djb2_bytes h a) b.
Proof. revert h. induction a as [|c a IH]; intros h; simpl; [done|]. apply IH. Qed.

Lemma utf8_char_bytes ch :
  utf8_char ch = true -> Forall (fun x => byte_of x <= 244)%N (list_ascii_of_string ch).
Proof.
  unfold utf8_char. generalize (list_ascii_of_string ch). intros l.
  destruct l as [|a [|b [|c [|d [|]]]]]; simpl; try done;
    rewrite ?andb_true_iff, ?N.leb_le, ?N.ltb_lt; intros H;
    repeat match goal with H : context [if ?x then _ else _] |- _ => destruct x end;
    repeat (apply List.Forall_cons; [lia|]); constructor.
Qed.

Lemma byte_not_in_utf8 b s :
  (244 < byte_of b)%N -> valid_utf8 s = true -> count_byte b s = 0%nat.
Proof.
  intros Hb. unfold valid_utf8. rewrite <- (join_split s) at 2.
  induction (split_chars s) as [|ch l IH]; simpl; [done|].
  rewrite andb_true_iff, count_byte_app. intros [Hch Hl]. rewrite IH by done.
  apply utf8_char_bytes in Hch. enough (count_byte b ch = 0%nat) by lia.
  clear -Hch Hb. induction ch as [|c ch IH]; [done|]. inversion Hch; subst. simpl.
  destruct (Ascii.eqb_spec c b) as [->|]; [lia|by apply IH].
Qed.

Lemma no_ff s : valid_utf8 s = true -> count_byte (ascii_of_N 255) s = 0%nat.
Proof. by apply byte_not_in_utf8. Qed.

Lemma split_at_byte b a1 r1 a2 r2 :
  count_byte b a1 = 0%nat -> count_byte b a2 = 0%nat ->
  a1 ++ String b r1 = a2 ++ String b r2 -> a1 = a2 /\ r1 = r2.
Proof.
  revert a2. induction a1 as [|c a1 IH]; intros [|d a2] H1 H2 E; simpl in *.
  - by injection E.
  - injection E as -> E. by rewrite Ascii.eqb_refl in H2.
  - injection E as <- E. by rewrite Ascii.eqb_refl in H1.
  - injection E as -> E. destruct (Ascii.eqb d b); [done|].
    destruct (IH a2) as [-> ->]; done.
Qed.

(** A table's id is the hash of one byte string that determines the schema and
    the table name: two different tables always hash different input, so
    [abc.table] and [ab.ctable] collide no more than unrelated names do. *)
Theorem table_oid_input_injective s1 t1 s2 t2 :
  valid_utf8 s1 = true -> valid_utf8 s2 = true ->
  (forall s t, table_oid s t
     = BASE_TABLE_OID + djb2_bytes 5381 (s ++ separator ++ t) mod (i32_max - BASE_TABLE_OID))%Z
  /\ (s1 ++ separator ++ t1 = s2 ++ separator ++ t2 -> s1 = s2 /\ t1 = t2).
Proof.
  intros H1 H2. split.
  - intros s t. unfold table_oid, djb2_oid. simpl djb2_parts. by rewrite djb2_bytes_app.
  - unfold separator. simpl. apply split_at_byte; by apply no_ff.
Qed.

Lemma table_oid_input_injective_witness :
  (forall s t, table_oid s t
     = BASE_TABLE_OID + djb2_bytes 5381 (s ++ separator ++ t) mod (i32_max - BASE_TABLE_OID))%Z
  /\ ("abc" ++ separator ++ "table" = "ab" ++ separator ++ "ctable" -> "abc" = "ab" /\ "table" = "ctable").
Proof. exact (table_oid_input_injective "abc" "table" "ab" "ctable" eq_refl eq_refl). Defined.

(** [pg_attribute] and [pg_class] agree: a column's [attrelid] is the [oid] of
    the table whose schema and name Trino reports for it, also where Trino
    leaves them out. *)
Theorem attrelid_is_table_oid `{UnicodeCase} `{TypeOids} table_values column_values :
  table_values !! 0%nat = column_values !! 0%nat -> table_values !! 1%nat = column_values !! 1%nat ->
  head (pg_attribute_row column_values) = head (pg_class_row table_values).
Proof. intros E0 E1. unfold pg_attribute_row, pg_class_row, json_str. simpl head. by rewrite E0, E1. Qed.

Lemma attrelid_is_table_oid_witness :
  head (@pg_attribute_row ascii_only_case {| type_oid _ := 0%Z |}
          [Str "sales"; Str "orders"; Str "id"; Null; Str "NO"; Str "bigint"])
  = head (@pg_class_row ascii_only_case [Str "sales"; Str "orders"; Str "VIEW"]).
Proof.
  exact (@attrelid_is_table_oid ascii_only_case {| type_oid _ := 0%Z |}
           [Str "sales"; Str "orders"; Str "VIEW"]
           [Str "sales"; Str "orders"; Str "id"; Null; Str "NO"; Str "bigint"] eq_refl eq_refl).
Defined.

(** ** The type table *)

(** The object ids of PostgreSQL's built-in types. *)
Definition documented_oid (t : PgType) : Z :=
  match t with
  | BOOL => 16 | BYTEA => 17 | NAME => 19 | INT8 => 20 | INT2 => 21 | INT4 => 23 | TEXT => 25
  | FLOAT4 => 700 | FLOAT8 => 701 | UNKNOWN => 705 | INET => 869
  | BOOL_ARRAY => 1000 | BYTEA_ARRAY => 1001 | INT2_ARRAY => 1005 | INT4_ARRAY => 1007
  | TEXT_ARRAY => 1009 | BPCHAR_ARRAY => 1014 | VARCHAR_ARRAY => 1015 | INT8_ARRAY => 1016
  | FLOAT4_ARRAY => 1021 | FLOAT8_ARRAY => 1022 | INET_ARRAY => 1041 | BPCHAR => 1042
  | VARCHAR => 1043 | DATE => 1082 | TIME => 1083 | TIMESTAMP => 1114 | TIMESTAMP_ARRAY => 1115
  | DATE_ARRAY => 1182 | TIME_ARRAY => 1183 | TIMESTAMPTZ => 1184 | TIMESTAMPTZ_ARRAY => 1185
  | INTERVAL => 1186 | INTERVAL_ARRAY => 1187 | NUMERIC_ARRAY => 1231 | TIMETZ => 1266
  | TIMETZ_ARRAY => 1270 | NUMERIC => 1700 | UUID => 2950 | UUID_ARRAY => 2951 | JSONB => 3802
  | JSONB_ARRAY => 3807
  end%Z.

Definition listed (o : Z) : bool := existsb (fun e => (oid e =? o)%Z) all_types.

Lemma trino_type_shape `{UnicodeCase} s :
  In (trino_type_to_pg s) (base_types_of_map ++ map scalar_to_array base_types_of_map ++ [TEXT_ARRAY])%list.
Proof.
  unfold trino_type_to_pg. generalize (count_byte "(" s). intros n. revert s.
  induction n as [|n IH]; intros s; cbn [trino_type_to_pg_fuel].
  - apply in_app_iff. left. apply base_to_pg_in.
  - destruct (is_array_name _); [|apply in_app_iff; left; apply base_to_pg_in].
    specialize (IH (array_inner (to_lowercase (trim s)))). revert IH.
    generalize (trino_type_to_pg_fuel n (array_inner (to_lowercase (trim s)))). intros t Ht.
    apply in_app_iff. right. apply in_app_iff.
    apply in_app_iff in Ht as [Ht|Ht]; [left; by apply in_map|]. right. left.
    assert (Hall : forallb (fun t => bool_decide (scalar_to_array t = TEXT_ARRAY))
                     (map scalar_to_array base_types_of_map ++ [TEXT_ARRAY]) = true) by reflexivity.
    rewrite forallb_forall in Hall. specialize (Hall _ Ht). apply bool_decide_eq_true in Hall. done.
Qed.

(** C34: Every type id [pg_attribute] can report for a column, whatever its Trino
    type, is listed in the [pg_type] answer, with one exception: the array of
    [time with time zone]. *)
Theorem attribute_types_are_listed `{UnicodeCase} `{TypeOids} data_type :
  (forall t, type_oid t = documented_oid t) ->
  listed (type_oid (trino_type_to_pg data_type)) = negb (bool_decide (trino_type_to_pg data_type = TIMETZ_ARRAY)).
Proof.
  intros Hoid. rewrite Hoid. pose proof (trino_type_shape data_type) as Hin.
  revert Hin. generalize (trino_type_to_pg data_type). intros t Hin.
  assert (Hall : forallb (fun t => Bool.eqb (listed (documented_oid t)) (negb (bool_decide (t = TIMETZ_ARRAY))))
                   (base_types_of_map ++ map scalar_to_array base_types_of_map ++ [TEXT_ARRAY]) = true)
    by (vm_compute; reflexivity).
  rewrite forallb_forall in Hall. specialize (Hall _ Hin). by apply eqb_prop in Hall.
Qed.

Lemma attribute_types_are_listed_witness :
  listed (@type_oid {| type_oid := documented_oid |}
            (@trino_type_to_pg ascii_only_case "array(time(3) with time zone)")) = false.
Proof.
  exact (@attribute_types_are_listed ascii_only_case {| type_oid := documented_oid |}
           "array(time(3) with time zone)" (fun t => eq_refl)).
Defined.

(** ** Responses *)

Section Verbatim.
Context `{Chr : Chrono} `{Dec : Decimals} `{Wir : !Wire}.

(** pgwire writes a string into a text-format column as it is. *)
Definition text_fields_verbatim : Prop :=
  forall fi s, format fi = Text -> field_bytes fi (VText s) = Ok s.

Lemma encode_texts_verbatim schema before row :
  text_fields_verbatim -> Forall (fun fi => format fi = Text) schema ->
  (length before + length row <= length schema)%nat ->
  encode_texts (mk_encoder schema before) row = Ok (mk_encoder schema (before ++ row)%list).
Proof.
  intros Hv Ht. revert before. induction row as [|v row IH]; intros before Hl; simpl.
  { by rewrite app_nil_r. }
  unfold encode_field. cbn [enc_schema enc_fields]. simpl in Hl.
  destruct (lookup_lt_is_Some_2 schema (length before)) as [fi Hfi]; [lia|]. rewrite Hfi.
  rewrite Hv by (by eapply Forall_lookup_1 in Ht). cbn [rbind].
  rewrite IH by (rewrite length_app; simpl; lia). by rewrite <- app_assoc.
Qed.

Lemma build_response_verbatim schema rows :
  text_fields_verbatim -> Forall (fun fi => format fi = Text) schema ->
  Forall (fun row => length row <= length schema)%nat rows ->
  build_response schema rows = Ok [RQuery schema (Ready (map Ok rows))].
Proof.
  intros Hv Ht Hr. unfold build_response.
  enough (build_rows schema rows = Ok (map Ok rows)) as -> by done.
  induction Hr as [|row rows Hl Hr IH]; simpl; [done|].
  rewrite (encode_texts_verbatim schema [] row) by done. cbn [rbind]. by rewrite IH.
Qed.

(** The position of a type in the answer. *)
Fixpoint index_of_oid (o : Z) (l : list TypeEntry) (i : nat) : option nat :=
  match l with
  | [] => None
  | e :: l' => if (oid e =? o)%Z then Some i else index_of_oid o l' (S i)
  end.

(** An array entry names a base type listed before it, and is called after it. *)
Definition array_entry_ok (i : nat) (e : TypeEntry) : bool :=
  negb (String.eqb (typtype e) "a")
  || match index_of_oid (elemtypoid e) all_types 0 with
     | Some j =>
       (j <? i)%nat
       && match all_types !! j with
          | Some b => String.eqb (typtype b) "b" && String.eqb (typname e) ("_" ++ typname b)
          | None => false
          end
     | None => false
     end.

(** C35: The type-loading answer is the 47 entries of the tables, verbatim and
    within the eight advertised columns; object ids and names are unique, and
    every array type comes after the base type it refers to, under that type's
    name with a leading underscore, so that a client loading it in order always
    finds the element type. *)
Theorem type_loading_is_consistent :
  text_fields_verbatim ->
  respond_type_loading
  = Ok [RQuery type_schema (Ready (map (fun e => Ok (entry_to_row e)) all_types))]
  /\ length all_types = 47%nat
  /\ NoDup (map oid all_types) /\ NoDup (map typname all_types)
  /\ forall i e, all_types !! i = Some e -> array_entry_ok i e = true.
Proof.
  intros Hv. split; [|split; [done|split; [|split]]].
  - unfold respond_type_loading. rewrite build_response_verbatim; [by rewrite map_map|done| |].
    + repeat constructor.
    + apply Forall_map. apply Forall_true. intros e. unfold compose. simpl. lia.
  - apply (bool_decide_eq_true_1 (NoDup (map oid all_types))). vm_compute. reflexivity.
  - apply (bool_decide_eq_true_1 (NoDup (map typname all_types))). vm_compute. reflexivity.
  - assert (Hall : forallb (fun i => match all_types !! i with
                                     | Some e => array_entry_ok i e
                                     | None => true
                                     end) (seq 0 47) = true) by (vm_compute; reflexivity).
    rewrite forallb_forall in Hall. intros i e Hi. specialize (Hall i). rewrite Hi in Hall.
    apply Hall, in_seq. apply lookup_lt_Some in Hi. change (length all_types) with 47%nat in Hi. lia.
Qed.

End Verbatim.

Lemma type_loading_is_consistent_witness :
  @respond_type_loading sample_chrono sample_decimals sample_wire
  = Ok [RQuery type_schema (Ready (map (fun e => Ok (entry_to_row e)) all_types))].
Proof.
  exact (proj1 (@type_loading_is_consistent sample_chrono sample_decimals sample_wire
                  (fun fi s _ => eq_refl))).
Defined.
