(* ===== verification/InfoSchema.v ===== *)
(** * INFORMATION_SCHEMA queries (src/src/info_schema.rs)

    Empty answers for tables Trino does not have, and the splice of a type
    mapping into the query Power BI sends for [information_schema.columns]. *)

From S2P Require Import Prelude RustStr RustStrFacts PgWire Response Sql QueryInspection Trino.
From S2P Require Import RustFloat Values Catalog.

Local Open Scope string_scope.

(** ** Definitions *)

Definition MISSING_TABLES : list string :=
  ["referential_constraints"; "table_constraints"; "key_column_usage"; "constraint_column_usage";
   "constraint_table_usage"; "check_constraints"].

Definition empty_query_response (query : ParsedQuery) : PgWireResult (list Response) :=
  let columns := match select_column_names query with
                 | [] => ["column"]
                 | names => names
                 end in
  Ok [RQuery (map (fun name => text_field name VARCHAR) columns) (Ready [])].

Fixpoint first_missing (query : ParsedQuery) (tables : list string)
  : option (PgWireResult (list Response)) :=
  match tables with
  | [] => None
  | table :: rest =>
    if references_table_in_schema query "information_schema" table
    then Some (empty_query_response query)
    else first_missing query rest
  end.

Definition intercept_missing_information_schema (query : ParsedQuery)
  : option (PgWireResult (list Response)) := first_missing query MISSING_TABLES.

Definition type_mapping : string :=
  "CASE WHEN lower(data_type) = 'double' THEN 'double precision' "
  ++ "WHEN lower(data_type) LIKE 'varchar%' THEN 'character varying' "
  ++ "WHEN lower(data_type) LIKE 'char(%' THEN 'character' "
  ++ "WHEN lower(data_type) LIKE '%timestamp%with time zone%' THEN 'timestamp with time zone' "
  ++ "WHEN lower(data_type) LIKE 'timestamp%' THEN 'timestamp without time zone' "
  ++ "WHEN lower(data_type) LIKE '%time%with time zone%' THEN 'time with time zone' "
  ++ "WHEN lower(data_type) LIKE 'time%' THEN 'time without time zone' "
  ++ "WHEN lower(data_type) LIKE 'decimal%' THEN 'numeric' "
  ++ "WHEN lower(data_type) = 'varbinary' THEN 'bytea' "
  ++ "ELSE data_type END".

Definition powerbi_marker : string := "CASE WHEN (DATA_TYPE LIKE '%UNSIGNED%')".
Definition end_marker : string := "END AS DATA_TYPE".

Definition rewrite_info_schema_columns (query : string) (parsed_query : ParsedQuery) : option string :=
  if negb (references_table_in_schema parsed_query "information_schema" "columns") then None
  else
    let upper := to_ascii_uppercase query in
    if contains powerbi_marker upper then
      start ← find powerbi_marker upper;
      end_pos ← find end_marker (sdrop start upper);
      let end_ := (start + end_pos + slen end_marker)%nat in
      Some (stake start query ++ type_mapping ++ " AS DATA_TYPE" ++ sdrop end_ query)
    else None.

(** ** Theorems *)

Lemma upper_is_ascii c : is_ascii (ascii_upper_byte c) = is_ascii c.
Proof. by destruct c as [[] [] [] [] [] [] [] []]. Qed.

Lemma upper_is_cont c : is_cont (ascii_upper_byte c) = is_cont c.
Proof. by destruct c as [[] [] [] [] [] [] [] []]. Qed.

Lemma upper_ascii_only s : ascii_only (to_ascii_uppercase s) = ascii_only s.
Proof.
  unfold to_ascii_uppercase. induction s as [|c s IH]; simpl; [done|].
  by rewrite upper_is_ascii, IH.
Qed.

Lemma upper_cont_head s : cont_head (to_ascii_uppercase s) = cont_head s.
Proof. destruct s; [done|]. apply upper_is_cont. Qed.

(** A match in the upper-cased text is a match of the same bytes, in another
    case, in the text. *)
Lemma find_upper p q i :
  find p (to_ascii_uppercase q) = Some i ->
  exists m, q = stake i q ++ m ++ sdrop (i + slen p) q /\ to_ascii_uppercase m = p /\ slen m = slen p.
Proof.
  intros Hf. exists (stake (slen p) (sdrop i q)).
  assert (Em : to_ascii_uppercase (stake (slen p) (sdrop i q)) = p).
  { pose proof (find_Some _ _ _ Hf) as E. pose proof (find_bound _ _ _ Hf) as Hb.
    unfold to_ascii_uppercase in *. rewrite smap_stake, smap_sdrop. rewrite E.
    replace i with (slen (stake i (smap ascii_upper_byte q))) at 1 by (rewrite slen_stake; lia).
    by rewrite sdrop_app, stake_app. }
  split; [|split; [done|]].
  - rewrite <- sdrop_sdrop, stake_sdrop. by rewrite stake_sdrop.
  - rewrite <- Em at 2. symmetry. apply slen_smap.
Qed.

(** C31: The rewrite of an [information_schema.columns] query replaces exactly one
    span, which starts at the Power BI marker and ends with the end marker in
    any case; the text before and after is untouched, and the cuts fall between
    characters, so slicing the query never panics. *)
Theorem info_schema_splice query pq out :
  valid_utf8 query = true -> rewrite_info_schema_columns query pq = Some out ->
  exists before span after,
    query = before ++ span ++ after
    /\ out = before ++ type_mapping ++ " AS DATA_TYPE" ++ after
    /\ starts_with powerbi_marker (to_ascii_uppercase (span ++ after)) = true
    /\ (exists x e, span = x ++ e /\ to_ascii_uppercase e = end_marker)
    /\ valid_utf8 before = true /\ valid_utf8 after = true.
Proof.
  intros Hv. unfold rewrite_info_schema_columns.
  destruct (negb _); [done|]. destruct (contains _ _); [|done].
  destruct (find powerbi_marker _) as [start|] eqn:Hs; [|done]. cbn [mbind option_bind].
  destruct (find end_marker _) as [k|] eqn:He; [|done]. cbn [mbind option_bind]. cbv zeta.
  intros Hout. apply (inj Some) in Hout. subst out.
  destruct (find_upper _ _ _ Hs) as (m & Eq & Em & Hm).
  set (before := stake start query) in *. set (tail := m ++ sdrop (start + slen powerbi_marker) query) in *.
  assert (Et : sdrop start query = tail).
  { rewrite Eq at 1. replace start with (slen before) at 1; [apply sdrop_app|].
    unfold before. rewrite slen_stake. pose proof (find_bound _ _ _ Hs) as Hb.
    unfold to_ascii_uppercase in Hb. rewrite slen_smap in Hb. lia. }
  unfold to_ascii_uppercase in He. rewrite <- smap_sdrop, Et in He. fold (to_ascii_uppercase tail) in He.
  destruct (find_upper _ _ _ He) as (e & Eq' & Ee & Hel).
  set (x := stake k tail) in *. set (after := sdrop (k + slen end_marker) tail) in *.
  assert (Ea : sdrop (start + k + slen end_marker) query = after).
  { unfold after. rewrite <- Et, sdrop_sdrop. f_equal. lia. }
  rewrite Ea. clear Ea.
  assert (Hchead : cont_head tail = false).
  { rewrite <- upper_cont_head. unfold tail, to_ascii_uppercase. rewrite smap_app.
    fold (to_ascii_uppercase m). by rewrite Em. }
  rewrite Eq in Hv. apply valid_app_inv in Hv as [Hvb Hvt]; [|done].
  exists before, (x ++ e), after. split; [by rewrite sapp_assoc, <- Eq'|]. split; [done|].
  split; [|split; [by exists x, e|split; [done|]]].
  - rewrite sapp_assoc, <- Eq'. unfold tail, to_ascii_uppercase. rewrite smap_app.
    fold (to_ascii_uppercase m). rewrite Em. apply prefix_app.
  - rewrite Eq' in Hvt. apply valid_app_inv in Hvt as [_ Hvt].
    + apply valid_ascii_tail in Hvt; [done|]. rewrite <- upper_ascii_only, Ee. done.
    + rewrite <- upper_cont_head. unfold to_ascii_uppercase. rewrite smap_app.
      fold (to_ascii_uppercase e). by rewrite Ee.
Qed.

(** A statement tree that refers to [information_schema.columns]. *)
Definition columns_query : ParsedQuery :=
  mk_parsed_query (Some [Other "stmt"
    [Relation [NameIdent (ident_new "INFORMATION_SCHEMA"); NameIdent (ident_new "columns")]]]).

Lemma info_schema_splice_witness :
  exists before span after,
    "select CASE when (data_type like '%unsigned%') then 1 end as data_type from t"
    = before ++ span ++ after
    /\ "select " ++ type_mapping ++ " AS DATA_TYPE" ++ " from t"
       = before ++ type_mapping ++ " AS DATA_TYPE" ++ after
    /\ starts_with powerbi_marker (to_ascii_uppercase (span ++ after)) = true
    /\ (exists x e, span = x ++ e /\ to_ascii_uppercase e = end_marker)
    /\ valid_utf8 before = true /\ valid_utf8 after = true.
Proof.
  exact (info_schema_splice
           "select CASE when (data_type like '%unsigned%') then 1 end as data_type from t"
           columns_query
           ("select " ++ type_mapping ++ " AS DATA_TYPE" ++ " from t") eq_refl eq_refl).
Defined.
