(* ===== verification/Intercept.v ===== *)
(** * Queries answered without Trino (src/src/intercept.rs)

    Session commands, [SHOW], server-function probes, the TLS probe and the
    catalog tables; [try_intercept] returns [None] for what goes to Trino. *)

From S2P Require Import Prelude RustStr RustStrFacts PgWire Response Trino RustFloat Values Sql.
From S2P Require Import QueryInspection Catalog InfoSchema Config World Session Startup.

Local Open Scope string_scope.
Local Open Scope rust_scope.

(** ** Definitions *)

Section Intercept.
Context `{Case : UnicodeCase} `{Chr : Chrono} `{Dec : Decimals} `{Wir : !Wire}.

Definition single_text_response (column_name value : string) : PgWireResult (list Response) :=
  let fields := [text_field column_name VARCHAR] in
  let? encoder := encode_field (mk_encoder fields []) (VText (Some value)) in
  Ok [RQuery fields (Ready [Ok (enc_fields encoder)])].

Definition single_bool_response (column_name : string) (value : bool) : PgWireResult (list Response) :=
  let fields := [text_field column_name BOOL] in
  let? encoder := encode_field (mk_encoder fields []) (VBool value) in
  Ok [RQuery fields (Ready [Ok (enc_fields encoder)])].

(** [SERVER_PARAMS.iter().find(|(k, _)| k.eq_ignore_ascii_case(param))] *)
Definition find_param (param : string) : option string :=
  first_some (fun '(k, v) => if eq_ignore_ascii_case k param then Some v else None) SERVER_PARAMS.

Definition intercept_show (trimmed : string) : PgWireResult (list Response) :=
  let param := to_lowercase (trim (sdrop 4 trimmed)) in
  single_text_response param (default "on" (find_param param)).

Definition version_text : string :=
  "PostgreSQL 16.6 on x86_64-pc-linux-gnu, compiled by gcc 12.2.0, 64-bit".

Definition intercept_server_functions (query : ParsedQuery) (catalog schema : string)
  : option (PgWireResult (list Response)) :=
  if negb (is_bare_scalar_select query) then None
  else if calls_function query "version" then Some (single_text_response "version" version_text)
  else if calls_function query "current_database"
  then Some (single_text_response "current_database" catalog)
  else if calls_function_or_keyword query "current_schema"
  then Some (single_text_response "current_schema" schema)
  else if calls_function query "pg_is_in_recovery"
  then Some (single_text_response "pg_is_in_recovery" "false")
  else
    match function_string_arg query "current_setting" with
    | Some setting =>
      if String.eqb setting "server_version_num" then Some (single_text_response "current_setting" "160006")
      else if String.eqb setting "server_version" then Some (single_text_response "current_setting" "16.6")
      else None
    | None => None
    end.

(** The tag of a transaction command, from the upper-cased text. *)
Definition txn_tag (upper : string) : option string :=
  if String.eqb upper "BEGIN" || starts_with "BEGIN " upper || starts_with "START TRANSACTION" upper
  then Some "BEGIN"
  else if String.eqb upper "COMMIT" || String.eqb upper "END" then Some "COMMIT"
  else if String.eqb upper "ROLLBACK" || starts_with "ROLLBACK " upper then Some "ROLLBACK"
  else None.

Definition try_intercept (query : string) (parsed_query : ParsedQuery) (catalog schema : string)
    (client_is_secure : bool) : option (PgWireResult (list Response)) :=
  let trimmed := trim query in
  if String.eqb trimmed "" then None
  else
    let trimmed := trim (trim_end_matches ";" trimmed) in
    let upper := to_uppercase trimmed in
    if starts_with "SET " upper then Some (Ok [RExecution "SET"])
    else match txn_tag upper with
         | Some tag => Some (Ok [RExecution tag])
         | None =>
           if starts_with "DISCARD " upper || starts_with "DEALLOCATE " upper
              || String.eqb upper "CLOSE ALL"
           then Some (Ok [RExecution "OK"])
           else if starts_with "SHOW " upper then Some (intercept_show trimmed)
           else match intercept_server_functions parsed_query catalog schema with
                | Some resp => Some resp
                | None =>
                  if references_table parsed_query "pg_stat_ssl"
                  then Some (single_bool_response "ssl" client_is_secure)
                  else match handle_catalog_query parsed_query with
                       | Some resp => Some resp
                       | None =>
                         if references_table_in_schema parsed_query "information_schema" "character_sets"
                         then Some (single_text_response "character_set_name" "UTF8")
                         else intercept_missing_information_schema parsed_query
                       end
                end
         end.

End Intercept.
