(* ===== verification/InterceptFacts.v ===== *)
(** * Theorems on interception (src/src/intercept.rs) *)

From S2P Require Import Prelude RustStr RustStrFacts PgWire Response Trino RustFloat Values.
From S2P Require Import ValuesFacts Sql SqlText QueryInspection Catalog CatalogFacts InfoSchema Config.
From S2P Require Import World Session Startup Intercept.

Local Open Scope string_scope.
Local Open Scope rust_scope.

(** The text the command prefixes are matched on. *)
Definition command_text (query : string) : string := trim (trim_end_matches ";" (trim query)).

Definition is_session_command (upper : string) : bool :=
  starts_with "SET " upper
  || match txn_tag upper with Some _ => true | None => false end
  || (starts_with "DISCARD " upper || starts_with "DEALLOCATE " upper || String.eqb upper "CLOSE ALL")
  || starts_with "SHOW " upper.

(** The table names the gateway answers for, in any schema, and those it
    answers for unqualified or in [information_schema]. *)
Definition catalog_tables : list string :=
  ["pg_stat_ssl"; "pg_attribute"; "pg_type"; "pg_enum"; "pg_range"; "pg_namespace"; "pg_class"].
Definition info_tables : list string := "character_sets" :: MISSING_TABLES.

Definition ordinary_relation (parts : ObjectName) : bool :=
  forallb (fun n => negb (last_ident_eq parts n)) catalog_tables
  && forallb (fun n => negb (relation_in_schema "information_schema" n parts)) info_tables.

Definition ordinary_relations (pq : ParsedQuery) : bool :=
  match parsed pq with
  | None => true
  | Some stmts => forallb ordinary_relation (visit_relations stmts)
  end.

Lemma ordinary_not_catalog pq n :
  ordinary_relations pq = true -> In n catalog_tables -> references_table pq n = false.
Proof.
  unfold ordinary_relations, references_table. destruct (parsed pq) as [stmts|]; [|done].
  intros H Hn. apply not_true_iff_false. intros [parts [Hp Hl]]%existsb_exists.
  rewrite forallb_forall in H. specialize (H _ Hp). unfold ordinary_relation in H. bools.
  match goal with H : forallb _ catalog_tables = true |- _ => rewrite forallb_forall in H; specialize (H _ Hn) end.
  by bools; congruence.
Qed.

Lemma ordinary_not_info pq n :
  ordinary_relations pq = true -> In n info_tables ->
  references_table_in_schema pq "information_schema" n = false.
Proof.
  unfold ordinary_relations, references_table_in_schema. destruct (parsed pq) as [stmts|]; [|done].
  intros H Hn. apply not_true_iff_false. intros [parts [Hp Hl]]%existsb_exists.
  rewrite forallb_forall in H. specialize (H _ Hp). unfold ordinary_relation in H. bools.
  match goal with H : forallb _ info_tables = true |- _ => rewrite forallb_forall in H; specialize (H _ Hn) end.
  by bools; congruence.
Qed.

Lemma first_missing_none pq tables :
  (forall n, In n tables -> references_table_in_schema pq "information_schema" n = false) ->
  first_missing pq tables = None.
Proof.
  induction tables as [|t tables IH]; intros H; simpl; [done|].
  rewrite H by (by left). apply IH. intros n Hn. apply H. by right.
Qed.

Section Facts.
Context `{Case : UnicodeCase} `{Chr : Chrono} `{Dec : Decimals} `{Wir : !Wire} `{Oids : TypeOids}.

Lemma ordinary_not_diverted {Srv} `{Api : TrinoApi Srv} query pq catalog schema secure client :
  is_session_command (to_uppercase (command_text query)) = false ->
  is_bare_scalar_select pq = false -> ordinary_relations pq = true ->
  try_intercept query pq catalog schema secure = None
  /\ handle_dynamic_catalog_query pq client = None.
Proof.
  intros Hc Hb Ho.
  assert (Hr : forall n, In n catalog_tables -> references_table pq n = false)
    by (intros; by apply ordinary_not_catalog).
  assert (Hi : forall n, In n info_tables -> references_table_in_schema pq "information_schema" n = false)
    by (intros; by apply ordinary_not_info).
  split.
  - unfold try_intercept. destruct (String.eqb _ ""); [done|]. fold (command_text query).
    unfold is_session_command in Hc.
    destruct (starts_with "SET " _); [done|]. destruct (txn_tag _); [done|].
    destruct (starts_with "DISCARD " _ || _ || _); [done|]. destruct (starts_with "SHOW " _); [done|].
    unfold intercept_server_functions. rewrite Hb. simpl negb. cbv iota.
    unfold handle_catalog_query. rewrite !Hr by (vm_compute; tauto). simpl andb. cbv iota.
    rewrite Hi by (by left). apply first_missing_none. intros n Hn. apply Hi. by right.
  - unfold handle_dynamic_catalog_query. by rewrite !Hr by (vm_compute; tauto).
Qed.

(** C24: Only the relations a query really refers to divert it from Trino. A query
    that is no session command and no bare scalar probe, and whose relations are
    none of the catalog or missing tables, is answered by Trino, whatever its
    string literals, column names, aliases and function calls are. *)
Theorem ordinary_queries_reach_trino {Srv} `{Api : TrinoApi Srv} query pq catalog schema secure client :
  is_session_command (to_uppercase (command_text query)) = false ->
  is_bare_scalar_select pq = false -> ordinary_relations pq = true ->
  try_intercept query pq catalog schema secure = None
  /\ handle_dynamic_catalog_query pq client = None.
Proof. apply ordinary_not_diverted. Qed.

Lemma to_uppercase_ascii s : ascii_only s = true -> to_uppercase s = to_ascii_uppercase s.
Proof.
  intros Hs. unfold to_uppercase. rewrite split_chars_all_ascii by done. rewrite map_map.
  unfold to_ascii_uppercase. induction s as [|c s IH]; simpl in *; [done|]. bools.
  rewrite H. simpl. by rewrite IH.
Qed.

Lemma ascii_sdrop n s : ascii_only s = true -> ascii_only (sdrop n s) = true.
Proof.
  rewrite <- (stake_sdrop n s) at 1. rewrite ascii_only_app. intros ?. by bools.
Qed.

Lemma ascii_command_text query : ascii_only query = true -> ascii_only (command_text query) = true.
Proof.
  intros H. apply ascii_only_trim. apply ascii_only_trim in H.
  destruct (trim_end_matches_split ";" _ H) as (t & j & E & -> & _).
  rewrite E, ascii_only_app in H. by bools.
Qed.

Lemma show_dispatch query pq catalog schema secure :
  ascii_only query = true -> starts_with "SHOW " (to_ascii_uppercase (command_text query)) = true ->
  try_intercept query pq catalog schema secure = Some (intercept_show (command_text query)).
Proof.
  intros Ha Hs. pose proof (ascii_command_text _ Ha) as Hac. unfold try_intercept.
  destruct (String.eqb_spec (trim query) "") as [E|_].
  { unfold command_text in Hs. rewrite E in Hs. done. }
  fold (command_text query). rewrite to_uppercase_ascii by done.
  apply prefix_iff in Hs as [r ->].
  assert (starts_with "SHOW " ("SHOW " ++ r) = true) as -> by apply prefix_app. reflexivity.
Qed.

Lemma param_keys_distinct : NoDup (map (fun '(k, _) => to_ascii_lowercase k) SERVER_PARAMS).
Proof. apply (bool_decide_eq_true_1 (NoDup _)). vm_compute. reflexivity. Qed.

Lemma find_param_spec param k v :
  In (k, v) SERVER_PARAMS -> to_ascii_lowercase k = to_ascii_lowercase param -> find_param param = Some v.
Proof.
  unfold find_param. pose proof param_keys_distinct as Hd. revert Hd.
  induction SERVER_PARAMS as [|[k' v'] l IH]; intros Hd Hin E; [done|]. cbn [first_some].
  cbn [map] in Hd. apply NoDup_cons in Hd as [Hn Hd]. unfold eq_ignore_ascii_case at 1.
  destruct Hin as [[= -> ->]|Hin].
  - rewrite E, String.eqb_refl. done.
  - destruct (String.eqb_spec (to_ascii_lowercase k') (to_ascii_lowercase param)) as [E'|]; [|by apply IH].
    exfalso. apply Hn. rewrite E', <- E. apply list_elem_of_In, in_map_iff. by exists (k, v).
Qed.

Lemma find_param_none param :
  (forall k v, In (k, v) SERVER_PARAMS -> to_ascii_lowercase k <> to_ascii_lowercase param) ->
  find_param param = None.
Proof.
  unfold find_param. induction SERVER_PARAMS as [|[k v] l IH]; intros H; [done|]. cbn [first_some].
  unfold eq_ignore_ascii_case at 1.
  destruct (String.eqb_spec (to_ascii_lowercase k) (to_ascii_lowercase param)) as [E|].
  - exfalso. by apply (H k v); [left|].
  - apply IH. intros k' v' Hin. apply (H k' v'). by right.
Qed.

(** The parameter a [SHOW] command names, in lower case. *)
Definition shown_parameter (query : string) : string :=
  to_ascii_lowercase (trim (sdrop 4 (command_text query))).

(** C40: [SHOW] is consistent with the startup message: for a parameter that was
    announced to the client in [ParameterStatus], in any case and with or
    without a terminator, it answers the announced value; for any other it
    answers [on]. *)
Theorem show_agrees_with_startup query pq catalog schema secure :
  ascii_only query = true -> starts_with "SHOW " (to_ascii_uppercase (command_text query)) = true ->
  exists params value,
    server_parameters = Some params
    /\ try_intercept query pq catalog schema secure = Some (single_text_response (shown_parameter query) value)
    /\ (forall k v, params !! k = Some v -> to_ascii_lowercase k = shown_parameter query -> value = v)
    /\ ((forall k v, params !! k = Some v -> to_ascii_lowercase k <> shown_parameter query) -> value = "on").
Proof.
  intros Ha Hs. rewrite (show_dispatch _ _ _ _ _ Ha Hs). unfold intercept_show.
  assert (Hd : ascii_only (trim (sdrop 4 (command_text query))) = true)
    by (by apply ascii_only_trim, ascii_sdrop, ascii_command_text).
  rewrite to_lowercase_ascii by done. fold (shown_parameter query).
  assert (Hidem : to_ascii_lowercase (shown_parameter query) = shown_parameter query)
    by apply ascii_lower_idem.
  assert (Hlk : forall k v, (list_to_map SERVER_PARAMS : gmap string string) !! k = Some v <-> In (k, v) SERVER_PARAMS).
  { intros k v. rewrite <- list_elem_of_In. symmetry. apply elem_of_list_to_map.
    apply (bool_decide_eq_true_1 (NoDup SERVER_PARAMS.*1)). vm_compute. reflexivity. }
  eexists _, _. split; [done|]. split; [done|]. split.
  - intros k v Hk E. apply Hlk in Hk. rewrite (find_param_spec _ k v); [done|done|by rewrite Hidem].
  - intros Hn. rewrite find_param_none; [done|]. intros k v Hin. rewrite Hidem. apply (Hn k v). by apply Hlk.
Qed.

End Facts.

(** ** Concrete inputs *)

(** [SELECT 'pg_type' FROM pg_types_seen]: the name only as a literal. *)
Definition literal_query : ParsedQuery :=
  mk_parsed_query (Some [StatementQuery (Query None
    (Select [UnnamedExpr (ValueExpr (SingleQuotedString "pg_type"))]
       [Relation [NameIdent (ident_new "pg_types_seen")]] None (GroupByExpressions [] []) None [] [] [] None [])
    None None None [])]).

Definition silent_api : TrinoApi unit :=
  {| client_build _ := Ok tt;
     trino_get s _ _ := (Err "down", s);
     trino_get_next s _ _ := (Err "down", s);
     trino_get_all s _ _ := (Err "down", s);
     trino_cancel s _ _ := (Err "down", s) |}.

Definition any_client : TrinoClient := mk_trino_client "u" "h" 8080%Z "c" "s" true false None false.

Lemma ordinary_queries_reach_trino_witness :
  @try_intercept ascii_only_case sample_chrono sample_decimals sample_wire
    "SELECT 'pg_type' FROM pg_types_seen" literal_query "c" "s" true = None
  /\ @handle_dynamic_catalog_query ascii_only_case sample_chrono sample_decimals sample_wire
       {| type_oid := documented_oid |} unit silent_api literal_query any_client = None.
Proof.
  exact (@ordinary_queries_reach_trino ascii_only_case sample_chrono sample_decimals sample_wire
           {| type_oid := documented_oid |} unit silent_api
           "SELECT 'pg_type' FROM pg_types_seen" literal_query "c" "s" true any_client
           eq_refl eq_refl eq_refl).
Defined.

Lemma show_agrees_with_startup_witness :
  exists params value,
    server_parameters = Some params
    /\ @try_intercept ascii_only_case sample_chrono sample_decimals sample_wire
         " show timezone; " (mk_parsed_query None) "c" "s" true
       = Some (@single_text_response sample_chrono sample_decimals sample_wire "timezone" value)
    /\ (forall k v, params !! k = Some v -> to_ascii_lowercase k = "timezone" -> value = v)
    /\ ((forall k v, params !! k = Some v -> to_ascii_lowercase k <> "timezone") -> value = "on").
Proof.
  exact (@show_agrees_with_startup ascii_only_case sample_chrono sample_decimals sample_wire
           " show timezone; " (mk_parsed_query None) "c" "s" true eq_refl eq_refl).
Defined.

(** The transaction commands are not treated alike: [ROLLBACK WORK] and
    [BEGIN WORK] are acknowledged locally, while [COMMIT WORK] and
    [END TRANSACTION] are forwarded to Trino. *)
Theorem commit_work_is_forwarded `{Case : UnicodeCase} `{Chr : Chrono} `{Dec : Decimals} `{Wir : !Wire}
    catalog schema secure :
  try_intercept "COMMIT WORK" (mk_parsed_query None) catalog schema secure = None
  /\ try_intercept "END TRANSACTION" (mk_parsed_query None) catalog schema secure = None
  /\ try_intercept "ROLLBACK WORK" (mk_parsed_query None) catalog schema secure = Some (Ok [RExecution "ROLLBACK"])
  /\ try_intercept "BEGIN WORK" (mk_parsed_query None) catalog schema secure = Some (Ok [RExecution "BEGIN"]).
Proof. repeat split; reflexivity. Qed.

(** A query that joins [pg_class] with [pg_namespace] gets the static namespace
    table, not its own relation. *)
Lemma namespace_join_hides_class `{Chr : Chrono} `{Dec : Decimals} `{Wir : !Wire} pq :
  references_table pq "pg_class" = true -> references_table pq "pg_namespace" = true ->
  references_table pq "pg_attribute" = false -> references_table pq "pg_enum" = false ->
  references_table pq "pg_type" = false -> references_table pq "pg_range" = false ->
  handle_catalog_query pq = Some respond_pg_namespace.
Proof. intros _ H1 H2 H3 H4 H5. unfold handle_catalog_query. by rewrite H2, H3, H4, H5, H1. Qed.

(** The probes are recognised by a call anywhere in the single projection, not by
    the projection being the call: the length of the version string, or a schema
    in capitals, is answered with the plain version and the plain schema, and an
    alias does not name the column. *)
Theorem probe_inside_expression_is_misanswered `{Case : UnicodeCase} `{Chr : Chrono} `{Dec : Decimals}
    `{Wir : !Wire} catalog schema :
  let answer sql := intercept_server_functions (@parsed_query_new sql_text sql) catalog schema in
  answer "SELECT length(version())" = Some (single_text_response "version" version_text)
  /\ answer "SELECT upper(current_schema)" = Some (single_text_response "current_schema" schema)
  /\ answer "SELECT version() AS v" = Some (single_text_response "version" version_text).
Proof. repeat split; vm_compute; reflexivity. Qed.
