(* ===== verification/Rewrite.v ===== *)
(** * Rewriting PostgreSQL SQL for Trino (src/src/rewrite/)

    Four passes over the syntax tree, each a visitor that changes one kind of
    node: casts, [ILIKE], function names, and [LIMIT ... OFFSET]. *)

From S2P Require Import Prelude RustStr RustStrFacts Trino RustFloat Sql SqlText.

Local Open Scope string_scope.

(** ** Definitions *)

(** [normalize_data_type] (casts.rs). *)
Definition normalize_data_type (dt : DataType) : DataType :=
  match dt with
  | DtText => DtVarchar None
  | DtInt2 _ => DtSmallInt None
  | DtInt4 _ => DtInteger None
  | DtInt8 _ => DtBigInt None
  | DtFloat4 => DtReal
  | DtFloat8 => DtDoublePrecision
  | DtBool => DtBoolean
  | DtBytea => DtVarbinary None
  | _ => dt
  end.

(** [CastRewriter::post_visit_expr] (casts.rs). *)
Definition cast_post_visit (expr : Node) : Node :=
  match expr with
  | Cast kind e data_type fmt =>
    let kind := if decide (kind = DoubleColon) then PlainCast else kind in
    Cast kind e (normalize_data_type data_type) fmt
  | _ => expr
  end.

(** [make_lower_call] (predicates.rs). *)
Definition make_lower_call (inner : Node) : Node :=
  Function [NameIdent (ident_new "lower")] false ArgsNone
    (ArgsList None [ArgUnnamed (ArgExpr inner)] []) [].

(** [ILikeRewriter::post_visit_expr] (predicates.rs). *)
Definition ilike_post_visit (expr : Node) : Node :=
  match expr with
  | ILike negated _ inner_expr pattern escape_char =>
    Like negated false (make_lower_call inner_expr) (make_lower_call pattern) escape_char
  | _ => expr
  end.

(** [match &func.args { FunctionArguments::List(list) => list.args.len(), _ => 0 }] *)
Definition arg_count (args : Node) : nat :=
  match args with
  | ArgsList _ list _ => length list
  | _ => 0%nat
  end.

(** The Trino name of a function, from its lower-cased name (functions.rs). *)
Definition new_function_name (lower : string) (arg_count : nat) : option string :=
  if String.eqb lower "string_agg" then Some "listagg"
  else if String.eqb lower "log" && (arg_count =? 1)%nat then Some "log10"
  else if String.eqb lower "trunc" then Some "truncate"
  else None.

(** [FunctionRenamer::post_visit_expr] (functions.rs). *)
Definition function_post_visit `{UnicodeCase} (expr : Node) : Node :=
  match expr with
  | Function [NameIdent ident] odbc parameters args rest =>
    match new_function_name (to_lowercase (ident_value ident)) (arg_count args) with
    | Some name => Function [NameIdent (mk_ident name (quote_style ident))] odbc parameters args rest
    | None => expr
    end
  | _ => expr
  end.

(** [is_zero_literal] (limit_offset.rs). *)
Definition is_zero_literal (expr : Node) : bool :=
  match expr with
  | ValueExpr (NumberLit n _) =>
    match parse_f64 n with
    | Some (S754_zero _) => true
    | _ => false
    end
  | _ => false
  end.

(** [LimitOffsetRewriter::post_visit_query] (limit_offset.rs). *)
Definition limit_post_visit (query : Node) : Node :=
  match query with
  | Query with_ body order_by (Some (LimitOffset (Some limit) (Some offset) [])) None rest =>
    if is_zero_literal limit
    then Query with_ body order_by (Some (LimitOffset (Some limit) None [])) None rest
    else Query with_ body order_by (Some (LimitOffset None (Some offset) []))
           (Some (Fetch false false (Some limit))) rest
  | _ => query
  end.

(** The four visitors, in the order [rewrite_sql] runs them. *)
Definition rewrite_statement `{UnicodeCase} (stmt : Node) : Node :=
  walk limit_post_visit (walk function_post_visit (walk ilike_post_visit (walk cast_post_visit stmt))).

(** [rewrite_sql] (rewrite/mod.rs). *)
Definition rewrite_sql `{UnicodeCase} `{SqlParser} (sql : string) : string :=
  match parse_sql sql with
  | None => sql
  | Some [stmt] => to_string (rewrite_statement stmt)
  | Some _ => sql
  end.

(** ** What is left to rewrite *)

(** Each predicate holds of the nodes its pass has nothing to do on. *)
Definition normal_type (dt : DataType) : bool :=
  match dt with
  | DtText | DtInt2 _ | DtInt4 _ | DtInt8 _ | DtFloat4 | DtFloat8 | DtBool | DtBytea => false
  | _ => true
  end.

Definition cast_ok (n : Node) : bool :=
  match n with
  | Cast k _ dt _ => negb (bool_decide (k = DoubleColon)) && normal_type dt
  | _ => true
  end.

Definition ilike_ok (n : Node) : bool :=
  match n with
  | ILike _ _ _ _ _ => false
  | _ => true
  end.

(** The functions Trino knows under another name: [string_agg], [trunc], and the
    logarithm to base ten. *)
Definition postgres_function (name : string) (count : nat) : bool :=
  existsb (String.eqb name) ["string_agg"; "trunc"] || (String.eqb name "log" && (count =? 1)%nat).

Definition function_ok `{UnicodeCase} (n : Node) : bool :=
  match n with
  | Function [NameIdent id] _ _ args _ => negb (postgres_function (to_lowercase (ident_value id)) (arg_count args))
  | _ => true
  end.

Definition limit_ok (n : Node) : bool :=
  match n with
  | Query _ _ _ (Some (LimitOffset (Some _) (Some _) [])) None _ => false
  | _ => true
  end.

Definition trino_dialect `{UnicodeCase} (n : Node) : bool :=
  cast_ok n && ilike_ok n && function_ok n && limit_ok n.

(** ** Passes *)

(** A pass that keeps a property of nodes. *)
Lemma walk_preserves (f : Node -> Node) (Q : Node -> Prop) :
  (forall n, Q n -> Q (map_children (walk f) n)) ->
  (forall n, Q n -> (forall c x, In c (children n) -> In x (nodes c) -> Q x) ->
     forall x, In x (nodes (f n)) -> Q x) ->
  forall n, (forall x, In x (nodes n) -> Q x) -> forall x, In x (nodes (walk f n)) -> Q x.
Proof.
  intros Hs Hf. induction n as [n IH] using node_ind. intros Hn x. rewrite walk_unfold. apply Hf.
  - apply Hs, Hn. apply in_nodes. by left.
  - intros c y Hc Hy. rewrite children_map in Hc. apply in_map_iff in Hc as (d & <- & Hd).
    rewrite List.Forall_forall in IH. apply (IH d); [done| |done].
    intros z Hz. apply Hn. apply in_nodes. eauto.
Qed.

Lemma map_children_id f n : (forall c, In c (children n) -> f c = c) -> map_children f n = n.
Proof.
  assert (Hl : forall l, (forall c, In c l -> f c = c) -> map f l = l).
  { induction l as [|a l IHl]; intros Hc; simpl; [done|]. rewrite Hc by (by left).
    rewrite IHl; [done|]. intros c Hin. apply Hc. by right. }
  assert (Ho : forall o, (forall c, In c (opt_list o) -> f c = c) -> option_map f o = o).
  { intros [a|] Hc; simpl; [|done]. by rewrite Hc by (by left). }
  intros Hc. destruct n; simpl in *; try done; f_equal;
    try (apply Hc; rewrite ?in_app_iff; simpl; rewrite ?in_app_iff; tauto);
    try (apply Hl; intros; apply Hc; rewrite ?in_app_iff; simpl; rewrite ?in_app_iff; tauto);
    try (apply Ho; intros; apply Hc; rewrite ?in_app_iff; simpl; rewrite ?in_app_iff; tauto).
Qed.

Lemma walk_id (f : Node -> Node) n : (forall x, In x (nodes n) -> f x = x) -> walk f n = n.
Proof.
  induction n as [n IH] using node_ind. intros Hf. rewrite walk_unfold.
  rewrite map_children_id; [apply Hf, in_nodes; by left|].
  intros c Hc. rewrite List.Forall_forall in IH. apply (IH c Hc). intros x Hx. apply Hf, in_nodes. eauto.
Qed.

(** A property of all nodes of a tree, from its root and its children. *)
Lemma all_nodes (Q : Node -> Prop) n :
  Q n -> (forall c x, In c (children n) -> In x (nodes c) -> Q x) -> forall x, In x (nodes n) -> Q x.
Proof. intros Hn Hc x [->|(c & Hin & Hx)]%in_nodes; eauto. Qed.

(** The nodes a [lower(...)] call adds around its argument. *)
Definition lower_parts (e : Node) : list Node :=
  [make_lower_call e; ArgsNone; ArgsList None [ArgUnnamed (ArgExpr e)] []; ArgUnnamed (ArgExpr e); ArgExpr e].

Lemma in_lower_call x e : In x (nodes (make_lower_call e)) -> In x (lower_parts e) \/ In x (nodes e).
Proof.
  unfold make_lower_call, lower_parts. simpl. rewrite !app_nil_r. intuition.
Qed.

Section Passes.
Context `{Case : UnicodeCase}.

(** The [ILIKE] pass keeps a property that the nodes it builds have. *)
Lemma ilike_keeps (Q : Node -> Prop) n :
  Q (ilike_post_visit n) -> (forall e x, In x (lower_parts e) -> Q x) ->
  (forall c x, In c (children n) -> In x (nodes c) -> Q x) ->
  forall x, In x (nodes (ilike_post_visit n)) -> Q x.
Proof.
  intros Hr Hp Hc. apply all_nodes; [done|]. intros c x Hin Hx.
  destruct n as [| | | |neg any e p esc| | | | | | | | | | | | | | | | | | | | | | | |];
    try by apply (Hc c x).
  destruct Hin as [<-|[<-|[]]]; apply in_lower_call in Hx as [Hx|Hx]; eauto.
  - apply (Hc e x); [by left|done].
  - apply (Hc p x); [by right; left|done].
Qed.

Lemma children_function_post n : children (function_post_visit n) = children n.
Proof.
  destruct n as [| | | | | |name ? ? args ?| | | | | | | | | | | | | | | | | | | | | |]; try done. simpl.
  destruct name as [|[id|] [|]]; try done. by destruct (new_function_name _ _).
Qed.

(** The nodes the paging pass builds are made of nodes below the query. *)
Lemma limit_keeps (Q : Node -> Prop) n :
  Q (limit_post_visit n) ->
  (forall l o by_, Q (LimitOffset l o by_)) -> (forall q, Q (Fetch false false q)) ->
  (forall c x, In c (children n) -> In x (nodes c) -> Q x) ->
  forall x, In x (nodes (limit_post_visit n)) -> Q x.
Proof.
  intros Hr Hl Hf Hc. apply all_nodes; [done|]. intros c x Hin Hx.
  destruct n as [| | | | | | | | | | | | | | | |w b ob lc ft rest| | | | | | | | | | | |]; try by apply (Hc c x).
  destruct lc as [[| | | | | | | | | | | | | | | | |[limit|] [offset|] [|]| | | | | | | | | | |]|], ft;
    try by apply (Hc c x).
  assert (Hlim : forall y, In y (nodes limit) -> Q y).
  { intros y Hy. apply (Hc (LimitOffset (Some limit) (Some offset) [])); [simpl; rewrite in_app_iff; simpl|].
    - right. right. rewrite in_app_iff. simpl. auto.
    - apply in_nodes. right. exists limit. simpl. auto. }
  assert (Hoff : forall y, In y (nodes offset) -> Q y).
  { intros y Hy. apply (Hc (LimitOffset (Some limit) (Some offset) [])); [simpl; rewrite in_app_iff; simpl|].
    - right. right. rewrite in_app_iff. simpl. auto.
    - apply in_nodes. right. exists offset. simpl. auto. }
  assert (Hold : forall c, In c (opt_list w ++ b :: opt_list ob ++ rest)%list -> In x (nodes c) -> Q x).
  { intros d Hd. apply Hc. simpl. rewrite !in_app_iff in *. simpl in *. rewrite !in_app_iff in *. simpl. tauto. }
  cbn [limit_post_visit] in Hin. destruct (is_zero_literal limit); simpl in Hin;
    rewrite !in_app_iff in Hin; simpl in Hin; rewrite !in_app_iff in Hin; simpl in Hin;
    rewrite ?in_app_iff in Hin; simpl in Hin.
  - destruct Hin as [Hin|[<-|[Hin|[<-|Hin]]]]; try (eapply Hold; [|exact Hx]; rewrite in_app_iff; simpl; rewrite in_app_iff; tauto).
    apply in_nodes in Hx as [->|(d & Hd & Hx)]; [done|]. simpl in Hd. destruct Hd as [<-|[]]. auto.
  - destruct Hin as [Hin|[<-|[Hin|[<-|[<-|Hin]]]]]; try (eapply Hold; [|exact Hx]; rewrite in_app_iff; simpl; rewrite in_app_iff; tauto).
    + apply in_nodes in Hx as [->|(d & Hd & Hx)]; [done|]. simpl in Hd. destruct Hd as [<-|[]]. auto.
    + apply in_nodes in Hx as [->|(d & Hd & Hx)]; [done|]. simpl in Hd. destruct Hd as [<-|[]]. auto.
Qed.

Definition all_ok (Q : Node -> bool) (n : Node) : Prop := forall x, In x (nodes n) -> Q x = true.

(** *** The pass that establishes each property *)

Lemma cast_pass n : all_ok cast_ok (walk cast_post_visit n).
Proof.
  refine (walk_all cast_post_visit (fun x => cast_ok x = true) _ n). clear n. intros n Hc. apply (all_nodes (fun x => cast_ok x = true)).
  - destruct n as [| | |k ? dt ?| | | | | | | | | | | | | | | | | | | | | | | | |]; try done. simpl.
    destruct k; by destruct dt.
  - intros c x Hin. apply Hc. by destruct n.
Qed.

Lemma ilike_pass n : all_ok ilike_ok (walk ilike_post_visit n).
Proof.
  refine (walk_all ilike_post_visit (fun x => ilike_ok x = true) _ n). clear n. intros n Hc. apply (ilike_keeps (fun x => ilike_ok x = true)); [|..|done].
  - by destruct n.
  - intros e x Hx. repeat (destruct Hx as [<-|Hx]; [done|]). done.
Qed.

Lemma new_name_final lower k name :
  new_function_name lower k = Some name -> new_function_name (to_lowercase name) k = None.
Proof.
  unfold new_function_name. intros E. repeat break_match; simplify_eq;
    rewrite to_lowercase_ascii in * by done; done.
Qed.

(** Exactly these are renamed. *)
Lemma postgres_function_renamed name count :
  postgres_function name count = match new_function_name name count with Some _ => true | None => false end.
Proof.
  unfold postgres_function, new_function_name. simpl.
  destruct (String.eqb name "string_agg"), (String.eqb name "trunc"), (String.eqb name "log"); try done;
    by destruct (count =? 1)%nat.
Qed.

Lemma function_post_ok n : function_ok (function_post_visit n) = true.
Proof.
  destruct n as [| | | | | |name ? ? args ?| | | | | | | | | | | | | | | | | | | | | |]; try done.
  destruct name as [|[id|] [|]]; try done. simpl.
  destruct (new_function_name _ _) as [name|] eqn:E; simpl; rewrite postgres_function_renamed.
  - by rewrite (new_name_final _ _ _ E).
  - by rewrite E.
Qed.

Lemma function_pass n : all_ok function_ok (walk function_post_visit n).
Proof.
  refine (walk_all function_post_visit (fun x => function_ok x = true) _ n). clear n. intros n Hc. apply (all_nodes (fun x => function_ok x = true)).
  - apply function_post_ok.
  - intros c x Hin. apply Hc. by rewrite children_function_post in Hin.
Qed.

Lemma limit_post_ok n : limit_ok (limit_post_visit n) = true.
Proof.
  destruct n as [| | | | | | | | | | | | | | | |w b ob lc ft rest| | | | | | | | | | | |]; try done.
  destruct lc as [[| | | | | | | | | | | | | | | | |[limit|] [offset|] [|]| | | | | | | | | | |]|], ft; try done.
  simpl. by destruct (is_zero_literal limit).
Qed.

Lemma limit_pass n : all_ok limit_ok (walk limit_post_visit n).
Proof.
  refine (walk_all limit_post_visit (fun x => limit_ok x = true) _ n). clear n. intros n Hc.
  apply (limit_keeps (fun x => limit_ok x = true)); [apply limit_post_ok|done|done|done].
Qed.

(** *** Later passes keep it *)

Lemma cast_ok_stable f n : cast_ok n = true -> cast_ok (map_children f n) = true.
Proof. by destruct n. Qed.

Lemma ilike_ok_stable f n : ilike_ok n = true -> ilike_ok (map_children f n) = true.
Proof. by destruct n. Qed.

Lemma arg_count_limit n : arg_count (walk limit_post_visit n) = arg_count n.
Proof.
  rewrite walk_unfold. destruct n as [| | | | | | | | | |d l c| | | | | |w b ob lc ft rest| | | | | | | | | | | |]; try done.
  - simpl. by rewrite length_map.
  - simpl. destruct (option_map _ lc) as [[| | | | | | | | | | | | | | | | |[?|] [?|] [|]| | | | | | | | | | |]|],
      (option_map _ ft); try done. by destruct (is_zero_literal _).
Qed.

Lemma function_ok_stable n :
  function_ok n = true -> function_ok (map_children (walk limit_post_visit) n) = true.
Proof.
  destruct n as [| | | | | |name ? ? args ?| | | | | | | | | | | | | | | | | | | | | |]; try done.
  destruct name as [|[id|] [|]]; try done. simpl. by rewrite arg_count_limit.
Qed.

Lemma ilike_keeps_casts n : all_ok cast_ok n -> all_ok cast_ok (walk ilike_post_visit n).
Proof.
  refine (walk_preserves ilike_post_visit (fun x => cast_ok x = true) _ _ n);
    [intros; by apply cast_ok_stable|].
  intros m Hm Hc. apply (ilike_keeps (fun x => cast_ok x = true)); [by destruct m| |done].
  intros e x Hx. repeat (destruct Hx as [<-|Hx]; [done|]). done.
Qed.

Lemma function_keeps (Q : Node -> bool) n :
  (forall m, Q m = true -> Q (map_children (walk function_post_visit) m) = true) ->
  (forall m, Q m = true -> Q (function_post_visit m) = true) ->
  all_ok Q n -> all_ok Q (walk function_post_visit n).
Proof.
  intros Hs Hq. refine (walk_preserves function_post_visit (fun x => Q x = true) _ _ n); [done|].
  intros m Hm Hc. apply (all_nodes (fun x => Q x = true)); [by apply Hq|]. intros c x Hin. apply Hc.
  by rewrite children_function_post in Hin.
Qed.

Lemma function_post_other n :
  cast_ok (function_post_visit n) = cast_ok n /\ ilike_ok (function_post_visit n) = ilike_ok n.
Proof.
  destruct n as [| | | | | |name ? ? args ?| | | | | | | | | | | | | | | | | | | | | |]; try done.
  destruct name as [|[id|] [|]]; try done. simpl. by destruct (new_function_name _ _).
Qed.

Lemma limit_post_other n :
  cast_ok (limit_post_visit n) = cast_ok n /\ ilike_ok (limit_post_visit n) = ilike_ok n
  /\ function_ok (limit_post_visit n) = function_ok n.
Proof.
  destruct n as [| | | | | | | | | | | | | | | |w b ob lc ft rest| | | | | | | | | | | |]; try done.
  destruct lc as [[| | | | | | | | | | | | | | | | |[limit|] [offset|] [|]| | | | | | | | | | |]|], ft; try done.
  simpl. by destruct (is_zero_literal limit).
Qed.

Lemma limit_keeps_ok (Q : Node -> bool) n :
  (forall m, Q m = true -> Q (map_children (walk limit_post_visit) m) = true) ->
  (forall m, Q (limit_post_visit m) = Q m) ->
  (forall l o by_, Q (LimitOffset l o by_) = true) -> (forall q, Q (Fetch false false q) = true) ->
  all_ok Q n -> all_ok Q (walk limit_post_visit n).
Proof.
  intros Hs Hq Hl Hf. refine (walk_preserves limit_post_visit (fun x => Q x = true) _ _ n); [done|].
  intros m Hm Hc. apply (limit_keeps (fun x => Q x = true)); try done. by rewrite Hq.
Qed.

Lemma rewrite_statement_ok stmt : all_ok trino_dialect (rewrite_statement stmt).
Proof.
  assert (H1 : all_ok cast_ok (rewrite_statement stmt)).
  { apply limit_keeps_ok; try done; [intros; by apply cast_ok_stable|intros; apply limit_post_other|].
    apply function_keeps; [intros; by apply cast_ok_stable|intros m; by destruct (function_post_other m) as [-> _]|].
    apply ilike_keeps_casts, cast_pass. }
  assert (H2 : all_ok ilike_ok (rewrite_statement stmt)).
  { apply limit_keeps_ok; try done; [intros; by apply ilike_ok_stable|intros; apply limit_post_other|].
    apply function_keeps; [intros; by apply ilike_ok_stable|intros m; by destruct (function_post_other m) as [_ ->]|].
    apply ilike_pass. }
  assert (H3 : all_ok function_ok (rewrite_statement stmt)).
  { apply limit_keeps_ok; try done; [intros; by apply function_ok_stable|intros; apply limit_post_other|].
    apply function_pass. }
  intros x Hx. unfold trino_dialect. rewrite (H1 x Hx), (H2 x Hx), (H3 x Hx). by apply limit_pass in Hx.
Qed.

(** A pass has nothing to do where its predicate holds. *)
Lemma post_visits_idle x :
  trino_dialect x = true ->
  cast_post_visit x = x /\ ilike_post_visit x = x /\ function_post_visit x = x /\ limit_post_visit x = x.
Proof.
  unfold trino_dialect. intros Hx. bools. repeat split.
  - destruct x as [| | |k ? dt ?| | | | | | | | | | | | | | | | | | | | | | | | |]; try done. simpl in *. bools.
    apply bool_decide_eq_false in H. rewrite decide_False by done. by destruct dt.
  - by destruct x.
  - destruct x as [| | | | | |name ? ? args ?| | | | | | | | | | | | | | | | | | | | | |]; try done.
    destruct name as [|[id|] [|]]; try done. simpl in *. rewrite postgres_function_renamed in *.
    by destruct (new_function_name _ _).
  - destruct x as [| | | | | | | | | | | | | | | |w b ob lc ft rest| | | | | | | | | | | |]; try done.
    by destruct lc as [[| | | | | | | | | | | | | | | | |[limit|] [offset|] [|]| | | | | | | | | | |]|], ft.
Qed.


(** A statement that was rewritten once is left alone by every pass. *)
Lemma rewrite_statement_idempotent stmt : rewrite_statement (rewrite_statement stmt) = rewrite_statement stmt.
Proof.
  pose proof (rewrite_statement_ok stmt) as Hok. set (s := rewrite_statement stmt) in *. clearbody s.
  unfold rewrite_statement.
  rewrite (walk_id cast_post_visit s) by (intros x Hx; by apply post_visits_idle, Hok).
  rewrite (walk_id ilike_post_visit s) by (intros x Hx; by apply post_visits_idle, Hok).
  rewrite (walk_id function_post_visit s) by (intros x Hx; by apply post_visits_idle, Hok).
  apply walk_id. intros x Hx. by apply post_visits_idle, Hok.
Qed.

End Passes.

(** ** What paging means *)

(** The rows that paging selects: skip the offset, then at most the limit, then
    at most the fetched number. *)
Definition paged_rows (limit offset quantity : option nat) {A} (rows : list A) : list A :=
  let at_most o l := match o with Some k => take k l | None => l end in
  at_most quantity (at_most limit (match offset with Some k => drop k rows | None => rows end)).

(** The rows a query's paging clauses select, given the values of the counting
    expressions. *)
Definition page (eval : Node -> nat) (query : Node) {A} (rows : list A) : list A :=
  match query with
  | Query _ _ _ limit_clause fetch _ =>
    let quantity := match fetch with Some (Fetch _ _ quantity) => eval <$> quantity | _ => None end in
    match limit_clause with
    | Some (LimitOffset limit offset _) => paged_rows (eval <$> limit) (eval <$> offset) quantity rows
    | _ => paged_rows None None quantity rows
    end
  | _ => rows
  end.

(** Moving [LIMIT] behind [OFFSET] does not change which rows a query returns:
    for any values of the expressions in which a literal zero is zero, the
    rewritten query pages exactly as the original, [LIMIT 0] included. *)
Theorem limit_offset_keeps_rows (eval : Node -> nat) {A} query (rows : list A) :
  (forall e, is_zero_literal e = true -> eval e = 0%nat) ->
  page eval (limit_post_visit query) rows = page eval query rows.
Proof.
  intros Hz.
  destruct query as [| | | | | | | | | | | | | | | |w b ob lc ft rest| | | | | | | | | | | |]; try done.
  destruct lc as [[| | | | | | | | | | | | | | | | |[limit|] [offset|] [|]| | | | | | | | | | |]|], ft; try done.
  cbn [limit_post_visit]. destruct (is_zero_literal limit) eqn:E; simpl; [|done].
  by rewrite Hz.
Qed.

Definition eval_literal (e : Node) : nat :=
  match e with
  | ValueExpr (NumberLit n _) => match parse_digits n with Some z => Z.to_nat z | None => 0%nat end
  | _ => 0%nat
  end.

Definition number (n : string) : Node := ValueExpr (NumberLit n false).

(** Zero when the literal is zero as a float, as its digits otherwise. *)
Definition eval_number (e : Node) : nat := if is_zero_literal e then 0%nat else eval_literal e.

Definition paged_query (limit offset : string) : Node :=
  Query None (Other "body" []) None (Some (LimitOffset (Some (number limit)) (Some (number offset)) [])) None [].

Lemma limit_offset_keeps_rows_witness :
  page eval_number (limit_post_visit (paged_query "2" "1")) [10; 20; 30; 40]%Z = [20; 30]%Z.
Proof.
  exact (@limit_offset_keeps_rows eval_number Z (paged_query "2" "1") [10; 20; 30; 40]%Z
           (fun e H => ltac:(unfold eval_number; rewrite H; reflexivity))).
Defined.

(** ** [ILIKE ANY] *)

(** The rewrite of [ILIKE] forgets the [ANY] quantifier: [x ILIKE ANY (list)]
    becomes [lower(x) LIKE lower((list))], a comparison with the list itself. *)
Theorem ilike_any_is_dropped negated e pattern esc :
  ilike_post_visit (ILike negated true e pattern esc)
  = Like negated false (make_lower_call e) (make_lower_call pattern) esc
  /\ ilike_post_visit (ILike negated true e pattern esc)
     = ilike_post_visit (ILike negated false e pattern esc).
Proof. done. Qed.

(** ** A statement with everything to rewrite *)



(** A PostgreSQL [string_agg] becomes a [listagg] with the same arguments and no
    [WITHIN GROUP (ORDER BY ...)], which Trino's grammar requires there. *)
Theorem string_agg_lacks_order :
  @rewrite_sql ascii_only_case sql_text "SELECT string_agg(n, ',') FROM t" = "SELECT listagg(n, ',') FROM t".
Proof. vm_compute. reflexivity. Qed.
