(* ===== verification/Like.v ===== *)
(** * What the [ILIKE] rewrite means

    A matcher for [LIKE] patterns over ASCII text, the meaning of [LIKE] and
    [ILIKE] predicates in PostgreSQL and in Trino, and the equivalence of the
    rewritten predicate with the original. *)

From S2P Require Import Prelude RustStr Sql Rewrite.

Local Open Scope string_scope.
Local Open Scope rust_scope.

(** ** Patterns *)

(** The two systems read patterns differently. In PostgreSQL the backslash is
    the escape character unless [ESCAPE] says otherwise, and escapes any
    character; in Trino there is none without [ESCAPE], and an escape must stand
    before a wildcard or itself. *)
Record LikeRules := mk_like_rules {
  default_escape : option ascii;
  strict_escapes : bool
}.

Definition backslash : ascii := "\".
Definition postgres_like : LikeRules := mk_like_rules (Some backslash) false.
Definition trino_like : LikeRules := mk_like_rules None true.

Inductive Token := AnyChars | OneChar | Lit (c : ascii).

Definition escapable (e d : ascii) : bool := Ascii.eqb d "%" || Ascii.eqb d "_" || Ascii.eqb d e.

(** A pattern with an escape character; [None] when it is malformed. *)
Fixpoint tokens (strict : bool) (escape : option ascii) (p : list ascii) : option (list Token) :=
  match p with
  | [] => Some []
  | c :: rest =>
    if bool_decide (escape = Some c) then
      match rest with
      | d :: rest' =>
        if strict && negb (escapable c d) then None else cons (Lit d) <$> tokens strict escape rest'
      | [] => None
      end
    else
      cons (if Ascii.eqb c "%" then AnyChars else if Ascii.eqb c "_" then OneChar else Lit c)
        <$> tokens strict escape rest
  end.

(** Matching, with characters compared by [same]. *)
Fixpoint matches (same : ascii -> ascii -> bool) (ts : list Token) (s : list ascii) {struct ts} : bool :=
  match ts with
  | [] => match s with [] => true | _ => false end
  | AnyChars :: ts' =>
    (fix skip (s : list ascii) : bool :=
       matches same ts' s || match s with [] => false | _ :: s' => skip s' end) s
  | OneChar :: ts' => match s with [] => false | _ :: s' => matches same ts' s' end
  | Lit c :: ts' => match s with [] => false | d :: s' => same c d && matches same ts' s' end
  end.

(** [LIKE] compares characters, [ILIKE] compares them without case. *)
Definition same_ignoring_case (c d : ascii) : bool := Ascii.eqb (ascii_lower_byte c) (ascii_lower_byte d).

Definition like (strict : bool) (same : ascii -> ascii -> bool) (escape : option ascii) (text pattern : string)
  : option bool :=
  ts ← tokens strict escape (list_ascii_of_string pattern);
  Some (matches same ts (list_ascii_of_string text)).

(** ** Predicates *)

(** The escape character of a predicate: the default, or the one character of
    the [ESCAPE] literal; anything else is an error. (PostgreSQL also takes an
    empty literal, for no escape character.) *)
Definition escape_of (rules : LikeRules) (escape_char : option Literal) : option (option ascii) :=
  match escape_char with
  | None => Some (default_escape rules)
  | Some (SingleQuotedString (String c EmptyString)) => Some (Some c)
  | Some (SingleQuotedString EmptyString) => if strict_escapes rules then None else Some None
  | Some _ => None
  end.

(** The value of [LIKE] (with [same] equality) or [ILIKE] (ignoring case) on the
    texts of its operands; [None] for an unknown or erroneous one. *)
Definition like_value (rules : LikeRules) (same : ascii -> ascii -> bool) (negated : bool)
    (escape_char : option Literal) (text pattern : option string) : option bool :=
  text ← text;
  pattern ← pattern;
  escape ← escape_of rules escape_char;
  xorb negated <$> like (strict_escapes rules) same escape text pattern.

Definition predicate (rules : LikeRules) (eval : Node -> option string) (n : Node) : option bool :=
  match n with
  | Like negated false e p escape_char => like_value rules Ascii.eqb negated escape_char (eval e) (eval p)
  | ILike negated false e p escape_char =>
    like_value rules same_ignoring_case negated escape_char (eval e) (eval p)
  | _ => None
  end.

(** ** Lower-casing *)

Definition is_letter (c : ascii) : bool :=
  let b := byte_of (ascii_lower_byte c) in (97 <=? b)%N && (b <=? 122)%N.

Definition lower_token (t : Token) : Token :=
  match t with Lit c => Lit (ascii_lower_byte c) | _ => t end.

Lemma lower_of_caseless c : is_letter (ascii_lower_byte c) = false -> ascii_lower_byte c = c.
Proof. by destruct c as [[] [] [] [] [] [] [] []]. Qed.

Lemma caseless_lower c : is_letter c = false -> ascii_lower_byte c = c.
Proof. by destruct c as [[] [] [] [] [] [] [] []]. Qed.

(** A caseless character is what it was before lower-casing. *)
Lemma lower_eqb c e : is_letter e = false -> Ascii.eqb (ascii_lower_byte c) e = Ascii.eqb c e.
Proof.
  intros He. destruct (Ascii.eqb_spec c e) as [->|Hne]; [rewrite caseless_lower by done; apply Ascii.eqb_refl|].
  apply Ascii.eqb_neq. intros E. apply Hne. rewrite <- E. symmetry. apply lower_of_caseless. by rewrite E.
Qed.

(** Every escape in the pattern stands before a wildcard or the escape itself. *)
Fixpoint plain_escapes (e : ascii) (p : list ascii) : bool :=
  match p with
  | [] => true
  | c :: rest =>
    if Ascii.eqb c e then match rest with d :: rest' => escapable e d && plain_escapes e rest' | [] => true end
    else plain_escapes e rest
  end.

(** Patterns both systems read alike: without [ESCAPE] they have no backslash,
    with it only escapes that Trino accepts. *)
Definition portable_pattern (escape_char : option Literal) (pattern : string) : bool :=
  match escape_char with
  | None => negb (existsb (Ascii.eqb backslash) (list_ascii_of_string pattern))
  | Some (SingleQuotedString (String c EmptyString)) => plain_escapes c (list_ascii_of_string pattern)
  | Some (SingleQuotedString EmptyString) => false
  | Some _ => true
  end.

(** The [ESCAPE] character, if any, is not a letter. *)
Definition caseless_escape (escape_char : option Literal) : bool :=
  match escape_char with
  | Some (SingleQuotedString (String c EmptyString)) => negb (is_letter c)
  | _ => true
  end.

Definition caseless (escape : option ascii) : bool :=
  match escape with Some e => negb (is_letter e) | None => true end.

Lemma lower_is_escape escape c :
  caseless escape = true -> bool_decide (escape = Some (ascii_lower_byte c)) = bool_decide (escape = Some c).
Proof.
  destruct escape as [e|]; [|done]. simpl. intros He%negb_true_iff. pose proof (lower_eqb c e He) as H.
  apply bool_decide_ext. split; intros [= ->].
  - rewrite Ascii.eqb_refl in H. symmetry in H. apply Ascii.eqb_eq in H. congruence.
  - rewrite Ascii.eqb_refl in H. apply Ascii.eqb_eq in H. congruence.
Qed.

(** Induction on patterns, which are read two characters at a time. *)
Lemma pattern_ind (P : list ascii -> Prop) :
  (forall p, (forall q, (length q < length p)%nat -> P q) -> P p) -> forall p, P p.
Proof. apply (well_founded_induction (Wf_nat.well_founded_ltof _ length)). Qed.

Lemma escapable_lower c d : is_letter c = false -> escapable c (ascii_lower_byte d) = escapable c d.
Proof. intros Hc. unfold escapable. by rewrite !lower_eqb. Qed.

Lemma tokens_lower strict escape p :
  caseless escape = true ->
  tokens strict escape (map ascii_lower_byte p) = map lower_token <$> tokens strict escape p.
Proof.
  intros He. induction p as [[|c rest] IH] using pattern_ind; [done|]. simpl. rewrite lower_is_escape by done.
  case_bool_decide as E.
  - subst escape. simpl in He. apply negb_true_iff in He. destruct rest as [|d rest']; [done|]. simpl.
    rewrite (caseless_lower c), escapable_lower by done. destruct (strict && negb (escapable c d)); [done|].
    rewrite IH by (simpl; lia). by destruct (tokens strict (Some c) rest').
  - rewrite IH by (simpl; lia). rewrite !lower_eqb by done.
    destruct (tokens strict escape rest); [|done]. simpl. by destruct (Ascii.eqb c "%"), (Ascii.eqb c "_").
Qed.

(** With plain escapes it does not matter whether they are checked. *)
Lemma tokens_plain e p : plain_escapes e p = true -> tokens true (Some e) p = tokens false (Some e) p.
Proof.
  induction p as [[|c rest] IH] using pattern_ind; [done|]. simpl. case_bool_decide as E.
  - injection E as ->. rewrite Ascii.eqb_refl. destruct rest as [|d rest']; [done|]. simpl.
    intros [-> Hr]%andb_true_iff. simpl. rewrite IH; [done|simpl; lia|done].
  - destruct (Ascii.eqb_spec c e) as [->|]; [done|]. intros Hp. rewrite IH; [done|simpl; lia|done].
Qed.

(** Without backslashes there are no escapes to check. *)
Lemma tokens_no_escape e p :
  existsb (Ascii.eqb e) p = false -> tokens true None p = tokens false (Some e) p.
Proof.
  induction p as [|c p IH]; [done|]. simpl. intros [Hc Hp]%orb_false_iff. rewrite IH by done.
  rewrite bool_decide_false by (intros [= <-]; by rewrite Ascii.eqb_refl in Hc). done.
Qed.

(** On a portable pattern both systems see the same tokens. *)
Lemma portable_tokens escape_char pattern :
  portable_pattern escape_char pattern = true ->
  (escape ← escape_of trino_like escape_char; tokens true escape (list_ascii_of_string pattern))
  = (escape ← escape_of postgres_like escape_char; tokens false escape (list_ascii_of_string pattern)).
Proof.
  destruct escape_char as [[| [|c [|]] | |]|]; simpl; intros Hp; try done.
  - by apply tokens_plain.
  - apply tokens_no_escape. by apply negb_true_iff.
Qed.

Lemma matches_lower ts s :
  matches Ascii.eqb (map lower_token ts) (map ascii_lower_byte s) = matches same_ignoring_case ts s.
Proof.
  revert s. induction ts as [|t ts IH]; intros s; [by destruct s|]. destruct t as [| |c]; simpl.
  - induction s as [|d s IHs]; simpl; [by rewrite <- (IH [])|]. by rewrite <- IHs, <- (IH (d :: s)).
  - destruct s as [|d s]; [done|]. apply IH.
  - destruct s as [|d s]; [done|]. simpl. by rewrite IH.
Qed.

Lemma list_ascii_lower s :
  list_ascii_of_string (to_ascii_lowercase s) = map ascii_lower_byte (list_ascii_of_string s).
Proof. unfold to_ascii_lowercase. induction s as [|c s IH]; simpl; [done|]. by rewrite IH. Qed.

(** Lower-casing text and pattern turns the comparison without case into the
    plain one. *)
Lemma like_lower strict escape text pattern :
  caseless escape = true ->
  like strict Ascii.eqb escape (to_ascii_lowercase text) (to_ascii_lowercase pattern)
  = like strict same_ignoring_case escape text pattern.
Proof.
  intros He. unfold like. rewrite !list_ascii_lower, tokens_lower by done.
  destruct (tokens strict escape (list_ascii_of_string pattern)); [|done]. simpl. by rewrite matches_lower.
Qed.

Lemma portable_like same negated escape_char text pattern :
  (forall p, pattern = Some p -> portable_pattern escape_char p = true) ->
  like_value trino_like same negated escape_char text pattern
  = like_value postgres_like same negated escape_char text pattern.
Proof.
  intros Hp. unfold like_value, like. destruct text as [text|]; [|done]. destruct pattern as [p|]; [|done].
  simpl. pose proof (portable_tokens escape_char p (Hp p eq_refl)) as H.
  destruct (escape_of trino_like escape_char), (escape_of postgres_like escape_char); simpl in *;
    [by rewrite H|by rewrite H|by rewrite <- H|done].
Qed.

Lemma lower_like negated escape_char text pattern :
  caseless_escape escape_char = true ->
  like_value trino_like Ascii.eqb negated escape_char (to_ascii_lowercase <$> text) (to_ascii_lowercase <$> pattern)
  = like_value trino_like same_ignoring_case negated escape_char text pattern.
Proof.
  intros He. unfold like_value. destruct text as [text|]; [|done]. destruct pattern as [p|]; [|done]. simpl.
  destruct escape_char as [[| [|c [|]] | |]|]; simpl; try done; by rewrite like_lower.
Qed.

(** C19: [lower(x) LIKE lower(p)] in Trino means what [x ILIKE p] means in
    PostgreSQL: for any evaluation of the operands in which [lower] lower-cases,
    a pattern both systems read alike and an escape character that is not a
    letter (or none), the rewritten predicate has the value of the original on
    all ASCII text, negated or not. *)
Theorem ilike_rewrite_keeps_meaning (eval : Node -> option string) negated e p escape_char :
  (forall x, eval (make_lower_call x) = to_ascii_lowercase <$> eval x) ->
  caseless_escape escape_char = true ->
  (forall pattern, eval p = Some pattern -> portable_pattern escape_char pattern = true) ->
  predicate trino_like eval (ilike_post_visit (ILike negated false e p escape_char))
  = predicate postgres_like eval (ILike negated false e p escape_char).
Proof. intros Hl He Hp. simpl. rewrite !Hl, lower_like by done. by apply portable_like. Qed.

(** ** Concrete predicates *)

(** String literals and [lower] of them. *)
Fixpoint eval_lower (n : Node) : option string :=
  match n with
  | ValueExpr (SingleQuotedString s) => Some s
  | Function _ _ _ (ArgsList _ [ArgUnnamed (ArgExpr inner)] _) _ => to_ascii_lowercase <$> eval_lower inner
  | _ => None
  end.

Definition text_literal (s : string) : Node := ValueExpr (SingleQuotedString s).

Lemma ilike_rewrite_keeps_meaning_witness :
  predicate trino_like eval_lower (ilike_post_visit
    (ILike true false (text_literal "Trino 50%") (text_literal "tRiN_ 5!_!%") (Some (SingleQuotedString "!"))))
  = Some true.
Proof.
  rewrite (ilike_rewrite_keeps_meaning eval_lower);
    [vm_compute; reflexivity|reflexivity|reflexivity|intros pattern [= <-]; reflexivity].
Defined.

(** With a letter as escape character the rewrite changes the meaning: the
    pattern is lower-cased together with its escapes, the [ESCAPE] clause is not.
    [x ILIKE 'aX%' ESCAPE 'X'] asks for the text [a%]; after the rewrite that
    text does not match. *)
Theorem ilike_letter_escape_changes_meaning :
  let x := ILike false false (text_literal "a%") (text_literal "aX%") (Some (SingleQuotedString "X")) in
  predicate postgres_like eval_lower x = Some true
  /\ predicate trino_like eval_lower (ilike_post_visit x) = Some false.
Proof. split; vm_compute; reflexivity. Qed.

(** Without an [ESCAPE] clause a backslash escapes in PostgreSQL and is an
    ordinary character in Trino; the rewrite adds no [ESCAPE] clause, so
    [x ILIKE '50\%'], which asks for the text [50%], no longer finds it. *)
Theorem ilike_backslash_changes_meaning :
  let x := ILike false false (text_literal "50%") (text_literal "50\%") None in
  predicate postgres_like eval_lower x = Some true
  /\ predicate trino_like eval_lower (ilike_post_visit x) = Some false.
Proof. split; vm_compute; reflexivity. Qed.
