(* ===== verification/RewriteMeaning.v ===== *)
(** * What the rewriting means

    The four passes of [rewrite_sql] are one pass ([passes_fuse]), and the
    rewritten statement means in Trino what the original means in PostgreSQL
    ([rewrite_keeps_meaning]). A meaning is compositional: that of a construct is
    made from those of its parts, as functions of an environment (the current
    row, group and outer rows). The constructs the rewriter touches have their
    meaning spelled out: casts and calls through tables of the dialect, [LIKE] as
    in Like, paging as in [page]; all others are a parameter. *)

From S2P Require Import Prelude RustStr RustStrFacts Trino RustFloat Sql Rewrite Like.

Local Open Scope string_scope.

(** ** One pass instead of four *)

Lemma map_children_ext f g n : (forall c, In c (children n) -> f c = g c) -> map_children f n = map_children g n.
Proof.
  assert (Hl : forall l, (forall c, In c l -> f c = g c) -> map f l = map g l).
  { intros l Hc. by apply map_ext_in. }
  assert (Ho : forall o, (forall c, In c (opt_list o) -> f c = g c) -> option_map f o = option_map g o).
  { intros [a|] Hc; simpl; [|done]. by rewrite Hc by (by left). }
  intros Hc. destruct n; simpl in *; try done; f_equal;
    try (apply Hc; rewrite ?in_app_iff; simpl; rewrite ?in_app_iff; tauto);
    try (apply Hl; intros; apply Hc; rewrite ?in_app_iff; simpl; rewrite ?in_app_iff; tauto);
    try (apply Ho; intros; apply Hc; rewrite ?in_app_iff; simpl; rewrite ?in_app_iff; tauto).
Qed.

Lemma map_children_compose f g n : map_children f (map_children g n) = map_children (fun c => f (g c)) n.
Proof.
  destruct n; simpl; rewrite ?map_map; try done;
    repeat match goal with o : option Node |- _ => destruct o; simpl end; done.
Qed.

(** A visitor that leaves a node alone descends into it. *)
Lemma walk_inert f g n :
  (forall h, f (map_children h n) = map_children h n) ->
  walk f (map_children g n) = map_children (fun c => walk f (g c)) n.
Proof. intros Hf. by rewrite walk_unfold, map_children_compose, Hf. Qed.

Section Fusion.
Context `{Case : UnicodeCase}.

(** All four visitors on one node. *)
Definition rewrite_node (n : Node) : Node :=
  limit_post_visit (function_post_visit (ilike_post_visit (cast_post_visit n))).

Lemma arg_count_walk f args :
  (forall d l c, f (ArgsList d l c) = ArgsList d l c) ->
  (forall n, arg_count n = 0%nat -> arg_count (f n) = 0%nat) ->
  arg_count (walk f args) = arg_count args.
Proof.
  intros Hl Ho. rewrite walk_unfold. destruct args; simpl; rewrite ?Hl; simpl; rewrite ?length_map; try done;
    by rewrite Ho.
Qed.

(** A pass keeps the number of arguments of a call. *)
Lemma arg_count_casts n : arg_count (walk cast_post_visit n) = arg_count n.
Proof. apply arg_count_walk; [done|]. intros m. by destruct m. Qed.

Lemma arg_count_ilike n : arg_count (walk ilike_post_visit n) = arg_count n.
Proof. apply arg_count_walk; [done|]. intros m. by destruct m. Qed.

Lemma arg_count_functions n : arg_count (walk function_post_visit n) = arg_count n.
Proof.
  apply arg_count_walk; [done|]. intros m. destruct m; try done. simpl.
  repeat break_match; done.
Qed.

Lemma lower_not_renamed k : new_function_name (to_lowercase "lower") k = None.
Proof. by rewrite to_lowercase_ascii. Qed.

Lemma functions_in_lower e :
  walk function_post_visit (make_lower_call e) = make_lower_call (walk function_post_visit e).
Proof. unfold make_lower_call. cbn -[to_lowercase new_function_name]. by rewrite lower_not_renamed. Qed.

Lemma limits_in_lower e : walk limit_post_visit (make_lower_call e) = make_lower_call (walk limit_post_visit e).
Proof. done. Qed.

Definition inert (f : Node -> Node) (n : Node) : Prop := forall h, f (map_children h n) = map_children h n.

(** Nodes every visitor leaves alone. *)
Lemma rewrite_inert n :
  inert cast_post_visit n -> inert ilike_post_visit n -> inert function_post_visit n -> inert limit_post_visit n ->
  rewrite_statement n = rewrite_node (map_children rewrite_statement n).
Proof.
  intros H1 H2 H3 H4. unfold rewrite_statement at 1, rewrite_node.
  rewrite (walk_unfold cast_post_visit), H1.
  rewrite (walk_inert ilike_post_visit), (walk_inert function_post_visit), (walk_inert limit_post_visit) by done.
  by rewrite H1, H2, H3, H4.
Qed.

Lemma rewrite_cast k e dt fmt :
  rewrite_statement (Cast k e dt fmt) = cast_post_visit (Cast k (rewrite_statement e) dt fmt).
Proof. done. Qed.

Lemma rewrite_ilike neg any e p esc :
  rewrite_statement (ILike neg any e p esc)
  = ilike_post_visit (ILike neg any (rewrite_statement e) (rewrite_statement p) esc).
Proof.
  change (rewrite_statement (ILike neg any e p esc)) with
    (walk limit_post_visit (walk function_post_visit
       (Like neg false (make_lower_call (walk ilike_post_visit (walk cast_post_visit e)))
          (make_lower_call (walk ilike_post_visit (walk cast_post_visit p))) esc))).
  rewrite (walk_unfold function_post_visit). cbn [map_children function_post_visit]. rewrite !functions_in_lower.
  rewrite (walk_unfold limit_post_visit). cbn [map_children limit_post_visit]. by rewrite !limits_in_lower.
Qed.

Lemma rewrite_function name odbc ps args rest :
  rewrite_statement (Function name odbc ps args rest)
  = function_post_visit (Function name odbc (rewrite_statement ps) (rewrite_statement args) (map rewrite_statement rest)).
Proof.
  set (n := Function name odbc ps args rest).
  assert (E : walk ilike_post_visit (walk cast_post_visit n)
              = map_children (fun c => walk ilike_post_visit (walk cast_post_visit c)) n).
  { rewrite (walk_unfold cast_post_visit). cbn [n map_children cast_post_visit].
    apply (walk_inert ilike_post_visit (walk cast_post_visit) n). done. }
  unfold rewrite_statement at 1. rewrite E, (walk_unfold function_post_visit), map_children_compose.
  cbn [n map_children function_post_visit]. destruct name as [|[id|t] [|]]; simpl; rewrite ?map_map; try done.
  rewrite (arg_count_functions (walk ilike_post_visit _)), arg_count_ilike, arg_count_casts.
  assert (Ea : arg_count (rewrite_statement args) = arg_count args).
  { unfold rewrite_statement. by rewrite arg_count_limit, arg_count_functions, arg_count_ilike, arg_count_casts. }
  rewrite Ea. destruct (new_function_name _ _); simpl; by rewrite map_map.
Qed.

Lemma rewrite_query w b ob lc ft rest :
  rewrite_statement (Query w b ob lc ft rest)
  = limit_post_visit (map_children rewrite_statement (Query w b ob lc ft rest)).
Proof.
  set (n := Query w b ob lc ft rest).
  assert (E : walk function_post_visit (walk ilike_post_visit (walk cast_post_visit n))
              = map_children (fun c => walk function_post_visit (walk ilike_post_visit (walk cast_post_visit c))) n).
  { rewrite (walk_unfold cast_post_visit).
    change (cast_post_visit (map_children (walk cast_post_visit) n)) with (map_children (walk cast_post_visit) n).
    rewrite (walk_inert ilike_post_visit (walk cast_post_visit) n) by done.
    by rewrite (walk_inert function_post_visit _ n). }
  unfold rewrite_statement at 1. by rewrite E, (walk_unfold limit_post_visit), map_children_compose.
Qed.

(** The rewriting of a node from that of its children. *)
Lemma rewrite_unfold n : rewrite_statement n = rewrite_node (map_children rewrite_statement n).
Proof.
  destruct n as [ | | |k e dt fmt|neg any e p esc| |name odbc ps args rest| | | | | | | | | |w b ob lc ft rest| | | | | | | | | | | | ];
    try (apply rewrite_inert; done).
  - rewrite rewrite_cast. done.
  - rewrite rewrite_ilike. done.
  - rewrite rewrite_function. unfold rewrite_node. cbn [map_children cast_post_visit ilike_post_visit].
    destruct name as [|[id|t] [|]]; try done. simpl. by destruct (new_function_name _ _).
  - by rewrite rewrite_query.
Qed.

(** The four passes, run one after the other over the whole statement, are one
    pass that applies all four visitors to each node. *)
Theorem passes_fuse n : rewrite_statement n = walk rewrite_node n.
Proof.
  induction n as [n IH] using node_ind. rewrite rewrite_unfold, walk_unfold. f_equal. apply map_children_ext.
  intros c Hc. rewrite List.Forall_forall in IH. by apply IH.
Qed.

End Fusion.

(** ** Meanings *)

Abbreviation same := (pointwise_relation _ eq).

(** Values [U] and environments [Env]; what a construct of a given shape (a node
    with its parts taken out) makes of the meanings of its parts, which it can
    use only as functions. *)
Class SqlModel (Env U Row : Type) := {
  as_text : U -> option string;
  of_truth : option bool -> U;
  as_count : U -> nat;
  rows_of : U -> list Row;
  of_rows : list Row -> U;
  construct : Node -> list (Env -> U) -> Env -> U;
  construct_proper : forall shape, Proper (Forall2 same ==> same) (construct shape)
}.

Definition hole : Node := Other "" [].
Definition shape_of (n : Node) : Node := map_children (fun _ => hole) n.

Section Meaning.
Context {Env U Row : Type} `{M : SqlModel Env U Row}.

#[local] Existing Instance construct_proper.

(** What differs between the two systems: the rules of [LIKE], the types and the
    functions. *)
Record Dialect := mk_dialect {
  like_rules : LikeRules;
  cast_value : CastKind -> DataType -> option string -> U -> U;
  call_value : ObjectName -> bool -> nat -> list (Env -> U) -> Env -> U
}.

Definition truth_of (d : Dialect) (same : ascii -> ascii -> bool) negated escape_char (e p : Env -> U) (env : Env) : U :=
  of_truth (like_value (like_rules d) same negated escape_char (as_text (e env)) (as_text (p env))).

(** A query with its paging clauses, from the meaning of the query without. *)
Definition paged (limit offset quantity : option (Env -> U)) (base : Env -> U) (env : Env) : U :=
  let count o := (fun v : Env -> U => as_count (v env)) <$> o in
  of_rows (paged_rows (count limit) (count offset) (count quantity) (rows_of (base env))).

(** How many arguments a call has. *)
Definition arity (args : Node) : nat :=
  match args with
  | ArgsList _ list _ => length list
  | _ => 0%nat
  end.

Lemma arg_count_arity args : arg_count args = arity args.
Proof. done. Qed.

Fixpoint denote (d : Dialect) (n : Node) {struct n} : Env -> U :=
  let parts o := match o with Some m => [denote d m] | None => [] end in
  match n with
  | Cast k e dt fmt => fun env => cast_value d k dt fmt (denote d e env)
  | Like negated false e p esc => truth_of d Ascii.eqb negated esc (denote d e) (denote d p)
  | ILike negated false e p esc => truth_of d same_ignoring_case negated esc (denote d e) (denote d p)
  | Function name odbc ps args rest =>
    call_value d name odbc (arity args) (denote d ps :: denote d args :: map (denote d) rest)
  | Query w b ob lc ft rest =>
    let base := construct (shape_of (Query w b ob None None rest))
                  (parts w ++ denote d b :: parts ob ++ map (denote d) rest)%list in
    match lc, ft with
    | None, None => base
    | Some (LimitOffset l o []), None => paged (option_map (denote d) l) (option_map (denote d) o) None base
    | None, Some (Fetch false false q) => paged None None (option_map (denote d) q) base
    | Some (LimitOffset l o []), Some (Fetch false false q) =>
      paged (option_map (denote d) l) (option_map (denote d) o) (option_map (denote d) q) base
    | _, _ => construct (shape_of n) (collect_children (fun c => [denote d c]) n)
    end
  | _ => construct (shape_of n) (collect_children (fun c => [denote d c]) n)
  end.

(** *** What the two systems document alike *)

(** Types with the same values: PostgreSQL's name and Trino's. *)
Definition same_types : list (DataType * DataType) :=
  [ (DtText, DtVarchar None); (DtInt2 None, DtSmallInt None); (DtInt4 None, DtInteger None);
    (DtInt8 None, DtBigInt None); (DtFloat4, DtReal); (DtFloat8, DtDoublePrecision); (DtBool, DtBoolean);
    (DtVarchar None, DtVarchar None); (DtSmallInt None, DtSmallInt None); (DtInteger None, DtInteger None);
    (DtBigInt None, DtBigInt None); (DtReal, DtReal); (DtDoublePrecision, DtDoublePrecision);
    (DtBoolean, DtBoolean) ].

(** Functions with the same meaning: PostgreSQL's name, the number of arguments,
    and Trino's name. [string_agg] is not among them: Trino's [listagg] wants its
    arguments ordered by a clause of its own. *)
Definition same_functions : list (string * nat * string) :=
  [ ("trunc", 1, "truncate"); ("trunc", 2, "truncate"); ("log", 1, "log10"); ("log", 2, "log");
    ("lower", 1, "lower"); ("upper", 1, "upper"); ("length", 1, "length"); ("abs", 1, "abs");
    ("ceil", 1, "ceil"); ("floor", 1, "floor"); ("sqrt", 1, "sqrt"); ("ln", 1, "ln"); ("power", 2, "power");
    ("coalesce", 2, "coalesce"); ("count", 1, "count"); ("sum", 1, "sum"); ("avg", 1, "avg");
    ("min", 1, "min"); ("max", 1, "max") ]%nat.

(** Where the meanings coincide: the values a cast gives the same result for, and
    the arguments and environments a function does. *)
Record Common := mk_common {
  cast_common : DataType -> U -> Prop;
  call_common : string -> list (Env -> U) -> Env -> Prop
}.

(** The documented correspondence of the two systems: each reads patterns its
    own way; on common values a cast, by [::] or [CAST], gives in Trino under
    Trino's name of the type what it gives in PostgreSQL; on common arguments so
    does a call, whose unquoted name is read in any case; [lower] lower-cases ASCII
    text, and a literal zero counts as zero. *)
Record Corresponds `{UnicodeCase} (common : Common) (pg trino : Dialect) : Prop := {
  pg_rules : like_rules pg = postgres_like;
  trino_rules : like_rules trino = trino_like;
  casts_agree k dt dt' v :
    In (dt, dt') same_types -> k = DoubleColon \/ k = PlainCast -> cast_common common dt v ->
    cast_value trino PlainCast dt' None v = cast_value pg k dt None v;
  calls_agree f count g id id' odbc args args' env :
    In (f, count, g) same_functions ->
    quote_style id = None -> to_lowercase (ident_value id) = f ->
    quote_style id' = None -> to_lowercase (ident_value id') = g ->
    Forall2 same args args' -> call_common common f args' env ->
    call_value trino [NameIdent id'] odbc count args env = call_value pg [NameIdent id] odbc count args' env;
  lower_lowers id e env :
    quote_style id = None -> to_lowercase (ident_value id) = "lower" ->
    (forall text, as_text (denote trino e env) = Some text -> ascii_only text = true) ->
    as_text (denote trino (Function [NameIdent id] false ArgsNone (ArgsList None [ArgUnnamed (ArgExpr e)] []) []) env)
    = to_ascii_lowercase <$> as_text (denote trino e env);
  zero_counts digits long sign env :
    parse_f64 digits = Some (S754_zero sign) -> as_count (denote trino (ValueExpr (NumberLit digits long)) env) = 0%nat
}.

(** Statements within the correspondence: types and functions of the tables on
    common values, no [ILIKE ANY], patterns both systems read alike, and ASCII
    operands of [ILIKE]. *)
Definition portable `{UnicodeCase} (common : Common) (pg : Dialect) (n : Node) : Prop :=
  match n with
  | Cast k e dt fmt =>
    (k = DoubleColon \/ k = PlainCast) /\ fmt = None /\ (exists dt', In (dt, dt') same_types)
    /\ forall env, cast_common common dt (denote pg e env)
  | Function name _ ps args rest =>
    exists id g, name = [NameIdent id] /\ quote_style id = None
      /\ In (to_lowercase (ident_value id), arity args, g) same_functions
      /\ forall env, call_common common (to_lowercase (ident_value id)) (map (denote pg) (ps :: args :: rest)) env
  | ILike _ any e p esc =>
    any = false /\ caseless_escape esc = true
    /\ (forall env text, as_text (denote pg e env) = Some text -> ascii_only text = true)
    /\ forall env pattern, as_text (denote pg p env) = Some pattern ->
         portable_pattern esc pattern = true /\ ascii_only pattern = true
  | Like _ false _ p esc =>
    forall env pattern, as_text (denote pg p env) = Some pattern -> portable_pattern esc pattern = true
  | _ => True
  end.

(** The rewriter's types and names are those of the tables. *)
Lemma normalize_by_table dt dt' : In (dt, dt') same_types -> normalize_data_type dt = dt'.
Proof. simpl. intros H. repeat destruct H as [[= <- <-]|H]; done. Qed.

Lemma rename_by_table f count g :
  In (f, count, g) same_functions ->
  match new_function_name f count with Some name => name = g | None => f = g end.
Proof. simpl. intros H. repeat destruct H as [[= <- <- <-]|H]; done. Qed.

Lemma table_names_ascii f count g : In (f, count, g) same_functions -> ascii_only g = true /\ to_ascii_lowercase g = g.
Proof. simpl. intros H. repeat destruct H as [[= <- <- <-]|H]; done. Qed.

(** ** The proof *)

(** Induction with the hypothesis for everything below a node. *)
Lemma node_deep_ind (P : Node -> Prop) :
  (forall n, (forall c x, In c (children n) -> In x (nodes c) -> P x) -> P n) -> forall n, P n.
Proof.
  intros H n. assert (Hall : forall x, In x (nodes n) -> P x); [|apply Hall, in_nodes; by left].
  induction n as [n IH] using node_ind. rewrite List.Forall_forall in IH. apply all_nodes; eauto.
Qed.

Lemma nodes_trans n x y : In x (nodes n) -> In y (nodes x) -> In y (nodes n).
Proof.
  revert x y. induction n as [n IH] using node_ind. rewrite List.Forall_forall in IH.
  intros x y [->|(c & Hc & Hx)]%in_nodes Hy; [done|]. apply in_nodes. right. eauto.
Qed.

Lemma shape_of_map f n : shape_of (map_children f n) = shape_of n.
Proof. unfold shape_of. by rewrite map_children_compose. Qed.

Lemma collect_meanings d n : collect_children (fun c => [denote d c]) n = map (denote d) (children n).
Proof.
  rewrite collect_children_spec. induction (children n) as [|c l IH]; [done|]. simpl. by rewrite IH.
Qed.

Lemma same_parts (f g : Node -> Env -> U) l : (forall c, In c l -> same (f c) (g c)) -> Forall2 same (map f l) (map g l).
Proof.
  induction l as [|c l IH]; intros Hc; simpl; constructor; [apply Hc; by left|]. apply IH. intros x Hx. apply Hc. by right.
Qed.

(** Parts under options and lists, in the order of the syntax. *)
Definition meanings (d : Dialect) (w : option Node) (b : Node) (ob : option Node) (rest : list Node) : list (Env -> U) :=
  map (denote d) (opt_list w ++ b :: opt_list ob ++ rest).

Lemma denote_query d w b ob lc ft rest :
  denote d (Query w b ob lc ft rest)
  = let base := construct (shape_of (Query w b ob None None rest)) (meanings d w b ob rest) in
    match lc, ft with
    | None, None => base
    | Some (LimitOffset l o []), None => paged (option_map (denote d) l) (option_map (denote d) o) None base
    | None, Some (Fetch false false q) => paged None None (option_map (denote d) q) base
    | Some (LimitOffset l o []), Some (Fetch false false q) =>
      paged (option_map (denote d) l) (option_map (denote d) o) (option_map (denote d) q) base
    | _, _ => construct (shape_of (Query w b ob lc ft rest)) (map (denote d) (children (Query w b ob lc ft rest)))
    end.
Proof.
  unfold meanings. rewrite map_app. cbn [map]. rewrite map_app, <- collect_meanings. by destruct w, ob.
Qed.

Lemma paged_same l o q b l' o' q' b' :
  option_Forall2 same l l' -> option_Forall2 same o o' -> option_Forall2 same q q' -> same b b' ->
  same (paged l o q b) (paged l' o' q' b').
Proof.
  intros Hl Ho Hq Hb env. unfold paged. rewrite (Hb env). do 2 f_equal; (destruct Hl, Ho, Hq; simpl; try done; congruence).
Qed.

(** Fetching a number of rows behind an offset is limiting to that number. *)
Lemma paged_fetch l o b l' o' b' :
  same l l' -> same o o' -> same b b' -> same (paged None (Some o) (Some l) b) (paged (Some l') (Some o') None b').
Proof. intros Hl Ho Hb env. unfold paged. simpl. by rewrite (Hl env), (Ho env), (Hb env). Qed.

(** Behind a limit of zero the offset plays no role. *)
Lemma paged_zero l b l' o' b' :
  (forall env, as_count (l env) = 0%nat) -> same l l' -> same b b' ->
  same (paged (Some l) None None b) (paged (Some l') (Some o') None b').
Proof. intros Hz Hl Hb env. unfold paged. simpl. by rewrite <- (Hl env), Hz, (Hb env). Qed.

(** Paging clauses with a meaning of their own. *)
Definition plain_limit (lc : option Node) : bool :=
  match lc with None | Some (LimitOffset _ _ []) => true | _ => false end.

Definition plain_fetch (ft : option Node) : bool :=
  match ft with None | Some (Fetch false false _) => true | _ => false end.

Lemma plain_limit_inv lc : plain_limit lc = true -> lc = None \/ exists l o, lc = Some (LimitOffset l o []).
Proof. destruct lc as [[]|]; try done; [|by left]. destruct limit_by; [|done]. eauto. Qed.

Lemma plain_fetch_inv ft : plain_fetch ft = true -> ft = None \/ exists q, ft = Some (Fetch false false q).
Proof. destruct ft as [[]|]; try done; [|by left]. destruct with_ties, percent; try done. eauto. Qed.

Lemma denote_other_query d w b ob lc ft rest :
  plain_limit lc && plain_fetch ft = false ->
  let n := Query w b ob lc ft rest in denote d n = construct (shape_of n) (map (denote d) (children n)).
Proof.
  intros Hp n. unfold n. rewrite denote_query. cbv zeta.
  destruct lc as [[]|]; try done; [destruct limit_by; [|done]|]; (destruct ft as [[]|]; try done);
    destruct with_ties, percent; done.
Qed.

Lemma limit_post_other_query w b ob lc ft rest :
  plain_limit lc && plain_fetch ft = false -> limit_post_visit (Query w b ob lc ft rest) = Query w b ob lc ft rest.
Proof.
  intros Hp. destruct lc as [[]|]; try done. simpl. destruct limit as [l|], offset as [o|], limit_by, ft; try done.
Qed.

Section Correctness.
Context `{Case : UnicodeCase}.

Abbreviation R := rewrite_statement.

Lemma plain_limit_rewritten lc : plain_limit (option_map R lc) = plain_limit lc.
Proof.
  destruct lc as [n|]; [|done]. simpl. destruct n; rewrite rewrite_unfold; try done; unfold rewrite_node; simpl.
  - repeat break_match; done.
  - repeat break_match; done.
  - by destruct limit_by.
Qed.

Lemma plain_fetch_rewritten ft : plain_fetch (option_map R ft) = plain_fetch ft.
Proof.
  destruct ft as [n|]; [|done]. simpl. destruct n; rewrite rewrite_unfold; try done; unfold rewrite_node; simpl;
    repeat break_match; done.
Qed.

Lemma arg_count_rewritten n : arg_count (R n) = arg_count n.
Proof. unfold rewrite_statement. by rewrite arg_count_limit, arg_count_functions, arg_count_ilike, arg_count_casts. Qed.

Context (common : Common) (pg trino : Dialect) (C : Corresponds common pg trino).

Definition agrees (n : Node) : Prop := same (denote trino (R n)) (denote pg n).

Lemma agree_parts l : (forall c, In c l -> agrees c) -> Forall2 same (map (denote trino) (map R l)) (map (denote pg) l).
Proof. intros H. rewrite map_map. by apply same_parts. Qed.

Lemma agree_option o :
  (forall c, In c (opt_list o) -> agrees c) ->
  option_Forall2 same (option_map (denote trino) (option_map R o)) (option_map (denote pg) o).
Proof. destruct o as [c|]; intros H; simpl; constructor. apply H. by left. Qed.

(** The two tests of the rewriter on concrete syntax. *)
Lemma zero_literal_counts e env : is_zero_literal e = true -> as_count (denote trino e env) = 0%nat.
Proof.
  unfold is_zero_literal. destruct e as [| |[digits long| | |]| | | | | | | | | | | | | | | | | | | | | | | | | |]; try done.
  destruct (parse_f64 digits) as [[sign| | |]|] eqn:E; try done. intros _. by eapply (zero_counts _ _ _ C).
Qed.

Lemma lower_call_lowers e env :
  (forall text, as_text (denote trino e env) = Some text -> ascii_only text = true) ->
  as_text (denote trino (make_lower_call e) env) = to_ascii_lowercase <$> as_text (denote trino e env).
Proof. apply (lower_lowers _ _ _ C); [done|]. by rewrite to_lowercase_ascii. Qed.

(** A construct the rewriter keeps, with the generic meaning. *)
Lemma agree_kept n :
  R n = map_children R n ->
  (forall d, denote d n = construct (shape_of n) (map (denote d) (children n))) ->
  (forall d, denote d (map_children R n)
             = construct (shape_of (map_children R n)) (map (denote d) (children (map_children R n)))) ->
  (forall c, In c (children n) -> agrees c) -> agrees n.
Proof.
  intros E H1 H2 Hc. unfold agrees. rewrite E, H1, H2, shape_of_map, children_map.
  apply construct_proper. by apply agree_parts.
Qed.

Lemma agree_query_base w b ob rest :
  (forall c, In c (opt_list w ++ b :: opt_list ob ++ rest)%list -> agrees c) ->
  same (construct (shape_of (Query (option_map R w) (R b) (option_map R ob) None None (map R rest)))
          (meanings trino (option_map R w) (R b) (option_map R ob) (map R rest)))
       (construct (shape_of (Query w b ob None None rest)) (meanings pg w b ob rest)).
Proof.
  intros Hc. rewrite <- (shape_of_map R (Query w b ob None None rest)).
  apply construct_proper. unfold meanings.
  replace (opt_list (option_map R w) ++ R b :: opt_list (option_map R ob) ++ map R rest)%list
    with (map R (opt_list w ++ b :: opt_list ob ++ rest)%list); [by apply agree_parts|].
  rewrite map_app. simpl. rewrite map_app. by destruct w, ob.
Qed.

(** Moving the limit behind the offset. *)
Lemma agree_paged w b ob l o ft rest :
  plain_fetch ft = true ->
  (forall c, In c (opt_list w ++ b :: opt_list ob ++ rest)%list -> agrees c) ->
  (forall c, In c (opt_list l ++ opt_list o)%list -> agrees c) ->
  (forall q c, ft = Some (Fetch false false q) -> In c (opt_list q) -> agrees c) ->
  agrees (Query w b ob (Some (LimitOffset l o [])) ft rest).
Proof.
  intros Hf Hb Hlo Hq. pose proof (agree_query_base w b ob rest Hb) as Hbase.
  assert (Hl : option_Forall2 same (option_map (denote trino) (option_map R l)) (option_map (denote pg) l)).
  { apply agree_option. intros c Hc. apply Hlo, in_or_app. by left. }
  assert (Ho : option_Forall2 same (option_map (denote trino) (option_map R o)) (option_map (denote pg) o)).
  { apply agree_option. intros c Hc. apply Hlo, in_or_app. by right. }
  unfold agrees. rewrite rewrite_query. cbn [map_children option_map].
  rewrite (rewrite_unfold (LimitOffset l o [])). cbn [map_children map].
  change (rewrite_node (LimitOffset (option_map R l) (option_map R o) []))
    with (LimitOffset (option_map R l) (option_map R o) []).
  destruct (plain_fetch_inv ft Hf) as [->|(q & ->)].
  - destruct l as [l|], o as [o|]; cbn [option_map limit_post_visit]; try (rewrite !denote_query; by apply paged_same).
    simpl in Hl, Ho. inversion_clear Hl as [? ? Hl'|]. inversion_clear Ho as [? ? Ho'|].
    destruct (is_zero_literal (R l)) eqn:Ez; rewrite !denote_query; cbv zeta; cbn [option_map];
      [apply paged_zero|apply paged_fetch]; try done. intros env. by apply zero_literal_counts.
  - cbn [option_map]. rewrite (rewrite_unfold (Fetch false false q)). cbn [map_children].
    change (rewrite_node (Fetch false false (option_map R q))) with (Fetch false false (option_map R q)).
    replace (limit_post_visit _) with
      (Query (option_map R w) (R b) (option_map R ob) (Some (LimitOffset (option_map R l) (option_map R o) []))
         (Some (Fetch false false (option_map R q))) (map R rest)) by (by destruct l, o).
    rewrite !denote_query. apply paged_same; try done. apply agree_option. intros c. by apply Hq.
Qed.

Lemma agree_query w b ob lc ft rest :
  (forall c x, In c (children (Query w b ob lc ft rest)) -> In x (nodes c) -> agrees x) ->
  agrees (Query w b ob lc ft rest).
Proof.
  intros IH.
  assert (Hc : forall c, In c (children (Query w b ob lc ft rest)) -> agrees c).
  { intros c Hc. apply (IH c c Hc), in_nodes. by left. }
  assert (Hb : forall c, In c (opt_list w ++ b :: opt_list ob ++ rest)%list -> agrees c).
  { intros c Hin. apply Hc. simpl. rewrite in_app_iff in *. simpl in *. rewrite !in_app_iff in *. tauto. }
  assert (Hft : forall q c, ft = Some (Fetch false false q) -> In c (opt_list q) -> agrees c).
  { intros q c -> Hin. apply (IH (Fetch false false q)).
    - simpl. rewrite !in_app_iff. simpl. rewrite !in_app_iff. simpl. tauto.
    - apply in_nodes. right. exists c. split; [done|]. apply in_nodes. by left. }
  destruct (plain_limit lc && plain_fetch ft) eqn:Ep.
  - apply andb_true_iff in Ep as [Hl Hf]. destruct (plain_limit_inv lc Hl) as [->|(l & o & ->)].
    + destruct (plain_fetch_inv ft Hf) as [->|(q & ->)]; unfold agrees; rewrite rewrite_query;
        cbn [map_children option_map limit_post_visit].
      * rewrite !denote_query. by apply agree_query_base.
      * rewrite (rewrite_unfold (Fetch false false q)). cbn [map_children].
        change (rewrite_node (Fetch false false (option_map R q))) with (Fetch false false (option_map R q)).
        rewrite !denote_query. apply paged_same; [constructor|constructor| |by apply agree_query_base].
        apply agree_option. intros c. by apply Hft.
    + apply agree_paged; try done. intros c Hin. apply (IH (LimitOffset l o [])).
      * simpl. rewrite !in_app_iff. simpl. rewrite !in_app_iff. simpl. tauto.
      * apply in_nodes. right. exists c. rewrite in_app_iff in Hin. simpl. rewrite !in_app_iff.
        split; [tauto|]. apply in_nodes. by left.
  - assert (Ep' : plain_limit (option_map R lc) && plain_fetch (option_map R ft) = false).
    { by rewrite plain_limit_rewritten, plain_fetch_rewritten. }
    apply agree_kept; [|intros d; by apply denote_other_query|intros d; by apply denote_other_query|done].
    rewrite rewrite_query. by apply limit_post_other_query.
Qed.

(** The name a call has after the rewriting is Trino's. *)
Lemma function_renamed id odbc ps args rest g :
  quote_style id = None -> In (to_lowercase (ident_value id), arg_count args, g) same_functions ->
  exists id', function_post_visit (Function [NameIdent id] odbc ps args rest) = Function [NameIdent id'] odbc ps args rest
              /\ quote_style id' = None /\ to_lowercase (ident_value id') = g.
Proof.
  intros Hq Hin. pose proof (rename_by_table _ _ _ Hin) as Hn. cbn [function_post_visit].
  destruct (new_function_name _ _) as [name|]; [subst name|by exists id].
  eexists. split; [reflexivity|]. split; [done|]. cbn [ident_value].
  destruct (table_names_ascii _ _ _ Hin) as [Ha Hl]. by rewrite to_lowercase_ascii.
Qed.

Lemma agree_function name odbc ps args rest :
  portable common pg (Function name odbc ps args rest) ->
  (forall c, In c (ps :: args :: rest) -> agrees c) -> agrees (Function name odbc ps args rest).
Proof.
  intros (id & g & -> & Hq & Hin & Hcom) Hc env. rewrite rewrite_function.
  destruct (function_renamed id odbc (R ps) (R args) (map R rest) g) as (id' & -> & Hq' & Hg);
    [done|by rewrite arg_count_rewritten|].
  cbn [denote]. rewrite <- !arg_count_arity, arg_count_rewritten. eapply (calls_agree _ _ _ C); [exact Hin|done..| |apply Hcom].
  apply (agree_parts (ps :: args :: rest)), Hc.
Qed.

Lemma agree_cast k e dt fmt :
  portable common pg (Cast k e dt fmt) -> agrees e -> agrees (Cast k e dt fmt).
Proof.
  intros (Hk & -> & [dt' Hin] & Hcom) He env. rewrite rewrite_cast. cbn [cast_post_visit denote].
  rewrite (He env), (normalize_by_table _ _ Hin).
  replace (if decide (k = DoubleColon) then PlainCast else k) with PlainCast by (by destruct Hk as [-> | ->]).
  by apply (casts_agree _ _ _ C).
Qed.

Lemma agree_like negated any e p esc :
  portable common pg (Like negated any e p esc) -> agrees e -> agrees p -> agrees (Like negated any e p esc).
Proof.
  intros Hp He Hpat. destruct any.
  - apply agree_kept; [by rewrite rewrite_unfold|intros d; by rewrite <- collect_meanings..|].
    intros c [<-|[<-|[]]]; done.
  - intros env. rewrite rewrite_unfold. cbn [map_children rewrite_node cast_post_visit].
    change (denote trino (rewrite_node (Like negated false (R e) (R p) esc)) env)
      with (truth_of trino Ascii.eqb negated esc (denote trino (R e)) (denote trino (R p)) env).
    cbn [denote]. unfold truth_of. rewrite (He env), (Hpat env), (trino_rules _ _ _ C), (pg_rules _ _ _ C).
    f_equal. apply portable_like. apply Hp.
Qed.

Lemma agree_ilike negated any e p esc :
  portable common pg (ILike negated any e p esc) -> agrees e -> agrees p -> agrees (ILike negated any e p esc).
Proof.
  intros (-> & Hesc & Ht & Hp) He Hpat env. rewrite rewrite_ilike. cbn [ilike_post_visit].
  change (truth_of trino Ascii.eqb negated esc (denote trino (make_lower_call (R e))) (denote trino (make_lower_call (R p))) env
          = truth_of pg same_ignoring_case negated esc (denote pg e) (denote pg p) env).
  unfold truth_of. rewrite !lower_call_lowers.
  - rewrite (He env), (Hpat env), (trino_rules _ _ _ C), (pg_rules _ _ _ C), lower_like by done.
    f_equal. apply portable_like. apply Hp.
  - intros pattern. rewrite (Hpat env). apply Hp.
  - intros text. rewrite (He env). apply Ht.
Qed.

Lemma rewriting_agrees stmt : (forall x, In x (nodes stmt) -> portable common pg x) -> agrees stmt.
Proof.
  induction stmt as [n IH] using node_deep_ind. intros Hp.
  assert (Hdeep : forall c x, In c (children n) -> In x (nodes c) -> agrees x).
  { intros c x Hc Hx. apply (IH c x Hc Hx). intros y Hy. apply Hp. apply in_nodes. right. exists c.
    split; [done|]. by apply (nodes_trans c x y). }
  assert (Hc : forall c, In c (children n) -> agrees c).
  { intros c Hc. apply (Hdeep c c Hc), in_nodes. by left. }
  assert (Hn : portable common pg n) by (apply Hp, in_nodes; by left).
  destruct n as [ | | |k e dt fmt|neg any e p esc|neg any e p esc|name odbc ps args rest| | | | | | | | | |w b ob lc ft rest| | | | | | | | | | | | ];
    try (apply agree_kept; [by rewrite rewrite_unfold|intros d; by rewrite <- collect_meanings..|done]).
  - apply agree_cast; [done|apply Hc; by left].
  - apply agree_ilike; [done|apply Hc; by left|apply Hc; by right; left].
  - apply agree_like; [done|apply Hc; by left|apply Hc; by right; left].
  - by apply agree_function.
  - by apply agree_query.
Qed.

End Correctness.
End Meaning.

Arguments Dialect : clear implicits.
Arguments Common : clear implicits.
