(* ===== verification/SqlEval.v ===== *)
(** * Rewriting from text to rows

    The rewriting keeps the meaning of the text a client sends
    ([rewrite_keeps_meaning]) and rewriting its own output changes nothing
    ([rewrite_idempotent]). A small evaluator of queries over a table is the
    model in which the theorem is applied to a query. *)

From S2P Require Import Prelude RustStr RustStrFacts RustFloat Sql SqlText Rewrite Like RewriteMeaning.

Local Open Scope string_scope.

(** ** The text Trino receives *)



(** C20: Rewriting is idempotent: where the printed statement is read back as it
    was, rewriting the rewritten text changes nothing. *)
Theorem rewrite_idempotent `{UnicodeCase} `{SqlParser} sql :
  (forall stmt, parse_sql sql = Some [stmt] ->
     parse_sql (to_string (rewrite_statement stmt)) = Some [rewrite_statement stmt]) ->
  rewrite_sql (rewrite_sql sql) = rewrite_sql sql.
Proof.
  intros Hback. unfold rewrite_sql at 2 3. destruct (parse_sql sql) as [[|stmt [|]]|] eqn:E;
    try (unfold rewrite_sql; by rewrite E).
  unfold rewrite_sql. rewrite (Hback stmt) by done. by rewrite rewrite_statement_idempotent.
Qed.

#[local] Existing Instance ascii_only_case.
#[local] Existing Instance sql_text.

Definition paged_ilike : string :=
  "SELECT name::text AS n FROM t WHERE name ILIKE '%FOO%' AND trunc(size) = 3 ORDER BY n LIMIT 2 OFFSET 1".

Lemma rewrite_idempotent_witness :
  rewrite_sql (rewrite_sql paged_ilike)
  = "SELECT CAST(name AS VARCHAR) AS n FROM t WHERE lower(name) LIKE lower('%FOO%') AND truncate(size) = 3 ORDER BY n OFFSET 1 FETCH FIRST 2 ROWS ONLY".
Proof.
  rewrite (rewrite_idempotent paged_ilike).
  - vm_compute. reflexivity.
  - intros stmt E. vm_compute in E. injection E as <-. vm_compute. reflexivity.
Defined.

(** ** An evaluator *)

#[local] Set Warnings "-register-all".

(** Values, rows as named values, and the bindings of the current row. *)
Inductive Val :=
| VNull
| VStr (s : string)
| VNat (n : nat)
| VTruth (b : bool)
| VTable (rows : list (list (string * Val))).

Abbreviation TableRow := (list (string * Val)).
Abbreviation Bindings := TableRow.

Fixpoint lookup_name (name : string) (row : TableRow) : Val :=
  match row with
  | [] => VNull
  | (k, v) :: rest => if eq_ignore_ascii_case k name then v else lookup_name name rest
  end.

(** The evaluator knows ASCII texts only. *)
Definition text_of_val (v : Val) : option string :=
  match v with VStr s => if ascii_only s then Some s else None | _ => None end.

Definition val_of_truth (o : option bool) : Val := match o with Some b => VTruth b | None => VNull end.
Definition count_of_val (v : Val) : nat := match v with VNat n => n | _ => 0%nat end.
Definition rows_of_val (v : Val) : list TableRow := match v with VTable rows => rows | _ => [] end.
Definition is_true_val (v : Val) : bool := match v with VTruth b => b | _ => false end.

Definition equal_values (a b : Val) : Val :=
  match a, b with
  | VStr s, VStr t => VTruth (String.eqb s t)
  | VNat n, VNat m => VTruth (n =? m)%nat
  | _, _ => VNull
  end.

Definition literal_value (l : Literal) : Val :=
  match l with
  | NumberLit n long => VNat (eval_number (ValueExpr (NumberLit n long)))
  | SingleQuotedString s => VStr s
  | NullLit => VNull
  | OtherLit t => if String.eqb t "true" then VTruth true else VNull
  end.

(** The columns the items of a [SELECT] give for a row; the meaning of an item is
    a table of one row. *)
Definition project (items : list (Bindings -> Val)) (row : TableRow) : TableRow :=
  concat (map (fun item : Bindings -> Val => concat (rows_of_val (item row))) items).

(** Insertion sort by a text key. *)
Fixpoint insert_by (key : TableRow -> string) (r : TableRow) (l : list TableRow) : list TableRow :=
  match l with
  | [] => [r]
  | x :: l' => if String.leb (key r) (key x) then r :: l else x :: insert_by key r l'
  end.

Definition sort_by (key : TableRow -> string) (l : list TableRow) : list TableRow :=
  fold_right (insert_by key) [] l.

(** Meanings of the parts by position. *)
Definition part_at (parts : list (Bindings -> Val)) (i : nat) : Bindings -> Val :=
  default (fun _ => VNull) (parts !! i).

(** The table of the example; other tables are empty. *)
Definition the_table : list TableRow :=
  [ [("name", VStr "Foobar"); ("size", VNat 3)]; [("name", VStr "bar"); ("size", VNat 3)];
    [("name", VStr "xFOO"); ("size", VNat 3)]; [("name", VStr "afoo"); ("size", VNat 3)];
    [("name", VStr "zfoo"); ("size", VNat 4)]; [("name", VStr "nofoo"); ("size", VNat 3)] ].

Definition relation_rows (name : ObjectName) : Val :=
  match name with
  | [NameIdent id] => VTable (if String.eqb (ident_value id) "t" then the_table else [])
  | _ => VTable []
  end.

(** One table, a condition, a projection: the rows of a [SELECT]. *)
Definition select_rows (items : list (Bindings -> Val)) (table : Bindings -> Val)
    (condition : option (Bindings -> Val)) (env : Bindings) : Val :=
  let keeps row := match condition with Some c => is_true_val (c row) | None => true end in
  VTable (map (project items) (List.filter keeps (rows_of_val (table env)))).

Definition eval_construct (shape : Node) (parts : list (Bindings -> Val)) (env : Bindings) : Val :=
  match shape with
  | Identifier id => lookup_name (ident_value id) env
  | ValueExpr l => literal_value l
  | OtherExpr op _ =>
    if String.eqb op "=" then equal_values (part_at parts 0 env) (part_at parts 1 env)
    else if String.eqb op "AND" then VTruth (is_true_val (part_at parts 0 env) && is_true_val (part_at parts 1 env))
    else part_at parts 0 env
  | ArgsList _ _ _ => VTable [map (fun p : Bindings -> Val => ("", p env)) parts]
  | Wildcard => VTable [env]
  | UnnamedExpr _ => VTable [[("?column?", part_at parts 0 env)]]
  | ExprWithAlias _ a => VTable [[(ident_value a, part_at parts 0 env)]]
  | Relation name => relation_rows name
  | Select projection from selection _ _ _ _ _ _ _ =>
    let k := length projection in
    let condition := match selection with Some _ => Some (part_at parts (k + length from)) | None => None end in
    select_rows (take k parts) (part_at parts k) condition env
  | Query _ _ order_by _ _ _ =>
    match order_by with
    | Some _ =>
      VTable (sort_by (fun row => default "" (text_of_val (part_at parts 1 row))) (rows_of_val (part_at parts 0 env)))
    | None => part_at parts 0 env
    end
  | _ => part_at parts 0 env
  end.

Lemma part_at_same l l' i env : Forall2 same l l' -> part_at l i env = part_at l' i env.
Proof. rewrite Forall2_lookup. intros H. unfold part_at. by destruct (H i) as [f g Hfg|]; simpl. Qed.

Lemma project_same l l' row : Forall2 same l l' -> project l row = project l' row.
Proof.
  intros H. unfold project. induction H as [|f g l l' Hfg H IH]; [done|]. simpl. by rewrite IH, (Hfg row).
Qed.

Lemma sort_by_ext f g l : (forall r, f r = g r) -> sort_by f l = sort_by g l.
Proof.
  intros H. induction l as [|r l IH]; [done|]. simpl. rewrite IH. clear IH. induction (sort_by g l) as [|x k IHk]; [done|].
  simpl. rewrite !H. destruct (String.leb _ _); [done|]. by rewrite IHk.
Qed.

Lemma select_rows_same l l' t t' c c' env :
  Forall2 same l l' -> same t t' -> option_Forall2 same c c' -> select_rows l t c env = select_rows l' t' c' env.
Proof.
  intros Hl Ht Hc. unfold select_rows. rewrite (Ht env).
  rewrite (List.map_ext _ (project l')) by (intros row; by apply project_same). do 2 f_equal.
  apply List.filter_ext. intros row. destruct Hc as [f g Hfg|]; [|done]. by rewrite (Hfg row).
Qed.

#[local] Instance eval_construct_proper shape : Proper (Forall2 same ==> same) (eval_construct shape).
Proof.
  intros l l' H env. assert (Hp : forall i e, part_at l i e = part_at l' i e) by (intros; by apply part_at_same).
  destruct shape; simpl; rewrite ?Hp; try done.
  - f_equal. f_equal. induction H as [|f g l l' Hfg H IH]; [done|]. simpl. rewrite (Hfg env). f_equal. apply IH.
    intros. by apply part_at_same.
  - destruct order_by; [|done]. f_equal. apply sort_by_ext. intros r. by rewrite Hp.
  - apply select_rows_same; [by apply Forall2_take|intros e; apply Hp|]. destruct selection; constructor. intros e. apply Hp.
Qed.

#[local] Instance evaluator : SqlModel Bindings Val TableRow :=
  {| as_text := text_of_val; of_truth := val_of_truth; as_count := count_of_val; rows_of := rows_of_val;
     of_rows := VTable; construct := eval_construct; construct_proper := eval_construct_proper |}.

(** ** The two systems *)












