(* ===== verification/Pipeline.v ===== *)
(** * The query pipeline (src/src/query_pipeline.rs, src/src/query_simple.rs)

    Splitting a batch, and the route of one statement: intercept, dynamic
    catalog, rewrite, Trino. *)

From S2P Require Import Prelude RustStr PgWire Config ErrorMapping Trino World Response Session.
From S2P Require Import TypeMap RustFloat Values TrinoStream Sql QueryInspection Catalog.
From S2P Require Import InfoSchema Startup Intercept Rewrite.

Local Open Scope string_scope.
Local Open Scope rust_scope.

Section Pipeline.
Context `{Case : UnicodeCase} `{Chr : Chrono} `{Dec : Decimals} `{Wir : !Wire} `{Oids : TypeOids}.
Context `{Sql : SqlParser} {Srv : Type} `{Api : TrinoApi Srv}.

(** Fuel of the polling loop of each statement. *)
Variable fuel : nat.

Definition split_statements (query : string) : list string :=
  match parse_sql query with
  | Some ((_ :: _ :: _) as stmts) => map to_string stmts
  | _ => [query]
  end.

Definition process_single_statement (query : string) (trino_client : TrinoClient) (config : Config)
    (active_query_id : option ActiveQueryId) (result_format : option Format) (client_is_secure : bool)
  : Task (World Srv) (list Response) :=
  let parsed_query := parsed_query_new query in
  match try_intercept query parsed_query (trino_catalog config) (trino_schema config) client_is_secure with
  | Some result => task (lift result)
  | None =>
    match handle_dynamic_catalog_query parsed_query trino_client with
    | Some handler => task handler
    | None =>
      let query := default query (rewrite_info_schema_columns query parsed_query) in
      let rewritten := rewrite_sql query in
      let* answer := execute_trino_query fuel trino_client rewritten active_query_id result_format in
      let (schema, row_stream) := (answer : list FieldInfo * RowStream) in
      match schema with
      | [] =>
        let* _ := task (modify (drop_stream row_stream)) in
        task (ret [RExecution "OK"])
      | _ => task (ret [RQuery schema (Streaming row_stream)])
      end
    end
  end.

(** The loop of [process_query] over the statements of a batch. An error that
    is no user error drops the responses collected so far; their streams have
    not been polled yet, so that no guard runs. *)
Fixpoint run_batch (pieces : list string) (out : list Response) (trino_client : TrinoClient)
    (config : Config) (active_query_id : option ActiveQueryId) (result_format : option Format)
    (client_is_secure : bool) : Task (World Srv) (list Response) :=
  match pieces with
  | [] => task (ret out)
  | stmt :: rest =>
    let* result := attempt (process_single_statement stmt trino_client config active_query_id result_format
                              client_is_secure) in
    match result with
    | Ok responses =>
      run_batch rest (out ++ responses)%list trino_client config active_query_id result_format client_is_secure
    | Err (UserError info) => task (ret (out ++ [RError info])%list)
    | Err other => task (throw other)
    end
  end.

Definition process_query (query : string) (trino_client : TrinoClient) (config : Config)
    (active_query_id : option ActiveQueryId) (result_format : option Format) (client_is_secure : bool)
  : Task (World Srv) (list Response) :=
  let pieces := split_statements query in
  if (length pieces <=? 1)%nat
  then process_single_statement query trino_client config active_query_id result_format client_is_secure
  else run_batch pieces [] trino_client config active_query_id result_format client_is_secure.

Definition connection_state_missing : PgWireError := ApiError "Connection state not found".

(** [SimpleQueryHandler::do_query]: always text format. *)
Definition simple_do_query (conn_state : option ConnectionState) (client_is_secure : bool) (query : string)
  : Task (World Srv) (list Response) :=
  match conn_state with
  | None => task (throw connection_state_missing)
  | Some cs =>
    process_query query (Session.trino_client cs) (Session.config cs) (Some (Session.active_query_id cs))
      None client_is_secure
  end.

End Pipeline.
