(* ===== verification/PipelineFacts.v ===== *)
(** * Theorems on the pipeline (src/src/query_pipeline.rs) *)

From S2P Require Import Prelude RustStr PgWire Config ErrorMapping Trino World Response Session.
From S2P Require Import TypeMap RustFloat Values ValuesFacts TrinoStream TrinoStreamFacts Sql SqlText.
From S2P Require Import QueryInspection Catalog CatalogFacts InfoSchema Startup Intercept.
From S2P Require Import InterceptFacts Rewrite Pipeline.

Local Open Scope string_scope.
Local Open Scope rust_scope.

Section Facts.
Context `{Case : UnicodeCase} `{Chr : Chrono} `{Dec : Decimals} `{Wir : !Wire} `{Oids : TypeOids}.
Context `{Sql : SqlParser} {Srv : Type} `{Api : TrinoApi Srv}.
Variable fuel : nat.
Variables (client : TrinoClient) (cfg : Config) (slot : option ActiveQueryId) (fmt : option Format)
          (secure : bool).
Implicit Types w : World Srv.

Abbreviation run1 := (fun stmt => process_single_statement fuel stmt client cfg slot fmt secure).

(** ** Batches *)

(** Statements that all succeed, one after the other, and their responses. *)
Inductive runs_ok : list string -> World Srv -> list Response -> World Srv -> Prop :=
| runs_nil w : runs_ok [] w [] w
| runs_cons stmt rest w r w1 rs w2 :
    run1 stmt w = Some (Ok r, w1) -> runs_ok rest w1 rs w2 ->
    runs_ok (stmt :: rest) w (r ++ rs)%list w2.

Lemma run_batch_ok before rest w rs w1 out :
  runs_ok before w rs w1 ->
  run_batch fuel (before ++ rest) out client cfg slot fmt secure w
  = run_batch fuel rest (out ++ rs) client cfg slot fmt secure w1.
Proof.
  intros Hr. revert out. induction Hr as [w|stmt before w r w1 rs w2 Hs Hr IH]; intros out; simpl.
  - by rewrite app_nil_r.
  - rewrite run_await, run_attempt, Hs, IH. by rewrite <- app_assoc.
Qed.

(** C11: A batch behaves as PostgreSQL's simple-query protocol asks. The statements
    run in order, one response list each. At the first statement that fails with
    a user error the batch stops: the responses so far are kept, the error is
    the last response, and no later statement is run. An error that is fatal to
    the connection is propagated instead. *)
Theorem batch_stops_at_first_error query stmts w :
  parse_sql query = Some stmts -> (2 <= length stmts)%nat ->
  (forall rs w', runs_ok (map to_string stmts) w rs w' ->
     process_query fuel query client cfg slot fmt secure w = Some (Ok rs, w'))
  /\ (forall before bad rest rs w1 e w2,
        map to_string stmts = (before ++ bad :: rest)%list ->
        runs_ok before w rs w1 -> run1 bad w1 = Some (Err e, w2) ->
        process_query fuel query client cfg slot fmt secure w
        = match e with
          | UserError info => Some (Ok (rs ++ [RError info])%list, w2)
          | _ => Some (Err e, w2)
          end).
Proof.
  intros Hp Hl. unfold process_query, split_statements. rewrite Hp.
  destruct stmts as [|s1 [|s2 stmts]]; simpl in Hl; try lia.
  set (l := map to_string (s1 :: s2 :: stmts)).
  assert (Hlen : (length l <=? 1)%nat = false) by done. rewrite Hlen. clear Hlen. split.
  - intros rs w' Hr. pose proof (run_batch_ok l [] w rs w' [] Hr) as E. rewrite app_nil_r in E. by rewrite E.
  - intros before bad rest rs w1 e w2 El Hr Hb. rewrite El, (run_batch_ok before (bad :: rest) w rs w1 [] Hr).
    cbn [run_batch app]. rewrite run_await, run_attempt, Hb. by destruct e.
Qed.

(** ** Submissions *)

(** What a task may add to the log of submissions. *)
Definition submits_at_most (n : nat) {A} (t : Task (World Srv) A) : Prop :=
  forall w r w', t w = Some (r, w') ->
    exists l, submitted w' = (submitted w ++ l)%list /\ (length l <= n)%nat
              /\ Forall (fun s => fst s = client) l.

Lemma submits_none {A} (t : Task (World Srv) A) :
  (forall w r w', t w = Some (r, w') -> submitted w' = submitted w) -> submits_at_most 0 t.
Proof. intros H w r w' E. exists []. rewrite app_nil_r. eauto. Qed.

Lemma submits_await n m {A B} (c : Task (World Srv) A) (k : A -> Task (World Srv) B) :
  submits_at_most n c -> (forall a, submits_at_most m (k a)) -> submits_at_most (n + m) (await c k).
Proof.
  intros Hc Hk w r w' E. rewrite run_await in E. destruct (c w) as [[[a|e] w1]|] eqn:Ec; [| |done].
  - destruct (Hc _ _ _ Ec) as (l1 & E1 & H1 & F1). destruct (Hk a _ _ _ E) as (l2 & E2 & H2 & F2).
    exists (l1 ++ l2)%list. rewrite E2, E1, app_assoc, length_app. split; [done|]. split; [lia|].
    by apply Forall_app.
  - injection E as <- <-. destruct (Hc _ _ _ Ec) as (l1 & E1 & H1 & F1). exists l1. split; [done|]. split; [lia|done].
Qed.

Lemma submits_weaken n m {A} (t : Task (World Srv) A) :
  (n <= m)%nat -> submits_at_most n t -> submits_at_most m t.
Proof. intros Hl Ht w r w' E. destruct (Ht _ _ _ E) as (l & H1 & H2 & H3). exists l. split; [done|]. split; [lia|done]. Qed.

Lemma poll_columns_submits f columns rows next_uri :
  submits_at_most 0 (poll_columns f client slot columns rows next_uri).
Proof.
  apply submits_none. revert columns rows next_uri.
  induction f as [|f IH]; intros [|col columns] rows [url|] w r w'; cbn [poll_columns]; unfold_task;
    try (by intros [= <- <-]); try done.
  unfold client_get_next. destruct (trino_get_next _ _ _) as [[p|e] s].
  - destruct (result_error p).
    + destruct slot; simpl; by intros [= <- <-].
    + intros E. apply IH in E. done.
  - destruct slot; simpl; by intros [= <- <-].
Qed.

Lemma execute_submits sql f : submits_at_most 1 (execute_trino_query f client sql slot fmt).
Proof.
  unfold execute_trino_query. apply (submits_await 1 0).
  { intros w r w'. rewrite run_task. unfold client_get. destruct (trino_get _ _ _) as [p s]. intros [= <- <-].
    exists [(client, sql)]. split; [done|]. split; [done|]. by constructor. }
  intros [p|e]; [|apply submits_none; by intros w r w' [= <- <-]].
  apply (submits_await 0 0).
  { apply submits_none. intros w r w'. rewrite run_task. destruct slot; by intros [= <- <-]. }
  intros _. destruct (result_error p).
  - apply (submits_await 0 0); [|intros _]; apply submits_none; intros w r w'; rewrite run_task;
      [destruct slot|]; by intros [= <- <-].
  - apply (submits_await 0 0); [apply poll_columns_submits|]. intros [[cols rows] nu].
    apply submits_none. by intros w r w' [= <- <-].
Qed.

Lemma dynamic_submits pq handler :
  handle_dynamic_catalog_query pq client = Some handler -> submits_at_most 1 (task handler).
Proof.
  unfold handle_dynamic_catalog_query. intros E w r w' Hw. rewrite run_task in Hw. injection Hw as Hw.
  repeat break_match; simplify_eq; revert Hw; unfold respond_pg_class, respond_pg_attribute, client_get_all;
    unfold_io; destruct (trino_get_all _ _ _) as [[rows|e] s]; intros [= <- <-]; eexists [_];
    repeat split; try done; by constructor.
Qed.

Lemma clear_slot_submitted l w : submitted (clear_slot l w) = submitted w.
Proof. by destruct l. Qed.

(** C21: A statement is submitted to Trino at most once, and only through its own
    connection's client, whatever route it takes and whatever fails. *)
Theorem one_submission_per_statement query w r w' :
  process_single_statement fuel query client cfg slot fmt secure w = Some (r, w') ->
  exists l, submitted w' = (submitted w ++ l)%list /\ (length l <= 1)%nat
            /\ Forall (fun s => fst s = client) l.
Proof.
  revert w r w'. fold (submits_at_most 1 (run1 query)). unfold process_single_statement.
  destruct (try_intercept _ _ _ _ _) as [res|].
  { apply (submits_weaken 0); [lia|]. apply submits_none. by intros w r w' [= <- <-]. }
  destruct (handle_dynamic_catalog_query _ _) as [h|] eqn:Eh; [by eapply dynamic_submits|].
  apply (submits_await 1 0); [apply execute_submits|]. intros [schema stream].
  destruct schema.
  - apply (submits_await 0 0); [|intros _; apply submits_none; by intros w r w' [= <- <-]].
    apply submits_none. intros w r w' [= <- <-]. unfold drop_stream.
    destruct (phase stream); rewrite ?clear_slot_submitted; done.
  - apply submits_none. by intros w r w' [= <- <-].
Qed.

(** ** A batch the parser refuses *)

(** A string that does not parse is one statement, and the commands are matched
    on its beginning: one that starts with [SET] is acknowledged as a whole. The
    statements behind its first semicolon are neither run nor reported. *)
Theorem unparsed_batch_is_swallowed query w :
  parse_sql query = None ->
  starts_with "SET " (to_uppercase (command_text query)) = true ->
  process_query fuel query client cfg slot fmt secure w = Some (Ok [RExecution "SET"], w).
Proof.
  intros Hp Hs. unfold process_query, split_statements. rewrite Hp. simpl.
  unfold process_single_statement, try_intercept.
  destruct (String.eqb_spec (trim query) "") as [E|_].
  { unfold command_text in Hs. by rewrite E in Hs. }
  unfold command_text in Hs. by rewrite Hs.
Qed.

End Facts.

(** ** Query ids that outlive or lose their query *)

Section Slots.
Context `{Case : UnicodeCase} `{Chr : Chrono} `{Dec : Decimals} `{Wir : !Wire} `{Oids : TypeOids}.
Context `{Sql : SqlParser} {Srv : Type} `{Api : TrinoApi Srv}.
Implicit Types w : World Srv.

(** A statement without a result set leaves its query id in the slot after it has
    finished, because its stream is dropped without ever having been polled: the
    connection is idle, yet a cancel request still reaches Trino with that id. *)
Theorem ddl_leaves_query_id fuel query client cfg slot fmt secure w first s1 pages s2 :
  let pq := parsed_query_new query in
  let sql := rewrite_sql (default query (rewrite_info_schema_columns query pq)) in
  try_intercept query pq (trino_catalog cfg) (trino_schema cfg) secure = None ->
  handle_dynamic_catalog_query pq client = None ->
  trino_get (srv w) client sql = (Ok first, s1) -> result_error first = None ->
  chain client s1 (result_next_uri first) pages None s2 -> first_columns (first :: pages) = [] ->
  (length pages < fuel)%nat ->
  exists w', process_single_statement fuel query client cfg (Some slot) fmt secure w
             = Some (Ok [RExecution "OK"], w')
             /\ slot_value w' slot = Some (result_id first).
Proof.
  intros pq sql Hi Hd Hg He Hc Hcols Hf. unfold process_single_statement. fold pq. rewrite Hi, Hd. fold sql.
  rewrite run_await.
  pose proof (execute_after_first fuel client sql slot fmt w first s1 Hg He) as Ex. cbv zeta in Ex.
  set (w1 := set_slots _ _) in Ex. rewrite Ex, run_await. clear Ex.
  cbn [first_columns] in Hcols. destruct (page_columns first) eqn:Ep; [|done].
  destruct (poll_columns_settles fuel client (Some slot) [] (page_rows first) (result_next_uri first)
              w1 pages None s2) as
    [(cols & rows & nu & rest & x' & -> & _ & -> & _ & _ & _)|(m & _ & _ & Hm & _)]; [done..| |done].
  rewrite Hcols. cbn. eexists. split; [reflexivity|]. by eapply slot_value_set.
Qed.

(** C39: In a batch, finishing the rows of an earlier statement empties the slot that
    by then holds the id of a later one; a cancel request that follows finds the
    connection idle and does nothing, although the later query is running. *)
Theorem earlier_stream_hides_later_query s pages out x w slot pid key fuel :
  phase s = Fresh -> stream_active_query_id s = Some slot ->
  chain (stream_client s) (srv w) (initial_next_uri s) pages out x ->
  lookup_cancel pid key w = Some (stream_client s, slot) ->
  (S (drain_cost (initial_rows s) pages) <= fuel)%nat ->
  exists items w', drain fuel s w = Some (items, w')
    /\ on_cancel_request pid key w' = Some (Ok tt, w').
Proof.
  intros Hp Hs Hc Hl Hf. rewrite (drain_fresh s w pages out x Hp Hc fuel Hf), Hs.
  eexists _, _. split; [reflexivity|]. unfold on_cancel_request, cancel_slot, lookup_cancel in *. simpl.
  destruct (registry w !! (pid, key)) as [e|]; [|done]. injection Hl as _ He.
  unfold slot_value. simpl. rewrite He, lookup_insert_eq. done.
Qed.

End Slots.

(** ** Concrete inputs *)

(** A parser that knows one batch. *)
Definition toy_parser : SqlParser :=
  {| parse_sql s := if String.eqb s "BEGIN; x; COMMIT"
                    then Some [Other "BEGIN" []; Other "x" []; Other "COMMIT" []] else None;
     to_string n := match n with Other s _ => s | _ => "" end |}.

Definition any_oids : TypeOids := {| type_oid := documented_oid |}.

Lemma batch_stops_at_first_error_witness :
  exists w', @process_query ascii_only_case sample_chrono sample_decimals sample_wire any_oids toy_parser
               unit silent_api 1 "BEGIN; x; COMMIT" any_client default_config (Some 0%nat) None true quiet_world
             = Some (Ok [RExecution "BEGIN"; RError (trino_error_to_pg "down")], w').
Proof.
  destruct (@batch_stops_at_first_error ascii_only_case sample_chrono sample_decimals sample_wire any_oids
              toy_parser unit silent_api 1 any_client default_config (Some 0%nat) None true
              "BEGIN; x; COMMIT" [Other "BEGIN" []; Other "x" []; Other "COMMIT" []] quiet_world
              eq_refl ltac:(simpl; lia)) as [_ H].
  eexists.
  refine (H ["BEGIN"] "x" ["COMMIT"] [RExecution "BEGIN"] quiet_world
            (UserError (trino_error_to_pg "down")) _ eq_refl _ _).
  - refine (runs_cons _ _ _ _ _ _ "BEGIN" [] quiet_world [RExecution "BEGIN"] quiet_world [] quiet_world _ _);
      [vm_compute; reflexivity|apply runs_nil].
  - vm_compute. reflexivity.
Defined.

Lemma one_submission_per_statement_witness :
  exists w', @process_single_statement ascii_only_case sample_chrono sample_decimals sample_wire any_oids
               toy_parser unit silent_api 1 "x" any_client default_config (Some 0%nat) None true quiet_world
             = Some (Err (UserError (trino_error_to_pg "down")), w')
    /\ exists l, submitted w' = (submitted quiet_world ++ l)%list /\ (length l <= 1)%nat
                 /\ Forall (fun s => fst s = any_client) l.
Proof.
  eexists. split; [vm_compute; reflexivity|].
  refine (@one_submission_per_statement ascii_only_case sample_chrono sample_decimals sample_wire any_oids
            toy_parser unit silent_api 1 any_client default_config (Some 0%nat) None true "x" quiet_world
            (Err (UserError (trino_error_to_pg "down"))) _ _).
  vm_compute. reflexivity.
Defined.

(** A server on which every statement finishes at once without columns. *)
Definition ddl_api : TrinoApi unit :=
  {| client_build _ := Ok tt;
     trino_get s _ _ := (Ok (mk_query_result "q7" None None None None), s);
     trino_get_next s _ _ := (Err "gone", s);
     trino_get_all s _ _ := (Ok [], s);
     trino_cancel s _ _ := (Ok tt, s) |}.

Lemma ddl_leaves_query_id_witness :
  exists w', @process_single_statement ascii_only_case sample_chrono sample_decimals sample_wire any_oids
               toy_parser unit ddl_api 1 "CREATE TABLE t (a int)" any_client default_config (Some 0%nat) None
               true quiet_world
             = Some (Ok [RExecution "OK"], w')
    /\ slot_value w' 0%nat = Some "q7".
Proof.
  refine (@ddl_leaves_query_id ascii_only_case sample_chrono sample_decimals sample_wire any_oids toy_parser
            unit ddl_api 1 "CREATE TABLE t (a int)" any_client default_config 0%nat None true quiet_world
            (mk_query_result "q7" None None None None) tt [] tt
            eq_refl eq_refl eq_refl eq_refl (chain_end _ _) eq_refl ltac:(simpl; lia)).
Defined.

(** A connection whose first statement has two rows left to send while the
    second runs as [q2]. *)
Definition busy_world : World unit :=
  mk_world tt [] [] 2%Z {[ (1%Z, I32 5) := mk_cancel_entry any_client 0%nat ]} {[ 0%nat := Some "q2" ]} 1%nat.

Definition first_stream : RowStream :=
  mk_row_stream any_client [mk_trino_column "n" "varchar"] [mk_field_info "n" VARCHAR Text] (Some 0%nat)
    [[Str "a"]; [Str "b"]] None Fresh.

Lemma earlier_stream_hides_later_query_witness :
  exists items w', @drain ascii_only_case sample_chrono sample_decimals sample_wire unit ddl_api 6
                     first_stream busy_world = Some (items, w')
    /\ @on_cancel_request unit ddl_api 1 (I32 5) w' = Some (Ok tt, w').
Proof.
  exact (@earlier_stream_hides_later_query ascii_only_case sample_chrono sample_decimals sample_wire unit ddl_api
           first_stream [] None tt busy_world 0%nat 1%Z (I32 5) 6 eq_refl eq_refl (chain_end _ _) eq_refl
           ltac:(vm_compute; lia)).
Defined.

(** A syntax error in the second statement is not reported, and the third one is
    not run. *)
Lemma unparsed_batch_is_swallowed_witness :
  @process_query ascii_only_case sample_chrono sample_decimals sample_wire any_oids sql_text unit silent_api 1
    "SET a = 1; SELECT (1; DROP TABLE t" any_client default_config (Some 0%nat) None true quiet_world
  = Some (Ok [RExecution "SET"], quiet_world).
Proof.
  apply (@unparsed_batch_is_swallowed ascii_only_case sample_chrono sample_decimals sample_wire any_oids sql_text);
    vm_compute; reflexivity.
Defined.
