(* ===== verification/Extended.v ===== *)
(** * The extended query protocol (src/src/query_extended.rs, the portal cache of
      src/src/session.rs)

    [do_describe_portal] runs the pipeline and stashes the response under the
    portal's name; [do_query] serves an Execute from the stash when it was made
    for the same SQL text. The state is the process-wide world and the
    connection's portal cache with its poison flag. *)

From S2P Require Import Prelude RustStr PgWire Config Trino World Response Session RustFloat.
From S2P Require Import Values TrinoStream Sql QueryInspection Catalog Pipeline.

Local Open Scope string_scope.
Local Open Scope rust_scope.

(** ** State *)

Record CachedPortalResponse := mk_cached {
  cached_query : string;
  cached_response : Response
}.

Definition MAX_CACHED_PORTALS : nat := 64.

(** [PortalCache = Arc<Mutex<HashMap<...>>>], with the mutex's poison flag. *)
Record PortalCache := mk_portal_cache {
  entries : gmap string CachedPortalResponse;
  poisoned : bool
}.

Record ExtState (Srv : Type) := mk_ext_state {
  ext_world : World Srv;
  portals : PortalCache
}.

Arguments mk_ext_state {Srv}.
Arguments ext_world {Srv}.
Arguments portals {Srv}.

(** [pgwire::api::portal::Portal]: the statement is its SQL text
    ([NoopQueryParser]); [parameters] are the values the client bound. *)
Record Portal := mk_portal {
  portal_name : string;
  portal_statement : string;
  result_column_format : Format;
  parameters : list (option string)
}.

(** [StoredStatement]. *)
Record StoredStatement := mk_stored {
  stored_statement : string;
  parameter_types : list (option PgType)
}.

Inductive DescribeStatementResponse :=
| StatementNoData
| StatementFields (parameters : list PgType) (fields : list FieldInfo).

Section Extended.
Context `{Case : UnicodeCase} `{Chr : Chrono} `{Dec : Decimals} `{Wir : !Wire} `{Oids : TypeOids}.
Context `{Sql : SqlParser} {Srv : Type} `{Api : TrinoApi Srv}.
Variable fuel : nat.

(** A task on the world, run inside the connection's state. *)
Definition in_world {A} (t : Task (World Srv) A) : Task (ExtState Srv) A :=
  zoom ext_world (fun w s => mk_ext_state w (portals s)) t.

Lemma run_in_world {A} (t : Task (World Srv) A) s :
  in_world t s = match t (ext_world s) with
                 | Some (r, w) => Some (r, mk_ext_state w (portals s))
                 | None => None
                 end.
Proof. unfold in_world. rewrite run_zoom; [done..|by intros []]. Qed.

(** Dropping a response drops its stream. *)
Definition drop_response (r : Response) (w : World Srv) : World Srv :=
  match r with
  | RQuery _ (Streaming s) => drop_stream s w
  | _ => w
  end.

Definition drop_cached (o : option CachedPortalResponse) (w : World Srv) : World Srv :=
  match o with
  | Some e => drop_response (cached_response e) w
  | None => w
  end.

Definition cache_poisoned : PgWireError := ApiError "portal cache mutex poisoned".

Definition take_cached (name : string) : Io (ExtState Srv) (option CachedPortalResponse) :=
  fun s =>
    let cache := portals s in
    if poisoned cache then (Err cache_poisoned, s)
    else (Ok (entries cache !! name),
          mk_ext_state (ext_world s) (mk_portal_cache (delete name (entries cache)) false)).

Definition insert_cached (name : string) (entry : CachedPortalResponse) : Io (ExtState Srv) unit :=
  fun s =>
    let cache := portals s in
    if poisoned cache then (Err cache_poisoned, mk_ext_state (drop_cached (Some entry) (ext_world s)) cache)
    else if (MAX_CACHED_PORTALS <=? size (entries cache))%nat
            && match entries cache !! name with None => true | Some _ => false end
    then (Ok tt, mk_ext_state (drop_cached (Some entry) (ext_world s)) cache)
    else (Ok tt, mk_ext_state (drop_cached (entries cache !! name) (ext_world s))
                   (mk_portal_cache (<[name := entry]> (entries cache)) false)).

Definition empty_pipeline : PgWireError := ApiError "Empty pipeline response".

(** [responses.into_iter().next()]: the first response; the others are dropped. *)
Definition first_response (responses : list Response) : Io (ExtState Srv) Response :=
  match responses with
  | [] => throw empty_pipeline
  | r :: rest =>
    let! _ := modify (fun s => mk_ext_state (fold_left (fun w r => drop_response r w) rest (ext_world s))
                                            (portals s)) in
    ret r
  end.

Definition run_pipeline (cs : ConnectionState) (secure : bool) (query : string) (fmt : option Format)
  : Task (ExtState Srv) Response :=
  let* responses := in_world (process_query fuel query (Session.trino_client cs) (Session.config cs)
                                (Some (Session.active_query_id cs)) fmt secure) in
  task (first_response responses).

(** [do_query]: Execute. *)
Definition do_query (conn_state : option ConnectionState) (secure : bool) (portal : Portal)
  : Task (ExtState Srv) Response :=
  let query := portal_statement portal in
  match conn_state with
  | None => task (throw connection_state_missing)
  | Some cs =>
    let* cached_entry := task (take_cached (portal_name portal)) in
    match cached_entry with
    | Some entry =>
      if String.eqb (cached_query entry) query then task (ret (cached_response entry))
      else
        let* _ := task (modify (fun s => mk_ext_state (drop_cached (Some entry) (ext_world s)) (portals s))) in
        run_pipeline cs secure query (Some (result_column_format portal))
    | None => run_pipeline cs secure query (Some (result_column_format portal))
    end
  end.

Definition response_fields (r : Response) : list FieldInfo :=
  match r with
  | RQuery row_schema _ => row_schema
  | _ => []
  end.

(** [do_describe_statement]: Describe of a prepared statement. *)
Definition do_describe_statement (conn_state : option ConnectionState) (secure : bool)
    (stmt : StoredStatement) : Task (ExtState Srv) DescribeStatementResponse :=
  let query := stored_statement stmt in
  let param_types := map (default TEXT) (parameter_types stmt) in
  if negb (returns_rows (parsed_query_new query)) then task (ret StatementNoData)
  else
    match conn_state with
    | None => task (throw connection_state_missing)
    | Some cs =>
      let* response := run_pipeline cs secure query None in
      let* _ := task (modify (fun s => mk_ext_state (drop_response response (ext_world s)) (portals s))) in
      task (ret (StatementFields param_types (response_fields response)))
    end.

(** [do_describe_portal]: Describe of a portal; the fields of the row
    description. *)
Definition do_describe_portal (conn_state : option ConnectionState) (secure : bool) (portal : Portal)
  : Task (ExtState Srv) (list FieldInfo) :=
  let query := portal_statement portal in
  match conn_state with
  | None => task (throw connection_state_missing)
  | Some cs =>
    let* response := run_pipeline cs secure query (Some (result_column_format portal)) in
    let fields := response_fields response in
    let* _ := task (insert_cached (portal_name portal) (mk_cached query response)) in
    task (ret fields)
  end.

(** ** The life of a connection's extended-query state *)

Inductive ext_step (cs : ConnectionState) (secure : bool) : ExtState Srv -> ExtState Srv -> Prop :=
| step_execute s portal r s' :
    do_query (Some cs) secure portal s = Some (r, s') -> ext_step cs secure s s'
| step_describe_statement s stmt r s' :
    do_describe_statement (Some cs) secure stmt s = Some (r, s') -> ext_step cs secure s s'
| step_describe_portal s portal r s' :
    do_describe_portal (Some cs) secure portal s = Some (r, s') -> ext_step cs secure s s'
| step_elsewhere s w :
    ext_step cs secure s (mk_ext_state w (portals s)).

(** From the empty cache of a new connection. *)
Inductive ext_reachable (cs : ConnectionState) (secure : bool) : ExtState Srv -> Prop :=
| ext_init w : ext_reachable cs secure (mk_ext_state w (mk_portal_cache ∅ false))
| ext_next s s' : ext_reachable cs secure s -> ext_step cs secure s s' -> ext_reachable cs secure s'.

End Extended.
