(* ===== verification/ExtendedFacts.v ===== *)
(** * Theorems on the extended protocol (src/src/query_extended.rs) *)

From S2P Require Import Prelude RustStr PgWire Config ErrorMapping Trino World Response Session.
From S2P Require Import RustFloat Values ValuesFacts TrinoStream TrinoStreamFacts Sql SqlText.
From S2P Require Import QueryInspection Catalog CatalogFacts Intercept InterceptFacts Pipeline.
From S2P Require Import PipelineFacts Extended.

Local Open Scope string_scope.
Local Open Scope rust_scope.

Section Facts.
Context `{Case : UnicodeCase} `{Chr : Chrono} `{Dec : Decimals} `{Wir : !Wire} `{Oids : TypeOids}.
Context `{Sql : SqlParser} {Srv : Type} `{Api : TrinoApi Srv}.
Variable fuel : nat.
Implicit Types s : ExtState Srv.

(** ** The cache bound *)

Lemma run_pipeline_portals cs secure query fmt s r s' :
  run_pipeline fuel cs secure query fmt s = Some (r, s') -> portals s' = portals s.
Proof.
  unfold run_pipeline. rewrite run_await, run_in_world.
  destruct (process_query _ _ _ _ _ _ _ _) as [[[rs|e] w]|]; [| |done].
  - rewrite run_task. unfold first_response. destruct rs; simpl; unfold_io; by intros [= <- <-].
  - by intros [= <- <-].
Qed.

Definition cache_ok (c : PortalCache) : Prop := (size (entries c) <= MAX_CACHED_PORTALS)%nat.

Lemma cache_ok_delete c name b : cache_ok c -> cache_ok (mk_portal_cache (delete name (entries c)) b).
Proof.
  unfold cache_ok. simpl. intros H. rewrite map_size_delete. destruct (entries c !! name); simpl; lia.
Qed.

Lemma insert_cached_ok name entry s r s' :
  cache_ok (portals s) -> insert_cached name entry s = (r, s') -> cache_ok (portals s').
Proof.
  unfold cache_ok, insert_cached. intros H. destruct (poisoned _); [by intros [= <- <-]|].
  destruct (_ && _) eqn:E; intros [= <- <-]; [done|]. simpl. rewrite map_size_insert.
  destruct (entries (portals s) !! name) eqn:El; simpl; [done|].
  rewrite andb_true_r in E. bools. lia.
Qed.

Lemma ext_step_cache_ok cs secure s s' :
  ext_step fuel cs secure s s' -> cache_ok (portals s) -> cache_ok (portals s').
Proof.
  intros Hs Hok. destruct Hs as [s portal r s' H|s stmt r s' H|s portal r s' H|s w]; [| | |done].
  - unfold do_query in H. rewrite run_await, run_task in H. unfold take_cached in H. destruct (poisoned (portals s)).
    { injection H as _ <-. done. }
    destruct (entries (portals s) !! portal_name portal) as [entry|].
    + destruct (String.eqb _ _).
      * injection H as _ <-. by apply cache_ok_delete.
      * rewrite run_await, run_task in H. apply run_pipeline_portals in H. rewrite H. by apply cache_ok_delete.
    + apply run_pipeline_portals in H. rewrite H. by apply cache_ok_delete.
  - unfold do_describe_statement in H. destruct (negb _); [by injection H as _ <-|].
    rewrite run_await in H. destruct (run_pipeline _ _ _ _ _ s) as [[[resp|e] s1]|] eqn:E; [| |done];
      apply run_pipeline_portals in E.
    + injection H as _ <-. simpl. by rewrite E.
    + injection H as _ <-. by rewrite E.
  - unfold do_describe_portal in H. rewrite run_await in H.
    destruct (run_pipeline _ _ _ _ _ s) as [[[resp|e] s1]|] eqn:E; [| |done]; apply run_pipeline_portals in E.
    + rewrite run_await, run_task in H. destruct (insert_cached _ _ s1) as [[[]|e] s2] eqn:Ei; injection H as _ <-;
        eapply insert_cached_ok; [|done| |done]; by rewrite E.
    + injection H as _ <-. by rewrite E.
Qed.

(** A connection never holds more than 64 cached portal responses, whatever
    sequence of Describe and Execute messages it sends and whatever happens in
    between, so one client cannot keep more than that many undelivered Trino
    queries open. *)
Theorem portal_cache_bounded cs secure s :
  ext_reachable fuel cs secure s -> (size (entries (portals s)) <= 64)%nat.
Proof.
  change (ext_reachable fuel cs secure s -> cache_ok (portals s)).
  induction 1 as [w|s s' Hr IH Hs]; [unfold cache_ok; simpl; rewrite map_size_empty; lia|].
  by eapply ext_step_cache_ok.
Qed.

(** ** Describe, then Execute *)

(** The cache takes a response under [name]: it has a free place, or replaces the
    one it has under that name. *)
Definition has_room (name : string) (cache : PortalCache) : bool :=
  (size (entries cache) <? MAX_CACHED_PORTALS)%nat || bool_decide (is_Some (entries cache !! name)).

(** What Describe of a portal does with the response of the pipeline. *)
Lemma describe_portal_run cs secure portal s response s2 :
  run_pipeline fuel cs secure (portal_statement portal) (Some (result_column_format portal)) s
    = Some (Ok response, s2) ->
  poisoned (portals s) = false ->
  do_describe_portal fuel (Some cs) secure portal s =
  Some (Ok (response_fields response),
        if has_room (portal_name portal) (portals s)
        then mk_ext_state (drop_cached (entries (portals s) !! portal_name portal) (ext_world s2))
               (mk_portal_cache (<[portal_name portal := mk_cached (portal_statement portal) response]>
                                   (entries (portals s))) false)
        else mk_ext_state (drop_response response (ext_world s2)) (portals s)).
Proof.
  intros E Hp. pose proof (run_pipeline_portals _ _ _ _ _ _ _ E) as Ep.
  unfold do_describe_portal. rewrite run_await, E, run_await, run_task. unfold insert_cached. rewrite Ep, Hp.
  unfold has_room. destruct (Nat.leb_spec MAX_CACHED_PORTALS (size (entries (portals s)))) as [Hm|Hm];
    destruct (Nat.ltb_spec (size (entries (portals s))) MAX_CACHED_PORTALS); try lia; [|done].
  by destruct (entries (portals s) !! portal_name portal).
Qed.

(** Execute with the response of a Describe in the cache, and without one. *)
Lemma execute_cached cs secure portal s response :
  poisoned (portals s) = false ->
  entries (portals s) !! portal_name portal = Some (mk_cached (portal_statement portal) response) ->
  do_query fuel (Some cs) secure portal s
  = Some (Ok response, mk_ext_state (ext_world s)
            (mk_portal_cache (delete (portal_name portal) (entries (portals s))) false)).
Proof.
  intros Hp Hl. unfold do_query. rewrite run_await, run_task. unfold take_cached. rewrite Hp, Hl. simpl.
  by rewrite String.eqb_refl.
Qed.

Lemma execute_uncached cs secure portal s :
  poisoned (portals s) = false -> entries (portals s) !! portal_name portal = None ->
  do_query fuel (Some cs) secure portal s
  = run_pipeline fuel cs secure (portal_statement portal) (Some (result_column_format portal)) s.
Proof.
  intros Hp Hl. unfold do_query. rewrite run_await, run_task. unfold take_cached. rewrite Hp, Hl.
  rewrite delete_id by done. destruct s as [w [es po]]. simpl in *. by subst po.
Qed.

(** C12: After a successful Describe of a portal, what Execute of the same portal
    name and SQL text does depends on the cache. If it had room (fewer than 64
    responses, or one under that name already), Execute returns the response the
    Describe produced, without running the pipeline again: nothing is submitted,
    the world does not change, and the entry is gone, so that a prepared INSERT
    runs once per Describe and Execute, whatever the result format and the
    parameters of the second Bind. If the cache was full, the Describe dropped
    its response and left the cache alone, and Execute runs the pipeline a second
    time. *)
Theorem describe_then_execute_runs_once cs secure portal format2 parameters2 s fields s1 :
  do_describe_portal fuel (Some cs) secure portal s = Some (Ok fields, s1) ->
  let portal2 := mk_portal (portal_name portal) (portal_statement portal) format2 parameters2 in
  exists response s2,
    run_pipeline fuel cs secure (portal_statement portal) (Some (result_column_format portal)) s
      = Some (Ok response, s2)
    /\ fields = response_fields response
    /\ (has_room (portal_name portal) (portals s) = true ->
        do_query fuel (Some cs) secure portal2 s1
        = Some (Ok response,
                mk_ext_state (ext_world s1)
                  (mk_portal_cache (delete (portal_name portal) (entries (portals s))) false)))
    /\ (has_room (portal_name portal) (portals s) = false ->
        s1 = mk_ext_state (drop_response response (ext_world s2)) (portals s)
        /\ do_query fuel (Some cs) secure portal2 s1
           = run_pipeline fuel cs secure (portal_statement portal) (Some format2) s1).
Proof.
  intros H portal2. destruct (run_pipeline fuel cs secure (portal_statement portal) (Some (result_column_format portal)) s)
    as [[[resp|e] s2]|] eqn:E; [|unfold do_describe_portal in H; by rewrite run_await, E in H..].
  destruct (poisoned (portals s)) eqn:Hp.
  { pose proof (run_pipeline_portals _ _ _ _ _ _ _ E) as Ep. unfold do_describe_portal in H.
    rewrite run_await, E, run_await, run_task in H. unfold insert_cached in H. by rewrite Ep, Hp in H. }
  rewrite (describe_portal_run _ _ _ _ _ _ E Hp) in H. injection H as <- <-. exists resp, s2.
  split; [done|]. split; [done|]. split; intros Hroom; rewrite Hroom.
  - rewrite (execute_cached _ _ portal2 _ resp); simpl; [|done|by rewrite lookup_insert_eq].
    by rewrite delete_insert_eq.
  - split; [done|]. apply (execute_uncached _ _ portal2); [done|]. simpl.
    unfold has_room in Hroom. apply orb_false_iff in Hroom as [_ Hn]. apply bool_decide_eq_false in Hn.
    by apply eq_None_not_Some.
Qed.

(** A response is served from the cache only for the SQL text it was made for.
    When a portal name was bound to another statement, Execute discards the
    stale entry and runs the pipeline for the new text. *)
Theorem rebound_portal_runs_fresh cs secure portal s entry :
  entries (portals s) !! portal_name portal = Some entry -> poisoned (portals s) = false ->
  cached_query entry <> portal_statement portal ->
  do_query fuel (Some cs) secure portal s
  = run_pipeline fuel cs secure (portal_statement portal) (Some (result_column_format portal))
      (mk_ext_state (drop_cached (Some entry) (ext_world s))
         (mk_portal_cache (delete (portal_name portal) (entries (portals s))) false)).
Proof.
  intros Hl Hp Hne. unfold do_query. rewrite run_await, run_task. unfold take_cached. rewrite Hp, Hl.
  destruct (String.eqb_spec (cached_query entry) (portal_statement portal)); [done|]. done.
Qed.

(** The values a client binds to the parameters of a prepared statement are not
    looked at: Describe and Execute of a portal do the same whatever they are. *)
Theorem bound_parameters_are_ignored cs secure name statement format parameters parameters' s :
  let portal := mk_portal name statement format parameters in
  let portal' := mk_portal name statement format parameters' in
  do_describe_portal fuel cs secure portal s = do_describe_portal fuel cs secure portal' s
  /\ do_query fuel cs secure portal s = do_query fuel cs secure portal' s.
Proof. done. Qed.

(** ** Describe of a statement *)

(** Describe of a prepared statement whose first statement is no query has no
    effect at all: it answers "no data" without touching the world or the
    cache, so no INSERT, UPDATE or DDL runs before it is executed. *)
Theorem describe_statement_is_inert conn_state secure stmt s :
  returns_rows (parsed_query_new (stored_statement stmt)) = false ->
  do_describe_statement fuel conn_state secure stmt s = Some (Ok StatementNoData, s).
Proof. intros H. unfold do_describe_statement. by rewrite H. Qed.

End Facts.

(** ** Concrete inputs *)

Definition insert_one : string := "INSERT INTO t VALUES (1)".
Definition insert_two : string := "INSERT INTO t VALUES (2)".

Definition some_conn : ConnectionState :=
  mk_connection_state any_client default_config 0%nat (1%Z, I32 5).

Definition fresh_ext : ExtState unit := mk_ext_state quiet_world (mk_portal_cache ∅ false).

(** Describe looks only at the first statement of a batch, but runs the whole
    batch: describing [SELECT 1; DROP TABLE t] drops the table before anything
    was bound or executed. *)
Theorem describe_runs_trailing_statements `{Case : UnicodeCase} `{Chr : Chrono} `{Dec : Decimals}
    `{Wir : !Wire} `{Oids : TypeOids} :
  exists r s', @do_describe_statement _ _ _ _ _ sql_text unit ddl_api 1 (Some some_conn) true
                 (mk_stored "SELECT 1; DROP TABLE t" []) fresh_ext = Some (Ok r, s')
    /\ submitted (ext_world s') = [(any_client, "SELECT 1"); (any_client, "DROP TABLE t")].
Proof. eexists _, _. split; vm_compute; reflexivity. Qed.

(** So a placeholder reaches Trino as it stands, although a value is bound. *)
Theorem placeholder_reaches_trino `{Chr : Chrono} `{Dec : Decimals} `{Wir : !Wire} `{Oids : TypeOids} :
  exists r s', @do_query ascii_only_case _ _ _ _ sql_text unit ddl_api 1 (Some some_conn) true
                 (mk_portal "p1" "SELECT $1::text" (fun _ => Text) [Some "x"]) fresh_ext = Some (Ok r, s')
    /\ submitted (ext_world s') = [(any_client, "SELECT CAST($1 AS VARCHAR)")].
Proof. eexists _, _. split; vm_compute; reflexivity. Qed.

Definition insert_portal : Portal := mk_portal "p1" insert_one (fun _ => Text) [].

(** The state after a Describe of [insert_portal]. *)
Definition described_ext : ExtState unit :=
  match @do_describe_portal ascii_only_case sample_chrono sample_decimals sample_wire any_oids
          sql_text unit ddl_api 1 (Some some_conn) true insert_portal fresh_ext with
  | Some (_, s) => s
  | None => fresh_ext
  end.

Lemma portal_cache_bounded_witness : (size (entries (portals described_ext)) <= 64)%nat.
Proof.
  apply (@portal_cache_bounded ascii_only_case sample_chrono sample_decimals sample_wire any_oids
           sql_text unit ddl_api 1 some_conn true described_ext).
  apply (@ext_next ascii_only_case sample_chrono sample_decimals sample_wire any_oids
           sql_text unit ddl_api 1 some_conn true fresh_ext).
  - apply ext_init.
  - apply (@step_describe_portal ascii_only_case sample_chrono sample_decimals sample_wire any_oids
             sql_text unit ddl_api 1 some_conn true fresh_ext insert_portal (Ok [])).
    vm_compute. reflexivity.
Defined.

(** A cache with a response under each of 64 names, none of them [p1]. *)
Definition full_cache : PortalCache :=
  mk_portal_cache (list_to_map (map (fun i => (String.append "q" (nat_to_string (Z.of_nat i)),
                                               mk_cached "SELECT 1" (RExecution "OK"))) (seq 0 64))) false.

Lemma describe_then_execute_runs_once_witness :
  let run s := @run_pipeline ascii_only_case sample_chrono sample_decimals sample_wire any_oids sql_text unit
                 ddl_api 1 some_conn true insert_one (Some (fun _ => Binary)) s in
  let execute s := @do_query ascii_only_case sample_chrono sample_decimals sample_wire any_oids sql_text unit
                     ddl_api 1 (Some some_conn) true (mk_portal "p1" insert_one (fun _ => Binary) []) s in
  (exists response, execute described_ext
     = Some (Ok response, mk_ext_state (ext_world described_ext) (mk_portal_cache (delete "p1" ∅) false)))
  /\ exists s1, @do_describe_portal ascii_only_case sample_chrono sample_decimals sample_wire any_oids sql_text
                 unit ddl_api 1 (Some some_conn) true insert_portal (mk_ext_state quiet_world full_cache)
               = Some (Ok [], s1) /\ execute s1 = run s1.
Proof.
  intros run execute. split.
  - edestruct (@describe_then_execute_runs_once ascii_only_case sample_chrono sample_decimals sample_wire any_oids
            sql_text unit ddl_api 1 some_conn true insert_portal (fun _ => Binary) [] fresh_ext []
            described_ext) as (r & s2 & _ & _ & H & _); [vm_compute; reflexivity|].
    exists r. apply H. vm_compute. reflexivity.
  - eexists. split; [vm_compute; reflexivity|].
    edestruct (@describe_then_execute_runs_once ascii_only_case sample_chrono sample_decimals sample_wire any_oids
            sql_text unit ddl_api 1 some_conn true insert_portal (fun _ => Binary) []
            (mk_ext_state quiet_world full_cache) []) as (r & s2 & _ & _ & _ & H); [vm_compute; reflexivity|].
    apply H. vm_compute. reflexivity.
Defined.

Lemma rebound_portal_runs_fresh_witness :
  exists entry,
    @do_query ascii_only_case sample_chrono sample_decimals sample_wire any_oids sql_text unit
      ddl_api 1 (Some some_conn) true (mk_portal "p1" insert_two (fun _ => Text) []) described_ext
    = @run_pipeline ascii_only_case sample_chrono sample_decimals sample_wire any_oids sql_text unit
        ddl_api 1 some_conn true insert_two (Some (fun _ => Text))
        (mk_ext_state (drop_cached (Some entry) (ext_world described_ext))
           (mk_portal_cache (delete "p1" (entries (portals described_ext))) false)).
Proof.
  exists (mk_cached insert_one (RExecution "OK")).
  refine (@rebound_portal_runs_fresh ascii_only_case sample_chrono sample_decimals sample_wire any_oids
            sql_text unit ddl_api 1 some_conn true (mk_portal "p1" insert_two (fun _ => Text) [])
            described_ext (mk_cached insert_one (RExecution "OK")) _ _ _); [vm_compute; reflexivity..|done].
Defined.

Lemma describe_statement_is_inert_witness :
  @do_describe_statement ascii_only_case sample_chrono sample_decimals sample_wire any_oids sql_text
    unit ddl_api 1 (Some some_conn) true (mk_stored insert_one []) fresh_ext
  = Some (Ok StatementNoData, fresh_ext).
Proof.
  exact (@describe_statement_is_inert ascii_only_case sample_chrono sample_decimals sample_wire any_oids
           sql_text unit ddl_api 1 (Some some_conn) true (mk_stored insert_one []) fresh_ext eq_refl).
Defined.
