(* ===== verification/EndToEnd.v ===== *)
(** * From the client's query to its rows

    The components composed: an ordinary query that arrives by the simple or the
    extended protocol is rewritten, submitted once, and answered with the rows
    Trino serves for the rewritten statement. *)

From S2P Require Import Prelude RustStr PgWire Config ErrorMapping Trino World Response Session.
From S2P Require Import TypeMap RustFloat Values ValuesFacts TrinoStream TrinoStreamFacts Sql SqlText.
From S2P Require Import QueryInspection Catalog CatalogFacts InfoSchema Startup Intercept InterceptFacts.
From S2P Require Import Rewrite Pipeline PipelineFacts Extended ExtendedFacts.

Local Open Scope string_scope.
Local Open Scope rust_scope.

Section EndToEnd.
Context `{Case : UnicodeCase} `{Chr : Chrono} `{Dec : Decimals} `{Wir : !Wire} `{Oids : TypeOids}.
Context `{Sql : SqlParser} {Srv : Type} `{Api : TrinoApi Srv}.
Variable fuel : nat.
Implicit Types w : World Srv.

(** A query that the gateway has nothing to say to itself: no session command,
    no bare scalar probe, and none of the relations it answers for. *)
Definition ordinary_query (query : string) : bool :=
  let pq := parsed_query_new query in
  negb (is_session_command (to_uppercase (command_text query)))
  && negb (is_bare_scalar_select pq) && ordinary_relations pq
  && negb (references_table_in_schema pq "information_schema" "columns").

(** Trino answers [sql] with a first page and a chain of pages, with columns. *)
Definition serves w client sql first pages out s2 : Prop :=
  exists s1, trino_get (srv w) client sql = (Ok first, s1) /\ result_error first = None
  /\ chain client s1 (result_next_uri first) pages out s2 /\ first_columns (first :: pages) <> [].

(** The response delivers what Trino served: after it is made the statement has
    been submitted once and its id is in the slot; drained, it yields every row
    in order, encoded with the schema it announces, and the error if there is
    one, and leaves the slot empty. *)
Definition delivers client slot sql fmt first pages out s2 w (r : Response) w1 : Prop :=
  let columns := first_columns (first :: pages) in
  let schema := build_pg_schema columns fmt in
  exists stream, r = RQuery schema (Streaming stream)
  /\ submitted w1 = (submitted w ++ [(client, sql)])%list
  /\ slot_value w1 slot = Some (result_id first)
  /\ forall fuel', (4 + length (all_rows (first :: pages)) + length pages <= fuel')%nat ->
     exists w2, drain fuel' stream w1
                = Some (map (fun row => encode_row row columns schema) (all_rows (first :: pages))
                        ++ failure_item out, w2)%list
                /\ srv w2 = s2 /\ slot_value w2 slot = None.

(** The pipeline on one ordinary statement. *)
Lemma ordinary_pipeline query stmt client cfg slot fmt secure w first pages out s2 :
  parse_sql query = Some [stmt] -> ordinary_query query = true ->
  serves w client (to_string (rewrite_statement stmt)) first pages out s2 -> (length pages < fuel)%nat ->
  exists r w1, process_query fuel query client cfg (Some slot) fmt secure w = Some (Ok [r], w1)
    /\ delivers client slot (to_string (rewrite_statement stmt)) fmt first pages out s2 w r w1.
Proof.
  intros Hp Ho (s1 & Hg & He & Hc & Hcols) Hf. unfold ordinary_query in Ho. bools.
  destruct (ordinary_not_diverted query (parsed_query_new query) (trino_catalog cfg) (trino_schema cfg) secure client)
    as [Hi Hd]; [done..|].
  unfold process_query, split_statements. rewrite Hp. cbn [length Nat.leb].
  unfold process_single_statement. rewrite Hi, Hd. unfold rewrite_info_schema_columns.
  match goal with H : references_table_in_schema _ _ _ = false |- _ => rewrite H end. cbn [negb default].
  unfold rewrite_sql. rewrite Hp.
  destruct (execute_then_drain fuel client (to_string (rewrite_statement stmt)) slot fmt w first s1 pages out s2)
    as (stream & w1 & Ex & Hsub & Hslot & Hdrain); [done..|by left|done|].
  rewrite run_await, Ex. 
  destruct (build_pg_schema (first_columns (first :: pages)) fmt) as [|f fs] eqn:Es.
  - exfalso. apply Hcols. destruct (first_columns (first :: pages)); [done|]. discriminate Es.
  - eexists _, w1. split; [reflexivity|]. unfold delivers. rewrite Es. by exists stream.
Qed.


(** C8: End to end, extended protocol, from a cache that is usable and has nothing
    under the portal's name: Describe of a portal over an ordinary query submits it
    and announces the schema of Trino's result in the formats the client bound. If
    fewer than 64 responses were cached, the Execute that follows returns the
    stream of that very run, so that the statement goes to Trino once for the two
    messages, and the stream delivers every row encoded as announced. If the cache
    was full, the Describe drops its stream and Execute runs the statement
    again. *)
Theorem extended_query_end_to_end cs portal stmt secure s first pages out s2 :
  let fmt := Some (result_column_format portal) in
  let sql := to_string (rewrite_statement stmt) in
  parse_sql (portal_statement portal) = Some [stmt] -> ordinary_query (portal_statement portal) = true ->
  serves (ext_world s) (Session.trino_client cs) sql first pages out s2 -> (length pages < fuel)%nat ->
  poisoned (portals s) = false -> entries (portals s) !! portal_name portal = None ->
  exists r w1 s1,
    do_describe_portal fuel (Some cs) secure portal s
      = Some (Ok (build_pg_schema (first_columns (first :: pages)) fmt), s1)
    /\ delivers (Session.trino_client cs) (Session.active_query_id cs) sql fmt first pages out s2
         (ext_world s) r w1
    /\ ((size (entries (portals s)) < MAX_CACHED_PORTALS)%nat ->
        do_query fuel (Some cs) secure portal s1 = Some (Ok r, mk_ext_state w1 (portals s)))
    /\ ((MAX_CACHED_PORTALS <= size (entries (portals s)))%nat ->
        s1 = mk_ext_state (drop_response r w1) (portals s)
        /\ do_query fuel (Some cs) secure portal s1
           = run_pipeline fuel cs secure (portal_statement portal) fmt s1).
Proof.
  intros fmt sql Hp Ho Hs Hf Hpo Hl.
  destruct (ordinary_pipeline _ _ _ (Session.config cs) (Session.active_query_id cs) fmt secure _ _ _ _ _ Hp Ho Hs Hf)
    as (r & w1 & Hr & Hd).
  assert (Hpipe : run_pipeline fuel cs secure (portal_statement portal) fmt s
                  = Some (Ok r, mk_ext_state w1 (portals s))).
  { unfold run_pipeline. rewrite run_await, run_in_world, Hr. done. }
  exists r, w1. eexists. split; [rewrite (describe_portal_run _ _ _ _ _ _ _ Hpipe Hpo)|].
  { pose proof Hd as (stream & -> & _). reflexivity. }
  split; [exact Hd|]. unfold has_room. rewrite Hl, bool_decide_false, orb_false_r by by intros [].
  split; intros Hsz; destruct (Nat.ltb_spec (size (entries (portals s))) MAX_CACHED_PORTALS); try lia.
  - rewrite (execute_cached _ _ _ portal _ r); simpl; [|done|by rewrite lookup_insert_eq].
    rewrite delete_insert_id by done. destruct (portals s) as [es po]. simpl in *. by subst po.
  - split; [done|]. by apply execute_uncached.
Qed.

End EndToEnd.

(** ** A query with a cast *)

(** The statement of [SELECT n::text FROM t], which goes through the parser and
    the printer of [SqlText]. *)
Definition cast_statement : Node :=
  StatementQuery (Query None
    (Select [UnnamedExpr (Cast DoubleColon (Identifier (ident_new "n")) DtText None)]
       [Relation [NameIdent (ident_new "t")]] None (GroupByExpressions [] []) None [] [] [] None [])
    None None None []).

Definition first_page : QueryResult := mk_query_result "q1" None None (Some "u1") None.

Lemma cast_served :
  @serves unit paged_api quiet_world some_client "SELECT CAST(n AS VARCHAR) FROM t" first_page
    [page_two; page_three] None tt.
Proof. exists tt. split; [done|]. split; [done|]. split; [exact paged_chain|discriminate]. Qed.

Definition cast_conn : ConnectionState := mk_connection_state some_client default_config 0%nat (1%Z, I32 5).


Definition cast_portal : Portal := mk_portal "p" "SELECT n::text FROM t" (fun _ => Text) [].

Lemma extended_query_end_to_end_witness :
  exists r w1 s1 schema,
    @do_describe_portal ascii_only_case sample_chrono sample_decimals sample_wire any_oids sql_text unit paged_api
      3 (Some cast_conn) true cast_portal fresh_ext = Some (Ok schema, s1)
    /\ @do_query ascii_only_case sample_chrono sample_decimals sample_wire any_oids sql_text unit paged_api
         3 (Some cast_conn) true cast_portal s1 = Some (Ok r, mk_ext_state w1 (portals fresh_ext))
    /\ submitted w1 = [(some_client, "SELECT CAST(n AS VARCHAR) FROM t")].
Proof.
  destruct (@extended_query_end_to_end ascii_only_case sample_chrono sample_decimals sample_wire any_oids sql_text
              unit paged_api 3 cast_conn cast_portal cast_statement true fresh_ext first_page
              [page_two; page_three] None tt eq_refl eq_refl cast_served ltac:(simpl; lia) eq_refl eq_refl)
    as (r & w1 & s1 & H1 & (stream & _ & H3 & _) & H2 & _).
  eexists r, w1, s1, _. split; [exact H1|]. split; [apply H2; vm_compute; lia|exact H3].
Defined.
