(* ===== verification/Confinement.v ===== *)
(** * What a connection's handlers can reach

    A handler that runs for one connection changes the shared world only in
    places of its own: it writes its own slot, submits through its own client,
    and leaves the registry, the counters and the cancel log alone; the streams
    it hands out carry its own client and slot. The pipeline and the extended
    handlers are shown to be confined in this sense, whatever the rest of the
    process does between their actions. *)

From S2P Require Import Prelude RustStr PgWire Config Trino World RelyGuarantee Response Session TypeMap.
From S2P Require Import RustFloat Values TrinoStream Sql QueryInspection Catalog InfoSchema.
From S2P Require Import Startup Intercept Rewrite Pipeline Extended ExtendedFacts.

Local Open Scope string_scope.
Local Open Scope rust_scope.

(** ** Confinement *)

Section Confined.
Context {Srv : Type}.
Variables (client : TrinoClient) (slot : ActiveQueryId).

(** From [w] to [w'] only things of this client and this slot have changed. *)
Record confined (w w' : World Srv) : Prop := mk_confined {
  conf_registry : registry w' = registry w;
  conf_next_pid : next_pid w' = next_pid w;
  conf_next_slot : next_slot w' = next_slot w;
  conf_cancelled : cancelled w' = cancelled w;
  conf_slots : forall l, l <> slot -> slots w' !! l = slots w !! l;
  conf_submitted : exists q, submitted w' = (submitted w ++ q)%list
                             /\ Forall (fun x => fst x = client) q
}.

#[export] Instance confined_preorder : PreOrder confined.
Proof.
  split.
  - intros w. split; try done. exists []. by rewrite app_nil_r.
  - intros w1 w2 w3 [? ? ? ? Hs1 (q1 & E1 & F1)] [? ? ? ? Hs2 (q2 & E2 & F2)].
    split; try congruence.
    + intros l Hl. by rewrite Hs2, Hs1.
    + exists (q1 ++ q2)%list. rewrite E2, E1, app_assoc. split; [done|]. by apply Forall_app.
Qed.

Lemma confined_srv x w : confined w (set_srv x w).
Proof. split; try done. exists []. by rewrite app_nil_r. Qed.

Lemma confined_submit x sql w : confined w (log_submitted (client, sql) (set_srv x w)).
Proof. split; try done. exists [(client, sql)]. split; [done|]. by constructor. Qed.

Lemma confined_slot id w : confined w (set_slots (<[slot := id]> (slots w)) w).
Proof.
  split; try done.
  - intros l Hl. simpl. by rewrite lookup_insert_ne.
  - exists []. by rewrite app_nil_r.
Qed.

End Confined.

#[export] Hint Resolve confined_srv confined_submit confined_slot : gateway.

(** A stream, and a response, of this client and this slot. *)
Definition owned_stream (client : TrinoClient) (slot : ActiveQueryId) (s : RowStream) : Prop :=
  stream_client s = client /\ stream_active_query_id s = Some slot.

Definition owned (client : TrinoClient) (slot : ActiveQueryId) (r : Response) : Prop :=
  match r with
  | RQuery _ (Streaming s) => owned_stream client slot s
  | _ => True
  end.

(** ** Bounded queries *)

Section Bounded.
Context {Srv : Type} `{Api : TrinoApi Srv}.

(** From this [nextUri] Trino serves at most [n] pages, whatever else happens to
    the server in between. *)
Fixpoint pages_end (n : nat) (client : TrinoClient) (next_uri : option string) : Prop :=
  match next_uri with
  | None => True
  | Some url =>
    match n with
    | O => False
    | S n' => forall x r x', trino_get_next x client url = (Ok r, x') -> result_error r = None ->
                pages_end n' client (result_next_uri r)
    end
  end.

(** Every query of every client is answered in at most [n] further pages. *)
Definition answers_within (n : nat) : Prop :=
  forall client x sql r x', trino_get x client sql = (Ok r, x') -> pages_end n client (result_next_uri r).

End Bounded.

Section Handlers.
Context `{Case : UnicodeCase} `{Chr : Chrono} `{Dec : Decimals} `{Wir : !Wire} `{Oids : TypeOids}.
Context `{Sql : SqlParser} {Srv : Type} `{Api : TrinoApi Srv}.
Variables (fuel : nat) (client : TrinoClient) (slot : ActiveQueryId).
Implicit Types w : World Srv.

(** With [total], that the handlers return is part of what is shown; it needs a
    bound on the pages of a query. *)
Variables (total : bool) (bounded : total = true -> answers_within fuel).

(** The rest of the process may do anything to the world. *)
Definition any_world w w' : Prop := True.

#[export] Instance any_world_preorder : PreOrder any_world.
Proof. by split. Qed.

Abbreviation within := (triple total any_world (confined client slot) (fun _ => True)).

Lemma within_ret {A} (a : A) (Q : A -> Prop) : Q a -> within (task (ret a)) Q.
Proof. by apply triple_ret; [apply _..|]. Qed.

Lemma within_throw {A} e (Q : A -> Prop) : within (task (throw e)) Q.
Proof. by apply triple_throw; [apply _..|]. Qed.

Lemma within_await {A B} (c : Task (World Srv) A) (k : A -> Task (World Srv) B) P Q :
  within c P -> (forall a, P a -> within (k a) Q) -> within (await c k) Q.
Proof. by apply triple_await; [apply _|]. Qed.

Lemma within_io {A} (c : Io (World Srv) A) (Q : A -> Prop) :
  (forall w, confined client slot w (snd (c w)) /\ forall a, fst (c w) = Ok a -> Q a) -> within (task c) Q.
Proof. intros H. apply triple_io; [done|]. intros w _. split; [done|]. apply H. Qed.

Lemma within_all {A} (t : Task (World Srv) A) (Q : A -> Prop) :
  within t Q ->
  forall w, rg total any_world (confined client slot) (fun r _ => True /\ forall a, r = Ok a -> Q a) t w.
Proof. intros H w. by apply H. Qed.

Lemma set_slot_within id : within (task (set_active_query_id (Some slot) id)) (fun _ => True).
Proof. apply within_io. simpl. auto with gateway. Qed.

(** Clear the slot and fail. *)
Lemma fail_within {A} e (Q : A -> Prop) :
  within (let* _ := task (set_active_query_id (Some slot) None) in task (throw e)) Q.
Proof. eapply within_await; [apply set_slot_within|]. intros _ _. apply within_throw. Qed.

Lemma poll_columns_within f columns rows next_uri :
  (total = true -> pages_end f client next_uri) ->
  within (poll_columns f client (Some slot) columns rows next_uri) (fun _ => True).
Proof.
  revert columns rows next_uri. induction f as [|f IH]; intros [|col columns] rows [url|] Hend;
    cbn [poll_columns]; try (by apply within_ret).
  { intros w _. simpl. destruct total; [|done]. by destruct Hend. }
  intros w _. apply rg_await; [apply _|]. apply rg_task. intros w1 _. unfold client_get_next.
  destruct (trino_get_next (srv w1) client url) as [[p|e] x] eqn:Eg; (split; [simpl; auto with gateway|]);
    intros w2 _; cbn [fst]; [|by apply (fail_within (A := list TrinoColumn * list (list Value) * option string))].
  destruct (result_error p) eqn:Ee; [by apply fail_within|]. apply IH; [|done].
  intros Ht. by apply (Hend Ht _ _ _ Eg).
Qed.

Lemma execute_within sql fmt :
  within (execute_trino_query fuel client sql (Some slot) fmt)
    (fun x => owned_stream client slot (snd x)).
Proof.
  intros w _. apply rg_await; [apply _|]. apply rg_task. intros w1 _. unfold client_get.
  destruct (trino_get (srv w1) client sql) as [[p|e] x] eqn:Eg; (split; [simpl; auto with gateway|]);
    intros w2 _; cbn [fst]; [|by apply within_throw].
  revert w2. apply (within_all _ (fun x => owned_stream client slot (snd x))).
  eapply within_await; [apply set_slot_within|]. intros _ _.
  destruct (result_error p); [apply fail_within|].
  eapply within_await; [apply poll_columns_within; intros Ht; by eapply bounded|].
  intros [[columns rows] next_uri] _. apply within_ret. by split.
Qed.

(** Answers that are already there have no stream. *)
Lemma build_response_owned schema rows rs :
  build_response schema rows = Ok rs -> Forall (owned client slot) rs.
Proof. unfold build_response. destruct (build_rows _ _); simpl; intros [= <-]; by repeat constructor. Qed.

Lemma get_all_within sql schema row :
  within (task (let! dataset := client_get_all client sql in
                match dataset with
                | Err e => throw (ApiError e)
                | Ok rows => lift (build_response schema (map row rows))
                end)) (Forall (owned client slot)).
Proof.
  apply within_io. intros w. unfold client_get_all. unfold_io.
  destruct (trino_get_all _ _ _) as [[rows|e] x]; simpl;
    (split; [auto with gateway|]); intros rs; [apply build_response_owned|done].
Qed.

Lemma dynamic_within pq handler :
  handle_dynamic_catalog_query pq client = Some handler ->
  within (task handler) (Forall (owned client slot)).
Proof.
  unfold handle_dynamic_catalog_query. intros E.
  repeat case_match; simplify_eq; apply get_all_within.
Qed.

(** A stream's own steps stay within its slot. *)
Lemma drop_stream_confined s w : owned_stream client slot s -> confined client slot w (drop_stream s w).
Proof.
  intros [_ E]. unfold drop_stream, clear_slot. rewrite E. destruct (phase s); simpl; auto with gateway; reflexivity.
Qed.

Lemma drop_response_confined r w : owned client slot r -> confined client slot w (drop_response r w).
Proof. destruct r as [sch [rows|s]|tag|info]; simpl; try reflexivity. apply drop_stream_confined. Qed.

Lemma stream_step_within s w ev s' w' :
  owned_stream client slot s -> stream_step s w = (ev, s', w') ->
  owned_stream client slot s' /\ confined client slot w w'.
Proof.
  intros [<- E]. unfold stream_step, clear_slot. rewrite E.
  destruct (phase s) as [|[|row rest] [url|]| |]; simpl;
    try (intros [= <- <- <-]; split; [by split|]; auto with gateway; reflexivity).
  destruct (trino_get_next _ _ _) as [[r|e] x]; [destruct (result_error r)|];
    intros [= <- <- <-]; split; (by split) || auto with gateway.
Qed.

(** Local answers have no stream. *)
Definition streamless (o : option (PgWireResult (list Response))) : Prop :=
  forall rs, o = Some (Ok rs) -> Forall (owned client slot) rs.

Lemma streamless_text c v : streamless (Some (single_text_response c v)).
Proof.
  unfold single_text_response. destruct (encode_field _ _); intros rs [= <-]. by repeat constructor.
Qed.

Lemma streamless_bool c v : streamless (Some (single_bool_response c v)).
Proof.
  unfold single_bool_response. destruct (encode_field _ _); intros rs [= <-]. by repeat constructor.
Qed.

Lemma streamless_functions pq catalog schema : streamless (intercept_server_functions pq catalog schema).
Proof. unfold intercept_server_functions. repeat case_match; try done; apply streamless_text. Qed.

Lemma streamless_catalog pq : streamless (handle_catalog_query pq).
Proof.
  unfold handle_catalog_query. repeat case_match; try done; intros rs E;
    exact (build_response_owned _ _ _ (Some_inj _ _ E)).
Qed.

Lemma streamless_missing pq tables : streamless (first_missing pq tables).
Proof.
  induction tables as [|t tables IH]; simpl; [done|]. case_match; [|done].
  intros rs [= <-]. by repeat constructor.
Qed.

Lemma streamless_intercept query pq catalog schema secure :
  streamless (try_intercept query pq catalog schema secure).
Proof.
  pose proof (streamless_functions pq catalog schema) as Hf. pose proof (streamless_catalog pq) as Hc.
  unfold try_intercept, intercept_show. repeat case_match; try done;
    auto using streamless_text, streamless_bool;
    try (intros rs [= <-]; by repeat constructor).
  apply streamless_missing.
Qed.

Lemma single_within query cfg fmt secure :
  within (process_single_statement fuel query client cfg (Some slot) fmt secure) (Forall (owned client slot)).
Proof.
  unfold process_single_statement. destruct (try_intercept _ _ _ _ _) as [res|] eqn:E.
  { apply within_io. intros w. split; [reflexivity|]. simpl. intros rs ->.
    by apply (streamless_intercept _ _ _ _ _ _ E). }
  destruct (handle_dynamic_catalog_query _ _) as [h|] eqn:Eh; [by eapply dynamic_within|].
  eapply within_await; [apply execute_within|]. intros [schema stream] Hown. simpl in Hown.
  destruct schema.
  - apply (within_await _ _ (fun _ => True)); [|intros _ _; apply within_ret; by repeat constructor].
    apply within_io. intros w. split; [by apply drop_stream_confined|done].
  - apply within_ret. by apply Forall_singleton.
Qed.

Lemma batch_within pieces cfg fmt secure out :
  Forall (owned client slot) out ->
  within (run_batch fuel pieces out client cfg (Some slot) fmt secure) (Forall (owned client slot)).
Proof.
  revert out. induction pieces as [|p rest IH]; intros out Hout; simpl; [by apply within_ret|].
  eapply within_await; [apply triple_attempt, single_within|]. intros [rs|e] Hrs.
  - apply IH, Forall_app. split; [done|by apply Hrs].
  - destruct e; try apply within_throw. apply within_ret, Forall_app. split; [done|]. by repeat constructor.
Qed.

Lemma process_query_within query cfg fmt secure :
  within (process_query fuel query client cfg (Some slot) fmt secure) (Forall (owned client slot)).
Proof.
  unfold process_query. destruct (_ <=? _)%nat; [apply single_within|]. by apply batch_within.
Qed.

End Handlers.

(** ** The extended protocol *)

Section ExtendedHandlers.
Context `{Case : UnicodeCase} `{Chr : Chrono} `{Dec : Decimals} `{Wir : !Wire} `{Oids : TypeOids}.
Context `{Sql : SqlParser} {Srv : Type} `{Api : TrinoApi Srv}.
Variables (fuel : nat) (cs : ConnectionState).
Variables (total : bool) (bounded : total = true -> answers_within fuel).
Implicit Types s : ExtState Srv.

(** Responses of this connection. *)
Abbreviation own := (owned (trino_client cs) (active_query_id cs)).

(** Every cached response is the connection's own, and there are at most as
    many as allowed. *)
Definition own_cache (c : PortalCache) : Prop :=
  cache_ok c /\ forall name e, entries c !! name = Some e -> own (cached_response e).

Definition ext_confined s s' : Prop :=
  confined (trino_client cs) (active_query_id cs) (ext_world s) (ext_world s').

#[export] Instance ext_confined_preorder : PreOrder ext_confined.
Proof. split; [intros s|intros s1 s2 s3 H1 H2]; unfold ext_confined in *; [reflexivity|by etrans]. Qed.

(** The rest of the process may do anything to the world, nothing to the
    connection's cache. *)
Definition same_portals s s' : Prop := portals s = portals s'.

#[export] Instance same_portals_preorder : PreOrder same_portals.
Proof. unfold same_portals. split; [by intros s|]. by intros s1 s2 s3 -> ->. Qed.

Lemma own_cache_stable s s' : same_portals s s' -> own_cache (portals s) -> own_cache (portals s').
Proof. by intros ->. Qed.

(** What an action of the connection's handlers does: it stays within the
    connection, and keeps the cache its own. *)
Definition ext_guar s s' : Prop :=
  ext_confined s s' /\ (own_cache (portals s) -> own_cache (portals s')).

#[export] Instance ext_guar_preorder : PreOrder ext_guar.
Proof.
  split; [intros s; by split|]. intros s1 s2 s3 [H1 O1] [H2 O2]. split; [by etrans|auto].
Qed.

Abbreviation within_ext := (triple total same_portals ext_guar (fun s => own_cache (portals s))).

Lemma within_ext_ret {A} (a : A) (Q : A -> Prop) : Q a -> within_ext (task (ret a)) Q.
Proof. apply triple_ret; [apply _..|apply own_cache_stable]. Qed.

Lemma within_ext_throw {A} e (Q : A -> Prop) : within_ext (task (throw e)) Q.
Proof. apply triple_throw; [apply _..|apply own_cache_stable]. Qed.

Lemma within_ext_await {A B} (c : Task (ExtState Srv) A) (k : A -> Task (ExtState Srv) B) P Q :
  within_ext c P -> (forall a, P a -> within_ext (k a) Q) -> within_ext (await c k) Q.
Proof. apply triple_await; [apply _|apply own_cache_stable]. Qed.

Lemma within_ext_io {A} (c : Io (ExtState Srv) A) (Q : A -> Prop) :
  (forall s, own_cache (portals s) ->
     own_cache (portals (snd (c s))) /\ ext_confined s (snd (c s)) /\ forall a, fst (c s) = Ok a -> Q a) ->
  within_ext (task c) Q.
Proof.
  intros H. apply triple_io; [apply own_cache_stable|]. intros s Hs. destruct (H s Hs) as (Ho & Hc & Hq).
  split; [done|]. split; [by split|done].
Qed.

(** A task confined in the world is confined in the connection's state. *)
Lemma in_world_within {A} (t : Task (World Srv) A) Q :
  triple total any_world (confined (trino_client cs) (active_query_id cs)) (fun _ => True) t Q ->
  within_ext (in_world t) Q.
Proof.
  apply triple_zoom; [apply _..|apply own_cache_stable|done|done|].
  intros w s Hs Hc. split; [done|]. by split.
Qed.

Lemma own_cache_delete c name b :
  own_cache c -> own_cache (mk_portal_cache (delete name (entries c)) b).
Proof.
  intros [Hs Ho]. split; [by apply cache_ok_delete|]. simpl. intros n e [_ H]%lookup_delete_Some. by eapply Ho.
Qed.

Lemma drop_within_ext r :
  own r -> within_ext (task (modify (fun s => mk_ext_state (drop_response r (ext_world s)) (portals s))))
             (fun _ => True).
Proof.
  intros Hr. apply within_ext_io. intros s Hs. split; [done|]. split; [by apply drop_response_confined|done].
Qed.

Lemma drop_all_confined rs w :
  Forall own rs ->
  confined (trino_client cs) (active_query_id cs) w
    (fold_left (fun (w : World Srv) r => drop_response r w) rs w).
Proof.
  intros H. revert w. induction H as [|r rs Hr _ IH]; intros w; [reflexivity|]. simpl.
  etrans; [by apply drop_response_confined|apply IH].
Qed.

Lemma run_pipeline_within secure query fmt : within_ext (run_pipeline fuel cs secure query fmt) own.
Proof.
  eapply within_ext_await; [by apply in_world_within, process_query_within|].
  intros [|r rs] Hrs; [apply within_ext_throw|]. apply Forall_cons in Hrs as [Hr Hrs].
  apply within_ext_io. intros s Hs. simpl. split; [done|]. split; [by apply drop_all_confined|].
  by intros a [= <-].
Qed.

Lemma take_cached_within name :
  within_ext (task (take_cached name)) (fun o => forall e, o = Some e -> own (cached_response e)).
Proof.
  apply within_ext_io. intros s Hs. unfold take_cached. destruct (poisoned _); simpl.
  { split; [done|]. split; [reflexivity|done]. }
  split; [by apply own_cache_delete|]. split; [unfold ext_confined; reflexivity|]. intros o [= <-]. apply Hs.
Qed.

Lemma insert_cached_within name entry :
  own (cached_response entry) -> within_ext (task (insert_cached name entry)) (fun _ => True).
Proof.
  intros Ho. apply within_ext_io. intros s Hs.
  destruct (insert_cached name entry s) as [r s'] eqn:E. simpl.
  pose proof (insert_cached_ok _ _ _ _ _ (proj1 Hs) E) as Hk. unfold own_cache, ext_confined.
  unfold insert_cached in E. destruct (poisoned _).
  { injection E as <- <-. split; [by split; [|apply Hs]|]. split; [by apply drop_response_confined|done]. }
  destruct (_ && _); injection E as <- <-; simpl in *.
  { split; [by split; [|apply Hs]|]. split; [by apply drop_response_confined|done]. }
  split; [split; [done|]|split; [|done]].
  - intros n e [[<- <-]|[_ H]]%lookup_insert_Some; [done|]. by eapply Hs.
  - destruct (entries (portals s) !! name) as [e|] eqn:El; simpl; [|reflexivity].
    apply drop_response_confined. by eapply Hs.
Qed.

Lemma do_query_within secure portal : within_ext (do_query fuel (Some cs) secure portal) own.
Proof.
  unfold do_query. eapply within_ext_await; [apply take_cached_within|].
  intros [entry|] Ho; [|apply run_pipeline_within]. specialize (Ho _ eq_refl).
  destruct (String.eqb _ _); [by apply within_ext_ret|].
  eapply within_ext_await; [by apply drop_within_ext|]. intros _ _. apply run_pipeline_within.
Qed.

Lemma do_describe_statement_within secure stmt :
  within_ext (do_describe_statement fuel (Some cs) secure stmt) (fun _ => True).
Proof.
  unfold do_describe_statement. destruct (negb _); [by apply within_ext_ret|].
  eapply within_ext_await; [apply run_pipeline_within|]. intros r Hr.
  eapply within_ext_await; [by apply drop_within_ext|]. intros _ _. by apply within_ext_ret.
Qed.

Lemma do_describe_portal_within secure portal :
  within_ext (do_describe_portal fuel (Some cs) secure portal) (fun _ => True).
Proof.
  unfold do_describe_portal. eapply within_ext_await; [apply run_pipeline_within|]. intros r Hr.
  eapply within_ext_await; [by apply insert_cached_within|]. intros _ _. by apply within_ext_ret.
Qed.

End ExtendedHandlers.
