(* ===== verification/Handler.v ===== *)
(** * Handler wiring (src/src/handler.rs)

    The handler traits of pgwire as type classes, the gateway's handlers as their
    instances, and the factory that hands them out. Gateway runs connections
    through the factory that [main] builds. *)

From S2P Require Import Prelude RustStr PgWire Config Trino World Response Session Startup.
From S2P Require Import RustFloat Values TrinoStream Sql QueryInspection Catalog Pipeline Extended.

Local Open Scope string_scope.
Local Open Scope rust_scope.

(** ** Traits *)

Section Traits.
Context (Srv : Type).

Class StartupHandler (H : Type) := {
  handler_on_startup : H -> Z -> FrontendMessage -> Task (PgClient * World Srv) unit
}.

Class SimpleQueryHandler (H : Type) := {
  handler_simple_query : H -> option ConnectionState -> bool -> string -> Task (World Srv) (list Response)
}.

Class ExtendedQueryHandler (H : Type) := {
  handler_do_query : H -> option ConnectionState -> bool -> Portal -> Task (ExtState Srv) Response;
  handler_describe_statement : H -> option ConnectionState -> bool -> StoredStatement ->
    Task (ExtState Srv) DescribeStatementResponse;
  handler_describe_portal : H -> option ConnectionState -> bool -> Portal -> Task (ExtState Srv) (list FieldInfo)
}.

Class CancelHandler (H : Type) := {
  handler_on_cancel_request : H -> Z -> SecretKey -> Task (World Srv) unit
}.

(** [PgWireServerHandlers]: a factory gives out one handler of each kind. *)
Class PgWireServerHandlers (F : Type) := {
  StartupH : Type;
  SimpleH : Type;
  ExtendedH : Type;
  CancelH : Type;
  startup_impl :: StartupHandler StartupH;
  simple_impl :: SimpleQueryHandler SimpleH;
  extended_impl :: ExtendedQueryHandler ExtendedH;
  cancel_impl :: CancelHandler CancelH;
  startup_handler : F -> StartupH;
  simple_query_handler : F -> SimpleH;
  extended_query_handler : F -> ExtendedH;
  cancel_handler : F -> CancelH
}.

End Traits.

Arguments handler_on_startup {Srv H _}.
Arguments handler_simple_query {Srv H _}.
Arguments handler_do_query {Srv H _}.
Arguments handler_describe_statement {Srv H _}.
Arguments handler_describe_portal {Srv H _}.
Arguments handler_on_cancel_request {Srv H _}.
Arguments startup_handler {Srv F _}.
Arguments simple_query_handler {Srv F _}.
Arguments extended_query_handler {Srv F _}.
Arguments cancel_handler {Srv F _}.

(** ** Handlers *)

(** The gateway's handlers: the startup handler carries the configuration, the
    others are unit structs. *)
Record GatewayStartupHandler := mk_startup_handler { startup_config : Config }.
Inductive GatewayQueryHandler := mk_query_handler.
Inductive GatewayExtendedQueryHandler := mk_extended_handler.
Inductive GatewayCancelHandler := mk_cancel_handler.

Record GatewayHandlerFactory := mk_factory {
  startup : GatewayStartupHandler;
  query : GatewayQueryHandler;
  extended_query : GatewayExtendedQueryHandler;
  cancel : GatewayCancelHandler
}.

(** [GatewayHandlerFactory::new] *)
Definition factory_new (startup : GatewayStartupHandler) (query : GatewayQueryHandler)
    (extended_query : GatewayExtendedQueryHandler) : GatewayHandlerFactory :=
  mk_factory startup query extended_query mk_cancel_handler.

(** The factory of [main]. *)
Definition main_factory (config : Config) : GatewayHandlerFactory :=
  factory_new (mk_startup_handler config) mk_query_handler mk_extended_handler.

Section Instances.
Context `{Case : UnicodeCase} `{Chr : Chrono} `{Dec : Decimals} `{Wir : !Wire} `{Oids : TypeOids}.
Context `{Sql : SqlParser} {Srv : Type} `{Api : TrinoApi Srv} `{Pgw : PgWireApi}.
Variable fuel : nat.

#[export] Instance gateway_startup : StartupHandler Srv GatewayStartupHandler :=
  {| handler_on_startup h := on_startup (startup_config h) |}.

#[export] Instance gateway_simple : SimpleQueryHandler Srv GatewayQueryHandler :=
  {| handler_simple_query _ := simple_do_query fuel |}.

#[export] Instance gateway_extended : ExtendedQueryHandler Srv GatewayExtendedQueryHandler :=
  {| handler_do_query _ := do_query fuel;
     handler_describe_statement _ := do_describe_statement fuel;
     handler_describe_portal _ := do_describe_portal fuel |}.

#[export] Instance gateway_cancel : CancelHandler Srv GatewayCancelHandler :=
  {| handler_on_cancel_request _ := on_cancel_request |}.

Definition gateway_handlers : PgWireServerHandlers Srv GatewayHandlerFactory :=
  {| startup_handler := startup; simple_query_handler := query; extended_query_handler := extended_query;
     cancel_handler := cancel |}.

End Instances.

(** ** Dispatch *)

(** What pgwire calls a query handler for. *)
Inductive Call :=
| SimpleQuery (query : string)
| Execute (portal : Portal)
| DescribeStatement (stmt : StoredStatement)
| DescribePortal (portal : Portal).

Section Dispatch.
Context {Srv F : Type} {Handlers : PgWireServerHandlers Srv F} (factory : F).

(** The call of the factory's handler, with the responses it leaves to
    deliver. *)
Definition dispatch (cs : ConnectionState) (secure : bool) (call : Call) : Task (ExtState Srv) (list Response) :=
  match call with
  | SimpleQuery query =>
    in_world (handler_simple_query (simple_query_handler factory) (Some cs) secure query)
  | Execute portal =>
    let* r := handler_do_query (extended_query_handler factory) (Some cs) secure portal in Done (Ok [r])
  | DescribeStatement stmt =>
    let* _ := handler_describe_statement (extended_query_handler factory) (Some cs) secure stmt in Done (Ok [])
  | DescribePortal portal =>
    let* _ := handler_describe_portal (extended_query_handler factory) (Some cs) secure portal in Done (Ok [])
  end.

Definition dispatch_startup (secret : Z) (msg : FrontendMessage) : Task (PgClient * World Srv) unit :=
  handler_on_startup (startup_handler factory) secret msg.

Definition dispatch_cancel (pid : Z) (key : SecretKey) : Task (World Srv) unit :=
  handler_on_cancel_request (cancel_handler factory) pid key.

End Dispatch.
