(* ===== verification/Gateway.v ===== *)
(** * The whole gateway

    The components put together: clients connect, start up, run simple and
    extended queries, pull rows and drop responses, close, and send cancel
    requests, any number of them at once. A handler call is a task; the tasks of
    different connections and of cancel requests interleave action by action.
    GatewayFacts proves what holds of every such execution. *)

From S2P Require Import Prelude RustStr PgWire Config Trino World RelyGuarantee Response Session.
From S2P Require Import SessionFacts Startup RustFloat Values TrinoStream Sql QueryInspection.
From S2P Require Import Catalog Pipeline Extended Handler.

Local Open Scope string_scope.
Local Open Scope rust_scope.

(** ** State *)

(** An established connection: its [ConnectionState], the portal cache, the
    responses pgwire is delivering, and the handler call in progress. *)
Record Connection (Srv : Type) := mk_connection {
  conn_state : ConnectionState;
  conn_portals : PortalCache;
  conn_open : list Response;
  conn_call : option (Task (ExtState Srv) (list Response))
}.

Arguments mk_connection {Srv}.
Arguments conn_state {Srv}.
Arguments conn_portals {Srv}.
Arguments conn_open {Srv}.
Arguments conn_call {Srv}.

(** A client on a socket: pgwire's [ClientInfo], and the startup handler's call
    in progress. *)
Record Client (Srv : Type) := mk_client {
  cl_info : PgClient;
  cl_startup : option (Task (PgClient * World Srv) unit)
}.

Arguments mk_client {Srv}.
Arguments cl_info {Srv}.
Arguments cl_startup {Srv}.

(** A cancel request being handled. *)
Record Cancel (Srv : Type) := mk_cancel {
  cr_pid : Z;
  cr_key : SecretKey;
  cr_task : Task (World Srv) unit
}.

Arguments mk_cancel {Srv}.
Arguments cr_pid {Srv}.
Arguments cr_key {Srv}.
Arguments cr_task {Srv}.

Record Gateway (Srv : Type) := mk_gateway {
  gw_world : World Srv;
  gw_clients : gmap nat (Client Srv);
  gw_conns : gmap nat (Connection Srv);
  gw_cancels : gmap nat (Cancel Srv);
  gw_allocated : Z
}.

Arguments mk_gateway {Srv}.
Arguments gw_world {Srv}.
Arguments gw_clients {Srv}.
Arguments gw_conns {Srv}.
Arguments gw_cancels {Srv}.
Arguments gw_allocated {Srv}.

(** Who acts, and how. *)
Inductive Label :=
| Opens (cid : nat)
| StartupBegins (cid : nat)
| StartupAdvances (cid : nat)
| StartupReturns (cid : nat)
| CallBegins (cid : nat)
| CallAdvances (cid : nat)
| CallReturns (cid : nat)
| Pulls (cid : nat)
| Drops (cid : nat)
| Closes (cid : nat)
| CancelArrives (n : nat)
| CancelAdvances (n : nat).

(** The connection a step belongs to. *)
Definition actor (a : Label) : option nat :=
  match a with
  | Opens cid | StartupBegins cid | StartupAdvances cid | StartupReturns cid | CallBegins cid
  | CallAdvances cid | CallReturns cid | Pulls cid | Drops cid | Closes cid => Some cid
  | CancelArrives _ | CancelAdvances _ => None
  end.

Section Gateway.
Context `{Case : UnicodeCase} `{Chr : Chrono} `{Dec : Decimals} `{Wir : !Wire} `{Oids : TypeOids}.
Context `{Sql : SqlParser} {Srv : Type} `{Api : TrinoApi Srv} `{Pgw : PgWireApi}.

(** The fuel of the polling loop, and the configuration the process runs with. *)
Variables (fuel : nat) (cfg : Config).
Implicit Types (g : Gateway Srv) (w : World Srv) (c : Connection Srv).

(** The handlers of the factory that [main] builds. *)
Definition handle (cs : ConnectionState) (secure : bool) (call : Call) : Task (ExtState Srv) (list Response) :=
  dispatch (Handlers := gateway_handlers fuel) (main_factory cfg) cs secure call.

Definition handle_startup (secret : Z) (msg : FrontendMessage) : Task (PgClient * World Srv) unit :=
  dispatch_startup (Handlers := gateway_handlers fuel) (main_factory cfg) secret msg.

Definition handle_cancel (pid : Z) (key : SecretKey) : Task (World Srv) unit :=
  dispatch_cancel (Handlers := gateway_handlers fuel) (main_factory cfg) pid key.

(** Which functions of the source these are. *)
Lemma handle_unfold cs secure call :
  handle cs secure call =
  match call with
  | SimpleQuery query => in_world (simple_do_query fuel (Some cs) secure query)
  | Execute portal => let* r := do_query fuel (Some cs) secure portal in Done (Ok [r])
  | DescribeStatement stmt => let* _ := do_describe_statement fuel (Some cs) secure stmt in Done (Ok [])
  | DescribePortal portal => let* _ := do_describe_portal fuel (Some cs) secure portal in Done (Ok [])
  end.
Proof. by destruct call. Qed.

Definition answers (r : PgWireResult (list Response)) : list Response :=
  match r with Ok rs => rs | Err _ => [] end.

Definition new_connection (cs : ConnectionState) : Connection Srv :=
  mk_connection cs (mk_portal_cache ∅ false) [] None.

Definition set_call call c : Connection Srv := mk_connection (conn_state c) (conn_portals c) (conn_open c) call.
Definition set_open open c : Connection Srv := mk_connection (conn_state c) (conn_portals c) open (conn_call c).

(** The gateway with another world, client or connection. *)
Definition with_world w g : Gateway Srv :=
  mk_gateway w (gw_clients g) (gw_conns g) (gw_cancels g) (gw_allocated g).
Definition with_client cid cl g : Gateway Srv :=
  mk_gateway (gw_world g) (<[cid := cl]> (gw_clients g)) (gw_conns g) (gw_cancels g) (gw_allocated g).
Definition with_conn cid c g : Gateway Srv :=
  mk_gateway (gw_world g) (gw_clients g) (<[cid := c]> (gw_conns g)) (gw_cancels g) (gw_allocated g).
Definition with_cancel n cr g : Gateway Srv :=
  mk_gateway (gw_world g) (gw_clients g) (gw_conns g) (<[n := cr]> (gw_cancels g)) (gw_allocated g).

(** A session that startup has just stored makes a connection. *)
Definition note_session cid (before after : option ConnectionState) g : Gateway Srv :=
  match before, after with
  | None, Some cs =>
    mk_gateway (gw_world g) (gw_clients g) (<[cid := new_connection cs]> (gw_conns g)) (gw_cancels g)
      (gw_allocated g + 1)
  | _, _ => g
  end.

(** The connection's state as its handlers see it. *)
Definition ext_of g c : ExtState Srv := mk_ext_state (gw_world g) (conn_portals c).

(** Closing a connection: the open responses go, then the connection state,
    whose [Drop] unregisters it, and its portal cache. A handler call in
    progress holds no stream that was polled, so that dropping it does nothing
    else. *)
Definition close_connection c w : World Srv :=
  let w1 := fold_left (fun w r => drop_response r w) (conn_open c) w in
  let w2 := snd (drop_connection_state (conn_state c) w1) in
  fold_left (fun w r => drop_response r w)
    (map (fun e => cached_response (snd e)) (map_to_list (entries (conn_portals c)))) w2.

Definition close_socket cid g : Gateway Srv :=
  mk_gateway (match gw_conns g !! cid with
              | Some c => close_connection c (gw_world g)
              | None => gw_world g
              end)
    (delete cid (gw_clients g)) (delete cid (gw_conns g)) (gw_cancels g) (gw_allocated g).

(** ** Steps *)

Inductive gw_step : Label -> Gateway Srv -> Gateway Srv -> Prop :=
| gw_open g cid info :
    gw_clients g !! cid = None -> gw_conns g !! cid = None -> session info = None ->
    gw_step (Opens cid) g (with_client cid (mk_client info None) g)
| gw_startup_begins g cid info secret msg :
    gw_clients g !! cid = Some (mk_client info None) -> session info = None ->
    gw_step (StartupBegins cid) g (with_client cid (mk_client info (Some (handle_startup secret msg))) g)
| gw_startup_advances g cid info effect next :
    gw_clients g !! cid = Some (mk_client info (Some (Act effect next))) ->
    gw_step (StartupAdvances cid) g
      (note_session cid (session info) (session (fst (effect (info, gw_world g))))
         (with_client cid (mk_client (fst (effect (info, gw_world g))) (Some (next (info, gw_world g))))
            (with_world (snd (effect (info, gw_world g))) g)))
| gw_startup_returns g cid info r :
    gw_clients g !! cid = Some (mk_client info (Some (Done r))) ->
    gw_step (StartupReturns cid) g (with_client cid (mk_client info None) g)
| gw_call_begins g cid info c call :
    gw_clients g !! cid = Some (mk_client info None) ->
    gw_conns g !! cid = Some c -> conn_call c = None ->
    gw_step (CallBegins cid) g
      (with_conn cid (set_call (Some (handle (conn_state c) (is_secure info) call)) c) g)
| gw_call_advances g cid c effect next :
    gw_conns g !! cid = Some c -> conn_call c = Some (Act effect next) ->
    gw_step (CallAdvances cid) g
      (with_conn cid (mk_connection (conn_state c) (portals (effect (ext_of g c))) (conn_open c)
                        (Some (next (ext_of g c))))
         (with_world (ext_world (effect (ext_of g c))) g))
| gw_call_returns g cid c r :
    gw_conns g !! cid = Some c -> conn_call c = Some (Done r) ->
    gw_step (CallReturns cid) g
      (with_conn cid (mk_connection (conn_state c) (conn_portals c) (conn_open c ++ answers r)%list None) g)
| gw_pull g cid c i schema s ev s' w' :
    gw_conns g !! cid = Some c -> conn_open c !! i = Some (RQuery schema (Streaming s)) ->
    stream_step s (gw_world g) = (ev, s', w') ->
    gw_step (Pulls cid) g
      (with_conn cid (set_open (<[i := RQuery schema (Streaming s')]> (conn_open c)) c) (with_world w' g))
| gw_drop g cid c i r :
    gw_conns g !! cid = Some c -> conn_open c !! i = Some r ->
    gw_step (Drops cid) g
      (with_conn cid (set_open (delete i (conn_open c)) c) (with_world (drop_response r (gw_world g)) g))
| gw_close g cid :
    gw_step (Closes cid) g (close_socket cid g)
| gw_cancel_arrives g n pid key :
    gw_cancels g !! n = None ->
    gw_step (CancelArrives n) g (with_cancel n (mk_cancel pid key (handle_cancel pid key)) g)
| gw_cancel_advances g n pid key effect next :
    gw_cancels g !! n = Some (mk_cancel pid key (Act effect next)) ->
    gw_step (CancelAdvances n) g
      (with_cancel n (mk_cancel pid key (next (gw_world g))) (with_world (effect (gw_world g)) g)).

Definition gw_initial (x : Srv) : Gateway Srv :=
  mk_gateway (mk_world x [] [] 1 ∅ ∅ 0) ∅ ∅ ∅ 0.

(** A reachable state, with the states before it, latest first. *)
Inductive gw_reachable (x : Srv) : list (Gateway Srv) -> Gateway Srv -> Prop :=
| gw_reach_init : gw_reachable x [] (gw_initial x)
| gw_reach_step past g a g' : gw_reachable x past g -> gw_step a g g' -> gw_reachable x (g :: past) g'.

(** ** Running a schedule *)

(** A step with its data: what the clients do, and whose turn it is. *)
Inductive Move :=
| OpenSocket (cid : nat) (info : PgClient)
| SendStartup (cid : nat) (secret : Z) (msg : FrontendMessage)
| TurnOfStartup (cid : nat)
| SendCall (cid : nat) (call : Call)
| TurnOfCall (cid : nat)
| PullRow (cid i : nat)
| DropResponse (cid i : nat)
| CloseSocket (cid : nat)
| SendCancel (n : nat) (pid : Z) (key : SecretKey)
| TurnOfCancel (n : nat).

(** The step a move takes, if it is possible. *)
Definition gw_move (m : Move) g : option (Label * Gateway Srv) :=
  match m with
  | OpenSocket cid info =>
    match gw_clients g !! cid, gw_conns g !! cid, session info with
    | None, None, None => Some (Opens cid, with_client cid (mk_client info None) g)
    | _, _, _ => None
    end
  | SendStartup cid secret msg =>
    match gw_clients g !! cid with
    | Some (mk_client info None) =>
      match session info with
      | None => Some (StartupBegins cid, with_client cid (mk_client info (Some (handle_startup secret msg))) g)
      | Some _ => None
      end
    | _ => None
    end
  | TurnOfStartup cid =>
    match gw_clients g !! cid with
    | Some (mk_client info (Some (Act effect next))) =>
      let y := effect (info, gw_world g) in
      Some (StartupAdvances cid, note_session cid (session info) (session (fst y))
              (with_client cid (mk_client (fst y) (Some (next (info, gw_world g)))) (with_world (snd y) g)))
    | Some (mk_client info (Some (Done r))) => Some (StartupReturns cid, with_client cid (mk_client info None) g)
    | _ => None
    end
  | SendCall cid call =>
    match gw_clients g !! cid, gw_conns g !! cid with
    | Some (mk_client info None), Some c =>
      match conn_call c with
      | None => Some (CallBegins cid, with_conn cid (set_call (Some (handle (conn_state c) (is_secure info) call)) c) g)
      | Some _ => None
      end
    | _, _ => None
    end
  | TurnOfCall cid =>
    match gw_conns g !! cid with
    | Some c =>
      match conn_call c with
      | Some (Act effect next) =>
        Some (CallAdvances cid, with_conn cid (mk_connection (conn_state c) (portals (effect (ext_of g c))) (conn_open c)
                               (Some (next (ext_of g c))))
                (with_world (ext_world (effect (ext_of g c))) g))
      | Some (Done r) =>
        Some (CallReturns cid, with_conn cid (mk_connection (conn_state c) (conn_portals c) (conn_open c ++ answers r)%list None) g)
      | _ => None
      end
    | None => None
    end
  | PullRow cid i =>
    match gw_conns g !! cid with
    | Some c =>
      match conn_open c !! i with
      | Some (RQuery schema (Streaming s)) =>
        let '(_, s', w') := stream_step s (gw_world g) in
        Some (Pulls cid, with_conn cid (set_open (<[i := RQuery schema (Streaming s')]> (conn_open c)) c) (with_world w' g))
      | _ => None
      end
    | None => None
    end
  | DropResponse cid i =>
    match gw_conns g !! cid with
    | Some c =>
      match conn_open c !! i with
      | Some r => Some (Drops cid, with_conn cid (set_open (delete i (conn_open c)) c)
                          (with_world (drop_response r (gw_world g)) g))
      | None => None
      end
    | None => None
    end
  | CloseSocket cid => Some (Closes cid, close_socket cid g)
  | SendCancel n pid key =>
    match gw_cancels g !! n with
    | None => Some (CancelArrives n, with_cancel n (mk_cancel pid key (handle_cancel pid key)) g)
    | Some _ => None
    end
  | TurnOfCancel n =>
    match gw_cancels g !! n with
    | Some (mk_cancel pid key (Act effect next)) =>
      Some (CancelAdvances n, with_cancel n (mk_cancel pid key (next (gw_world g))) (with_world (effect (gw_world g)) g))
    | _ => None
    end
  end.

(** A possible move is a step. *)
Lemma gw_move_step m g a g' : gw_move m g = Some (a, g') -> gw_step a g g'.
Proof.
  destruct m; simpl; intros E; repeat case_match; simplify_eq.
  all: first [by eapply gw_open|by eapply gw_startup_begins|by eapply gw_startup_advances
             |by eapply gw_startup_returns|by eapply gw_call_begins|by eapply gw_call_advances
             |by eapply gw_call_returns|by eapply gw_pull|by eapply gw_drop|by eapply gw_close
             |by eapply gw_cancel_arrives|by eapply gw_cancel_advances].
Qed.

(** A schedule: the states passed, latest first, and the last one. A move that
    is not possible is skipped. *)
Fixpoint gw_run (ms : list Move) (past : list (Gateway Srv)) g : list (Gateway Srv) * Gateway Srv :=
  match ms with
  | [] => (past, g)
  | m :: ms' =>
    match gw_move m g with
    | Some (_, g') => gw_run ms' (g :: past) g'
    | None => gw_run ms' past g
    end
  end.

Lemma gw_run_reachable x ms :
  gw_reachable x (fst (gw_run ms [] (gw_initial x))) (snd (gw_run ms [] (gw_initial x))).
Proof.
  enough (H : forall past g, gw_reachable x past g ->
    gw_reachable x (fst (gw_run ms past g)) (snd (gw_run ms past g))) by apply H, gw_reach_init.
  induction ms as [|m ms IH]; intros past g Hg; [done|]. simpl.
  destruct (gw_move m g) as [[a g']|] eqn:E; [|by apply IH]. apply IH. eapply gw_reach_step; [done|].
  by eapply gw_move_step.
Qed.

(** The live connections, as the registry's invariant sees them. *)
Definition sys_of g : @Sys Srv := mk_sys (gw_world g) (conn_state <$> gw_conns g) (gw_allocated g).

End Gateway.
