(* ===== verification/GatewayFacts.v ===== *)
(** * What holds of every execution of the gateway

    An invariant of all reachable states under interleaving, and from it:
    ownership of state, isolation of connections, cancellation safety, the
    protection of credentials, and completion of every handler call. *)

From S2P Require Import Prelude RustStr PgWire Config Trino World RelyGuarantee Response Session.
From S2P Require Import SessionFacts Startup RustFloat Values ValuesFacts TrinoStream Sql.
From S2P Require Import QueryInspection Catalog CatalogFacts Pipeline PipelineFacts Extended.
From S2P Require Import ExtendedFacts Confinement Handler Gateway.

Local Open Scope string_scope.
Local Open Scope rust_scope.

Section Facts.
Context `{Case : UnicodeCase} `{Chr : Chrono} `{Dec : Decimals} `{Wir : !Wire} `{Oids : TypeOids}.
Context `{Sql : SqlParser} {Srv : Type} `{Api : TrinoApi Srv} `{Pgw : PgWireApi}.
Variables (fuel : nat) (cfg : Config).
Variables (total : bool) (bounded : total = true -> answers_within fuel).
Implicit Types (g : Gateway Srv) (w : World Srv) (c : Connection Srv).

(** ** The invariant *)

Abbreviation own cs := (owned (trino_client cs) (active_query_id cs)).

(** A running call stays within its connection, whatever the others do. *)
Definition call_ok c (t : Task (ExtState Srv) (list Response)) : Prop :=
  forall w, rg total same_portals (ext_guar (conn_state c))
              (fun r s => own_cache (conn_state c) (portals s)
                          /\ forall rs, r = Ok rs -> Forall (own (conn_state c)) rs)
              t (mk_ext_state w (conn_portals c)).

(** A connection's data and its running call are its own. *)
Record conn_ok c : Prop := {
  co_cache : own_cache (conn_state c) (conn_portals c);
  co_open : Forall (own (conn_state c)) (conn_open c);
  co_call : forall t, conn_call c = Some t -> call_ok c t;
  co_built : built cfg (trino_client (conn_state c))
}.

(** A running startup call does what startup may do. *)
Definition startup_ok (info : PgClient) (t : Task (PgClient * World Srv) unit) : Prop :=
  exists secret, forall w, rg true same_client (startup_act cfg secret) (fun _ _ => True) t (info, w).

(** A step that an execution took: [h] is the current state and those before it,
    latest first; the step went from [g0] to [g1], and [rest] came before. *)
Definition took (h : list (Gateway Srv)) (a : Label) g0 g1 (rest : list (Gateway Srv)) : Prop :=
  (exists later, h = later ++ g1 :: g0 :: rest)%list /\ gw_step fuel cfg a g0 g1.

(** Cancel request [n] has looked its key pair up, in state [g0], and got this
    client and this slot. *)
Definition looked_up h n pid key client slot g0 : Prop :=
  (exists g1 rest, took h (CancelAdvances n) g0 g1 rest)
  /\ gw_cancels g0 !! n = Some (mk_cancel pid key (on_cancel_request pid key))
  /\ lookup_cancel pid key (gw_world g0) = Some (client, slot).

(** After that it has read this query id from the slot, in state [g1]. *)
Definition has_read h n pid key client slot g0 g1 qid : Prop :=
  exists g2 rest, took h (CancelAdvances n) g1 g2 rest
    /\ gw_cancels g1 !! n = Some (mk_cancel pid key (cancel_slot client slot))
    /\ slot_value (gw_world g1) slot = Some qid
    /\ looked_up (g1 :: rest) n pid key client slot g0.

(** How far a cancel request has got. *)
Inductive cancel_ok (h : list (Gateway Srv)) n pid key : Task (World Srv) unit -> Prop :=
| cancel_arrived : cancel_ok h n pid key (on_cancel_request pid key)
| cancel_found client slot g0 :
    looked_up h n pid key client slot g0 -> cancel_ok h n pid key (cancel_slot client slot)
| cancel_read client slot g0 g1 qid :
    has_read h n pid key client slot g0 g1 qid -> cancel_ok h n pid key (task (client_cancel client qid))
| cancel_returned r : cancel_ok h n pid key (Done r).

Record gateway_inv (past : list (Gateway Srv)) g : Prop := {
  gi_conns : forall cid c, gw_conns g !! cid = Some c -> conn_ok c;
  gi_fresh : forall cid cl, gw_clients g !! cid = Some cl -> session (cl_info cl) = None ->
               gw_conns g !! cid = None;
  gi_startup : forall cid cl t, gw_clients g !! cid = Some cl -> cl_startup cl = Some t ->
                 startup_ok (cl_info cl) t;
  gi_cancels : forall n cr, gw_cancels g !! n = Some cr -> cancel_ok past n (cr_pid cr) (cr_key cr) (cr_task cr);
  gi_submitted : Forall (fun s => built cfg (fst s)) (submitted (gw_world g))
}.

Lemma handle_ok cs secure call ps open old :
  own_cache cs ps -> call_ok (mk_connection cs ps open old) (handle fuel cfg cs secure call).
Proof.
  intros Hc w. simpl.
  assert (H : triple total same_portals (ext_guar cs) (fun s => own_cache cs (portals s))
                (handle fuel cfg cs secure call) (Forall (own cs))).
  { rewrite handle_unfold. destruct call.
    - refine (in_world_within cs total _ _ _). by apply process_query_within.
    - refine (within_ext_await cs total _ _ (own cs) _ _ _); [by apply do_query_within|]. intros r Hr.
      apply triple_done; [apply own_cache_stable|]. intros rs [= <-]. by apply Forall_singleton.
    - refine (within_ext_await cs total _ _ (fun _ => True) _ _ _); [by apply do_describe_statement_within|]. intros r _.
      apply triple_done; [apply own_cache_stable|]. intros rs [= <-]. constructor.
    - refine (within_ext_await cs total _ _ (fun _ => True) _ _ _); [by apply do_describe_portal_within|]. intros r _.
      apply triple_done; [apply own_cache_stable|]. intros rs [= <-]. constructor. }
  by apply H.
Qed.

Lemma new_connection_ok cs : built cfg (trino_client cs) -> conn_ok (new_connection cs).
Proof.
  intros Hb. split; simpl; [|constructor|done|done].
  split; [unfold cache_ok; simpl; rewrite map_size_empty; lia|]. intros name e. simpl. by rewrite lookup_empty.
Qed.

(** ** Steps of one connection *)

(** The changes of the world that are a connection's own. *)
Abbreviation moves c := (confined (trino_client (conn_state c)) (active_query_id (conn_state c))).

Lemma call_begins_ok c secure call :
  conn_ok c -> conn_ok (set_call (Some (handle fuel cfg (conn_state c) secure call)) c).
Proof. intros [Hc Ho _ Hb]. split; simpl; [done|done| |done]. intros t [= <-]. by apply handle_ok. Qed.

Lemma call_advances_ok c effect next w :
  conn_ok c -> conn_call c = Some (Act effect next) ->
  let s := mk_ext_state w (conn_portals c) in
  conn_ok (mk_connection (conn_state c) (portals (effect s)) (conn_open c) (Some (next s)))
  /\ moves c w (ext_world (effect s)).
Proof.
  intros [Hc Ho Hcall Hb] E s. destruct (Hcall _ E w s) as [[Hg Hk] Hn]; [reflexivity|].
  split; [|exact Hg]. split; simpl; [by apply Hk|done| |done].
  intros t [= <-] w'. simpl. eapply rg_env; [apply _| |exact Hn]. done.
Qed.

Lemma call_returns_ok c r w :
  conn_ok c -> conn_call c = Some (Done r) ->
  conn_ok (mk_connection (conn_state c) (conn_portals c) (conn_open c ++ answers r)%list None).
Proof.
  intros [Hc Ho Hcall Hb] E. split; simpl; [done| |done|done]. apply Forall_app. split; [done|].
  destruct (Hcall _ E w (mk_ext_state w (conn_portals c))) as [_ Hr]; [reflexivity|].
  destruct r; [by apply Hr|constructor].
Qed.

Lemma pull_ok c i schema s ev s' w w' :
  conn_ok c -> conn_open c !! i = Some (RQuery schema (Streaming s)) -> stream_step s w = (ev, s', w') ->
  conn_ok (set_open (<[i := RQuery schema (Streaming s')]> (conn_open c)) c) /\ moves c w w'.
Proof.
  intros [Hc Ho Hcall Hb] Hi E. pose proof (Forall_lookup_1 _ _ _ _ Ho Hi) as Hown. simpl in Hown.
  destruct (stream_step_within _ _ _ _ _ _ _ Hown E). split; [|done].
  split; simpl; [done| |done|done]. by apply Forall_insert.
Qed.

Lemma drop_ok c i r w :
  conn_ok c -> conn_open c !! i = Some r ->
  conn_ok (set_open (delete i (conn_open c)) c) /\ moves c w (drop_response r w).
Proof.
  intros [Hc Ho Hcall Hb] Hi. pose proof (Forall_lookup_1 _ _ _ _ Ho Hi) as Hown.
  split; [|by apply drop_response_confined]. split; simpl; [done| |done|done]. by apply Forall_delete.
Qed.

(** The cached responses of a cache that is the connection's own. *)
Lemma cached_owned cs ps :
  own_cache cs ps -> Forall (own cs) (map (fun e => cached_response (snd e)) (map_to_list (entries ps))).
Proof.
  intros [_ H]. apply Forall_map, Forall_forall. intros [name e] Hin%elem_of_map_to_list. by eapply H.
Qed.

(** Closing: own changes around the removal of the registry entry. *)
Lemma close_effect c w :
  conn_ok c ->
  exists w1, moves c w w1 /\ moves c (snd (drop_connection_state (conn_state c) w1)) (close_connection c w).
Proof.
  intros [Hc Ho _ _]. eexists. split; [by apply drop_all_confined|]. by apply drop_all_confined, cached_owned.
Qed.

(** A startup call's step: nothing but submissions, or the one session. *)
Lemma startup_advances_ok info effect next w :
  startup_ok info (Act effect next) ->
  let y := effect (info, w) in
  startup_ok (fst y) (next (info, w)) /\ exists secret, startup_act cfg secret (info, w) y.
Proof.
  intros [secret Hs] y. destruct (Hs w (info, w)) as [Ha Hn]; [reflexivity|]. fold y in Ha, Hn.
  split; [|by exists secret]. exists secret. intros w'. eapply rg_env; [apply _| |exact Hn]. done.
Qed.

(** ** Steps keep the invariant *)

Lemma world_update past g w' :
  gateway_inv past g -> Forall (fun s => built cfg (fst s)) (submitted w') ->
  gateway_inv past (with_world w' g).
Proof. by intros [] ?. Qed.

Lemma conn_update past g cid c c' :
  gateway_inv past g -> gw_conns g !! cid = Some c -> conn_ok c' -> gateway_inv past (with_conn cid c' g).
Proof.
  intros [Hc Hf Hs Hx Hb] Hl Hok. split; simpl; try done.
  - intros i x [[<- <-]|[_ H]]%lookup_insert_Some; [done|]. by eapply Hc.
  - intros i x H Hn. rewrite lookup_insert_ne; [by eapply Hf|]. intros <-. by rewrite (Hf _ _ H Hn) in Hl.
Qed.

Lemma client_update past g cid cl :
  gateway_inv past g -> (session (cl_info cl) = None -> gw_conns g !! cid = None) ->
  (forall t, cl_startup cl = Some t -> startup_ok (cl_info cl) t) ->
  gateway_inv past (with_client cid cl g).
Proof.
  intros [Hc Hf Hs Hx Hb] Hn Hok. split; simpl; try done.
  - intros i x [[<- <-]|[_ H]]%lookup_insert_Some; [done|]. by eapply Hf.
  - intros i x t [[<- <-]|[_ H]]%lookup_insert_Some; [apply Hok|]. by eapply Hs.
Qed.

Lemma cancel_update past g n cr :
  gateway_inv past g -> cancel_ok past n (cr_pid cr) (cr_key cr) (cr_task cr) ->
  gateway_inv past (with_cancel n cr g).
Proof.
  intros [Hc Hf Hs Hx Hb] Hok. split; simpl; try done.
  intros i x [[<- <-]|[_ H]]%lookup_insert_Some; [done|]. by eapply Hx.
Qed.

(** Changes of the world that are a connection's own. *)
Lemma moves_update past g cid c w' :
  gateway_inv past g -> gw_conns g !! cid = Some c -> moves c (gw_world g) w' ->
  gateway_inv past (with_world w' g).
Proof.
  intros Hi Hl [_ _ _ _ _ (q & Eq & Fq)]. apply world_update; [done|]. rewrite Eq. apply Forall_app. split; [by apply Hi|]. eapply Forall_impl; [exact Fq|]. simpl. intros x ->.
  by eapply co_built, gi_conns.
Qed.

(** A longer history. *)
Lemma took_cons g h a g0 g1 rest : took h a g0 g1 rest -> took (g :: h) a g0 g1 rest.
Proof. intros [[later ->] H]. split; [|done]. by exists (g :: later). Qed.

Lemma looked_up_cons g h n pid key client slot g0 :
  looked_up h n pid key client slot g0 -> looked_up (g :: h) n pid key client slot g0.
Proof. intros [(g1 & rest & H) ?]. split; [|done]. exists g1, rest. by apply took_cons. Qed.

Lemma looked_up_app later h n pid key client slot g0 :
  looked_up h n pid key client slot g0 -> looked_up (later ++ h)%list n pid key client slot g0.
Proof. induction later; [done|]. intros H. by apply looked_up_cons, IHlater. Qed.

Lemma cancel_ok_cons g h n pid key t : cancel_ok h n pid key t -> cancel_ok (g :: h) n pid key t.
Proof.
  intros [|client slot g0 H|client slot g0 g1 qid (g2 & rest & H & H')|r].
  - apply cancel_arrived.
  - by eapply cancel_found, looked_up_cons.
  - eapply cancel_read. exists g2, rest. split; [by apply took_cons|done].
  - apply cancel_returned.
Qed.

Lemma gateway_inv_cons g past g' : gateway_inv past g' -> gateway_inv (g :: past) g'.
Proof. intros [Hc Hf Hs Hx Hb]. split; try done. intros n cr H. by eapply cancel_ok_cons, Hx. Qed.

(** What a step of a cancel request does: it looks something up, or it calls Trino
    for the query it has read. *)
Lemma cancel_effect_ok h n pid key effect next w :
  cancel_ok h n pid key (Act effect next) ->
  effect w = w
  \/ exists client slot g0 g1 qid, has_read h n pid key client slot g0 g1 qid
       /\ effect w = snd (client_cancel client qid w).
Proof.
  intros Hok. remember (Act effect next) as t eqn:E.
  destruct Hok as [|client slot g0 _|client slot g0 g1 qid Hr|]; [| | |done]; injection E as <- <-; simpl.
  - by left.
  - by left.
  - right. by exists client, slot, g0, g1, qid.
Qed.

(** How far it has got afterwards. *)
Lemma cancel_next_ok past g n pid key effect next :
  gw_cancels g !! n = Some (mk_cancel pid key (Act effect next)) ->
  cancel_ok (g :: past) n pid key (Act effect next) ->
  let g' := with_cancel n (mk_cancel pid key (next (gw_world g))) (with_world (effect (gw_world g)) g) in
  cancel_ok (g' :: g :: past) n pid key (next (gw_world g)).
Proof.
  intros Hl Hok g'.
  assert (Ht : took (g' :: g :: past) (CancelAdvances n) g g' past)
    by (split; [by exists []|by apply gw_cancel_advances]).
  clearbody g'. remember (Act effect next) as t eqn:E.
  destruct Hok as [|client slot g0 Hk|client slot g0 g1 qid _|]; [| | |done]; injection E as <- <-; simpl.
  - destruct (lookup_cancel pid key (gw_world g)) as [[client slot]|] eqn:El; [|apply cancel_returned].
    apply (cancel_found _ _ _ _ client slot g). split; [by exists g', past|done].
  - destruct (slot_value (gw_world g) slot) as [qid|] eqn:Es; [|apply cancel_returned].
    apply (cancel_read _ _ _ _ client slot g0 g qid). by exists g', past.
  - apply cancel_returned.
Qed.

(** Closing a socket. *)
Lemma close_update past g cid : gateway_inv past g -> gateway_inv past (close_socket cid g).
Proof.
  intros Hi. assert (Hb : Forall (fun s => built cfg (fst s)) (submitted (gw_world (close_socket cid g)))).
  { unfold close_socket. destruct (gw_conns g !! cid) as [c|] eqn:Hc; simpl; [|apply Hi].
    destruct (close_effect c (gw_world g)) as (w1 & M1 & [_ _ _ _ _ (q & Eq & Fq)]); [by eapply gi_conns|].
    rewrite Eq. apply Forall_app. split; [by eapply (moves_update past g cid c w1 Hi)|].
    eapply Forall_impl; [exact Fq|]. simpl. intros x ->. by eapply co_built, gi_conns. }
  destruct Hi as [Hc Hf Hs Hx _]. split; try done; simpl.
  - intros i x [_ H]%lookup_delete_Some. by eapply Hc.
  - intros i x [Hne H]%lookup_delete_Some Hn. rewrite lookup_delete_ne by done. by eapply Hf.
  - intros i x t [_ H]%lookup_delete_Some. by eapply Hs.
Qed.

(** What [establish_state] returns and leaves alone. *)
Lemma establish_state_effect client secret w cs w' :
  establish_state cfg client secret w = (Ok cs, w') ->
  trino_client cs = client /\ submitted w' = submitted w /\ cancelled w' = cancelled w
  /\ active_query_id cs = next_slot w /\ cancel_key cs = (next_pid w, I32 secret)
  /\ registry w' = <[cancel_key cs := entry_of cs]> (registry w)
  /\ slots w' = <[active_query_id cs := None]> (slots w).
Proof. unfold establish_state. unfold_io. simpl. by intros [= <- <-]. Qed.

(** A step of a startup call: either there is no new session, or the session is
    the connection's first. *)
Lemma startup_update past g cid info effect next :
  gateway_inv past g -> gw_clients g !! cid = Some (mk_client info (Some (Act effect next))) ->
  let y := effect (info, gw_world g) in
  gateway_inv past (note_session cid (session info) (session (fst y))
    (with_client cid (mk_client (fst y) (Some (next (info, gw_world g)))) (with_world (snd y) g))).
Proof.
  intros Hi Hl y.
  destruct (startup_advances_ok info effect next (gw_world g)) as [Hok [secret Hact]];
    [exact (gi_startup _ _ Hi _ _ _ Hl eq_refl)|]. fold y in Hok, Hact. pose proof (gi_fresh _ _ Hi _ _ Hl) as Hfr.
  destruct Hact as [(Hs & _ & q & Eq & Fq & _)|(Hn & client & cs & Hb & E & Hs)]; simpl in *.
  - rewrite Hs. replace (note_session cid (session info) (session info) _) with
      (with_client cid (mk_client (fst y) (Some (next (info, gw_world g)))) (with_world (snd y) g))
      by by destruct (session info).
    apply client_update; simpl; [|by rewrite Hs|by intros t [= <-]].
    apply world_update; [done|]. rewrite Eq. apply Forall_app. split; [apply Hi|done].
  - rewrite Hn, Hs in *. destruct Hi as [Hc Hf Hst Hx Hsub]. apply establish_state_effect in E as (Ec & Esub & _).
    split; simpl; [| | |done|by rewrite Esub].
    + intros i x [[<- <-]|[_ H]]%lookup_insert_Some; [|by eapply Hc]. apply new_connection_ok. by rewrite Ec.
    + intros i x [[<- <-]|[Hne H]]%lookup_insert_Some; [simpl; by rewrite Hs|].
      rewrite lookup_insert_ne by done. by eapply Hf.
    + intros i x t [[<- <-]|[_ H]]%lookup_insert_Some; [by intros [= <-]|by eapply Hst].
Qed.

(** A step of a connection. *)
Lemma own_update past g cid c c' w' :
  gateway_inv past g -> gw_conns g !! cid = Some c -> conn_ok c' /\ moves c (gw_world g) w' ->
  gateway_inv past (with_conn cid c' (with_world w' g)).
Proof. intros Hi Hl [Hok Hm]. eapply conn_update; [by eapply moves_update|exact Hl|done]. Qed.

(** A step of a cancel request. *)
Lemma cancel_step_update past g n pid key effect next :
  gateway_inv (g :: past) g -> gw_cancels g !! n = Some (mk_cancel pid key (Act effect next)) ->
  let g' := with_cancel n (mk_cancel pid key (next (gw_world g))) (with_world (effect (gw_world g)) g) in
  gateway_inv (g' :: g :: past) g'.
Proof.
  intros Hi Hl g'. pose proof (gi_cancels _ _ Hi _ _ Hl) as Hok. simpl in Hok.
  apply cancel_update; [|by apply cancel_next_ok]. apply gateway_inv_cons, world_update; [done|].
  destruct (cancel_effect_ok _ _ _ _ _ _ (gw_world g) Hok) as [->|(client & slot & g0 & g1 & qid & _ & ->)]; [apply Hi|].
  unfold client_cancel. destruct (trino_cancel _ _ _). apply Hi.
Qed.

Lemma gw_step_inv past g a g' :
  gateway_inv (g :: past) g -> gw_step fuel cfg a g g' -> gateway_inv (g' :: g :: past) g'.
Proof.
  intros Hi Hst. pose proof (gateway_inv_cons g' _ _ Hi) as Hi'.
  destruct Hst as [g cid info Hl Hc Hn|g cid info secret msg Hl Hn|g cid info effect next Hl|g cid info r Hl
    |g cid info c call Hl Hc Hn|g cid c effect next Hc Hr|g cid c r Hc Hr|g cid c i schema s ev s' w' Hc Hi2 E
    |g cid c i r Hc Hi2|g cid|g n pid key Hl|g n pid key effect next Hl].
  - by apply client_update.
  - apply client_update; [done|intros _; exact (gi_fresh _ _ Hi _ _ Hl Hn)|].
    intros t [= <-]. exists secret. intros w. by apply on_startup_rg.
  - by apply startup_update.
  - apply client_update; [done|exact (gi_fresh _ _ Hi _ _ Hl)|done].
  - eapply conn_update; [done|exact Hc|]. by eapply call_begins_ok, gi_conns.
  - eapply own_update; [done|exact Hc|]. eapply call_advances_ok; [by eapply gi_conns|done].
  - eapply conn_update; [done|exact Hc|]. by eapply (call_returns_ok c r (gw_world g)); [eapply gi_conns|].
  - eapply own_update; [done|exact Hc|]. by eapply pull_ok; [eapply gi_conns|..].
  - eapply own_update; [done|exact Hc|]. by eapply drop_ok; [eapply gi_conns|].
  - by apply close_update.
  - apply cancel_update; [done|]. apply cancel_arrived.
  - by apply cancel_step_update.
Qed.

Lemma gw_initial_inv x : gateway_inv [gw_initial x] (gw_initial x).
Proof. split; simpl; try (by intros *; rewrite lookup_empty). constructor. Qed.

Lemma gw_reachable_inv x past g : gw_reachable fuel cfg x past g -> gateway_inv (g :: past) g.
Proof. induction 1 as [|past g a g' _ IH Hst]; [apply gw_initial_inv|]. by eapply gw_step_inv. Qed.

(** ** What a step does to the shared state *)

(** The cases: nothing; a connection's own changes; a close; a startup call
    that asks Trino; a startup call that establishes a session; a cancel
    request that calls Trino. *)
Inductive effect_of (past : list (Gateway Srv)) g (a : Label) g' : Prop :=
| eff_quiet : sys_of g' = sys_of g -> effect_of past g a g'
| eff_own cid c :
    actor a = Some cid -> gw_conns g !! cid = Some c -> moves c (gw_world g) (gw_world g') ->
    sys_of g' = mk_sys (gw_world g') (conns (sys_of g)) (gw_allocated g) -> effect_of past g a g'
| eff_close cid c :
    actor a = Some cid -> gw_conns g !! cid = Some c ->
    sys_of g' = mk_sys (close_connection c (gw_world g)) (delete cid (conns (sys_of g))) (gw_allocated g) ->
    effect_of past g a g'
| eff_check cid q :
    actor a = Some cid -> same_sessions (gw_world g) (gw_world g') ->
    submitted (gw_world g') = (submitted (gw_world g) ++ q)%list ->
    (is_Some (gw_conns g !! cid) -> q = []) ->
    sys_of g' = mk_sys (gw_world g') (conns (sys_of g)) (gw_allocated g) -> effect_of past g a g'
| eff_establish cid secret client cs :
    actor a = Some cid -> gw_conns g !! cid = None ->
    establish_state cfg client secret (gw_world g) = (Ok cs, gw_world g') ->
    sys_of g' = mk_sys (gw_world g') (<[cid := cs]> (conns (sys_of g))) (gw_allocated g + 1) ->
    effect_of past g a g'
| eff_cancel n cr client slot g0 g1 qid :
    a = CancelAdvances n -> gw_cancels g !! n = Some cr ->
    has_read past n (cr_pid cr) (cr_key cr) client slot g0 g1 qid ->
    sys_of g' = mk_sys (snd (client_cancel client qid (gw_world g))) (conns (sys_of g)) (gw_allocated g) ->
    effect_of past g a g'.

(** Replacing a connection's record leaves its state in place. *)
Lemma states_insert g cid c c' :
  gw_conns g !! cid = Some c -> conn_state c' = conn_state c ->
  conn_state <$> <[cid := c']> (gw_conns g) = conn_state <$> gw_conns g.
Proof. intros Hl Hs. rewrite fmap_insert, insert_id; [done|]. by rewrite lookup_fmap, Hl, Hs. Qed.

Lemma own_effect past g a cid c c' w' :
  actor a = Some cid -> gw_conns g !! cid = Some c -> conn_state c' = conn_state c ->
  moves c (gw_world g) w' -> effect_of past g a (with_conn cid c' (with_world w' g)).
Proof.
  intros Ha Hl Hs Hm. eapply eff_own; [done..|]. unfold sys_of. simpl. by rewrite (states_insert g cid c c').
Qed.

Lemma startup_effect past g cid info effect next :
  gateway_inv past g -> gw_clients g !! cid = Some (mk_client info (Some (Act effect next))) ->
  let y := effect (info, gw_world g) in
  effect_of past g (StartupAdvances cid) (note_session cid (session info) (session (fst y))
    (with_client cid (mk_client (fst y) (Some (next (info, gw_world g)))) (with_world (snd y) g))).
Proof.
  intros Hi Hl y.
  destruct (startup_advances_ok info effect next (gw_world g)) as [_ [secret Hact]];
    [exact (gi_startup _ _ Hi _ _ _ Hl eq_refl)|]. fold y in Hact. pose proof (gi_fresh _ _ Hi _ _ Hl) as Hfr.
  destruct Hact as [(Hs & Hss & q & Eq & _ & Hq)|(Hn & client & cs & _ & E & Hs)]; simpl in *.
  - rewrite Hs. replace (note_session cid (session info) (session info) _) with
      (with_client cid (mk_client (fst y) (Some (next (info, gw_world g)))) (with_world (snd y) g))
      by by destruct (session info).
    apply (eff_check _ _ _ _ cid q); [done..| |done].
    intros [c Hc]. destruct (session info); [by apply Hq|]. by rewrite Hfr in Hc.
  - rewrite Hn, Hs. apply (eff_establish _ _ _ _ cid secret client cs); [done|by apply Hfr|done|].
    unfold sys_of. simpl. by rewrite fmap_insert.
Qed.

Lemma gw_step_effect past g a g' : gateway_inv past g -> gw_step fuel cfg a g g' -> effect_of past g a g'.
Proof.
  intros Hi Hst.
  destruct Hst as [g cid info Hl Hc Hn|g cid info secret msg Hl Hn|g cid info effect next Hl|g cid info r Hl
    |g cid info c call Hl Hc Hn|g cid c effect next Hc Hr|g cid c r Hc Hr|g cid c i schema s ev s' w' Hc Hi2 E
    |g cid c i r Hc Hi2|g cid|g n pid key Hl|g n pid key effect next Hl]; try (by apply eff_quiet).
  - by apply startup_effect.
  - apply eff_quiet. unfold sys_of. simpl. by rewrite (states_insert g cid c).
  - eapply own_effect; [done|exact Hc|done|]. eapply call_advances_ok; [by eapply gi_conns|done].
  - apply eff_quiet. unfold sys_of. simpl. by rewrite (states_insert g cid c).
  - eapply own_effect; [done|exact Hc|done|]. by eapply pull_ok; [eapply gi_conns|..].
  - eapply own_effect; [done|exact Hc|done|]. by eapply drop_ok; [eapply gi_conns|].
  - destruct (gw_conns g !! cid) as [c|] eqn:Hc.
    + eapply (eff_close _ _ _ _ cid c); [done..|]. unfold sys_of, close_socket. simpl. by rewrite Hc, fmap_delete.
    + apply eff_quiet. unfold sys_of, close_socket. simpl. by rewrite Hc, delete_id.
  - destruct (cancel_effect_ok past n pid key effect next (gw_world g)) as [He|(client & slot & g0 & g1 & qid & Hr & He)];
      [exact (gi_cancels _ _ Hi _ _ Hl)|..].
    + apply eff_quiet. unfold sys_of. simpl. by rewrite He.
    + eapply (eff_cancel _ _ _ _ n _ client slot g0 g1 qid); [done|exact Hl|done|]. unfold sys_of. simpl. by rewrite He.
Qed.

(** ** The registry *)

Lemma effect_registry past g a g' :
  gateway_inv past g -> effect_of past g a g' -> registry_inv (sys_of g) ->
  (gw_allocated g' <= u32_modulus)%Z -> registry_inv (sys_of g').
Proof.
  intros Hi He Hr Ha.
  destruct He as [E|cid c _ _ [] E|cid c _ Hc E|cid q _ (? & ? & ? & _) _ _ E|cid secret client cs _ Hn Hest E
    |n cr client slot g0 g1 qid _ _ _ E]; rewrite E.
  - done.
  - by apply (frame_inv (sys_of g)).
  - destruct (close_effect c (gw_world g)) as (w1 & [Hr1 Hp1 Hn1 _ _ _] & [Hr2 Hp2 Hn2 _ _ _]); [by eapply gi_conns|].
    assert (H1 : registry_inv (mk_sys w1 (conns (sys_of g)) (gw_allocated g))) by by apply (frame_inv (sys_of g)).
    assert (Hd : registry_inv (mk_sys (snd (drop_connection_state (conn_state c) w1))
                                 (delete cid (conns (sys_of g))) (gw_allocated g))).
    { eapply (drop_inv _ _ _ _ H1); [simpl; by rewrite lookup_fmap, Hc|]. by apply surjective_pairing. }
    by apply (frame_inv _ _ Hd).
  - by apply (frame_inv (sys_of g)).
  - apply (establish_inv (sys_of g) cid cfg client secret cs); [done| |simpl; by rewrite lookup_fmap, Hn|done].
    simpl. apply (f_equal allocated) in E. simpl in E. lia.
  - unfold client_cancel. destruct (trino_cancel _ _ _). by apply (frame_inv (sys_of g)).
Qed.

End Facts.

(** ** Executions *)

Section Executions.
Context `{Case : UnicodeCase} `{Chr : Chrono} `{Dec : Decimals} `{Wir : !Wire} `{Oids : TypeOids}.
Context `{Sql : SqlParser} {Srv : Type} `{Api : TrinoApi Srv} `{Pgw : PgWireApi}.
Variables (fuel : nat) (cfg : Config).
Implicit Types (g : Gateway Srv) (w : World Srv) (c : Connection Srv).

Lemma any_fuel : false = true -> @answers_within Srv Api fuel.
Proof. done. Qed.

(** The counter of connections only grows. *)
Lemma gw_step_allocated g a g' : gw_step fuel cfg a g g' -> (gw_allocated g <= gw_allocated g')%Z.
Proof.
  intros []; simpl; try lia. unfold note_session. repeat case_match; simpl; lia.
Qed.

(** No step of another changes a connection's record. *)
Lemma gw_step_other a g g' cid :
  gw_step fuel cfg a g g' -> actor a <> Some cid -> gw_conns g' !! cid = gw_conns g !! cid.
Proof.
  intros [] Ha; simpl in *; try done; try (by rewrite lookup_insert_ne by congruence).
  - unfold note_session. repeat case_match; try done. simpl.
    by rewrite lookup_insert_ne by congruence.
  - by rewrite lookup_delete_ne by congruence.
Qed.

(** Reachable states keep the invariants; the registry's needs the pid counter
    not to have wrapped. *)
Lemma reachable_inv x past g : gw_reachable fuel cfg x past g -> gateway_inv fuel cfg false (g :: past) g.
Proof. apply gw_reachable_inv, any_fuel. Qed.

Lemma reachable_registry x past g :
  gw_reachable fuel cfg x past g -> (gw_allocated g <= u32_modulus)%Z -> registry_inv (sys_of g).
Proof.
  induction 1 as [|past g a g' Hr IH Hst]; intros Ha.
  - unfold sys_of. simpl. rewrite fmap_empty. apply registry_inv_initial.
  - pose proof (reachable_inv _ _ _ Hr) as Hi.
    eapply effect_registry; [exact Hi|by eapply gw_step_effect| |done].
    apply IH. pose proof (gw_step_allocated _ _ _ Hst). lia.
Qed.

(** The earlier states were reachable. *)
Lemma reachable_past x past g g0 :
  gw_reachable fuel cfg x past g -> g0 ∈ past ->
  (exists past0, gw_reachable fuel cfg x past0 g0) /\ (gw_allocated g0 <= gw_allocated g)%Z.
Proof.
  induction 1 as [|past g a g' Hr IH Hst]; intros Hin; [by apply not_elem_of_nil in Hin|].
  pose proof (gw_step_allocated _ _ _ Hst). apply elem_of_cons in Hin as [->|Hin]; [split; [eauto|lia]|].
  destruct (IH Hin). split; [done|lia].
Qed.

(** The key pair a request has looked up was a live connection's then. *)
Lemma looked_up_live x past g n pid key client slot g0 :
  gw_reachable fuel cfg x past g -> (gw_allocated g <= u32_modulus)%Z ->
  looked_up fuel cfg (g :: past) n pid key client slot g0 ->
  exists cid c, gw_conns g0 !! cid = Some c /\ cancel_key (conn_state c) = (pid, key)
    /\ client = trino_client (conn_state c) /\ slot = active_query_id (conn_state c).
Proof.
  intros Hr Ha [(g1 & rest & [later E] & _) [_ Hl]].
  assert (Hin : g0 ∈ past).
  { destruct later as [|? later]; injection E as -> ->; [apply list_elem_of_here|].
    apply elem_of_app. right. apply list_elem_of_further, list_elem_of_here. }
  destruct (reachable_past _ _ _ _ Hr Hin) as [[past0 Hr0] Ha0].
  destruct (lookup_is_live (sys_of g0) pid key client slot) as (cid & cs & Hc & ?);
    [by eapply reachable_registry; [|lia]|done|].
  simpl in Hc. apply lookup_fmap_Some in Hc as (c & <- & Hc). by exists cid, c.
Qed.

End Executions.
