(* ===== verification/Tls.v ===== *)
(** * The TLS acceptor (src/src/tls.rs)

    Loading the certificate chain and the key, and building the acceptor. PEM
    parsing and rustls are the class [TlsLib]; errors are those of anyhow, a
    cause with the contexts put around it. *)

From S2P Require Import Prelude RustStr.

Local Open Scope string_scope.
Local Open Scope rust_scope.

(** [anyhow::Error]: its messages, the outermost context first. *)
Record AnyhowError := mk_anyhow {
  chain : list string
}.

(** Its alternate form ["{e:#}"]. *)
Definition display_chain (e : AnyhowError) : string := String.concat ": " (chain e).

(** [anyhow!(...)], and [with_context] on the result of a library. *)
Definition anyhow (message : string) : AnyhowError := mk_anyhow [message].

Definition with_context {A} (message : string) (r : result string A) : result AnyhowError A :=
  match r with
  | Ok a => Ok a
  | Err cause => Err (mk_anyhow [message; cause])
  end.

(** rustls and rustls-pki-types: [CertificateDer::pem_file_iter] (opening the
    file, then an item per PEM section), [PrivateKeyDer::from_pem_file], the
    protocol versions of the provider, and [with_single_cert]. *)
Class TlsLib (ServerConfig : Type) := {
  CertificateDer : Type;
  PrivateKeyDer : Type;
  pem_file_iter : string -> result string (list (result string CertificateDer));
  key_from_pem_file : string -> result string PrivateKeyDer;
  safe_default_protocol_versions : result string unit;
  with_single_cert : list CertificateDer -> PrivateKeyDer -> result string ServerConfig
}.

(** [collect::<Result<Vec<_>, _>>()]: up to the first error. *)
Fixpoint collect {E A} (items : list (result E A)) : result E (list A) :=
  match items with
  | [] => Ok []
  | item :: rest =>
    let? a := item in
    let? l := collect rest in
    Ok (a :: l)
  end.

Section Tls.
Context {ServerConfig : Type} `{Lib : TlsLib ServerConfig}.

Definition load_certs (path : string) : result AnyhowError (list CertificateDer) :=
  let? items := with_context ("opening TLS certificate file " ++ path) (pem_file_iter path) in
  let? certs := with_context ("reading TLS certificate PEM " ++ path) (collect items) in
  match certs with
  | [] => Err (anyhow ("no PEM certificates found in " ++ path))
  | _ => Ok certs
  end.

Definition load_key (path : string) : result AnyhowError PrivateKeyDer :=
  with_context ("reading TLS private key PEM " ++ path) (key_from_pem_file path).

Definition build_acceptor (cert_path key_path : string) : result AnyhowError ServerConfig :=
  let? certs := load_certs cert_path in
  let? key := load_key key_path in
  let? _ := with_context "rustls: invalid protocol-version configuration" safe_default_protocol_versions in
  with_context ("TLS keypair invalid (cert " ++ cert_path ++ ", key " ++ key_path ++ ")")
    (with_single_cert certs key).

Lemma collect_ok {E A} (items : list (result E A)) l : collect items = Ok l <-> items = map Ok l.
Proof.
  revert l. induction items as [|[a|e] items IH]; intros l; simpl.
  - split; [by intros [= <-]|]. by destruct l.
  - destruct (collect items) as [l'|e]; simpl; split.
    + intros [= <-]. simpl. f_equal. by apply IH.
    + destruct l as [|b l]; [done|]. intros [= -> H]. apply IH in H. by injection H as ->.
    + done.
    + destruct l as [|b l]; [done|]. intros [= _ H]. by apply IH in H.
  - split; [done|]. by destruct l.
Qed.

Lemma collect_err {E A} (items : list (result E A)) e :
  collect items = Err e <-> exists l rest, items = (map Ok l ++ Err e :: rest)%list.
Proof.
  revert e. induction items as [|[a|e0] items IH]; intros e; simpl.
  - split; [done|]. by intros ([|] & rest & ?).
  - split.
    + destruct (collect items) as [l'|e1]; [done|]. intros [= ->].
      destruct (proj1 (IH e) eq_refl) as (l & rest & ->). by exists (a :: l), rest.
    + intros ([|b l] & rest & E1); [done|]. injection E1 as -> E2.
      by rewrite (proj2 (IH e) (ex_intro _ l (ex_intro _ rest E2))).
  - split; [intros [= ->]; by exists [], items|]. intros ([|b l] & rest & E1); [|done]. by injection E1 as ->.
Qed.

(** What the files must hold for the acceptor to be built. *)
Definition valid_pair (cert_path key_path : string) (certs : list CertificateDer) (key : PrivateKeyDer)
    (cfg : ServerConfig) : Prop :=
  pem_file_iter cert_path = Ok (map Ok certs) /\ certs <> []
  /\ key_from_pem_file key_path = Ok key
  /\ safe_default_protocol_versions = Ok tt
  /\ with_single_cert certs key = Ok cfg.

(** Where it goes wrong, and what the operator is told. *)
Definition reported (cert_path key_path : string) (e : AnyhowError) : Prop :=
  (exists cause, pem_file_iter cert_path = Err cause
     /\ e = mk_anyhow ["opening TLS certificate file " ++ cert_path; cause])
  \/ (exists certs cause rest, pem_file_iter cert_path = Ok (map Ok certs ++ Err cause :: rest)%list
     /\ e = mk_anyhow ["reading TLS certificate PEM " ++ cert_path; cause])
  \/ (pem_file_iter cert_path = Ok [] /\ e = mk_anyhow ["no PEM certificates found in " ++ cert_path])
  \/ (exists cause, key_from_pem_file key_path = Err cause
     /\ e = mk_anyhow ["reading TLS private key PEM " ++ key_path; cause])
  \/ (exists cause, safe_default_protocol_versions = Err cause
     /\ e = mk_anyhow ["rustls: invalid protocol-version configuration"; cause])
  \/ (exists certs key cause, pem_file_iter cert_path = Ok (map Ok certs)
     /\ key_from_pem_file key_path = Ok key /\ with_single_cert certs key = Err cause
     /\ e = mk_anyhow ["TLS keypair invalid (cert " ++ cert_path ++ ", key " ++ key_path ++ ")"; cause]).

(** C30: The TLS acceptor is built exactly when the certificate file opens, every
    PEM section of it is a certificate and there is at least one, the key file
    holds a private key and rustls accepts the pair; the acceptor then presents
    that whole chain, in the order of the file. Otherwise the error says which
    stage failed and names the file it failed on. *)
Theorem acceptor_needs_valid_pair cert_path key_path :
  match build_acceptor cert_path key_path with
  | Ok cfg => exists certs key, valid_pair cert_path key_path certs key cfg
  | Err e => reported cert_path key_path e /\ forall certs key cfg, ~ valid_pair cert_path key_path certs key cfg
  end.
Proof.
  unfold build_acceptor, load_certs, load_key, reported, valid_pair.
  destruct (pem_file_iter cert_path) as [items|cause] eqn:Ef; simpl; [|split; [by left; eauto|by intros ? ? ? (? & _)]].
  destruct (collect items) as [certs|cause] eqn:Ec; simpl.
  2:{ apply collect_err in Ec as (certs & rest & ->). split; [by right; left; eauto|].
      intros certs' key cfg ([= E1] & _).
      assert (Hb : collect (map Ok certs ++ Err cause :: rest)%list = Ok certs') by by apply collect_ok.
      assert (Hc : collect (map Ok certs ++ Err cause :: rest)%list = Err cause) by (apply collect_err; eauto).
      congruence. }
  apply collect_ok in Ec as ->.
  assert (Hinj : forall certs', Ok (map Ok certs) = Ok (E := string) (map (Ok (E := string)) certs') -> certs = certs').
  { intros certs' [= E1]. apply (f_equal collect) in E1.
    rewrite (proj2 (collect_ok _ certs) eq_refl), (proj2 (collect_ok _ certs') eq_refl) in E1. congruence. }
  destruct certs as [|c certs]; [split; [by right; right; left|by intros ? ? ? (<-%Hinj & ? & _)]|]. simpl.
  destruct (key_from_pem_file key_path) as [key|cause] eqn:Ek; simpl;
    [|split; [by do 3 right; left; eauto|by intros ? ? ? (_ & _ & ? & _)]].
  destruct safe_default_protocol_versions as [[]|cause] eqn:Ev; simpl;
    [|split; [by do 4 right; left; eauto|by intros ? ? ? (_ & _ & _ & ? & _)]].
  destruct (with_single_cert (c :: certs) key) as [cfg|cause] eqn:Ew; simpl.
  - exists (c :: certs), key. done.
  - split; [do 5 right; by exists (c :: certs), key, cause|]. intros certs' key' cfg (<-%Hinj & _ & [= <-] & _ & E1). congruence.
Qed.

End Tls.
