(* ===== verification/Server.v ===== *)
(** * The process (src/src/main.rs, src/src/server.rs)

    The start sequence of [main] and the accept loop as a step relation with its
    connection permits. Binding the socket, installing the signal handler and the
    runtime's readiness are the environment's; the biased [select!] is
    [select_step]. Drain has what follows the loop. *)

From S2P Require Import Prelude RustStr RustStrFacts Config Policy Tls.

Local Open Scope string_scope.
Local Open Scope rust_scope.

(** ** The start sequence (main.rs) *)

(** Durations in seconds. *)
Definition DEFAULT_SHUTDOWN_DRAIN_TIMEOUT : Z := 25.

Definition parse_drain_timeout (raw : option string) : Z :=
  match raw with
  | None => DEFAULT_SHUTDOWN_DRAIN_TIMEOUT
  | Some v =>
    match parse_u64 v with
    | Some secs => secs
    | None => DEFAULT_SHUTDOWN_DRAIN_TIMEOUT
    end
  end.

Inductive StartError :=
| PolicyRefused (e : PolicyError)
| TlsSetupFailed (e : AnyhowError)
| ZeroConnections
| BindFailed (e : string)
| SignalFailed (e : string).

(** The environment of [main]: [TcpListener::bind] and
    [signal(SignalKind::terminate())]. *)
Class HostEnv := {
  bind_listener : string -> result string unit;
  signal_terminate : result string unit
}.

(** What [server::serve] and [drain] are called with. *)
Record Serving (Acceptor : Type) := mk_serving {
  serving_tls : option Acceptor;
  serving_cap : Z;
  serving_drain : Z
}.

Arguments mk_serving {Acceptor}.
Arguments serving_tls {Acceptor}.
Arguments serving_cap {Acceptor}.
Arguments serving_drain {Acceptor}.

Definition map_err {E F A} (f : E -> F) (r : result E A) : result F A :=
  match r with
  | Ok a => Ok a
  | Err e => Err (f e)
  end.

(** [main] up to the call of [serve]. *)
Definition main_start `{NetEnv} {Acceptor} `{TlsLib Acceptor} `{HostEnv} (config : Config)
    (drain_env : option string) : result StartError (Serving Acceptor) :=
  let? _ := map_err PolicyRefused (snd (validate config)) in
  let drain_timeout := parse_drain_timeout drain_env in
  let? tls_acceptor :=
    match tls_cert config, tls_key config with
    | Some cert, Some key =>
      let? a := map_err TlsSetupFailed (build_acceptor cert key) in Ok (Some a)
    | _, _ => Ok None
    end in
  let? _ := (if (max_connections config =? 0)%Z then Err ZeroConnections else Ok tt) in
  let? _ := map_err BindFailed (bind_listener (listen_addr config)) in
  let? _ := map_err SignalFailed signal_terminate in
  Ok (mk_serving tls_acceptor (max_connections config) drain_timeout).

(** ** The accept loop (server.rs) *)

Inductive TaskResult := TaskOk | TaskPanicked | TaskCancelled | TaskFailed.

(** [log_task_result]: what is logged, if anything. *)
Definition log_task_result (res : TaskResult) : option string :=
  match res with
  | TaskOk => None
  | TaskPanicked => Some "connection task panicked"
  | TaskCancelled => None
  | TaskFailed => Some "connection task failed"
  end.

(** Whether the loop is still turning, was shut down, or returned the error of
    a failed [accept]. *)
Inductive LoopState := Looping | ShutDown | AcceptFailed.

(** The loop's state: free permits of the semaphore; the tasks of the [JoinSet]
    that are running, those whose future has ended (and dropped its permit) but
    that are not yet joinable, and those that can be joined; the names given to
    tasks; the number of sockets dropped; the log; where the loop is. *)
Record Server := mk_server {
  permits : nat;
  running : list nat;
  finishing : list (nat * TaskResult);
  ended : list (nat * TaskResult);
  next_task : nat;
  rejected : nat;
  log : list string;
  loop_state : LoopState
}.

Definition serve_init (max_connections : nat) : Server :=
  mk_server max_connections [] [] [] 0 0 [] Looping.

(** [Semaphore::MAX_PERMITS] of tokio, on a 64-bit target. *)
Definition MAX_PERMITS : Z := (2 ^ 61 - 1)%Z.

(** The entry of [serve]: [Semaphore::new] panics beyond its maximum, which ends
    the process before a connection is taken ([None]). *)
Definition serve_entry (max_connections : Z) : option Server :=
  if (max_connections <=? MAX_PERMITS)%Z then Some (serve_init (Z.to_nat max_connections)) else None.

Definition leave (o : LoopState) (s : Server) : Server :=
  mk_server (permits s) (running s) (finishing s) (ended s) (next_task s) (rejected s) (log s) o.

(** A socket came in: a permit and a task, or the socket is dropped. *)
Definition accept_connection (s : Server) : Server :=
  match permits s with
  | O => mk_server O (running s) (finishing s) (ended s) (next_task s) (S (rejected s)) (log s) (loop_state s)
  | S p => mk_server p (running s ++ [next_task s])%list (finishing s) (ended s) (S (next_task s))
             (rejected s) (log s) (loop_state s)
  end.

Definition opt_to_list {A} (o : option A) : list A :=
  match o with
  | Some a => [a]
  | None => []
  end.

(** [tasks.join_next()]: the task leaves the set, its result is logged. *)
Definition reap (s : Server) : Server :=
  match ended s with
  | [] => s
  | (_, res) :: rest =>
    mk_server (permits s) (running s) (finishing s) rest (next_task s) (rejected s)
      (log s ++ opt_to_list (log_task_result res))%list (loop_state s)
  end.

(** What [listener.accept()] gives when it is polled. *)
Inductive Incoming := NoConnection | Socket | AcceptError.

(** One turn of the biased [select!], by what is ready: shutdown first, then a
    task to join, then the listener. *)
Definition select_step (shutdown : bool) (incoming : Incoming) (s : Server) : Server :=
  if shutdown then leave ShutDown s
  else match ended s with
       | _ :: _ => reap s
       | [] => match incoming with
               | NoConnection => s
               | Socket => accept_connection s
               | AcceptError => leave AcceptFailed s
               end
       end.

(** A running task ends: its permit is released with its future. *)
Definition task_exit (t : nat) (res : TaskResult) (s : Server) : Server :=
  mk_server (S (permits s)) (List.filter (fun x => negb (x =? t)%nat) (running s))
    (finishing s ++ [(t, res)])%list (ended s) (next_task s) (rejected s) (log s) (loop_state s).

(** Some time later the runtime makes it joinable. *)
Definition task_joinable (s : Server) : Server :=
  match finishing s with
  | [] => s
  | x :: rest =>
    mk_server (permits s) (running s) rest (ended s ++ [x])%list (next_task s) (rejected s) (log s)
      (loop_state s)
  end.

Inductive serve_step : Server -> Server -> Prop :=
| step_select s shutdown incoming :
    loop_state s = Looping -> serve_step s (select_step shutdown incoming s)
| step_exit s t res :
    In t (running s) -> serve_step s (task_exit t res s)
| step_joinable s : serve_step s (task_joinable s).

Inductive serve_reachable (cap : nat) : Server -> Prop :=
| serve_start : serve_reachable cap (serve_init cap)
| serve_next s s' : serve_reachable cap s -> serve_step s s' -> serve_reachable cap s'.

(** ** Theorems *)

(** C26: The gateway serves only a configuration the policy accepts, with at least
    one connection allowed, and with a TLS acceptor exactly when certificate and
    key are both configured; with authentication on and a bind address that is
    not loopback it never serves without TLS. *)
Theorem serves_only_safe_configurations `{NetEnv} {Acceptor} `{TlsLib Acceptor} `{HostEnv} config env serving :
  main_start config env = Ok serving ->
  (exists posture, snd (validate config) = Ok posture)
  /\ serving_cap serving = max_connections config /\ serving_cap serving <> 0%Z
  /\ (is_Some (serving_tls serving) <-> has_tls config = true)
  /\ (auth config = true -> bind_loopback config false -> is_Some (serving_tls serving)).
Proof.
  unfold main_start. intros Hs. destruct (snd (validate config)) as [p|e] eqn:Ev; [|done]. cbn [map_err rbind] in Hs.
  assert (Htls : auth config = true -> bind_loopback config false -> has_tls config = true).
  { intros Ha Hb. apply listen_addr_ok in Hb. unfold validate, classify in Ev. rewrite Ha, Hb in Ev.
    destruct (has_tls config); [done|]. destruct (allow_insecure_listener config); done. }
  unfold has_tls in *. destruct (tls_cert config), (tls_key config); cbn [rbind map_err] in Hs;
    [destruct (build_acceptor _ _); [|done]|..]; cbn [rbind map_err] in Hs;
    destruct (Z.eqb_spec (max_connections config) 0); cbn [rbind] in Hs; try done;
    destruct (bind_listener _); cbn [rbind map_err] in Hs; try done;
    destruct signal_terminate; cbn [rbind map_err] in Hs; try done; injection Hs as <-; simpl;
    (split; [by exists p|]); (split; [done|]); (split; [done|]); (split; [split; [try done; by intros []|by eauto]|]);
    intros Ha Hb; specialize (Htls Ha Hb); by eauto.
Qed.

Lemma filter_exit t l :
  NoDup l -> In t l -> S (length (List.filter (fun x => negb (x =? t)%nat) l)) = length l.
Proof.
  induction l as [|a l IH]; [done|]. intros [Hn Hd]%NoDup_cons Hin. simpl.
  destruct (Nat.eqb_spec a t) as [->|Hne]; simpl.
  - f_equal. clear IH Hin Hd. induction l as [|b l IH]; [done|]. simpl.
    apply not_elem_of_cons in Hn as [Hb Hn]. destruct (Nat.eqb_spec b t); [done|]. simpl. f_equal. auto.
  - rewrite IH; [done|done|]. by destruct Hin.
Qed.

(** What the loop keeps: permits and running tasks add up to the cap, and task
    names are fresh. *)
Record serve_inv (cap : nat) (s : Server) : Prop := mk_serve_inv {
  inv_permits : (permits s + length (running s) = cap)%nat;
  inv_nodup : NoDup (running s);
  inv_fresh : forall t, In t (running s) -> (t < next_task s)%nat
}.

Lemma accept_inv cap s : serve_inv cap s -> serve_inv cap (accept_connection s).
Proof.
  intros [Hp Hn Hf]. unfold accept_connection.
  destruct (permits s) as [|p] eqn:Ep; constructor; simpl in *; rewrite ?length_app; simpl; try lia; try done.
  - apply NoDup_app. split; [done|]. split; [|apply NoDup_singleton].
    intros x Hx Hx'. apply list_elem_of_singleton in Hx'. subst. apply list_elem_of_In, Hf in Hx. lia.
  - intros t. rewrite in_app_iff. simpl. intros [H|[<-|[]]]; [apply Hf in H|]; lia.
Qed.

Lemma select_inv cap sd inc s : serve_inv cap s -> serve_inv cap (select_step sd inc s).
Proof.
  intros Hi. pose proof (accept_inv cap s Hi). destruct Hi. unfold select_step, reap.
  repeat case_match; done.
Qed.

Lemma exit_inv cap t res s : In t (running s) -> serve_inv cap s -> serve_inv cap (task_exit t res s).
Proof.
  intros Hin [Hp Hn Hf]. pose proof (filter_exit t (running s) Hn Hin).
  constructor; simpl; try lia.
  - apply NoDup_ListNoDup. apply NoDup_ListNoDup in Hn. by apply List.NoDup_filter.
  - intros x Hx. apply filter_In in Hx as [Hx _]. auto.
Qed.

Lemma joinable_inv cap s : serve_inv cap s -> serve_inv cap (task_joinable s).
Proof. intros []. unfold task_joinable. by case_match. Qed.

Lemma reachable_serve_inv cap s : serve_reachable cap s -> serve_inv cap s.
Proof.
  induction 1 as [|s s' _ IH Hs]; [by constructor; simpl; try lia; try done; constructor|].
  destruct Hs; auto using select_inv, exit_inv, joinable_inv.
Qed.

(** C25: The accept loop never serves more than [max_connections] connections at
    once, and refuses a socket only when that many are being served: whenever a
    socket is accepted and nothing else is ready, the connection is served if
    fewer than the maximum run, and dropped otherwise. A permit comes back with
    every connection that ends, however it ends. *)
Theorem connections_never_exceed_cap cap s :
  serve_reachable cap s ->
  (length (running s) <= cap)%nat
  /\ (permits s = cap - length (running s))%nat
  /\ (ended s = [] ->
      let s' := select_step false Socket s in
      if (length (running s) <? cap)%nat
      then running s' = (running s ++ [next_task s])%list /\ rejected s' = rejected s
      else running s' = running s /\ rejected s' = S (rejected s)).
Proof.
  intros [Hp _ _]%reachable_serve_inv. split; [lia|]. split; [lia|]. intros He.
  unfold select_step, accept_connection. rewrite He.
  destruct (Nat.ltb_spec (length (running s)) cap), (permits s); simpl; lia || done.
Qed.

(** The drain budget is what the environment variable says when it is a [u64]
    of seconds in decimal, and 25 seconds otherwise. *)
Theorem drain_timeout_parses n :
  (0 <= n <= u64_max)%Z ->
  parse_drain_timeout (Some (nat_to_string n)) = n /\ parse_drain_timeout None = 25%Z
  /\ (forall v, parse_u64 v = None -> parse_drain_timeout (Some v) = 25%Z).
Proof.
  intros Hn. split; [|split; [done|intros v Hv; unfold parse_drain_timeout; by rewrite Hv]].
  unfold parse_drain_timeout, parse_u64.
  pose proof (parse_digits_print n ltac:(lia)) as Hp.
  destruct (nat_to_string n) as [|c s] eqn:E; [done|].
  assert (Hc : c <> "+"%char).
  { intros ->. unfold parse_digits in Hp. simpl in Hp. done. }
  assert (parse_digits (match String c s with String "+" s' => s' | _ => String c s end) = Some n) as ->.
  { by destruct c as [[] [] [] [] [] [] [] []]. }
  unfold in_u64. destruct (Z.leb_spec 0 n), (Z.leb_spec n u64_max); simpl; lia.
Qed.

(** ** Concrete inputs *)

Definition plain_host : HostEnv := {| bind_listener _ := Ok tt; signal_terminate := Ok tt |}.

(** A library for which every path is a file with one certificate or a key. *)
Definition plain_tls : TlsLib (list string) :=
  {| CertificateDer := string; PrivateKeyDer := string;
     pem_file_iter path := Ok [Ok path]; key_from_pem_file path := Ok path;
     safe_default_protocol_versions := Ok tt; with_single_cert certs _ := Ok certs |}.

Lemma serves_only_safe_configurations_witness :
  is_Some (serving_tls (mk_serving (Some ["/tmp/cert"]) 256 25)).
Proof.
  refine (proj2 (proj2 (proj2 (proj2
    (@serves_only_safe_configurations sample_net (list string) plain_tls plain_host
       (with_auth default_config "0.0.0.0:5432" true) None (mk_serving (Some ["/tmp/cert"]) 256%Z 25%Z) _)))) _ _).
  - vm_compute. reflexivity.
  - reflexivity.
  - reflexivity.
Defined.

(** Two connections accepted under a cap of two, a third one dropped, and the
    first one ended. *)
Definition after_four : Server :=
  task_exit 0 TaskPanicked
    (select_step false Socket (select_step false Socket (select_step false Socket (serve_init 2)))).

Lemma connections_never_exceed_cap_witness :
  rejected after_four = 1%nat /\ (permits after_four = 2 - length (running after_four))%nat
  /\ running (select_step false Socket after_four) = [1%nat; 2%nat].
Proof.
  split; [reflexivity|].
  destruct (connections_never_exceed_cap 2 after_four) as (_ & Hp & Hs).
  - apply (serve_next 2 (select_step false Socket (select_step false Socket (select_step false Socket (serve_init 2)))));
      [|apply step_exit; vm_compute; tauto].
    do 3 (eapply serve_next; [|apply step_select; reflexivity]). apply serve_start.
  - split; [exact Hp|]. exact (proj1 (Hs eq_refl)).
Defined.

Lemma drain_timeout_parses_witness :
  parse_drain_timeout (Some (nat_to_string 90)) = 90%Z /\ parse_drain_timeout None = 25%Z
  /\ (forall v, parse_u64 v = None -> parse_drain_timeout (Some v) = 25%Z).
Proof. apply drain_timeout_parses. vm_compute. split; discriminate. Defined.

Definition with_cap (config : Config) (cap : Z) : Config :=
  mk_config (listen_addr config) (tls_cert config) (tls_key config) (trino_host config) (trino_port config)
    (trino_catalog config) (trino_schema config) (trino_user config) (trino_ssl config)
    (trino_tls_no_verify config) (trino_allow_plaintext_auth config) (auth config)
    (allow_insecure_listener config) cap.

(** [main] refuses a cap of zero only: the largest [usize], a natural way to ask
    for no limit, passes every check, the socket is bound, and the process then
    panics when the semaphore is made. *)
Theorem unlimited_cap_panics :
  @main_start sample_net (list string) plain_tls plain_host (with_cap default_config u64_max) None
  = Ok (mk_serving None u64_max 25)
  /\ serve_entry u64_max = None.
Proof. split; reflexivity. Qed.
