(* ===== verification/Drain.v ===== *)
(** * Shutdown (src/src/main.rs)

    What [main] does once the accept loop has returned: wait for the connection
    tasks, abort what is left when the budget is spent, wait a little for those
    to unwind, and exit. When the runtime makes a task joinable is the
    environment's: a schedule of moments, counted from the start of the drain. *)

From Stdlib Require Import Sorting.Sorted.
From S2P Require Import Prelude RustStr Config Policy Tls Server.

Local Open Scope string_scope.
Local Open Scope rust_scope.

(** [std::time::Duration], in nanoseconds. *)
Abbreviation Duration := Z.

Definition from_secs (s : Z) : Duration := (s * 1000000000)%Z.
Definition from_millis (ms : Z) : Duration := (ms * 1000000)%Z.

Definition ABORT_UNWIND_GRACE : Duration := from_secs 1.

(** When each task can be joined and with what result, in the order of time. *)
Abbreviation Schedule := (list (Z * (nat * TaskResult))).

Definition in_order (sched : Schedule) : Prop := StronglySorted Z.le (map fst sched).

(** [timeout(_, while let Some(res) = tasks.join_next().await ...)]: where the
    loop stands when it ends or the deadline passes. The loop is polled before
    the timer, so a task joinable at the deadline is still joined. *)
Record Joined := mk_joined {
  unjoined : list nat;
  joined_log : list string;
  joined_at : Z
}.

Fixpoint join_until (deadline now : Z) (tasks : list nat) (out : list string) (sched : Schedule) : Joined :=
  match tasks with
  | [] => mk_joined [] out now
  | _ =>
    match sched with
    | [] => mk_joined tasks out deadline
    | (t, (id, res)) :: rest =>
      if (t <=? deadline)%Z
      then join_until deadline (Z.max now t) (List.filter (fun x => negb (x =? id)%nat) tasks)
             (out ++ opt_to_list (log_task_result res))%list rest
      else mk_joined tasks out deadline
    end
  end.

(** How a drain ended: when, with what logged, which tasks it aborted and which
    of those had not unwound when it gave up. *)
Record Drained := mk_drained {
  drained_at : Z;
  drained_log : list string;
  aborted : list nat;
  abandoned : list nat
}.

(** [drain]. [unwinding] is the schedule after [abort_all]. *)
Definition drain (tasks : list nat) (timeout : Duration) (sched unwinding : Schedule) : Drained :=
  match tasks with
  | [] => mk_drained 0 [] [] []
  | _ =>
    let j := join_until timeout 0 tasks [] sched in
    match unjoined j with
    | [] => mk_drained (joined_at j) (joined_log j) [] []
    | still_running =>
      let a := join_until (timeout + ABORT_UNWIND_GRACE) timeout still_running (joined_log j) unwinding in
      mk_drained (joined_at a) (joined_log a) still_running (unjoined a)
    end
  end.

(** The tasks in the [JoinSet] that [serve] returns. *)
Definition tracked (s : Server) : list nat :=
  (running s ++ map fst (finishing s) ++ map fst (ended s))%list.

(** [main] after [serve]: the error of a failed [accept] is returned at once,
    and dropping the [JoinSet] aborts what it holds; a shutdown drains. *)
Inductive Exit :=
| AcceptErrorReturned (dropped : list nat)
| Exited (d : Drained).

Definition main_end (serving_drain : Z) (s : Server) (sched unwinding : Schedule) : option Exit :=
  match loop_state s with
  | Looping => None
  | AcceptFailed => Some (AcceptErrorReturned (tracked s))
  | ShutDown => Some (Exited (drain (tracked s) (from_secs serving_drain) sched unwinding))
  end.

(** ** Theorems *)

Lemma join_until_bounded deadline now tasks out sched :
  (now <= deadline)%Z -> (now <= joined_at (join_until deadline now tasks out sched) <= deadline)%Z.
Proof.
  revert now tasks out. induction sched as [|[t [id res]] rest IH]; intros now tasks out Hn;
    (destruct tasks as [|x tasks]; simpl; [lia|]); [lia|].
  destruct (Z.leb_spec t deadline); [|simpl; lia].
  pose proof (IH (Z.max now t) (List.filter (fun x => negb (x =? id)%nat) (x :: tasks))
                (out ++ opt_to_list (log_task_result res))%list ltac:(lia)) as H1. simpl in H1. lia.
Qed.

(** The tasks that the loop leaves: those the schedule has not reached. *)
Lemma join_until_unjoined deadline now tasks out sched :
  in_order sched ->
  forall id, id ∈ unjoined (join_until deadline now tasks out sched)
             <-> id ∈ tasks /\ forall t res, (t, (id, res)) ∈ sched -> (deadline < t)%Z.
Proof.
  revert now tasks out. unfold in_order. induction sched as [|[t [id' res']] rest IH]; intros now tasks out Hs id.
  - destruct tasks as [|x tasks]; cbn [join_until unjoined]; set_solver.
  - destruct tasks as [|x tasks]; [cbn; set_solver|]. cbn [join_until].
    apply StronglySorted_inv in Hs as [Hs Hall]. destruct (Z.leb_spec t deadline) as [Hle|Hlt].
    + rewrite IH by done. rewrite list_elem_of_In, filter_In, <- list_elem_of_In. split.
      * intros [[Hin Hne] H]. split; [done|]. intros t1 r1 [E|H1]%elem_of_cons; [|by eapply H].
        injection E as -> -> ->. by rewrite Nat.eqb_refl in Hne.
      * intros [Hin H]. split; [split; [done|]|].
        { destruct (Nat.eqb_spec id id') as [->|]; [|done].
          specialize (H t res'). rewrite elem_of_cons in H. specialize (H (or_introl eq_refl)). lia. }
        { intros t1 r1 H1. apply (H t1 r1). by apply elem_of_cons; right. }
    + cbn [unjoined]. split; [|by intros []]. intros Hin. split; [done|].
      intros t1 r1 [E|H1]%elem_of_cons; [injection E as -> _ _; done|].
      rewrite Forall_forall in Hall. specialize (Hall t1). 
      assert (t1 ∈ map fst rest) by (apply list_elem_of_fmap; eexists; split; [|exact H1]; done).
      specialize (Hall ltac:(done)). simpl in Hall. lia.
Qed.

(** C28: The process exits. However long the connections run, and even when their
    tasks never unwind, the drain returns within its budget and one second of
    grace; with the default budget that is before Kubernetes' thirty seconds are
    over. *)
Theorem drain_returns_in_time tasks timeout sched unwinding :
  (0 <= timeout)%Z ->
  (0 <= drained_at (drain tasks timeout sched unwinding) <= timeout + from_secs 1)%Z
  /\ (from_secs DEFAULT_SHUTDOWN_DRAIN_TIMEOUT + from_secs 1 < from_secs 30)%Z.
Proof.
  intros Ht. split; [|vm_compute; reflexivity]. unfold drain, ABORT_UNWIND_GRACE.
  assert (0 < from_secs 1)%Z by (vm_compute; reflexivity).
  destruct tasks as [|x tasks]; simpl; [lia|].
  pose proof (join_until_bounded timeout 0 (x :: tasks) [] sched ltac:(lia)).
  destruct (unjoined _) as [|y still]; simpl; [lia|].
  pose proof (join_until_bounded (timeout + from_secs 1) timeout (y :: still)
    (joined_log (join_until timeout 0 (x :: tasks) [] sched)) unwinding ltac:(lia)). lia.
Qed.

(** C29: Graceful shutdown: a connection task is aborted only if it was still
    running when the budget was spent, and every such task is; so when all of
    them end in time none is aborted or left behind. *)
Theorem drain_aborts_only_overdue tasks timeout sched unwinding id :
  in_order sched ->
  (id ∈ aborted (drain tasks timeout sched unwinding)
   <-> id ∈ tasks /\ forall t res, (t, (id, res)) ∈ sched -> (timeout < t)%Z)
  /\ (aborted (drain tasks timeout sched unwinding) = [] ->
      abandoned (drain tasks timeout sched unwinding) = []).
Proof.
  intros Hs. unfold drain. destruct tasks as [|x tasks]; simpl; [set_solver|].
  pose proof (join_until_unjoined timeout 0 (x :: tasks) [] sched Hs id) as H.
  destruct (unjoined _) as [|y still]; simpl; split; try done.
Qed.

(** A single error of [accept] ends the service: the loop returns it, [main]
    passes it on, and the connections being served are dropped without a
    drain. *)
Theorem accept_error_ends_service s drain_secs sched unwinding :
  loop_state s = Looping -> ended s = [] ->
  main_end drain_secs (select_step false AcceptError s) sched unwinding
  = Some (AcceptErrorReturned (tracked s)).
Proof. intros Hl He. unfold select_step. by rewrite He. Qed.

(** ** Concrete inputs *)

(** Of three connections one ends after a second, one after the default budget
    and one never; the latter two are aborted and only the first unwinds. *)
Definition some_ends : Schedule := [(from_secs 1, (0, TaskPanicked)); (from_secs 26, (1, TaskOk))]%nat.
Definition some_unwinds : Schedule := [(from_secs 25, (1, TaskCancelled))]%nat.

Lemma drain_returns_in_time_witness :
  drained_at (drain [0; 1; 2]%nat (from_secs 25) some_ends some_unwinds) = from_secs 26
  /\ (drained_at (drain [0; 1; 2]%nat (from_secs 25) some_ends some_unwinds) <= from_secs 25 + from_secs 1)%Z.
Proof.
  split; [vm_compute; reflexivity|].
  apply (drain_returns_in_time [0; 1; 2]%nat (from_secs 25) some_ends some_unwinds). vm_compute. discriminate.
Defined.

Lemma drain_aborts_only_overdue_witness :
  aborted (drain [0; 1; 2]%nat (from_secs 25) some_ends some_unwinds) = [1; 2]%nat
  /\ abandoned (drain [0; 1; 2]%nat (from_secs 25) some_ends some_unwinds) = [2%nat]
  /\ (1%nat ∈ aborted (drain [0; 1; 2]%nat (from_secs 25) some_ends some_unwinds)
      <-> 1%nat ∈ [0; 1; 2]%nat /\ forall t res, (t, (1%nat, res)) ∈ some_ends -> (from_secs 25 < t)%Z).
Proof.
  split; [vm_compute; reflexivity|]. split; [vm_compute; reflexivity|].
  apply (drain_aborts_only_overdue [0; 1; 2]%nat (from_secs 25) some_ends some_unwinds 1).
  unfold in_order, some_ends. simpl. repeat constructor. vm_compute. discriminate.
Defined.

Lemma accept_error_ends_service_witness :
  main_end 25 (select_step false AcceptError (select_step false Socket (serve_init 2))) [] []
  = Some (AcceptErrorReturned [0%nat]).
Proof. apply (accept_error_ends_service (select_step false Socket (serve_init 2))); reflexivity. Defined.
