(* ===== verification/Conformance.v ===== *)
(** * The repository's tests, in the model

    The unit tests under src/src/, translated: a suite is a list of named checks
    that compute in the model, with the reference instances of Calendar in place
    of chrono, rust_decimal and pgwire. Tests of encoding, error messages, the
    policy and shutdown are here, tests on parsed SQL in ConformanceSql. *)

From S2P Require Import Prelude RustStr PgWire ErrorMapping Config Policy Trino World Response Session.
From S2P Require Import TypeMap RustFloat Values Calendar TrinoStream Sql QueryInspection Catalog.
From S2P Require Import Tls Server Drain.

Local Open Scope string_scope.
Local Open Scope rust_scope.

#[local] Existing Instance ascii_only_case.
#[local] Existing Instance calendar.
#[local] Existing Instance decimals_96.
#[local] Existing Instance send_wire.

Abbreviation Suite := (list (string * bool)).

Definition passes (s : Suite) : bool := forallb snd s.

(** [assert_eq!], [assert_ne!] *)
Notation "a ≟ b" := (bool_decide (a = b)) (at level 70).

(** ** types.rs: type names *)

Definition scalar_type_tests : Suite :=
  [ ("boolean", trino_type_to_pg "boolean" ≟ BOOL);
    ("tinyint", trino_type_to_pg "tinyint" ≟ INT2);
    ("smallint", trino_type_to_pg "smallint" ≟ INT2);
    ("integer", trino_type_to_pg "integer" ≟ INT4);
    ("bigint", trino_type_to_pg "bigint" ≟ INT8);
    ("real", trino_type_to_pg "real" ≟ FLOAT4);
    ("double", trino_type_to_pg "double" ≟ FLOAT8);
    ("decimal", trino_type_to_pg "decimal" ≟ NUMERIC);
    ("varchar", trino_type_to_pg "varchar" ≟ VARCHAR);
    ("char_type", trino_type_to_pg "char" ≟ BPCHAR);
    ("varbinary", trino_type_to_pg "varbinary" ≟ BYTEA);
    ("date", trino_type_to_pg "date" ≟ DATE);
    ("time", trino_type_to_pg "time" ≟ TIME);
    ("time_with_time_zone", trino_type_to_pg "time with time zone" ≟ TIMETZ);
    ("timestamp", trino_type_to_pg "timestamp" ≟ TIMESTAMP);
    ("timestamp_with_time_zone", trino_type_to_pg "timestamp with time zone" ≟ TIMESTAMPTZ);
    ("interval_year_to_month", trino_type_to_pg "interval year to month" ≟ INTERVAL);
    ("interval_day_to_second", trino_type_to_pg "interval day to second" ≟ INTERVAL);
    ("json", trino_type_to_pg "json" ≟ JSONB);
    ("uuid", trino_type_to_pg "uuid" ≟ UUID);
    ("ipaddress", trino_type_to_pg "ipaddress" ≟ INET);
    ("map_type", trino_type_to_pg "map" ≟ JSONB);
    ("row_type", trino_type_to_pg "row" ≟ JSONB) ].

Definition parametric_type_tests : Suite :=
  [ ("varchar_with_length", trino_type_to_pg "varchar(100)" ≟ VARCHAR);
    ("decimal_with_precision_scale", trino_type_to_pg "decimal(10,2)" ≟ NUMERIC);
    ("char_with_length", trino_type_to_pg "char(50)" ≟ BPCHAR);
    ("array_integer", trino_type_to_pg "array(integer)" ≟ INT4_ARRAY);
    ("array_varchar", trino_type_to_pg "array(varchar)" ≟ VARCHAR_ARRAY);
    ("array_boolean", trino_type_to_pg "array(boolean)" ≟ BOOL_ARRAY);
    ("array_bigint", trino_type_to_pg "array(bigint)" ≟ INT8_ARRAY);
    ("unknown_type_defaults_to_text", trino_type_to_pg "hyperloglog" ≟ TEXT);
    ("unknown_type_with_params_defaults_to_text", trino_type_to_pg "qdigest(double)" ≟ TEXT);
    ("case_insensitive",
     (trino_type_to_pg "BOOLEAN" ≟ BOOL) && (trino_type_to_pg "VARCHAR" ≟ VARCHAR)
     && (trino_type_to_pg "Integer" ≟ INT4)) ].

Definition nested_type_tests : Suite :=
  [ ("parametric_timestamptz_maps_to_timestamptz",
     (trino_type_to_pg "timestamp(6) with time zone" ≟ TIMESTAMPTZ)
     && (trino_type_to_pg "time(6) with time zone" ≟ TIMETZ)
     && (trino_type_to_pg "timestamp(3)" ≟ TIMESTAMP) && (trino_type_to_pg "time(3)" ≟ TIME));
    ("nested_type_params_collapse_to_the_base_name",
     (trino_type_to_pg "map(varchar, array(integer))" ≟ JSONB)
     && (trino_type_to_pg "array(timestamp(6) with time zone)" ≟ TIMESTAMPTZ_ARRAY)) ].

(** ** types.rs: text *)

(** [json!(z)] of an integer, and [Number::from_f64] of a float literal. *)
Definition json_int (z : Z) : Value :=
  Num (mk_number (if in_i64 z then Some z else None) (if in_u64 z then Some z else None)
         (parse_f64 (z_to_string z)) (z_to_string z)).

Definition json_float (literal : string) : Value :=
  Num (mk_number None None (parse_f64 literal) literal).

Definition encode_value_tests : Suite :=
  [ ("encode_null", encode_value Null "varchar" ≟ None);
    ("encode_bool_true", encode_value (Bool true) "boolean" ≟ Some "true");
    ("encode_bool_false", encode_value (Bool false) "boolean" ≟ Some "false");
    ("encode_integer_number", encode_value (json_int 42) "integer" ≟ Some "42");
    ("encode_float_number", encode_value (json_float "3.5") "double" ≟ Some "3.5");
    ("encode_bigint_from_float_json", encode_value (json_float "42.0") "bigint" ≟ Some "42");
    ("encode_bigint_max",
     encode_value (json_int 9223372036854775807) "bigint" ≟ Some "9223372036854775807");
    ("encode_bigint_as_string_passes_through",
     encode_value (Str "9223372036854775807") "bigint" ≟ Some "9223372036854775807");
    ("encode_real_nan_as_pg_text", encode_value (Str "NaN") "real" ≟ Some "NaN");
    ("encode_real_infinity_from_string", encode_value (Str "Infinity") "real" ≟ Some "Infinity");
    ("encode_real_normal_value", encode_value (json_float "3.5") "real" ≟ Some "3.5");
    ("encode_integer_from_parsed_float_json", encode_value (json_float "42.0") "integer" ≟ Some "42") ].

(** [encoded.parse::<f64>()] within the bounds the test allows. *)
Definition parses_between (low high : string) (text : string) : bool :=
  match parse_f64 text, parse_f64 low, parse_f64 high with
  | Some f, Some l, Some h => f64_lt l f && f64_lt f h
  | _, _, _ => false
  end.

Definition encode_overflow_tests : Suite :=
  [ ("encode_bigint_overflow_does_not_silently_saturate",
     match encode_value (json_float "1.0e30") "bigint" with
     | Some encoded => negb (encoded ≟ "9223372036854775807")
                       && parses_between "0.999999999999999e30" "1.000000000000001e30" encoded
     | None => false
     end);
    ("encode_bigint_negative_overflow_does_not_saturate",
     match encode_value (json_float "-1.0e30") "bigint" with
     | Some encoded => negb (encoded ≟ "-9223372036854775808") && parses_between "-1.0e31" "-1.0e29" encoded
     | None => false
     end);
    ("encode_bigint_in_range_float_still_casts",
     match encode_value (json_float "9.0e18") "bigint" with
     | Some encoded => negb (contains "e" encoded) && negb (contains "." encoded)
     | None => false
     end);
    ("encode_integer_from_huge_float_is_not_truncated",
     match encode_value (json_float "1.0e15") "integer" with
     | Some encoded => bool_decide (is_Some (parse_i64 encoded))
     | None => false
     end);
    ("encode_string", encode_value (Str "hello world") "varchar" ≟ Some "hello world");
    ("encode_array",
     encode_value (Array [json_int 1; json_int 2; json_int 3]) "array(integer)" ≟ Some "[1,2,3]");
    ("encode_object",
     encode_value (Object [("key", Str "value")]) "map"
     ≟ Some ("{" ++ quoted "key" ++ ":" ++ quoted "value" ++ "}")) ].

(** ** types.rs: the wire *)

(** Encode one value as a single-column row; the field's payload. *)
Definition encode_one (value : Value) (pg_type : PgType) (trino_type : string) (fmt : FieldFormat)
  : PgWireResult (option string) :=
  let? encoder := encode_cell (mk_encoder [mk_field_info "c" pg_type fmt] []) value pg_type trino_type fmt in
  match enc_fields encoder with
  | [field] => Ok field
  | _ => Err (ApiError "one field expected")
  end.

Definition bin (value : Value) (pg_type : PgType) (trino_type : string) : string :=
  match encode_one value pg_type trino_type Binary with
  | Ok (Some bytes) => bytes
  | _ => ""
  end.

Definition is_err {E A} (r : result E A) : bool := match r with Err _ => true | Ok _ => false end.

Definition binary_scalar_tests : Suite :=
  [ ("binary_int4_is_big_endian_4_bytes", bin (json_int 42) INT4 "integer" ≟ bytes_string [0; 0; 0; 42]);
    ("binary_int8_is_big_endian_8_bytes",
     bin (json_int 1) INT8 "bigint" ≟ bytes_string [0; 0; 0; 0; 0; 0; 0; 1]);
    ("binary_int2_from_smallint", bin (json_int 7) INT2 "smallint" ≟ bytes_string [0; 7]);
    ("binary_int8_from_json_string",
     bin (Str "255") INT8 "bigint" ≟ bytes_string [0; 0; 0; 0; 0; 0; 0; 255]);
    ("binary_float8_matches_ieee754_be",
     bin (json_float "1.5") FLOAT8 "double" ≟ bytes_string [63; 248; 0; 0; 0; 0; 0; 0]);
    ("binary_float4_matches_ieee754_be",
     bin (json_float "1.5") FLOAT4 "real" ≟ bytes_string [63; 192; 0; 0]);
    ("binary_float8_nan_from_string",
     bin (Str "NaN") FLOAT8 "double" ≟ bytes_string (be_bytes 8 (float_bits 52 11 S754_nan)));
    ("binary_bool_true_is_one_byte",
     (bin (Bool true) BOOL "boolean" ≟ bytes_string [1]) && (bin (Bool false) BOOL "boolean" ≟ bytes_string [0]))
  ]%Z.

(** Instants in microseconds since the PostgreSQL epoch. *)
Definition micros_since_pg_epoch (y m d hour minute second : Z) : Z :=
  pg_micros ((days_from_civil y m d * 86400 + hour * 3600 + minute * 60 + second)%Z, 0%Z).

Definition binary_timestamptz_micros (value : string) : string :=
  bin (Str value) TIMESTAMPTZ "timestamp(6) with time zone".

Definition binary_timestamp_tests : Suite :=
  [ ("binary_timestamp_is_micros_since_2000",
     bin (Str "2026-06-01 10:30:00.000000") TIMESTAMP "timestamp(6)"
     ≟ bytes_string (be_bytes 8 (micros_since_pg_epoch 2026 6 1 10 30 0)));
    ("binary_timestamp_without_fraction_parses",
     (String.length (bin (Str "2026-06-01 10:30:00") TIMESTAMP "timestamp") =? 8)%nat) ].

Definition binary_timestamptz_tests : Suite :=
  [ ("binary_timestamptz_accepts_every_shape_trino_renders",
     forallb (fun value => binary_timestamptz_micros value
                           ≟ bytes_string (be_bytes 8 (micros_since_pg_epoch 2026 6 1 8 30 0)))
       [ "2026-06-01 08:30:00.000000 UTC"; "2026-06-01 10:30:00.000000 Europe/Berlin";
         "2026-06-01 10:30:00.000000 +02:00"; "2026-06-01 10:30:00.000000+02:00" ]);
    ("binary_timestamptz_without_fraction_parses",
     binary_timestamptz_micros "2026-06-01 08:30:00 UTC"
     ≟ binary_timestamptz_micros "2026-06-01 08:30:00.000000 UTC");
    ("binary_timestamptz_rejects_dst_ambiguous_local_time",
     forallb (fun value => is_err (encode_one (Str value) TIMESTAMPTZ "timestamp(6) with time zone" Binary))
       [ "2026-10-25 02:30:00.000000 Europe/Berlin"; "2026-03-29 02:30:00.000000 Europe/Berlin" ]);
    ("binary_timestamptz_rejects_unknown_zone",
     is_err (encode_one (Str "2026-06-01 10:30:00.000000 Mars/Olympus_Mons") TIMESTAMPTZ
               "timestamp(6) with time zone" Binary)) ].

(** Two hexadecimal digits per byte. *)
Definition hex_digit (n : N) : ascii :=
  ascii_of_N (if (n <? 10)%N then 48 + n else 87 + n)%N.

Fixpoint hex (bytes : string) : string :=
  match bytes with
  | EmptyString => ""
  | String c rest => String (hex_digit (byte_of c / 16)) (String (hex_digit (byte_of c mod 16)) (hex rest))
  end.

Definition binary_layout_tests : Suite :=
  [ ("binary_layouts_match_postgres_send_functions",
     forallb (fun '(value, pg_type, trino_type, expected) => hex (bin (Str value) pg_type trino_type) ≟ expected)
       [ ("10:30:00+02:00", TIMETZ, "time(6) with time zone", "00000008cd0e3a00ffffe3e0");
         ("10:30:00-05:00", TIMETZ, "time(6) with time zone", "00000008cd0e3a0000004650");
         ("2026-06-01 10:30:00.000000 +02:00", TIMESTAMPTZ, "timestamp(6) with time zone", "0002f62bc4d8f200");
         ("2026-06-01 10:30:00.000000", TIMESTAMP, "timestamp(6)", "0002f62d72003a00") ]);
    ("picosecond_precision_truncates_to_microseconds",
     (binary_timestamptz_micros "2026-06-01 08:30:00.123456789012 UTC"
      ≟ binary_timestamptz_micros "2026-06-01 08:30:00.123456 UTC")
     && (bin (Str "2026-06-01 10:30:00.123456789012") TIMESTAMP "timestamp(12)"
         ≟ bin (Str "2026-06-01 10:30:00.123456") TIMESTAMP "timestamp(6)")
     && (bin (Str "10:30:00.123456789012") TIME "time(12)" ≟ bin (Str "10:30:00.123456") TIME "time(6)")
     && (bin (Str "10:30:00.123456789012+02:00") TIMETZ "time(12) with time zone"
         ≟ bin (Str "10:30:00.123456+02:00") TIMETZ "time(6) with time zone"));
    ("binary_timetz_is_micros_then_negated_offset",
     bin (Str "10:30:00.000000+02:00") TIMETZ "time(6) with time zone"
     ≟ bytes_string (be_bytes 8 ((10 * 3600 + 30 * 60) * 1000000) ++ be_bytes 4 (-7200))%list);
    ("binary_timetz_requires_an_offset",
     is_err (encode_one (Str "10:30:00.000000") TIMETZ "time(6) with time zone" Binary)) ].

Definition text_of (value : Value) (pg_type : PgType) (trino_type : string) : string :=
  match encode_one value pg_type trino_type Text with
  | Ok (Some text) => text
  | _ => ""
  end.

Definition text_form_tests : Suite :=
  [ ("text_timestamptz_is_rendered_in_utc_like_postgres",
     forallb (fun value => text_of (Str value) TIMESTAMPTZ "timestamp(6) with time zone" ≟ "2026-06-01 08:30:00+00")
       [ "2026-06-01 10:30:00.000000 Europe/Berlin"; "2026-06-01 10:30:00.000000+02:00" ]);
    ("text_forms_match_postgres_output",
     forallb (fun '(value, pg_type, trino_type, expected) => text_of (Str value) pg_type trino_type ≟ expected)
       [ ("2026-06-01 10:30:00.000000 +02:00", TIMESTAMPTZ, "timestamp(6) with time zone", "2026-06-01 08:30:00+00");
         ("2026-06-01 10:30:00.500000 +02:00", TIMESTAMPTZ, "timestamp(6) with time zone", "2026-06-01 08:30:00.5+00");
         ("2026-06-01 10:30:00.123456 +02:00", TIMESTAMPTZ, "timestamp(6) with time zone",
          "2026-06-01 08:30:00.123456+00");
         ("10:30:00.000000+02:00", TIMETZ, "time(6) with time zone", "10:30:00+02");
         ("10:30:00.500000+02:00", TIMETZ, "time(6) with time zone", "10:30:00.5+02");
         ("10:30:00.000000+05:30", TIMETZ, "time(6) with time zone", "10:30:00+05:30");
         ("10:30:00.000000-05:00", TIMETZ, "time(6) with time zone", "10:30:00-05") ]);
    ("text_timestamptz_falls_back_to_pass_through",
     text_of (Str "not a timestamp") TIMESTAMPTZ "timestamp(6) with time zone" ≟ "not a timestamp");
    ("utc_offsets_use_postgres_spelling",
     (format_utc_offset 0 ≟ "+00") && (format_utc_offset (2 * 3600) ≟ "+02")
     && (format_utc_offset (-5 * 3600) ≟ "-05") && (format_utc_offset (5 * 3600 + 30 * 60) ≟ "+05:30")
     && (format_utc_offset (- (3600 + 60 + 1)) ≟ "-01:01:01")) ]%Z.

Fixpoint repeat_str (n : nat) (s : string) : string :=
  match n with
  | O => ""
  | S n' => s ++ repeat_str n' s
  end.

Definition fail_closed_tests : Suite :=
  [ ("binary_numeric_round_trips_via_decimal",
     hex (bin (Str "123.45") NUMERIC "decimal(10,2)") ≟ "0002000000000002007b1194");
    ("binary_numeric_rejects_overprecise_value",
     is_err (encode_one (Str (repeat_str 40 "1")) NUMERIC "decimal(38,0)" Binary));
    ("binary_varchar_is_raw_utf8_bytes", bin (Str "hello") VARCHAR "varchar" ≟ "hello");
    ("binary_null_is_negative_one_length",
     match encode_one Null INT4 "integer" Binary with Ok None => true | _ => false end);
    ("binary_int4_overflow_fails_closed",
     is_err (encode_one (json_int (2147483647 + 1)) INT4 "integer" Binary));
    ("binary_unsupported_type_fails_closed", is_err (encode_one (Str "1 day") INTERVAL "interval" Binary));
    ("text_path_still_renders_strings",
     match encode_one (json_int 42) INT4 "integer" Text with Ok (Some t) => t ≟ "42" | _ => false end);
    ("text_path_null_is_negative_one_length",
     match encode_one Null VARCHAR "varchar" Text with Ok None => true | _ => false end) ].

(** ** error_mapping.rs *)

Definition code_of (m : string) : string := code (trino_error_to_pg m).
Definition message_of (m : string) : string := message (trino_error_to_pg m).

Definition sqlstate_tests : Suite :=
  [ ("syntax_error_keyword",
     (code_of "Query failed: SYNTAX_ERROR: mismatched input" ≟ "42601")
     && (severity (trino_error_to_pg "Query failed: SYNTAX_ERROR: mismatched input") ≟ "ERROR"));
    ("syntax_error_line_position", code_of "line 1:7: mismatched input 'FROM'" ≟ "42601");
    ("table_not_found_keyword", code_of "TABLE_NOT_FOUND: Table 'foo' not found" ≟ "42P01");
    ("table_does_not_exist", code_of "Table 'memory.default.missing' does not exist" ≟ "42P01");
    ("column_not_found", code_of "COLUMN_NOT_FOUND: Column 'x' cannot be resolved" ≟ "42703");
    ("column_cannot_be_resolved", code_of "Column 'x' cannot be resolved" ≟ "42703");
    ("type_mismatch", code_of "TYPE_MISMATCH: Cannot apply operator" ≟ "42846");
    ("permission_denied_keyword", code_of "PERMISSION_DENIED: Cannot access catalog" ≟ "42501");
    ("access_denied", code_of "Access Denied: Cannot select from table" ≟ "42501");
    ("division_by_zero", code_of "DIVISION_BY_ZERO" ≟ "22012");
    ("unknown_falls_through_to_default", code_of "Something totally unexpected happened" ≟ "42000") ].

(** How often a text occurs, [matches(...).count()]. *)
Fixpoint occurrences (fuel : nat) (p s : string) : nat :=
  match fuel with
  | O => O
  | S fuel' =>
    match find p s with
    | Some i => S (occurrences fuel' p (sdrop (i + slen p) s))
    | None => O
    end
  end.

Definition newline : string := String (ascii_of_N 10) "".
Definition tab : string := String (ascii_of_N 9) "".
Definition ellipsis : string := bytes_string [226; 128; 166]%Z.
Definition a_umlaut : string := bytes_string [195; 164]%Z.

Definition sanitise_tests : Suite :=
  [ ("preserves_original_message_when_clean",
     message_of "SYNTAX_ERROR: mismatched input 'SELECT'" ≟ "SYNTAX_ERROR: mismatched input 'SELECT'");
    ("strips_java_stack_trace",
     let msg := "io.trino.spi.TrinoException: Table 'memory.foo' does not exist" ++ newline ++ tab
       ++ "at io.trino.metadata.MetadataManager.resolveTableHandle(MetadataManager.java:412)" ++ newline ++ tab
       ++ "at io.trino.sql.analyzer.StatementAnalyzer.analyze(StatementAnalyzer.java:1234)" in
     (message_of msg ≟ "Table 'memory.foo' does not exist") && (code_of msg ≟ "42P01"));
    ("strips_java_exception_class_fqn",
     let msg := "io.trino.spi.security.AccessDeniedException: Access Denied: Cannot select from table foo.bar" in
     (message_of msg ≟ "Access Denied: Cannot select from table foo.bar") && (code_of msg ≟ "42501"));
    ("keeps_messages_without_java_prefix",
     message_of "Column 'x' cannot be resolved" ≟ "Column 'x' cannot be resolved");
    ("masks_internal_hostnames_in_urls",
     let m := message_of ("error sending request for url "
       ++ "(https://internal-trino-coord.prod:8443/v1/statement/abc): connection refused") in
     negb (contains "internal-trino-coord" m) && contains "<trino>" m && contains "/v1/statement/abc" m);
    ("masks_multiple_urls",
     let m := message_of ("fetch from https://worker-1.cluster:8443/x failed, "
       ++ "retried via http://worker-2.cluster:8443/x") in
     negb (contains "worker-1.cluster" m) && negb (contains "worker-2.cluster" m)
     && (occurrences 10 "<trino>" m =? 2)%nat);
    ("sqlstate_classification_uses_full_message",
     code_of "io.trino.spi.security.AccessDeniedException: PERMISSION_DENIED: foo" ≟ "42501");
    ("strips_nested_exception_wrappers",
     message_of "io.trino.spi.TrinoException: io.trino.spi.PrestoException: Table 'foo' does not exist"
     ≟ "Table 'foo' does not exist");
    ("caps_oversized_messages",
     let m := message_of ("Error: " ++ repeat_str (Z.to_nat 10000) "x") in
     (slen m <=? MAX_CLIENT_ERROR_LEN)%nat && ends_with ellipsis m);
    ("truncate_respects_char_boundary",
     let s := truncate_with_ellipsis (repeat_str 300 a_umlaut) 50 in
     (slen s <=? 50)%nat && ends_with ellipsis s) ].

(** ** policy.rs *)

Definition cfg (auth : bool) (listen : string) (tls : bool) : Config :=
  {| listen_addr := listen;
     tls_cert := if tls then Some "/tmp/cert" else None;
     tls_key := if tls then Some "/tmp/key" else None;
     trino_host := "h"; trino_port := 8080; trino_catalog := "c"; trino_schema := "s"; trino_user := "u";
     trino_ssl := true; trino_tls_no_verify := false; trino_allow_plaintext_auth := false;
     auth := auth; allow_insecure_listener := false; max_connections := 256 |}.

(** The assignments [c.field = value] of the tests. *)
Definition with_insecure_listener (c : Config) : Config :=
  {| listen_addr := listen_addr c; tls_cert := tls_cert c; tls_key := tls_key c; trino_host := trino_host c;
     trino_port := trino_port c; trino_catalog := trino_catalog c; trino_schema := trino_schema c;
     trino_user := trino_user c; trino_ssl := trino_ssl c; trino_tls_no_verify := trino_tls_no_verify c;
     trino_allow_plaintext_auth := trino_allow_plaintext_auth c; Config.auth := Config.auth c;
     allow_insecure_listener := true; max_connections := max_connections c |}.

Definition with_trino (ssl no_verify plaintext : bool) (c : Config) : Config :=
  {| listen_addr := listen_addr c; tls_cert := tls_cert c; tls_key := tls_key c; trino_host := trino_host c;
     trino_port := trino_port c; trino_catalog := trino_catalog c; trino_schema := trino_schema c;
     trino_user := trino_user c; trino_ssl := ssl; trino_tls_no_verify := no_verify;
     trino_allow_plaintext_auth := plaintext; Config.auth := Config.auth c;
     allow_insecure_listener := allow_insecure_listener c; max_connections := max_connections c |}.

Definition with_cert_only (c : Config) : Config :=
  {| listen_addr := listen_addr c; tls_cert := Some "/tmp/cert"; tls_key := None; trino_host := trino_host c;
     trino_port := trino_port c; trino_catalog := trino_catalog c; trino_schema := trino_schema c;
     trino_user := trino_user c; trino_ssl := trino_ssl c; trino_tls_no_verify := trino_tls_no_verify c;
     trino_allow_plaintext_auth := trino_allow_plaintext_auth c; Config.auth := Config.auth c;
     allow_insecure_listener := allow_insecure_listener c; max_connections := max_connections c |}.

(** The addresses of the tests: literal ones parse, [localhost] resolves to the
    loopback addresses, other names do not resolve. *)
#[local] Instance test_net : NetEnv :=
  {| parse_socket_addr a :=
       if a ≟ "127.0.0.1:5432" then Some (V4 127 0 0 1)
       else if a ≟ "127.0.0.2:5432" then Some (V4 127 0 0 2)
       else if a ≟ "0.0.0.0:5432" then Some (V4 0 0 0 0)
       else if a ≟ "10.20.30.40:5432" then Some (V4 10 20 30 40)
       else if a ≟ "[::1]:5432" then Some (V6 [0; 0; 0; 0; 0; 0; 0; 1]%Z)
       else if a ≟ "[::]:5432" then Some (V6 [0; 0; 0; 0; 0; 0; 0; 0]%Z) else None;
     to_socket_addrs a :=
       if a ≟ "localhost:5432" then Some [V6 [0; 0; 0; 0; 0; 0; 0; 1]%Z; V4 127 0 0 1] else None |}.

Definition classified (c : Config) (p : AuthPosture) : bool :=
  match snd (classify c) with Ok q => p ≟ q | Err _ => false end.

Definition refused (c : Config) (says : list string) : bool :=
  match snd (classify c) with
  | Err e => forallb (fun s => contains s (policy_message e)) says
  | Ok _ => false
  end.

Definition posture_tests : Suite :=
  [ ("auth_disabled_on_loopback_is_ok",
     classified (cfg false "127.0.0.1:5432" false) DisabledLoopback
     && classified (cfg false "[::1]:5432" false) DisabledLoopback);
    ("auth_disabled_on_non_loopback_is_refused_without_opt_in",
     refused (cfg false "0.0.0.0:5432" false) ["--allow-insecure-listener"; "0.0.0.0:5432"]);
    ("auth_disabled_on_non_loopback_passes_with_opt_in",
     classified (with_insecure_listener (cfg false "0.0.0.0:5432" false)) DisabledOpenBind);
    ("allow_insecure_listener_on_loopback_stays_disabled_loopback",
     classified (with_insecure_listener (cfg false "127.0.0.1:5432" false)) DisabledLoopback);
    ("allow_insecure_listener_with_auth_on_is_accepted_with_warning",
     classified (with_insecure_listener (cfg true "127.0.0.1:5432" true)) CleartextRequiresTls);
    ("auth_with_tls_passes_on_any_address",
     classified (cfg true "0.0.0.0:5432" true) CleartextRequiresTls
     && classified (cfg true "127.0.0.1:5432" true) CleartextRequiresTls
     && classified (cfg true "[::]:5432" true) CleartextRequiresTls);
    ("auth_without_tls_on_loopback_warns_but_passes",
     classified (cfg true "127.0.0.1:5432" false) CleartextLoopback
     && classified (cfg true "[::1]:5432" false) CleartextLoopback);
    ("auth_without_tls_on_non_canonical_loopback_passes",
     classified (cfg true "127.0.0.2:5432" false) CleartextLoopback);
    ("auth_without_tls_on_localhost_hostname_passes",
     classified (cfg true "localhost:5432" false) CleartextLoopback);
    ("auth_without_tls_on_non_loopback_is_refused",
     refused (cfg true "0.0.0.0:5432" false) ["requires TLS"; "0.0.0.0:5432"]);
    ("auth_without_tls_on_public_ip_is_refused",
     refused (cfg true "10.20.30.40:5432" false) ["requires TLS"]);
    ("unparseable_listen_addr_with_auth_no_tls_surfaces_resolve_error",
     refused (cfg true "not.a.real.host.invalid:5432" false) ["invalid --listen-addr"]);
    ("asymmetric_tls_flags_are_treated_as_no_tls",
     refused (with_cert_only (cfg true "0.0.0.0:5432" false)) []);
    ("auth_disabled_with_unparseable_addr_surfaces_error",
     refused (cfg false "garbage" false) ["invalid --listen-addr"]) ].

Definition trino_accepts (c : Config) : bool :=
  match snd (validate_trino_posture c) with Ok _ => true | Err _ => false end.

Definition trino_posture_tests : Suite :=
  [ ("trino_posture_default_https_is_ok", trino_accepts (cfg true "127.0.0.1:5432" false));
    ("trino_posture_auth_over_http_without_opt_in_is_refused",
     match snd (validate_trino_posture (with_trino false false false (cfg true "127.0.0.1:5432" false))) with
     | Err e => contains "--trino-ssl" (policy_message e)
                && contains "--trino-allow-plaintext-auth" (policy_message e)
     | Ok _ => false
     end);
    ("trino_posture_auth_over_http_with_opt_in_passes",
     trino_accepts (with_trino false false true (cfg true "127.0.0.1:5432" false)));
    ("trino_posture_tls_no_verify_with_https_passes",
     trino_accepts (with_trino true true false (cfg false "127.0.0.1:5432" false)));
    ("trino_posture_tls_no_verify_without_ssl_warns_but_passes",
     trino_accepts (with_trino false true false (cfg false "127.0.0.1:5432" false)));
    ("trino_posture_plaintext_auth_with_https_warns_but_passes",
     trino_accepts (with_trino true false true (cfg true "127.0.0.1:5432" true)));
    ("trino_posture_plaintext_auth_without_auth_warns_but_passes",
     trino_accepts (with_trino false false true (cfg false "127.0.0.1:5432" false))) ].

(** ** catalog/ *)

Definition pg_class_tests : Suite :=
  [ ("table_oid_is_deterministic", (table_oid "public" "users" =? table_oid "public" "users")%Z);
    ("table_oid_differs_for_different_tables",
     negb (table_oid "public" "users" =? table_oid "public" "orders")%Z);
    ("table_oid_differs_across_schemas",
     negb (table_oid "public" "users" =? table_oid "sales" "users")%Z);
    ("table_oid_above_base", (BASE_TABLE_OID <=? table_oid "public" "users")%Z);
    ("namespace_oid_public", (namespace_oid "public" =? PUBLIC_NAMESPACE_OID)%Z);
    ("namespace_oid_deterministic", (namespace_oid "sales" =? namespace_oid "sales")%Z);
    ("namespace_oid_differs", negb (namespace_oid "sales" =? namespace_oid "marketing")%Z);
    ("relkind_base_table", relkind "BASE TABLE" ≟ "r");
    ("relkind_view", relkind "VIEW" ≟ "v");
    ("relkind_default", relkind "MATERIALIZED VIEW" ≟ "r") ].

(** [resp.unwrap()] has exactly one response. *)
Definition one_response (r : PgWireResult (list Response)) : bool :=
  match r with Ok [_] => true | _ => false end.

Definition pg_type_tests : Suite :=
  [ ("type_loading_returns_correct_row_count",
     one_response respond_type_loading
     && (length BASE_TYPES + length PSEUDO_TYPES + length ARRAY_TYPES =? 47)%nat);
    ("base_types_before_arrays",
     (typname <$> head BASE_TYPES ≟ Some "bool") && (typname <$> head PSEUDO_TYPES ≟ Some "unknown")
     && (typname <$> head ARRAY_TYPES ≟ Some "_json")) ].

(** The oid of a table in a row of [pg_class] and in one of [pg_attribute]. *)
Definition class_oid (schema_name table_name : string) : option (option string) :=
  head (pg_class_row [Str schema_name; Str table_name; Str "BASE TABLE"]).

#[local] Instance some_oids : TypeOids := {| type_oid _ := 25%Z |}.

Definition attr_oid (schema_name table_name : string) : option (option string) :=
  head (pg_attribute_row [Str schema_name; Str table_name; Str "c"; json_int 1; Str "YES"; Str "integer"]).

Definition pg_attribute_tests : Suite :=
  [ ("attrelid_matches_pg_class_oid",
     bool_decide (is_Some (class_oid "public" "orders")) && (class_oid "public" "orders" ≟ attr_oid "public" "orders")) ].

Definition stub_tests : Suite :=
  [ ("pg_namespace_returns_three_rows", one_response respond_pg_namespace);
    ("empty_stubs_return_ok",
     one_response empty_composite_fields && one_response empty_enum_labels && one_response empty_pg_range) ].

(** ** session.rs, cancel.rs, trino_stream.rs *)

(** A Trino that must not be called. *)
#[local] Instance unreachable_trino : TrinoApi bool :=
  {| client_build _ := Ok tt;
     trino_get _ _ _ := (Err "called", true);
     trino_get_next _ _ _ := (Err "called", true);
     trino_get_all _ _ _ := (Err "called", true);
     trino_cancel _ _ _ := (Err "called", true) |}.

Definition test_client : TrinoClient := mk_trino_client "u" "h" 8080 "c" "s" false false None false.
Definition test_world : World bool := mk_world false [] [] 1 ∅ ∅ 0.

Definition registered (pid : Z) (secret : SecretKey) (w : World bool) : World bool :=
  snd (register_cancel pid secret test_client w).

Definition session_tests : Suite :=
  [ ("cancel_registry_lifecycle",
     let pid := 900000%Z in
     let secret := I32 pid in
     let w1 := registered pid secret test_world in
     let w2 := snd (unregister_cancel pid secret w1) in
     bool_decide (is_Some (lookup_cancel pid secret w1)) && (lookup_cancel pid secret w2 ≟ None)) ].

(** The request completes and Trino was not called. *)
Definition cancel_is_noop (pid : Z) (secret : SecretKey) (w : World bool) : bool :=
  match run (on_cancel_request pid secret) w with
  | Some (Ok tt, w') => negb (srv w') && (cancelled w' ≟ [])
  | _ => false
  end.

Definition cancel_tests : Suite :=
  [ ("cancel_for_unknown_keypair_is_a_noop", cancel_is_noop (-1) (I32 0) test_world);
    ("cancel_for_idle_connection_is_a_noop",
     cancel_is_noop (-2147483648 + 7) (I32 424242) (registered (-2147483648 + 7) (I32 424242) test_world)) ].

Definition two_columns : list TrinoColumn := [mk_trino_column "id" "integer"; mk_trino_column "name" "varchar"].

Definition stream_tests : Suite :=
  [ ("set_active_query_id_writes_and_clears",
     let w1 := snd (set_active_query_id (Some 0%nat) (Some "q-1") test_world) in
     let w2 := snd (set_active_query_id (Some 0%nat) None w1) in
     (slot_value w1 0 ≟ Some "q-1") && (slot_value w2 0 ≟ None));
    ("set_active_query_id_with_no_slot_is_a_noop",
     (slots (snd (set_active_query_id None (Some "ignored") test_world)) ≟ ∅)
     && (slots (snd (set_active_query_id None None test_world)) ≟ ∅));
    ("build_pg_schema_maps_columns",
     map (fun f => (field_name f, datatype f)) (build_pg_schema two_columns None)
     ≟ [("id", INT4); ("name", VARCHAR)]);
    ("encode_row_with_values",
     negb (is_err (encode_row [json_int 42; Str "alice"] two_columns (build_pg_schema two_columns None))));
    ("encode_row_with_null",
     let columns := [mk_trino_column "val" "varchar"] in
     negb (is_err (encode_row [Null] columns (build_pg_schema columns None))));
    ("trino_column_from_model_column",
     let tc := from_column (mk_column "age" "bigint") in
     (tc_name tc ≟ "age") && (trino_type tc ≟ "bigint")) ].

(** ** main.rs, server.rs *)

(** The tasks of the tests: ending after twenty milliseconds, or after a minute
    unless they are aborted. *)
Definition drain_tests : Suite :=
  [ ("drain_returns_immediately_when_empty", (drained_at (drain [] (from_secs 60) [] []) <? from_millis 100)%Z);
    ("drain_waits_for_short_tasks_to_finish",
     let sched := map (fun t => (from_millis 20, (t, TaskOk))) [0; 1; 2]%nat in
     let d := drain [0; 1; 2]%nat (from_secs 5) sched [] in
     (aborted d ≟ []) && (drained_at d =? from_millis 20)%Z);
    ("drain_aborts_long_tasks_after_timeout",
     let sched := map (fun t => (from_secs 60, (t, TaskOk))) [0; 1]%nat in
     let unwinding := map (fun t => (from_millis 50, (t, TaskCancelled))) [0; 1]%nat in
     let d := drain [0; 1]%nat (from_millis 50) sched unwinding in
     (drained_at d <? from_secs 2)%Z && (aborted d ≟ [0; 1]%nat) && (abandoned d ≟ []));
    ("drain_timeout_parser_handles_inputs",
     (parse_drain_timeout None =? DEFAULT_SHUTDOWN_DRAIN_TIMEOUT)%Z
     && (parse_drain_timeout (Some "not-a-number") =? DEFAULT_SHUTDOWN_DRAIN_TIMEOUT)%Z
     && (parse_drain_timeout (Some "0") =? 0)%Z && (parse_drain_timeout (Some "60") =? 60)%Z) ].

(** A connection comes in, its task ends and becomes joinable. *)
Definition short_connection (s : Server) : Server :=
  let s1 := select_step false Socket (select_step false NoConnection s) in
  match last (running s1) with
  | Some t => task_joinable (task_exit t TaskOk s1)
  | None => s1
  end.

Definition server_tests : Suite :=
  [ ("closed_connections_are_not_retained",
     let s := Nat.iter 50 short_connection (serve_init 256) in
     (length (tracked (select_step true NoConnection (select_step false NoConnection s))) =? 0)%nat
     && (next_task s =? 50)%nat);
    ("semaphore_caps_concurrent_permits",
     let s2 := select_step false Socket (select_step false Socket (serve_init 2)) in
     (rejected s2 =? 0)%nat && (rejected (select_step false Socket s2) =? 1)%nat
     && (rejected (select_step false Socket (task_exit 0 TaskOk s2)) =? 0)%nat) ].

(** ** tls.rs *)

(** The files of the tests: absent, without any PEM section, or the certificates
    and keys of generated pairs, each known by the number of its pair. *)
Inductive PemItem := CertSection (pair : nat) | KeySection (pair : nat).

Definition certificate_of (s : PemItem) : list (result string nat) :=
  match s with CertSection n => [Ok n] | KeySection _ => [] end.

Definition key_of (s : PemItem) : list nat :=
  match s with KeySection n => [n] | CertSection _ => [] end.

(** A library that reads such files and accepts a key that belongs to the first
    certificate. *)
Definition test_pem (files : string -> option (list PemItem)) : TlsLib (list nat * nat) :=
  {| CertificateDer := nat;
     PrivateKeyDer := nat;
     pem_file_iter path := let? sections := ok_or (files path) "No such file or directory" in Ok (concat (map certificate_of sections));
     key_from_pem_file path :=
       let? sections := ok_or (files path) "No such file or directory" in
       ok_or (head (concat (map key_of sections))) "no items found";
     safe_default_protocol_versions := Ok tt;
     with_single_cert certs key :=
       if head certs ≟ Some key then Ok (certs, key) else Err "keys may not be consistent: KeyMismatch" |}.

(** [build_acceptor] on a certificate and a key file with the given content. *)
Definition acceptor_for (cert key : option (list PemItem)) : result AnyhowError (list nat * nat) :=
  @build_acceptor _ (test_pem (fun path => if path ≟ "cert.pem" then cert else key)) "cert.pem" "key.pem".

(** [err_msg] of the result contains one of the texts. *)
Definition fails_with (r : result AnyhowError (list nat * nat)) (texts : list string) : bool :=
  match r with
  | Ok _ => false
  | Err e => existsb (fun t => contains t (display_chain e)) texts
  end.

Definition tls_tests : Suite :=
  [ ("build_acceptor_succeeds_with_valid_self_signed_pair",
     is_ok (acceptor_for (Some [CertSection 1]) (Some [KeySection 1])));
    ("build_acceptor_rejects_missing_cert_file", fails_with (acceptor_for None None) ["certificate"]);
    ("build_acceptor_rejects_empty_cert_file",
     fails_with (acceptor_for (Some []) (Some [])) ["no PEM certificates"]);
    ("build_acceptor_rejects_garbage_cert", fails_with (acceptor_for (Some []) (Some [])) ["PEM"; "certificate"]);
    ("build_acceptor_rejects_mismatched_cert_and_key",
     fails_with (acceptor_for (Some [CertSection 1]) (Some [KeySection 2])) ["TLS keypair invalid"]) ].

(** ** All of them *)

Definition value_suites : list Suite :=
  [ scalar_type_tests; parametric_type_tests; nested_type_tests; encode_value_tests; encode_overflow_tests;
    binary_scalar_tests; binary_timestamp_tests; binary_timestamptz_tests; binary_layout_tests; text_form_tests; fail_closed_tests ].

Definition process_suites : list Suite :=
  [ sqlstate_tests; sanitise_tests; posture_tests; trino_posture_tests; pg_class_tests; pg_type_tests;
    pg_attribute_tests; stub_tests;
    session_tests; cancel_tests; stream_tests; drain_tests; server_tests; tls_tests ].

(** The model passes the repository's own tests of value encoding, type names
    and temporal values, among them the byte layouts and texts recorded from
    PostgreSQL itself, in the reference calendar. *)
Theorem value_tests_pass : forallb passes value_suites = true.
Proof. vm_compute. reflexivity. Qed.

(** The model passes the repository's own tests of error messages, the
    startup policy, catalog identifiers, sessions and cancellation, streaming,
    the accept loop, shutdown and the TLS acceptor. *)
Theorem process_tests_pass : forallb passes process_suites = true.
Proof. vm_compute. reflexivity. Qed.
