(* ===== verification/ConformanceSql.v ===== *)
(** * The repository's tests on SQL, in the model

    The unit tests of query inspection, catalog dispatch, interception,
    information_schema, statement splitting and rewriting, run from the text of
    their queries with the parser and printer of [SqlText]. *)

From S2P Require Import Prelude RustStr PgWire Trino RustFloat Values Calendar Response Sql SqlText.
From S2P Require Import QueryInspection Catalog InfoSchema Config World Session Startup Intercept.
From S2P Require Import TypeMap TrinoStream Rewrite Pipeline Conformance.

Local Open Scope string_scope.
Local Open Scope rust_scope.

#[local] Existing Instance ascii_only_case.
#[local] Existing Instance calendar.
#[local] Existing Instance decimals_96.
#[local] Existing Instance send_wire.
#[local] Existing Instance sql_text.

(** [ParsedQuery::new] of a query of the tests. *)
Definition pq (sql : string) : ParsedQuery := parsed_query_new sql.

(** Each of the queries is parsed: a test that expects a predicate to fail does
    not pass because the query was rejected. *)
Definition parses (sql : string) : bool :=
  match parse_sql sql with Some (_ :: _) => true | _ => false end.

(** ** query_inspection.rs *)

Definition references_tests : Suite :=
  [ ("references_table_matches_unqualified",
     let q := pq "SELECT * FROM pg_type" in
     references_table q "pg_type" && references_table q "PG_TYPE" && negb (references_table q "pg_class"));
    ("references_table_matches_qualified",
     references_table (pq "SELECT * FROM pg_catalog.pg_type t") "pg_type");
    ("references_table_matches_join",
     let q := pq "SELECT a.attname FROM pg_attribute a JOIN pg_type t ON true" in
     references_table q "pg_attribute" && references_table q "pg_type");
    ("references_table_ignores_string_literals",
     let sql := "SELECT * FROM users WHERE notes LIKE '%PG_TYPE%'" in
     parses sql && negb (references_table (pq sql) "pg_type"));
    ("references_table_ignores_column_names",
     let sql := "SELECT pg_type FROM users" in parses sql && negb (references_table (pq sql) "pg_type"));
    ("references_table_information_schema",
     let q := pq "SELECT * FROM INFORMATION_SCHEMA.columns WHERE TABLE_SCHEMA = 'sf1'" in
     references_table q "columns" && negb (references_table q "tables"));
    ("references_table_in_schema_matches_qualified",
     references_table_in_schema (pq "SELECT * FROM information_schema.columns") "information_schema" "columns");
    ("references_table_in_schema_matches_unqualified",
     references_table_in_schema (pq "SELECT * FROM columns") "information_schema" "columns");
    ("references_table_in_schema_rejects_wrong_schema",
     let sql := "SELECT * FROM mycustom.columns" in
     parses sql && negb (references_table_in_schema (pq sql) "information_schema" "columns"));
    ("references_table_in_schema_matches_three_part_name",
     references_table_in_schema (pq "SELECT * FROM trino.information_schema.columns")
       "information_schema" "columns") ].

Definition calls_tests : Suite :=
  [ ("calls_function_with_parens", calls_function (pq "SELECT version()") "version");
    ("calls_function_case_insensitive", calls_function (pq "SELECT VERSION()") "version");
    ("calls_function_qualified_name", calls_function (pq "SELECT pg_catalog.version()") "version");
    ("calls_function_ignores_string_literals",
     let sql := "SELECT 'version()' AS x" in parses sql && negb (calls_function (pq sql) "version"));
    ("calls_function_requires_parens",
     parses "SELECT current_schema"
     && negb (calls_function (pq "SELECT current_schema") "current_schema")
     && calls_function (pq "SELECT current_schema()") "current_schema");
    ("calls_function_or_keyword_handles_niladic",
     calls_function_or_keyword (pq "SELECT current_schema") "current_schema"
     && calls_function_or_keyword (pq "SELECT current_schema()") "current_schema");
    ("calls_function_or_keyword_matches_column_reference",
     calls_function_or_keyword (pq "SELECT current_schema FROM releases") "current_schema");
    ("function_string_arg_extracts_first_literal",
     function_string_arg (pq "SELECT current_setting('server_version_num')") "current_setting"
     ≟ Some "server_version_num");
    ("function_string_arg_none_for_non_literal",
     let sql := "SELECT current_setting(name)" in
     parses sql && (function_string_arg (pq sql) "current_setting" ≟ None)) ].

(** A query that parses and is not a bare scalar select. *)
Definition not_bare (sql : string) : bool := parses sql && negb (is_bare_scalar_select (pq sql)).

Definition select_tests : Suite :=
  [ ("is_bare_scalar_select_simple_function",
     forallb (fun sql => is_bare_scalar_select (pq sql))
       [ "SELECT version()"; "SELECT current_schema"; "SELECT current_setting('x')"; "SELECT version() AS v" ]);
    ("is_bare_scalar_select_rejects_from", not_bare "SELECT version() FROM t");
    ("is_bare_scalar_select_rejects_where", not_bare "SELECT 1 FROM t WHERE current_schema = 'public'");
    ("is_bare_scalar_select_rejects_multiple_projections",
     not_bare "SELECT current_setting('a'), current_setting('b')");
    ("is_bare_scalar_select_rejects_cte", not_bare "WITH t AS (SELECT 1) SELECT version()");
    ("is_bare_scalar_select_rejects_multi_statement", not_bare "SELECT version(); SELECT 1");
    ("select_column_names_unaliased", select_column_names (pq "SELECT a, b.c FROM t") ≟ ["a"; "c"]);
    ("select_column_names_aliased",
     select_column_names (pq "SELECT 1 AS x, foo() AS y FROM t") ≟ ["x"; "y"]);
    ("select_column_names_complex_expressions_use_question_mark",
     select_column_names (pq "SELECT 1 + 2 FROM t") ≟ ["?column?"]) ].

(** ** catalog/mod.rs *)

Definition dispatched (sql : string) : bool :=
  match handle_catalog_query (pq sql) with Some _ => true | None => false end.

Definition not_dispatched (sql : string) : bool := parses sql && negb (dispatched sql).

Definition one_answer (o : option (PgWireResult (list Response))) : bool :=
  match o with Some r => one_response r | None => false end.

Definition catalog_tests : Suite :=
  [ ("pg_type_detected_from_clause", dispatched "SELECT * FROM pg_type WHERE typname = 'int4'");
    ("pg_type_detected_join_clause",
     dispatched ("SELECT t.oid, t.typname FROM pg_catalog.pg_type t "
                 ++ "JOIN pg_namespace n ON n.oid = t.typnamespace"));
    ("pg_type_case_insensitive", dispatched "select * from pg_type");
    ("composite_fields_detected",
     dispatched ("SELECT a.attname, t.typname FROM pg_attribute a "
                 ++ "JOIN pg_type t ON a.atttypid = t.oid"));
    ("pg_enum_detected", dispatched "SELECT enumlabel FROM pg_enum WHERE enumtypid = 12345");
    ("pg_range_detected", dispatched "SELECT * FROM pg_range");
    ("pg_namespace_detected", dispatched "SELECT oid, nspname FROM pg_namespace");
    ("pg_class_not_static", not_dispatched "SELECT * FROM pg_class WHERE relkind = 'r'");
    ("pg_attribute_not_static", not_dispatched "SELECT * FROM pg_attribute WHERE attrelid = 1234");
    ("regular_query_not_intercepted",
     forallb not_dispatched [ "SELECT 1"; "SELECT * FROM users"; "INSERT INTO t VALUES (1)" ]);
    ("literal_with_catalog_name_not_intercepted",
     forallb not_dispatched
       [ "SELECT * FROM users WHERE notes LIKE '%pg_type%'"; "SELECT 'pg_type' FROM users" ]);
    ("column_named_like_catalog_not_intercepted", not_dispatched "SELECT pg_type FROM my_table");
    ("pg_type_response_has_correct_row_count", one_answer (handle_catalog_query (pq "SELECT * FROM pg_type")));
    ("pg_namespace_returns_three_rows", one_answer (handle_catalog_query (pq "SELECT * FROM pg_namespace"))) ].

(** ** intercept.rs *)

(** [assert_intercepted], [assert_not_intercepted]. *)
Definition intercepted (query : string) : bool :=
  match try_intercept query (pq query) "test_catalog" "test_schema" false with
  | Some _ => true
  | None => false
  end.

Definition not_intercepted (query : string) : bool := parses query && negb (intercepted query).

Definition command_tests : Suite :=
  [ ("set_commands_intercepted",
     forallb intercepted
       [ "SET client_encoding TO 'UTF8'"; "set search_path to public"; "SET extra_float_digits = 3;" ]);
    ("transaction_commands_intercepted",
     forallb intercepted
       [ "BEGIN"; "BEGIN READ ONLY"; "START TRANSACTION"; "COMMIT"; "END"; "ROLLBACK";
         "ROLLBACK TO SAVEPOINT s1" ]);
    ("discard_deallocate_intercepted",
     forallb intercepted [ "DISCARD ALL"; "DEALLOCATE pstmt1"; "CLOSE ALL" ]) ].

(** The value a [SHOW] is answered with. *)
Definition shown (query : string) : option string :=
  match try_intercept query (pq query) "test_catalog" "test_schema" false with
  | Some (Ok [RQuery _ (Ready [Ok [Some v]])]) => Some v
  | _ => None
  end.

Definition show_tests : Suite :=
  [ ("show_returns_correct_values",
     forallb (fun '(query, expected) => shown query ≟ Some expected)
       [ ("SHOW server_version", "16.6"); ("SHOW server_version_num", "160006"); ("SHOW server_encoding", "UTF8");
         ("SHOW client_encoding", "UTF8"); ("SHOW standard_conforming_strings", "on");
         ("SHOW max_identifier_length", "63"); ("SHOW transaction_isolation", "read committed");
         ("SHOW datestyle", "ISO, MDY"); ("SHOW timezone", "UTC"); ("SHOW integer_datetimes", "on");
         ("SHOW intervalstyle", "postgres"); ("SHOW is_superuser", "on"); ("SHOW unknown_param", "on") ]) ].

Definition ssl_probe : string := "SELECT ssl FROM pg_stat_ssl WHERE pid = pg_backend_pid()".

Definition probe_tests : Suite :=
  [ ("server_functions_intercepted",
     forallb intercepted
       [ "SELECT version()"; "SELECT VERSION()"; "SELECT current_database()"; "SELECT current_schema";
         "SELECT pg_is_in_recovery()"; "SELECT current_setting('server_version_num')";
         "SELECT current_setting('server_version')" ]);
    ("pg_stat_ssl_probe_intercepted", forallb intercepted [ ssl_probe; "select ssl from pg_stat_ssl" ]);
    ("pg_stat_ssl_reports_tls_state_as_bool",
     forallb (fun secure =>
       match try_intercept ssl_probe (pq ssl_probe) "cat" "sch" secure with
       | Some (Ok [RQuery [f] _]) => (field_name f ≟ "ssl") && (datatype f ≟ BOOL)
       | _ => false
       end) [true; false]);
    ("pg_stat_ssl_in_literal_not_intercepted", not_intercepted "SELECT 'pg_stat_ssl' AS sentinel") ].

Definition forwarded_tests : Suite :=
  [ ("regular_queries_not_intercepted",
     forallb not_intercepted
       [ "SELECT 1"; "SELECT * FROM users"; "INSERT INTO t VALUES (1)"; "CREATE TABLE t (id INT)" ]);
    ("powerbi_index_query_column_names_are_unqualified",
     select_column_names (pq
       ("select i.CONSTRAINT_SCHEMA || '_' || i.CONSTRAINT_NAME as INDEX_NAME, "
        ++ "ii.COLUMN_NAME, ii.ORDINAL_POSITION, "
        ++ "case when i.CONSTRAINT_TYPE = 'PRIMARY KEY' then 'Y' else 'N' end as PRIMARY_KEY "
        ++ "from INFORMATION_SCHEMA.table_constraints i "
        ++ "inner join INFORMATION_SCHEMA.key_column_usage ii "
        ++ "on i.CONSTRAINT_SCHEMA = ii.CONSTRAINT_SCHEMA "
        ++ "where i.TABLE_SCHEMA = 'sf1' and i.TABLE_NAME = 'nation'"))
     ≟ ["INDEX_NAME"; "COLUMN_NAME"; "ORDINAL_POSITION"; "PRIMARY_KEY"]);
    ("user_query_with_pg_type_in_literal_not_intercepted",
     forallb not_intercepted
       [ "SELECT * FROM customers WHERE notes LIKE '%pg_type%'"; "SELECT 'pg_type' AS sentinel" ]);
    ("user_query_with_version_column_not_intercepted", not_intercepted "SELECT version FROM releases") ].

(** ** info_schema.rs *)

Definition powerbi_query (columns where_clause : string) : string :=
  "select COLUMN_NAME, " ++ columns
  ++ "case when (data_type like '%unsigned%') then DATA_TYPE || ' unsigned' else DATA_TYPE end as DATA_TYPE "
  ++ "from INFORMATION_SCHEMA.columns " ++ where_clause.

(** A comment with Turkish and German letters. *)
Definition turkish : string :=
  "/* ba" ++ bytes_string [197; 159]%Z ++ "l" ++ bytes_string [196; 177]%Z ++ "k " ++ bytes_string [196; 177]%Z
  ++ " " ++ bytes_string [195; 159]%Z ++ " */".

Definition spliced (query : string) (needles : list string) : bool :=
  match rewrite_info_schema_columns query (pq query) with
  | Some rewritten => forallb (fun n => contains n rewritten) needles
  | None => false
  end.

Definition info_schema_tests : Suite :=
  [ ("rewrite_powerbi_pattern",
     let query := powerbi_query "ORDINAL_POSITION, IS_NULLABLE, "
                    ("where TABLE_SCHEMA = 'sf1' and TABLE_NAME = 'orders' "
                     ++ "order by TABLE_SCHEMA, TABLE_NAME, ORDINAL_POSITION") in
     spliced query [ "lower(data_type)"; "TABLE_SCHEMA = 'sf1'"; "AS DATA_TYPE" ]
     && match rewrite_info_schema_columns query (pq query) with
        | Some rewritten => contains "FROM INFORMATION_SCHEMA.COLUMNS" (to_uppercase rewritten)
        | None => false
        end);
    ("does_not_rewrite_other_queries",
     forallb (fun q => parses q && (rewrite_info_schema_columns q (pq q) ≟ None))
       [ "SELECT * FROM INFORMATION_SCHEMA.tables WHERE TABLE_SCHEMA = 'sf1'"; "SELECT * FROM pg_type"; "SELECT 1" ]);
    ("skips_other_schemas",
     let q := "SELECT * FROM mycustom.columns" in parses q && (rewrite_info_schema_columns q (pq q) ≟ None));
    ("handles_non_ascii_literals",
     spliced (powerbi_query (turkish ++ " ") "where TABLE_NAME = 'orders'") [turkish; "lower(data_type)"; "AS DATA_TYPE"]) ].

(** ** query_pipeline.rs *)

Definition pieces (sql : string) : nat := length (split_statements sql).

Definition split_tests : Suite :=
  [ ("split_statements_preserves_single_select", (pieces "SELECT 1" =? 1)%nat);
    ("split_statements_separates_two_selects",
     match split_statements "SELECT 1; SELECT 2" with
     | [a; b] => contains "SELECT" (to_uppercase a) && contains "SELECT" (to_uppercase b)
     | _ => false
     end);
    ("split_statements_separates_begin_select_commit", (pieces "BEGIN; SELECT 1; COMMIT" =? 3)%nat);
    ("split_statements_does_not_split_on_semicolon_inside_literal",
     match split_statements "SET application_name = 'a; b; c'" with
     | [a] => contains "a; b; c" a
     | _ => false
     end);
    ("split_statements_falls_back_on_parse_failure", (pieces "LISTEN my_channel" =? 1)%nat);
    ("split_statements_handles_empty_input", (pieces "" =? 1)%nat);
    ("split_statements_separates_multiple_set_commands", (pieces "SET a = '1'; SET b = '2'" =? 2)%nat);
    ("split_statements_handles_trailing_semicolon", (pieces "SELECT 1;" =? 1)%nat);
    ("split_statements_handles_mixed_statement_types",
     match split_statements "CREATE TABLE foo (id INT); INSERT INTO foo VALUES (1); SELECT * FROM foo" with
     | [a; b; c] =>
       contains "CREATE" (to_uppercase a) && contains "INSERT" (to_uppercase b) && contains "SELECT" (to_uppercase c)
     | _ => false
     end) ].

(** ** rewrite/mod.rs *)

(** [Case] of the tests. *)
Record RewriteCase := mk_case {
  case_input : string;
  must_contain : list string;
  must_not_contain : list string
}.

(** The needle occurs in the result, whatever its case. *)
Definition has_needle (result needle : string) : bool :=
  contains (to_uppercase needle) (to_uppercase result) || contains (to_lowercase needle) (to_lowercase result).

Definition case_holds (c : RewriteCase) : bool :=
  let result := rewrite_sql (case_input c) in
  parses (case_input c) && forallb (has_needle result) (must_contain c)
  && forallb (fun needle => negb (has_needle result needle)) (must_not_contain c).

Definition rewrite_cases : Suite :=
  map (fun '(name, c) => (name, case_holds c))
  [ ("double-colon cast", mk_case "SELECT $1::text" ["CAST"] ["::"]);
    ("type-name normalisation: text", mk_case "SELECT CAST(x AS text) FROM t" ["VARCHAR"] []);
    ("int4 cast normalises to INTEGER", mk_case "SELECT $1::int4" ["INTEGER"] ["::"]);
    ("ILIKE", mk_case "SELECT * FROM t WHERE name ILIKE '%foo%'" ["LOWER"] ["ILIKE"]);
    ("string_agg", mk_case "SELECT string_agg(name, ',') FROM t" ["listagg"] []);
    ("single-arg log", mk_case "SELECT log(x) FROM t" ["log10"] []);
    ("two-arg log preserved", mk_case "SELECT log(2, x) FROM t" [] ["log10"]);
    ("trunc", mk_case "SELECT trunc(x) FROM t" ["truncate"] []);
    ("clean SQL passes through", mk_case "SELECT id, name FROM t WHERE id = 1" ["SELECT"; "FROM"] []);
    ("LIMIT n OFFSET m",
     mk_case "SELECT name FROM t ORDER BY name LIMIT 2 OFFSET 1" ["OFFSET 1"; "FETCH FIRST 2"] ["LIMIT"]);
    ("LIMIT only is left unchanged", mk_case "SELECT name FROM t LIMIT 5" ["LIMIT 5"] ["FETCH"; "OFFSET"]);
    ("OFFSET only is left unchanged", mk_case "SELECT name FROM t OFFSET 3" ["OFFSET 3"] ["FETCH"; "LIMIT"]);
    ("LIMIT ALL OFFSET m",
     mk_case "SELECT name FROM t LIMIT ALL OFFSET 4" ["OFFSET 4"] ["FETCH"; "LIMIT"; "ALL"]);
    ("LIMIT 0 OFFSET m",
     mk_case "SELECT name FROM t ORDER BY name LIMIT 0 OFFSET 1" ["LIMIT 0"] ["FETCH"; "OFFSET"]);
    ("LIMIT 0 without OFFSET is left unchanged",
     mk_case "SELECT name FROM t LIMIT 0" ["LIMIT 0"] ["FETCH"; "OFFSET"]);
    ("subquery LIMIT+OFFSET is reordered too",
     mk_case "SELECT * FROM (SELECT name FROM t ORDER BY name LIMIT 2 OFFSET 1) x"
       ["OFFSET 1"; "FETCH FIRST 2"] ["LIMIT"]) ].

Definition rewrite_tests : Suite :=
  [ ("unparseable_sql_passes_through",
     rewrite_sql "SET extra_float_digits = 3" ≟ "SET extra_float_digits = 3");
    ("limit_offset_emits_offset_before_fetch",
     let result := rewrite_sql "SELECT name FROM t ORDER BY name LIMIT 2 OFFSET 1" in
     match find "OFFSET" result, find "FETCH" result with
     | Some offset_at, Some fetch_at => (offset_at <? fetch_at)%nat
     | _, _ => false
     end);
    ("show_passes_through_non_empty", negb (rewrite_sql "SHOW server_version" ≟ "")) ].

Definition sql_suites : list Suite :=
  [ references_tests; calls_tests; select_tests; catalog_tests; command_tests; show_tests; probe_tests;
    forwarded_tests; info_schema_tests; split_tests; rewrite_cases; rewrite_tests ].

(** The model passes the repository's own tests of query inspection, catalog
    dispatch, interception, information_schema, statement splitting and
    rewriting, run from the text of their queries. *)
Theorem sql_tests_pass : forallb passes sql_suites = true.
Proof. vm_compute. reflexivity. Qed.

(** The model passes every unit test of the repository that exercises its own
    code: type names, value encoding and temporal values, with the byte layouts
    and texts recorded from PostgreSQL itself; error messages, the startup
    policy, catalog identifiers, sessions, cancellation, streaming, the accept
    loop, shutdown and TLS; and, from the text of their queries, inspection,
    catalog dispatch, interception, information_schema, splitting and
    rewriting. *)
Theorem repository_tests_pass : forallb passes (value_suites ++ process_suites ++ sql_suites)%list = true.
Proof. by rewrite !forallb_app, value_tests_pass, process_tests_pass, sql_tests_pass. Qed.
